(** * hashdb: the block-hash stores, the set-algebra commands and the JSON import

    A shallow embedding of
    - [lmdb_hash_manager_t] (prefix/suffix hash store): [masks], [hash_pair],
      [encode_data], [decode_data], [insert], [find];
    - [lmdb_hash_manager_t] (hash-data store): [insert];
    - [commands_t]: [intersect_optimized], [intersect], [add_multiple];
    - [import_json_t]: [read_source_data], [read_block_hash_data];
    followed by the properties proved about them.

    A [std::string] is a [string] (a sequence of 8-bit characters), a C++
    [int] or [uint32_t] is a [Z] with its conversions written out, an
    unsigned quantity that is only compared and divided is an [N], and a
    failed [assert(0)], an [exit(1)] or a write past the end of a buffer is
    [None]. *)

From Stdlib Require Import ZArith NArith List Ascii String Bool Sorted Lia.
From stdpp Require Import gmap strings list.

Local Open Scope string_scope.

(** ** The string codec of [lmdb_helper] *)

Module Codec.

(** [static_cast<uint8_t>]: the low eight bits. *)
Definition uint8 (n : N) : ascii := ascii_of_N (n mod 256).

(** Modelled from the spec: [lmdb_helper::encode_uint64_t] is not among the
    sources.  "Variable-length unsigned integer: unsigned LEB-style, 7 data
    bits per byte, high bit = continuation."  [fuel] bounds the number of
    continuation bytes. *)
Fixpoint encode_varint (fuel : nat) (value : N) : string :=
  match fuel with
  | O => String (uint8 value) ""
  | S fuel' =>
      if (value <? 128)%N then String (uint8 value) ""
      else String (uint8 (value mod 128 + 128))
                  (encode_varint fuel' (value / 128))
  end.

Definition encode_uint64_t (value : N) : string :=
  encode_varint (N.to_nat (N.log2 value)) value.

(** Modelled from the spec: [lmdb_helper::decode_uint64_t], the inverse
    reading; [None] when the bytes run out before a byte without the
    continuation bit. *)
Fixpoint decode_uint64_t (p : string) : option (N * string) :=
  match p with
  | "" => None
  | String b rest =>
      let n := N_of_ascii b in
      if (n <? 128)%N then Some (n, rest)
      else match decode_uint64_t rest with
           | Some (v, rest') => Some ((n - 128) + 128 * v, rest')%N
           | None => None
           end
  end.

(** Modelled from the spec: [lmdb_helper::encode_string].  "String: varint
    length L, then L raw bytes." *)
Definition encode_string (text : string) : string :=
  encode_uint64_t (N.of_nat (String.length text)) +:+ text.

(** Modelled from the spec: [lmdb_helper::decode_string]; [None] when the
    announced length runs past the end of the buffer. *)
Definition decode_string (p : string) : option (string * string) :=
  match decode_uint64_t p with
  | None => None
  | Some (size, rest) =>
      let n := N.to_nat size in
      if (size <=? N.of_nat (String.length rest))%N
      then Some (substring 0 n rest,
                 substring n (String.length rest - n) rest)
      else None
  end.

End Codec.

(** A byte string, by the values of its bytes. *)
Definition bytes (l : list N) : string :=
  string_of_list_ascii (map ascii_of_N l).

(** ** [std::set<std::string>] *)

Module StringSet.

(** The elements in ascending order, as the iterator of the set yields them. *)
Definition t := list string.

Fixpoint insert (s : string) (strings : t) : t :=
  match strings with
  | [] => [s]
  | x :: rest =>
      match String.compare s x with
      | Lt => s :: x :: rest
      | Eq => x :: rest
      | Gt => x :: insert s rest
      end
  end.

Fixpoint find (s : string) (strings : t) : bool :=
  match strings with
  | [] => false
  | x :: rest =>
      match String.compare s x with
      | Lt => false
      | Eq => true
      | Gt => find s rest
      end
  end.

(** The strings of a list inserted one after the other. *)
Definition insert_list (l : list string) (strings : t) : t :=
  fold_left (fun a s => insert s a) l strings.

(** The representation invariant: strictly ascending. *)
Definition lt (a b : string) : Prop := String.compare a b = Lt.

Definition ascending (strings : t) : Prop := StronglySorted lt strings.

End StringSet.

(** ** The prefix/suffix hash store *)

Module HashStore.

Local Open Scope Z_scope.

Definition masks : list N :=
  [0xff; 0x80; 0xc0; 0xe0; 0xf0; 0xf8; 0xfc; 0xfe]%N.

(** The constant members of [lmdb_hash_manager_t]. *)
Record lmdb_hash_manager_t := {
  prefix_bytes : Z;   (* int *)
  prefix_mask : N;    (* uint8_t *)
  suffix_bytes : Z    (* int *)
}.

(** The counters of [lmdb_changes_t] that [insert] touches. *)
Record lmdb_changes_t := {
  hash_inserted : N;
  hash_already_present : N
}.

Definition uint32 (z : Z) : Z := z mod 2 ^ 32.

(** Conversion of a [uint32_t] to [int]. *)
Definition int_of_uint32 (z : Z) : Z :=
  if z <? 2 ^ 31 then z else z - 2 ^ 32.

(** Wrap-around of [int] arithmetic. *)
Definition int_wrap (z : Z) : Z := int_of_uint32 (uint32 z).

(** The constructor; [None] is its [assert(0)] on [prefix_bytes == 0]. *)
Definition new_lmdb_hash_manager_t
    (p_hash_prefix_bits p_hash_suffix_bytes : Z) : option lmdb_hash_manager_t :=
  let bits := uint32 p_hash_prefix_bits in
  let m := {| prefix_bytes := uint32 (bits + 7) / 8;
              prefix_mask := nth (Z.to_nat (bits mod 8)) masks 0%N;
              suffix_bytes := int_of_uint32 (uint32 p_hash_suffix_bytes) |} in
  if prefix_bytes m =? 0 then None else Some m.

(** [std::string::substr(pos, n)] for [pos <= size()]. *)
Definition substr (s : string) (pos n : Z) : string :=
  let size := Z.of_nat (String.length s) in
  substring (Z.to_nat pos) (Z.to_nat (Z.min (n mod 2 ^ 64) (size - pos))) s.

(** [s[i] &= mask] *)
Fixpoint and_at (i : nat) (mask : N) (s : string) {struct s} : string :=
  match s with
  | "" => ""
  | String c rest =>
      match i with
      | O => String (ascii_of_N (N.land (N_of_ascii c) mask)) rest
      | S i' => String c (and_at i' mask rest)
      end
  end.

(** [hash_pair]; the size of the hash is taken to fit an [int]. *)
Definition hash_pair (m : lmdb_hash_manager_t) (binary_hash : string)
  : string * string :=
  let hash_size := Z.of_nat (String.length binary_hash) in
  (* prefix string *)
  let prefix_size :=
    if hash_size >? prefix_bytes m then prefix_bytes m else hash_size in
  let prefix_string := substr binary_hash 0 prefix_size in
  (* maybe zero out some bits at the end of the prefix string *)
  let prefix_string :=
    if prefix_size =? prefix_bytes m
    then and_at (Z.to_nat (prefix_bytes m - 1)) (prefix_mask m) prefix_string
    else prefix_string in
  (* suffix string *)
  let suffix_start := int_wrap (hash_size - suffix_bytes m) in
  let suffix_start :=
    if suffix_start <? prefix_size then prefix_size else suffix_start in
  let suffix_string :=
    if suffix_start <? hash_size
    then substr binary_hash suffix_start (suffix_bytes m)
    else "" in
  (prefix_string, suffix_string).

(** [encode_data]: the strings of the set, each by [encode_string], written
    one after the other into a buffer of [strings.size() * 16] bytes.  [None]
    when the writes run past the end of that buffer. *)
Fixpoint encode_loop (strings : StringSet.t) (encoding : string) : string :=
  match strings with
  | [] => encoding
  | s :: rest => encode_loop rest (encoding +:+ Codec.encode_string s)
  end.

Definition encode_data (strings : StringSet.t) : option string :=
  let max_size := (List.length strings * 16)%nat in
  let encoding := encode_loop strings "" in
  if (String.length encoding <=? max_size)%nat then Some encoding else None.

(** The [while (p < p_stop)] loop of [decode_data] on the unread part [p].
    Every turn reads at least one byte, so that [String.length p] turns are
    enough; [fuel] is the number of turns.  The result is the set together
    with the unread part at exit; [None] when a string runs past the end of
    the encoding, which the check after the loop turns into the decode
    failure. *)
Fixpoint decode_loop (fuel : nat) (p : string) (strings : StringSet.t)
  : option (StringSet.t * string) :=
  match p with
  | "" => Some (strings, "")
  | _ =>
      match fuel with
      | O => Some (strings, p)
      | S fuel' =>
          match Codec.decode_string p with
          | None => None
          | Some (s, p') => decode_loop fuel' p' (StringSet.insert s strings)
          end
      end
  end.

(** [decode_data]; [None] is the decode failure: the pointer did not stop
    at the end of the encoding. *)
Definition decode_data (encoding : string) : option StringSet.t :=
  match decode_loop (String.length encoding) encoding [] with
  | Some (strings, "") => Some strings
  | _ => None
  end.

(** [insert]; the environment maps a key to its data.  The member
    [suffix_strings] is a scratch set, cleared before each use; it is the
    local [suffix_strings] here.  Locking and [maybe_grow] leave the
    contents alone. *)
Definition insert (m : lmdb_hash_manager_t) (binary_hash : string)
    (env : gmap string string) (changes : lmdb_changes_t)
  : option (gmap string string * lmdb_changes_t) :=
  (* require valid binary_hash *)
  if (String.length binary_hash =? 0)%nat then None else
  let pair := hash_pair m binary_hash in
  match env !! pair.1 with
  | None =>
      (* prefix and suffix are new *)
      match encode_data (StringSet.insert pair.2 []) with
      | None => None
      | Some encoding =>
          Some (<[pair.1 := encoding]> env,
                {| hash_inserted := hash_inserted changes + 1;
                   hash_already_present := hash_already_present changes |})
      end
  | Some encoding =>
      (* prefix already exists *)
      match decode_data encoding with
      | None => None
      | Some suffix_strings =>
          if StringSet.find pair.2 suffix_strings
          then Some (env,
                     {| hash_inserted := hash_inserted changes;
                        hash_already_present :=
                          hash_already_present changes + 1 |})
          else
            match encode_data (StringSet.insert pair.2 suffix_strings) with
            | None => None
            | Some encoding' =>
                Some (<[pair.1 := encoding']> env,
                      {| hash_inserted := hash_inserted changes + 1;
                         hash_already_present :=
                           hash_already_present changes |})
            end
      end
  end.

(** [find] *)
Definition find (m : lmdb_hash_manager_t) (binary_hash : string)
    (env : gmap string string) : option bool :=
  if (String.length binary_hash =? 0)%nat then None else
  let pair := hash_pair m binary_hash in
  match env !! pair.1 with
  | None => Some false
  | Some encoding =>
      match decode_data encoding with
      | None => None
      | Some suffix_strings => Some (StringSet.find pair.2 suffix_strings)
      end
  end.

(** A client that calls [insert] on each hash of a list in turn. *)
Fixpoint insert_all (m : lmdb_hash_manager_t) (hashes : list string)
    (env : gmap string string) (changes : lmdb_changes_t)
  : option (gmap string string * lmdb_changes_t) :=
  match hashes with
  | [] => Some (env, changes)
  | binary_hash :: rest =>
      match insert m binary_hash env changes with
      | None => None
      | Some (env', changes') => insert_all m rest env' changes'
      end
  end.

(** What an environment holds, in terms of (prefix, suffix) pairs: under
    every stored prefix the encoding of the ascending set of its suffixes. *)
Definition env_repr (env : gmap string string)
    (pairs : list (string * string)) : Prop :=
  forall P : string,
    match env !! P with
    | None => forall S, ~ In (P, S) pairs
    | Some encoding =>
        exists strings,
          StringSet.ascending strings /\
          encoding = encode_loop strings "" /\
          forall S, In S strings <-> In (P, S) pairs
    end.

End HashStore.

(** ** [hashdb_changes_t] *)

Module Changes.

Local Open Scope Z_scope.

(** The members of [hashdb_changes_t], all [uint32_t].  The last one,
    [hashes_not_inserted_invalid_sector_size], is not in the declaration of
    the class; it is the member that [insert] of the hash-data store
    increments. *)
Record hashdb_changes_t := {
  hashes_inserted : Z;
  hashes_not_inserted_mismatched_hash_block_size : Z;
  hashes_not_inserted_invalid_byte_alignment : Z;
  hashes_not_inserted_exceeds_max_duplicates : Z;
  hashes_not_inserted_duplicate_element : Z;
  hashes_removed : Z;
  hashes_not_removed_mismatched_hash_block_size : Z;
  hashes_not_removed_invalid_byte_alignment : Z;
  hashes_not_removed_no_hash : Z;
  hashes_not_removed_no_element : Z;
  hashes_not_inserted_invalid_sector_size : Z
}.

(** The constructor: every counter is zero. *)
Definition new_hashdb_changes_t : hashdb_changes_t :=
  {| hashes_inserted := 0;
     hashes_not_inserted_mismatched_hash_block_size := 0;
     hashes_not_inserted_invalid_byte_alignment := 0;
     hashes_not_inserted_exceeds_max_duplicates := 0;
     hashes_not_inserted_duplicate_element := 0;
     hashes_removed := 0;
     hashes_not_removed_mismatched_hash_block_size := 0;
     hashes_not_removed_invalid_byte_alignment := 0;
     hashes_not_removed_no_hash := 0;
     hashes_not_removed_no_element := 0;
     hashes_not_inserted_invalid_sector_size := 0 |}.

(** [++x] on a [uint32_t]. *)
Definition incr (x : Z) : Z := (x + 1) mod 2 ^ 32.

(** [++changes.hashes_inserted] *)
Definition incr_hashes_inserted (c : hashdb_changes_t) : hashdb_changes_t :=
  {| hashes_inserted := incr (hashes_inserted c);
     hashes_not_inserted_mismatched_hash_block_size :=
       hashes_not_inserted_mismatched_hash_block_size c;
     hashes_not_inserted_invalid_byte_alignment :=
       hashes_not_inserted_invalid_byte_alignment c;
     hashes_not_inserted_exceeds_max_duplicates :=
       hashes_not_inserted_exceeds_max_duplicates c;
     hashes_not_inserted_duplicate_element :=
       hashes_not_inserted_duplicate_element c;
     hashes_removed := hashes_removed c;
     hashes_not_removed_mismatched_hash_block_size :=
       hashes_not_removed_mismatched_hash_block_size c;
     hashes_not_removed_invalid_byte_alignment :=
       hashes_not_removed_invalid_byte_alignment c;
     hashes_not_removed_no_hash := hashes_not_removed_no_hash c;
     hashes_not_removed_no_element := hashes_not_removed_no_element c;
     hashes_not_inserted_invalid_sector_size :=
       hashes_not_inserted_invalid_sector_size c |}.

(** [++changes.hashes_not_inserted_duplicate_element] *)
Definition incr_hashes_not_inserted_duplicate_element
    (c : hashdb_changes_t) : hashdb_changes_t :=
  {| hashes_inserted := hashes_inserted c;
     hashes_not_inserted_mismatched_hash_block_size :=
       hashes_not_inserted_mismatched_hash_block_size c;
     hashes_not_inserted_invalid_byte_alignment :=
       hashes_not_inserted_invalid_byte_alignment c;
     hashes_not_inserted_exceeds_max_duplicates :=
       hashes_not_inserted_exceeds_max_duplicates c;
     hashes_not_inserted_duplicate_element :=
       incr (hashes_not_inserted_duplicate_element c);
     hashes_removed := hashes_removed c;
     hashes_not_removed_mismatched_hash_block_size :=
       hashes_not_removed_mismatched_hash_block_size c;
     hashes_not_removed_invalid_byte_alignment :=
       hashes_not_removed_invalid_byte_alignment c;
     hashes_not_removed_no_hash := hashes_not_removed_no_hash c;
     hashes_not_removed_no_element := hashes_not_removed_no_element c;
     hashes_not_inserted_invalid_sector_size :=
       hashes_not_inserted_invalid_sector_size c |}.

(** [++changes.hashes_not_inserted_invalid_sector_size] *)
Definition incr_hashes_not_inserted_invalid_sector_size
    (c : hashdb_changes_t) : hashdb_changes_t :=
  {| hashes_inserted := hashes_inserted c;
     hashes_not_inserted_mismatched_hash_block_size :=
       hashes_not_inserted_mismatched_hash_block_size c;
     hashes_not_inserted_invalid_byte_alignment :=
       hashes_not_inserted_invalid_byte_alignment c;
     hashes_not_inserted_exceeds_max_duplicates :=
       hashes_not_inserted_exceeds_max_duplicates c;
     hashes_not_inserted_duplicate_element :=
       hashes_not_inserted_duplicate_element c;
     hashes_removed := hashes_removed c;
     hashes_not_removed_mismatched_hash_block_size :=
       hashes_not_removed_mismatched_hash_block_size c;
     hashes_not_removed_invalid_byte_alignment :=
       hashes_not_removed_invalid_byte_alignment c;
     hashes_not_removed_no_hash := hashes_not_removed_no_hash c;
     hashes_not_removed_no_element := hashes_not_removed_no_element c;
     hashes_not_inserted_invalid_sector_size :=
       incr (hashes_not_inserted_invalid_sector_size c) |}.

End Changes.

(** ** The bloom filter *)

Module Bloom.

(** Modelled from the spec: [bloom_filter_manager_t] is not among the
    sources.  "Bit array of M bits, k hash functions derived from disjoint
    64-bit windows of the block hash.  [add(hash)] sets k bits;
    [probably_contains(hash)] tests k bits."  "Bloom M=0 or bloom_used=false
    disables bloom."  [bits] is the set of the indices of the bits set. *)
Record bloom_filter_manager_t := {
  bloom_is_used : bool;
  bloom_M : N;
  bloom_k : nat;
  bits : gset N
}.

(** The value of a byte string, least significant byte first. *)
Fixpoint le_value (s : string) : N :=
  match s with
  | "" => 0
  | String c rest => N_of_ascii c + 256 * le_value rest
  end.

(** The [i]-th 64-bit window of the hash. *)
Definition window (i : nat) (binary_hash : string) : N :=
  le_value (substring (8 * i) 8 binary_hash).

Definition enabled (b : bloom_filter_manager_t) : bool :=
  bloom_is_used b && (0 <? bloom_M b)%N.

(** The indices of the k bits of a hash. *)
Definition indices (b : bloom_filter_manager_t) (binary_hash : string)
  : list N :=
  map (fun i => (window i binary_hash mod bloom_M b)%N) (seq 0 (bloom_k b)).

Definition add_hash_value (b : bloom_filter_manager_t) (binary_hash : string)
  : bloom_filter_manager_t :=
  if enabled b
  then {| bloom_is_used := bloom_is_used b;
          bloom_M := bloom_M b;
          bloom_k := bloom_k b;
          bits := list_to_set (indices b binary_hash) ∪ bits b |}
  else b.

(** A disabled filter answers "possibly present" for every hash. *)
Definition probably_contains (b : bloom_filter_manager_t)
    (binary_hash : string) : bool :=
  if enabled b
  then forallb (fun i => bool_decide (i ∈ bits b)) (indices b binary_hash)
  else true.

End Bloom.

(** ** The hash-data store *)

Module HashData.

Local Open Scope N_scope.

(** The settings that [insert] reads. *)
Record hashdb_settings_t := {
  sector_size : N;       (* uint32_t *)
  hash_truncation : N    (* uint32_t *)
}.

(** An entry of a [hash_data_list_t]. *)
Record hash_data_t := {
  binary_hash : string;
  file_offset : N        (* uint64_t *)
}.

(** Modelled from the spec: [lmdb_data_codec::encode_hash_data] is not among
    the sources.  "Hash-data entry (value of hash-data store):
    varint(source-id) then varint(offset-index)." *)
Definition encode_hash_data (source_id offset_index : N) : string :=
  Codec.encode_uint64_t source_id +:+ Codec.encode_uint64_t offset_index.

(** Modelled from the spec: the KV substrate, an LMDB environment opened
    with duplicate keys.  "An ordered byte-key to byte-value store with
    multi-value keys where values are themselves ordered."  The environment
    is the sequence of its (key, data) pairs in cursor order. *)
Definition env_t := list (string * string).

Inductive rc_t := MDB_SUCCESS | MDB_NOTFOUND | MDB_KEYEXIST.

Definition pair_compare (a b : string * string) : comparison :=
  match String.compare a.1 b.1 with
  | Eq => String.compare a.2 b.2
  | ne => ne
  end.

(** [mdb_cursor_get(..., MDB_GET_BOTH)]: is the exact pair there. *)
Definition mdb_cursor_get_both (env : env_t) (key data : string) : rc_t :=
  if existsb (fun kd => (kd.1 =? key)%string && (kd.2 =? data)%string) env
  then MDB_SUCCESS else MDB_NOTFOUND.

(** [mdb_put(..., MDB_NODUPDATA)]: enter the pair at its place in the
    order, unless it is there already. *)
Fixpoint mdb_put (env : env_t) (key data : string) : rc_t * env_t :=
  match env with
  | [] => (MDB_SUCCESS, [(key, data)])
  | kd :: rest =>
      match pair_compare (key, data) kd with
      | Lt => (MDB_SUCCESS, (key, data) :: kd :: rest)
      | Eq => (MDB_KEYEXIST, kd :: rest)
      | Gt => let (rc, rest') := mdb_put rest key data in (rc, kd :: rest')
      end
  end.

(** The state that [insert] works on. *)
Record state_t := {
  env : env_t;
  bloom_filter_manager : Bloom.bloom_filter_manager_t;
  changes : Changes.hashdb_changes_t
}.

(** The body of the loop of [insert] for one entry; [None] is an
    [assert(0)] or the division by a zero sector size. *)
Definition insert_entry (settings : hashdb_settings_t) (source_id : N)
    (it : hash_data_t) (st : state_t) : option state_t :=
  if sector_size settings =? 0 then None else
  (* validate the byte alignment *)
  if negb (file_offset it mod sector_size settings =? 0)
  then Some {| env := env st;
               bloom_filter_manager := bloom_filter_manager st;
               changes :=
                 Changes.incr_hashes_not_inserted_invalid_sector_size
                   (changes st) |}
  else
    let offset_index := file_offset it / sector_size settings in
    (* set key, truncate key if truncation is used and binary_hash is longer *)
    let key :=
      if negb (hash_truncation settings =? 0)
         && (hash_truncation settings
             <? N.of_nat (String.length (binary_hash it)))
      then substring 0 (N.to_nat (hash_truncation settings)) (binary_hash it)
      else binary_hash it in
    (* set data *)
    let encoding := encode_hash_data source_id offset_index in
    (* see if this entry exists yet *)
    let has_pair :=
      match mdb_cursor_get_both (env st) key encoding with
      | MDB_SUCCESS => Some true
      | MDB_NOTFOUND => Some false
      | _ => None (* program error *)
      end in
    match has_pair with
    | None => None
    | Some true =>
        (* this exact entry already exists *)
        Some {| env := env st;
                bloom_filter_manager := bloom_filter_manager st;
                changes :=
                  Changes.incr_hashes_not_inserted_duplicate_element
                    (changes st) |}
    | Some false =>
        (* insert the entry since all the checks passed *)
        match mdb_put (env st) key encoding with
        | (MDB_SUCCESS, env') =>
            Some {| env := env';
                    (* add hash to bloom filter, too *)
                    bloom_filter_manager :=
                      Bloom.add_hash_value (bloom_filter_manager st)
                        (binary_hash it);
                    changes := Changes.incr_hashes_inserted (changes st) |}
        | _ => None
        end
    end.

(** [insert]: each entry of the list in turn. *)
Fixpoint insert (settings : hashdb_settings_t) (source_id : N)
    (hash_data_list : list hash_data_t) (st : state_t) : option state_t :=
  match hash_data_list with
  | [] => Some st
  | it :: rest =>
      match insert_entry settings source_id it st with
      | None => None
      | Some st' => insert settings source_id rest st'
      end
  end.

(** The key and the data under which an entry is stored. *)
Definition stored_pair (settings : hashdb_settings_t) (source_id : N)
    (it : hash_data_t) : string * string :=
  (if negb (hash_truncation settings =? 0)
      && (hash_truncation settings
          <? N.of_nat (String.length (binary_hash it)))
   then substring 0 (N.to_nat (hash_truncation settings)) (binary_hash it)
   else binary_hash it,
   encode_hash_data source_id (file_offset it / sector_size settings)).

Definition aligned (settings : hashdb_settings_t) (it : hash_data_t) : bool :=
  file_offset it mod sector_size settings =? 0.

End HashData.

(** ** The commands over two databases *)

Module Commands.

(** [hashdb_element_t], by the arguments of its constructor. *)
Record hashdb_element_t := {
  key : string;               (* hash_t: the bytes of the digest *)
  hash_block_size : N;
  repository_name : string;
  filename : string;
  file_offset : N
}.

Definition hex_digit (n : N) : ascii :=
  nth (N.to_nat n) (list_ascii_of_string "0123456789abcdef") "0"%char.

(** Modelled from the spec: [hash_t::hexdigest] is not among the sources;
    the digest in hexadecimal, two digits for each byte. *)
Fixpoint hexdigest (k : string) : string :=
  match k with
  | "" => ""
  | String c rest =>
      String (hex_digit (N_of_ascii c / 16))
        (String (hex_digit (N_of_ascii c mod 16)) (hexdigest rest))
  end.

(** The order of the elements of a database: by key, then by the value. *)
Definition element_compare (a b : hashdb_element_t) : comparison :=
  match String.compare (key a) (key b) with
  | Eq =>
      match String.compare (repository_name a) (repository_name b) with
      | Eq =>
          match String.compare (filename a) (filename b) with
          | Eq =>
              match N.compare (file_offset a) (file_offset b) with
              | Eq => N.compare (hash_block_size a) (hash_block_size b)
              | ne => ne
              end
          | ne => ne
          end
      | ne => ne
      end
  | ne => ne
  end.

(** Modelled from the spec: [hashdb_manager_t] is not among the sources.
    The database is "block-hash to multi-values", an "ordered" store with
    "multi-value keys where values are themselves ordered": [elements] is
    what an iteration from [begin()] to [end()] yields.  Of the settings,
    [hash_block_size] is the one the commands compare. *)
Record hashdb_manager_t := {
  hashdb_dir : string;
  settings_hash_block_size : N;
  elements : list hashdb_element_t
}.

(** [create] followed by opening: a database without elements. *)
Definition create (block_size : N) (dir : string) : hashdb_manager_t :=
  {| hashdb_dir := dir; settings_hash_block_size := block_size;
     elements := [] |}.

Fixpoint insert_element (e : hashdb_element_t) (l : list hashdb_element_t)
  : bool * list hashdb_element_t :=
  match l with
  | [] => (true, [e])
  | x :: rest =>
      match element_compare e x with
      | Lt => (true, e :: x :: rest)
      | Eq => (false, x :: rest)
      | Gt => let (b, rest') := insert_element e rest in (b, x :: rest')
      end
  end.

(** Modelled from the spec: [hashdb_manager_t::insert].  "Probe (key,value);
    if exact pair exists: duplicate, counted, no insert; else put;
    increment hashes_inserted."  The elements that the commands insert come
    from databases that [require_compatibility] has accepted; the other
    record-level validations are left out. *)
Definition insert (e : hashdb_element_t) (m : hashdb_manager_t)
    (changes : Changes.hashdb_changes_t)
  : hashdb_manager_t * Changes.hashdb_changes_t :=
  let (inserted, l) := insert_element e (elements m) in
  ({| hashdb_dir := hashdb_dir m;
      settings_hash_block_size := settings_hash_block_size m;
      elements := l |},
   if inserted then Changes.incr_hashes_inserted changes
   else Changes.incr_hashes_not_inserted_duplicate_element changes).

(** Modelled from the spec: [hashdb_manager_t::find], the elements under a
    key, in order. *)
Definition find (m : hashdb_manager_t) (k : string) : list hashdb_element_t :=
  List.filter (fun e => (key e =? k)%string) (elements m).

(** Modelled from the spec: [hashdb_manager_t::find_count]; the count, a
    [uint32_t], is taken to fit. *)
Definition find_count (m : hashdb_manager_t) (k : string) : nat :=
  List.length (find m k).

(** Modelled from the spec: [hashdb_manager_t::map_size]. *)
Definition map_size (m : hashdb_manager_t) : nat := List.length (elements m).

(** [require_compatibility] for three databases: [false] is [exit(1)]. *)
Definition require_compatibility
    (hashdb1 hashdb2 hashdb3 : hashdb_manager_t) : bool :=
  (* databases should not be the same one *)
  if (hashdb_dir hashdb1 =? hashdb_dir hashdb2)%string
     || (hashdb_dir hashdb2 =? hashdb_dir hashdb3)%string
     || (hashdb_dir hashdb1 =? hashdb_dir hashdb3)%string
  then false
  (* hash block size must match *)
  else if negb (settings_hash_block_size hashdb1
                =? settings_hash_block_size hashdb2)%N
          || negb (settings_hash_block_size hashdb1
                   =? settings_hash_block_size hashdb3)%N
  then false
  else true.

(** The loop that inserts every element from an iterator up to [end()]. *)
Fixpoint insert_each (it : list hashdb_element_t) (hashdb3 : hashdb_manager_t)
    (changes : Changes.hashdb_changes_t)
  : hashdb_manager_t * Changes.hashdb_changes_t :=
  match it with
  | [] => (hashdb3, changes)
  | e :: it' =>
      let (hashdb3', changes') := insert e hashdb3 changes in
      insert_each it' hashdb3' changes'
  end.

(** The [for] loop of [intersect_optimized]: [smaller_count] times, insert
    the element under the iterator and advance it.  [None]: the iterator
    is at [end()] and cannot be read. *)
Fixpoint add_from_smaller (smaller_count : nat)
    (smaller_it : list hashdb_element_t) (hashdb3 : hashdb_manager_t)
    (changes : Changes.hashdb_changes_t)
  : option (list hashdb_element_t * hashdb_manager_t
            * Changes.hashdb_changes_t) :=
  match smaller_count with
  | O => Some (smaller_it, hashdb3, changes)
  | S n =>
      match smaller_it with
      | [] => None
      | hashdb_element :: smaller_it' =>
          let (hashdb3', changes') := insert hashdb_element hashdb3 changes in
          add_from_smaller n smaller_it' hashdb3' changes'
      end
  end.

(** The [while] loop of [intersect_optimized]; [fuel] bounds its turns,
    [None] on its exhaustion as well. *)
Fixpoint intersect_optimized_loop (fuel : nat)
    (smaller_it : list hashdb_element_t)
    (smaller_hashdb larger_hashdb hashdb3 : hashdb_manager_t)
    (changes : Changes.hashdb_changes_t)
  : option (hashdb_manager_t * Changes.hashdb_changes_t) :=
  match smaller_it with
  | [] => Some (hashdb3, changes)
  | e :: next =>
      match fuel with
      | O => None
      | S fuel' =>
          (* see if hashdigest is in larger db *)
          let larger_count := find_count larger_hashdb (key e) in
          if (0 <? larger_count)%nat then
            (* there is a match in larger db *)
            let matching_key := key e in
            (* add hashes from smaller *)
            let smaller_count := find_count smaller_hashdb matching_key in
            match add_from_smaller smaller_count smaller_it hashdb3 changes
            with
            | None => None
            | Some (smaller_it', hashdb3', changes') =>
                (* add hashes from larger *)
                let (hashdb3'', changes'') :=
                  insert_each (find larger_hashdb matching_key)
                    hashdb3' changes' in
                intersect_optimized_loop fuel' smaller_it'
                  smaller_hashdb larger_hashdb hashdb3'' changes''
            end
          else
            (* no match, so just move on *)
            intersect_optimized_loop fuel' next
              smaller_hashdb larger_hashdb hashdb3 changes
      end
  end.

Definition intersect_optimized
    (smaller_hashdb larger_hashdb hashdb3 : hashdb_manager_t)
    (changes : Changes.hashdb_changes_t)
  : option (hashdb_manager_t * Changes.hashdb_changes_t) :=
  intersect_optimized_loop (map_size smaller_hashdb)
    (elements smaller_hashdb) smaller_hashdb larger_hashdb hashdb3 changes.

(** [intersect], on the three opened databases; the third one is
    [create (settings_hash_block_size manager1) hashdb_dir3] when its
    directory did not exist.  [None] is [exit(1)], or a failure of
    [intersect_optimized].  The log and the history are left out. *)
Definition intersect (manager1 manager2 manager3 : hashdb_manager_t)
  : option (hashdb_manager_t * Changes.hashdb_changes_t) :=
  if negb (require_compatibility manager1 manager2 manager3) then None else
  let changes := Changes.new_hashdb_changes_t in
  (* optimize processing based on smaller db *)
  if (map_size manager1 <=? map_size manager2)%nat
  then intersect_optimized manager1 manager2 manager3 changes
  else intersect_optimized manager2 manager1 manager3 changes.

(** The first loop of [add_multiple]: while elements are in both, insert
    ordered by key, preferring [it1]; then the two loops that insert what
    remains. *)
Fixpoint add_multiple_loop (it1 : list hashdb_element_t)
  : list hashdb_element_t -> hashdb_manager_t -> Changes.hashdb_changes_t ->
    hashdb_manager_t * Changes.hashdb_changes_t :=
  fix from_it2 (it2 : list hashdb_element_t) (hashdb3 : hashdb_manager_t)
      (changes : Changes.hashdb_changes_t) {struct it2} :=
    match it1, it2 with
    | e1 :: it1', e2 :: it2' =>
        if String.leb (hexdigest (key e1)) (hexdigest (key e2))
        then let (hashdb3', changes') := insert e1 hashdb3 changes in
             add_multiple_loop it1' it2 hashdb3' changes'
        else let (hashdb3', changes') := insert e2 hashdb3 changes in
             from_it2 it2' hashdb3' changes'
    | _, _ =>
        (* hashdb1 or hashdb2 has become depleted *)
        let (hashdb3', changes') := insert_each it1 hashdb3 changes in
        insert_each it2 hashdb3' changes'
    end.

(** [add_multiple], on the three opened databases, the third one created
    from the settings of the first one when its directory did not exist;
    [None] is [exit(1)].  The log and the history are left out. *)
Definition add_multiple (hashdb_manager1 hashdb_manager2 hashdb_manager3
                         : hashdb_manager_t)
  : option (hashdb_manager_t * Changes.hashdb_changes_t) :=
  if negb (require_compatibility
             hashdb_manager1 hashdb_manager2 hashdb_manager3)
  then None
  else Some (add_multiple_loop (elements hashdb_manager1)
               (elements hashdb_manager2) hashdb_manager3
               Changes.new_hashdb_changes_t).

(** The ordered merge in the words of the specification: the element with
    the smaller key first, the first sequence on equal keys, then whatever
    remains of either. *)
Fixpoint ordered_merge (a : list hashdb_element_t)
  : list hashdb_element_t -> list hashdb_element_t :=
  fix merge_b (b : list hashdb_element_t) {struct b} :=
    match a, b with
    | [], _ => b
    | _, [] => a
    | x :: a', y :: b' =>
        if String.leb (key x) (key y)
        then x :: ordered_merge a' b
        else y :: merge_b b'
    end.

(** The keys ascend along the sequence. *)
Definition key_le (a b : hashdb_element_t) : Prop :=
  String.compare (key a) (key b) <> Gt.

Definition ascending_keys (l : list hashdb_element_t) : Prop :=
  StronglySorted key_le l.

(** Some element of the database has the key. *)
Definition has_key (m : hashdb_manager_t) (k : string) : Prop :=
  exists e, In e (elements m) /\ key e = k.

(** Every byte, in order. *)
Definition all_bytes : list ascii :=
  map (fun n => ascii_of_N (N.of_nat n)) (seq 0 256).

Definition comparison_eqb (a b : comparison) : bool :=
  match a, b with
  | Eq, Eq | Lt, Lt | Gt, Gt => true
  | _, _ => false
  end.

(** The two hexadecimal digits of a byte compare as the bytes do. *)
Definition hex_digits_compare (c1 c2 : ascii) : comparison :=
  match Ascii.compare (hex_digit (N_of_ascii c1 / 16))
          (hex_digit (N_of_ascii c2 / 16)) with
  | Eq => Ascii.compare (hex_digit (N_of_ascii c1 mod 16))
            (hex_digit (N_of_ascii c2 mod 16))
  | ne => ne
  end.

End Commands.

(** ** The calls of [intersect] and [add_multiple] on their databases *)

Module Calls.

(** A call of a command on one of its databases, the database being named
    by its directory: [find_count] and [find] on a database that is read,
    [insert] on the destination.  [begin()], [end()], [map_size()] and the
    steps of the iterators are not recorded. *)
Inductive call_t :=
| find_count_call (hashdb_dir : string) (k : string)
| find_call (hashdb_dir : string) (k : string)
| insert_call (hashdb_element : Commands.hashdb_element_t).

(** A run of a command: [None] is [exit(1)], an iterator read at [end()] or
    the exhaustion of the fuel; otherwise the result and the calls made, in
    the order in which they were made. *)
Definition run (A : Type) : Type := option (A * list call_t).

Definition ret {A : Type} (a : A) : run A := Some (a, []).

Definition bind {A B : Type} (m : run A) (f : A -> run B) : run B :=
  match m with
  | None => None
  | Some (a, calls1) =>
      match f a with
      | None => None
      | Some (b, calls2) => Some (b, (calls1 ++ calls2)%list)
      end
  end.

Definition call {A : Type} (c : call_t) (a : A) : run A := Some (a, [c]).

Notation "'let*' x ':=' m 'in' f" := (bind m (fun x => f))
  (at level 10, x pattern, m at level 100, f at level 200).

(** The elements that the calls insert, in order. *)
Definition inserted (calls : list call_t) : list Commands.hashdb_element_t :=
  flat_map (fun c => match c with
                     | insert_call e => [e]
                     | _ => []
                     end) calls.

(** The keys that [find_count] is called with on the database of the
    directory, in order. *)
Definition counted_in (hashdb_dir : string) (calls : list call_t)
  : list string :=
  flat_map (fun c => match c with
                     | find_count_call d k =>
                         if (d =? hashdb_dir)%string then [k] else []
                     | _ => []
                     end) calls.

(** The keys that [find] is called with on the database of the directory,
    in order. *)
Definition found_in (hashdb_dir : string) (calls : list call_t)
  : list string :=
  flat_map (fun c => match c with
                     | find_call d k =>
                         if (d =? hashdb_dir)%string then [k] else []
                     | _ => []
                     end) calls.

(** [hashdb.find_count(key)] *)
Definition find_count (m : Commands.hashdb_manager_t) (k : string) : run nat :=
  call (find_count_call (Commands.hashdb_dir m) k) (Commands.find_count m k).

(** [hashdb.find(key)] *)
Definition find (m : Commands.hashdb_manager_t) (k : string)
  : run (list Commands.hashdb_element_t) :=
  call (find_call (Commands.hashdb_dir m) k) (Commands.find m k).

(** [hashdb3.insert(hashdb_element, changes)] *)
Definition insert (e : Commands.hashdb_element_t)
    (hashdb3 : Commands.hashdb_manager_t) (changes : Changes.hashdb_changes_t)
  : run (Commands.hashdb_manager_t * Changes.hashdb_changes_t) :=
  call (insert_call e) (Commands.insert e hashdb3 changes).

(** The loop that inserts every element from an iterator up to [end()]. *)
Fixpoint insert_each (it : list Commands.hashdb_element_t)
    (hashdb3 : Commands.hashdb_manager_t) (changes : Changes.hashdb_changes_t)
  : run (Commands.hashdb_manager_t * Changes.hashdb_changes_t) :=
  match it with
  | [] => ret (hashdb3, changes)
  | e :: it' =>
      let* (hashdb3', changes') := insert e hashdb3 changes in
      insert_each it' hashdb3' changes'
  end.

(** The [for] loop of [intersect_optimized]: [smaller_count] times, insert
    the element under the iterator and advance it. *)
Fixpoint add_from_smaller (smaller_count : nat)
    (smaller_it : list Commands.hashdb_element_t)
    (hashdb3 : Commands.hashdb_manager_t) (changes : Changes.hashdb_changes_t)
  : run (list Commands.hashdb_element_t * Commands.hashdb_manager_t
         * Changes.hashdb_changes_t) :=
  match smaller_count with
  | O => ret (smaller_it, hashdb3, changes)
  | S n =>
      match smaller_it with
      | [] => None
      | hashdb_element :: smaller_it' =>
          let* (hashdb3', changes') := insert hashdb_element hashdb3 changes in
          add_from_smaller n smaller_it' hashdb3' changes'
      end
  end.

(** The [while] loop of [intersect_optimized]; [fuel] bounds its turns. *)
Fixpoint intersect_optimized_loop (fuel : nat)
    (smaller_it : list Commands.hashdb_element_t)
    (smaller_hashdb larger_hashdb hashdb3 : Commands.hashdb_manager_t)
    (changes : Changes.hashdb_changes_t)
  : run (Commands.hashdb_manager_t * Changes.hashdb_changes_t) :=
  match smaller_it with
  | [] => ret (hashdb3, changes)
  | e :: next =>
      match fuel with
      | O => None
      | S fuel' =>
          (* see if hashdigest is in larger db *)
          let* larger_count := find_count larger_hashdb (Commands.key e) in
          if (0 <? larger_count)%nat then
            (* there is a match in larger db *)
            let matching_key := Commands.key e in
            (* add hashes from smaller *)
            let* smaller_count := find_count smaller_hashdb matching_key in
            let* (smaller_it', hashdb3', changes') :=
              add_from_smaller smaller_count smaller_it hashdb3 changes in
            (* add hashes from larger *)
            let* it_pair := find larger_hashdb matching_key in
            let* (hashdb3'', changes'') :=
              insert_each it_pair hashdb3' changes' in
            intersect_optimized_loop fuel' smaller_it'
              smaller_hashdb larger_hashdb hashdb3'' changes''
          else
            (* no match, so just move on *)
            intersect_optimized_loop fuel' next
              smaller_hashdb larger_hashdb hashdb3 changes
      end
  end.

Definition intersect_optimized
    (smaller_hashdb larger_hashdb hashdb3 : Commands.hashdb_manager_t)
    (changes : Changes.hashdb_changes_t)
  : run (Commands.hashdb_manager_t * Changes.hashdb_changes_t) :=
  intersect_optimized_loop (Commands.map_size smaller_hashdb)
    (Commands.elements smaller_hashdb) smaller_hashdb larger_hashdb
    hashdb3 changes.

(** [intersect], on the three opened databases. *)
Definition intersect (manager1 manager2 manager3 : Commands.hashdb_manager_t)
  : run (Commands.hashdb_manager_t * Changes.hashdb_changes_t) :=
  if negb (Commands.require_compatibility manager1 manager2 manager3)
  then None else
  let changes := Changes.new_hashdb_changes_t in
  (* optimize processing based on smaller db *)
  if (Commands.map_size manager1 <=? Commands.map_size manager2)%nat
  then intersect_optimized manager1 manager2 manager3 changes
  else intersect_optimized manager2 manager1 manager3 changes.

(** The loops of [add_multiple]. *)
Fixpoint add_multiple_loop (it1 : list Commands.hashdb_element_t)
  : list Commands.hashdb_element_t -> Commands.hashdb_manager_t ->
    Changes.hashdb_changes_t ->
    run (Commands.hashdb_manager_t * Changes.hashdb_changes_t) :=
  fix from_it2 (it2 : list Commands.hashdb_element_t)
      (hashdb3 : Commands.hashdb_manager_t)
      (changes : Changes.hashdb_changes_t) {struct it2} :=
    match it1, it2 with
    | e1 :: it1', e2 :: it2' =>
        (* while elements are in both, insert ordered by key, prefering it1
           first *)
        if String.leb (Commands.hexdigest (Commands.key e1))
                      (Commands.hexdigest (Commands.key e2))
        then let* (hashdb3', changes') := insert e1 hashdb3 changes in
             add_multiple_loop it1' it2 hashdb3' changes'
        else let* (hashdb3', changes') := insert e2 hashdb3 changes in
             from_it2 it2' hashdb3' changes'
    | _, _ =>
        (* hashdb1 or hashdb2 has become depleted so insert remaining
           elements *)
        let* (hashdb3', changes') := insert_each it1 hashdb3 changes in
        insert_each it2 hashdb3' changes'
    end.

(** [add_multiple], on the three opened databases. *)
Definition add_multiple (hashdb_manager1 hashdb_manager2 hashdb_manager3
                         : Commands.hashdb_manager_t)
  : run (Commands.hashdb_manager_t * Changes.hashdb_changes_t) :=
  if negb (Commands.require_compatibility
             hashdb_manager1 hashdb_manager2 hashdb_manager3)
  then None
  else add_multiple_loop (Commands.elements hashdb_manager1)
         (Commands.elements hashdb_manager2) hashdb_manager3
         Changes.new_hashdb_changes_t.

End Calls.

(** ** The commands that copy one database into another *)

Module SetCommands.

Import Commands.

(** [require_compatibility] for two databases: [false] is [exit(1)]. *)
Definition require_compatibility (hashdb1 hashdb2 : hashdb_manager_t) : bool :=
  (* databases should not be the same one *)
  if (hashdb_dir hashdb1 =? hashdb_dir hashdb2)%string then false
  (* hash block size must match *)
  else if negb (settings_hash_block_size hashdb1
                =? settings_hash_block_size hashdb2)%N
  then false
  else true.

(** [add], on the two opened databases, the second one created from the
    settings of the first one when its directory did not exist; [None] is
    [exit(1)].  The log and the history are left out. *)
Definition add (hashdb_manager1 hashdb_manager2 : hashdb_manager_t)
  : option (hashdb_manager_t * Changes.hashdb_changes_t) :=
  if negb (require_compatibility hashdb_manager1 hashdb_manager2) then None
  else Some (insert_each (elements hashdb_manager1) hashdb_manager2
               Changes.new_hashdb_changes_t).

(** The loop of [subtract] over the elements of the first database. *)
Fixpoint subtract_loop (it1 : list hashdb_element_t)
    (hashdb_manager2 hashdb_manager3 : hashdb_manager_t)
    (changes : Changes.hashdb_changes_t)
  : hashdb_manager_t * Changes.hashdb_changes_t :=
  match it1 with
  | [] => (hashdb_manager3, changes)
  | e :: it1' =>
      (* subtract or copy the hash *)
      if (0 <? find_count hashdb_manager2 (key e))%nat
      then (* hashdb2 has the hash so drop the hash *)
        subtract_loop it1' hashdb_manager2 hashdb_manager3 changes
      else (* hashdb2 does not have the hash so copy it to hashdb3 *)
        let (hashdb_manager3', changes') :=
          insert e hashdb_manager3 changes in
        subtract_loop it1' hashdb_manager2 hashdb_manager3' changes'
  end.

(** [subtract], on the three opened databases; [None] is [exit(1)]. *)
Definition subtract (hashdb_manager1 hashdb_manager2 hashdb_manager3
                     : hashdb_manager_t)
  : option (hashdb_manager_t * Changes.hashdb_changes_t) :=
  if negb (Commands.require_compatibility
             hashdb_manager1 hashdb_manager2 hashdb_manager3)
  then None
  else Some (subtract_loop (elements hashdb_manager1) hashdb_manager2
               hashdb_manager3 Changes.new_hashdb_changes_t).

(** The loop of [deduplicate] over the elements of the first database. *)
Fixpoint deduplicate_loop (it1 : list hashdb_element_t)
    (hashdb_manager1 hashdb_manager2 : hashdb_manager_t)
    (changes : Changes.hashdb_changes_t)
  : hashdb_manager_t * Changes.hashdb_changes_t :=
  match it1 with
  | [] => (hashdb_manager2, changes)
  | e :: it1' =>
      (* for deduplicate, only keep hashes whose count=1 *)
      if (find_count hashdb_manager1 (key e) =? 1)%nat
      then
        let (hashdb_manager2', changes') :=
          insert e hashdb_manager2 changes in
        deduplicate_loop it1' hashdb_manager1 hashdb_manager2' changes'
      else deduplicate_loop it1' hashdb_manager1 hashdb_manager2 changes
  end.

(** [deduplicate], on the two opened databases; [None] is [exit(1)]. *)
Definition deduplicate (hashdb_manager1 hashdb_manager2 : hashdb_manager_t)
  : option (hashdb_manager_t * Changes.hashdb_changes_t) :=
  if negb (require_compatibility hashdb_manager1 hashdb_manager2) then None
  else Some (deduplicate_loop (elements hashdb_manager1) hashdb_manager1
               hashdb_manager2 Changes.new_hashdb_changes_t).

(** The order in which a database keeps its elements. *)
Definition element_lt (a b : hashdb_element_t) : Prop :=
  element_compare a b = Lt.

Definition ordered (l : list hashdb_element_t) : Prop :=
  StronglySorted element_lt l.

(** The counters after [inserted] inserts and [duplicates] duplicate
    elements. *)
Definition counted (inserted duplicates : nat) (c : Changes.hashdb_changes_t)
  : Changes.hashdb_changes_t :=
  {| Changes.hashes_inserted :=
       (Changes.hashes_inserted c + Z.of_nat inserted) mod 2 ^ 32;
     Changes.hashes_not_inserted_mismatched_hash_block_size :=
       Changes.hashes_not_inserted_mismatched_hash_block_size c;
     Changes.hashes_not_inserted_invalid_byte_alignment :=
       Changes.hashes_not_inserted_invalid_byte_alignment c;
     Changes.hashes_not_inserted_exceeds_max_duplicates :=
       Changes.hashes_not_inserted_exceeds_max_duplicates c;
     Changes.hashes_not_inserted_duplicate_element :=
       (Changes.hashes_not_inserted_duplicate_element c
        + Z.of_nat duplicates) mod 2 ^ 32;
     Changes.hashes_removed := Changes.hashes_removed c;
     Changes.hashes_not_removed_mismatched_hash_block_size :=
       Changes.hashes_not_removed_mismatched_hash_block_size c;
     Changes.hashes_not_removed_invalid_byte_alignment :=
       Changes.hashes_not_removed_invalid_byte_alignment c;
     Changes.hashes_not_removed_no_hash :=
       Changes.hashes_not_removed_no_hash c;
     Changes.hashes_not_removed_no_element :=
       Changes.hashes_not_removed_no_element c;
     Changes.hashes_not_inserted_invalid_sector_size :=
       Changes.hashes_not_inserted_invalid_sector_size c |}%Z.

(** The state of a run of [calls] calls of [insert] that started on the
    database [m] with the counters [c]: the database [m'] has the directory
    and the settings of [m], and the counters [c'] tell how many of the
    calls have made it grow. *)
Definition insert_run (m : hashdb_manager_t) (c : Changes.hashdb_changes_t)
    (calls : nat) (m' : hashdb_manager_t) (c' : Changes.hashdb_changes_t)
  : Prop :=
  hashdb_dir m' = hashdb_dir m /\
  settings_hash_block_size m' = settings_hash_block_size m /\
  exists n_new n_dup : nat,
    (n_new + n_dup = calls)%nat /\
    List.length (elements m') = (List.length (elements m) + n_new)%nat /\
    c' = counted n_new n_dup c.

End SetCommands.

(** ** The count field of a context *)

Module CountField.

Local Open Scope N_scope.

(** [std::string::npos], the largest [size_t]. *)
Definition npos : N := 2 ^ 64 - 1.

(** [std::string::find]: the position of the first occurrence of the
    pattern, [npos] when there is none.  The size of the string is taken to
    fit a [size_t]. *)
Definition find (s pattern : string) : N :=
  match String.index 0 pattern s with
  | Some n => N.of_nat n
  | None => npos
  end.

(** [std::string::erase(pos, len)] for [pos <= size()]: the characters from
    [pos] on are removed, [len] of them or as many as there are. *)
Definition erase (s : string) (pos len : N) : string :=
  let size := N.of_nat (String.length s) in
  let n := N.min len (size - pos) in
  substring 0 (N.to_nat pos) s
  +:+ substring (N.to_nat (pos + n)) (N.to_nat (size - (pos + n))) s.

(** Subtraction of two [size_t]. *)
Definition size_sub (a b : N) : N := (a + 2 ^ 64 - b) mod 2 ^ 64.

Definition quote : ascii := ascii_of_N 34.

(** The text ["count":] with its quotes. *)
Definition count_field : string :=
  String quote ("count" +:+ String quote ":").

(** [remove_count_field], as the new value of [context]. *)
Definition remove_count_field (context : string) : string :=
  (* find the '"count":' field, the '}' and any ','. *)
  let pos_count := find context count_field in
  let pos_closebrace := find context "}" in
  let pos_comma := find context "," in
  (* validate input *)
  if pos_count =? npos then context (* no count field present. *)
  else if pos_closebrace =? npos then context (* no } present. *)
  (* remove the count field *)
  else if pos_comma <? pos_closebrace
  then (* remove count field up to and including the comma *)
    erase context pos_count ((size_sub pos_comma pos_count + 1) mod 2 ^ 64)
  else (* remove count field up to but not including the close brace *)
    erase context pos_count (size_sub pos_closebrace pos_count).

End CountField.

(** ** The commands that report on one database *)

Module Statistics.

Import Commands.

Local Open Scope N_scope.

(** [++it], [count] times: "now move forward by count".  [None] when the
    iterator is moved past [end()]. *)
Fixpoint advance (count : nat) (it : list hashdb_element_t)
  : option (list hashdb_element_t) :=
  match count with
  | O => Some it
  | S count' =>
      match it with
      | [] => None
      | _ :: it' => advance count' it'
      end
  end.

(** The variables of [histogram]: two [uint64_t] and the
    [std::map<uint32_t, uint64_t>] from a count to the number of hashes
    with that count. *)
Record histogram_t := {
  total_hashes : N;
  total_distinct_hashes : N;
  hash_histogram : gmap N N
}.

(** The loop of [histogram]; [fuel] bounds its turns.  [None]: the
    iterator is moved past [end()], or the fuel is used up. *)
Fixpoint histogram_loop (fuel : nat) (it : list hashdb_element_t)
    (hashdb_manager : hashdb_manager_t) (st : histogram_t)
  : option histogram_t :=
  match it with
  | [] => Some st
  | e :: _ =>
      match fuel with
      | O => None
      | S fuel' =>
          (* get count for this hash *)
          let count := N.of_nat (find_count hashdb_manager (key e)) in
          let st' :=
            {| (* update totals *)
               total_hashes := (total_hashes st + count) mod 2 ^ 64;
               total_distinct_hashes :=
                 if count =? 1
                 then (total_distinct_hashes st + 1) mod 2 ^ 64
                 else total_distinct_hashes st;
               (* update hash_histogram information *)
               hash_histogram :=
                 match hash_histogram st !! count with
                 | None =>
                     (* this is the first hash found with this count value *)
                     <[count := 1]> (hash_histogram st)
                 | Some old_number =>
                     (* increment existing value *)
                     <[count := (old_number + 1) mod 2 ^ 64]>
                       (delete count (hash_histogram st))
                 end |} in
          (* now move forward by count *)
          match advance (find_count hashdb_manager (key e)) it with
          | None => None
          | Some it' => histogram_loop fuel' it' hashdb_manager st'
          end
      end
  end.

(** What [histogram] prints: that the map is empty, or the totals and the
    lines of the histogram, one for each entry of the map, with the product
    of its two numbers as the total. *)
Inductive histogram_output :=
| map_is_empty
| totals (st : histogram_t).

Definition histogram (hashdb_manager : hashdb_manager_t)
  : option histogram_output :=
  match elements hashdb_manager with
  | [] => (* there is nothing to report if the map is empty *)
      Some map_is_empty
  | _ :: _ =>
      match histogram_loop (map_size hashdb_manager) (elements hashdb_manager)
              hashdb_manager
              {| total_hashes := 0; total_distinct_hashes := 0;
                 hash_histogram := ∅ |} with
      | Some st => Some (totals st)
      | None => None
      end
  end.

(** The loop of [duplicates]: the lines printed, each with its line number,
    the hexdigest of the hash and the count. *)
Fixpoint duplicates_loop (fuel : nat) (it : list hashdb_element_t)
    (hashdb_manager : hashdb_manager_t) (duplicates_number : nat)
    (line_number : N) : option (list (N * string * nat)) :=
  match it with
  | [] => Some []
  | e :: _ =>
      match fuel with
      | O => None
      | S fuel' =>
          let count := find_count hashdb_manager (key e) in
          let shown := (count =? duplicates_number)%nat in
          let line_number' :=
            if shown then (line_number + 1) mod 2 ^ 64 else line_number in
          (* now move forward by count *)
          match advance count it with
          | None => None
          | Some it' =>
              match duplicates_loop fuel' it' hashdb_manager
                      duplicates_number line_number' with
              | None => None
              | Some lines =>
                  Some (if shown
                        then (line_number', hexdigest (key e), count) :: lines
                        else lines)
              end
          end
      end
  end.

(** [duplicates], for the number that [duplicates_string] stands for;
    [None] in the result of the loop is as for [histogram], the inner
    [None] is the message that the map is empty. *)
Definition duplicates (hashdb_manager : hashdb_manager_t)
    (duplicates_number : nat) : option (option (list (N * string * nat))) :=
  match elements hashdb_manager with
  | [] => Some None
  | _ :: _ =>
      match duplicates_loop (map_size hashdb_manager)
              (elements hashdb_manager) hashdb_manager duplicates_number 0
      with
      | Some lines => Some (Some lines)
      | None => None
      end
  end.

(** The number of elements of a list whose hash has [count] elements in
    the database. *)
Definition elements_with_count (hashdb_manager : hashdb_manager_t)
    (count : N) (l : list hashdb_element_t) : nat :=
  List.length
    (List.filter
       (fun e => N.of_nat (find_count hashdb_manager (key e)) =? count) l).

(** The lines of [duplicates] for the hashes [hashes], numbered from
    [line_number + 1] on. *)
Fixpoint numbered (line_number : N) (count : nat) (hashes : list string)
  : list (N * string * nat) :=
  match hashes with
  | [] => []
  | k :: hashes' =>
      (line_number + 1, hexdigest k, count)
      :: numbered (line_number + 1) count hashes'
  end.

(** What the variables of [histogram] hold after the elements [l] of the
    database have been passed: the number of elements, the number of
    those whose hash has one element, and for every count the number [n]
    of hashes, by the number [count * n] of their elements. *)
Definition counts_of (hashdb_manager : hashdb_manager_t)
    (l : list hashdb_element_t) (st : histogram_t) : Prop :=
  total_hashes st = N.of_nat (List.length l) /\
  total_distinct_hashes st
  = N.of_nat (elements_with_count hashdb_manager 1 l) /\
  forall count : N,
    match hash_histogram st !! count with
    | Some n =>
        0 < n /\
        count * n = N.of_nat (elements_with_count hashdb_manager count l)
    | None => elements_with_count hashdb_manager count l = 0%nat
    end.

End Statistics.

(** ** [rebuild_bloom] *)

Module RebuildBloom.

Import Commands.

(** The bloom filter manager opened as [RW_NEW] after the bloom files have
    been removed: no bit is set. *)
Definition new_bloom_filter_manager_t (bloom1_is_used : bool)
    (bloom1_M_hash_size : N) (bloom1_k_hash_functions : nat)
  : Bloom.bloom_filter_manager_t :=
  {| Bloom.bloom_is_used := bloom1_is_used;
     Bloom.bloom_M := bloom1_M_hash_size;
     Bloom.bloom_k := bloom1_k_hash_functions;
     Bloom.bits := ∅ |}.

(** The loop that adds the hash of every element to the bloom filter. *)
Fixpoint add_hashes (it : list hashdb_element_t)
    (bloom_filter_manager : Bloom.bloom_filter_manager_t)
  : Bloom.bloom_filter_manager_t :=
  match it with
  | [] => bloom_filter_manager
  | e :: it' =>
      add_hashes it' (Bloom.add_hash_value bloom_filter_manager (key e))
  end.

(** [rebuild_bloom], as the bloom filter that it leaves; the settings and
    the log are left out. *)
Definition rebuild_bloom (bloom1_is_used : bool) (bloom1_M_hash_size : N)
    (bloom1_k_hash_functions : nat) (hashdb_manager : hashdb_manager_t)
  : Bloom.bloom_filter_manager_t :=
  add_hashes (elements hashdb_manager)
    (new_bloom_filter_manager_t bloom1_is_used bloom1_M_hash_size
       bloom1_k_hash_functions).

End RebuildBloom.

(** ** The report of the changes *)

Module Report.

Import Changes.

Local Open Scope Z_scope.

(** A line of the output: its text and, for the line of a counter, the
    number that is printed after the text. *)
Definition line : Type := string * option Z.

(** [if (counter) std::cout << label << counter << "\n";] *)
Definition counter_line (label : string) (counter : Z) : list line :=
  if counter =? 0 then [] else [(label, Some counter)].

(** The counters of the inserts and of the removals, with the texts under
    which [report_changes] prints them. *)
Definition insert_counters (c : hashdb_changes_t) : list (string * Z) :=
  [("    hashes inserted=", hashes_inserted c);
   ("    hashes not inserted, mismatched hash block size=",
    hashes_not_inserted_mismatched_hash_block_size c);
   ("    hashes not inserted, invalid byte alignment=",
    hashes_not_inserted_invalid_byte_alignment c);
   ("    hashes not inserted, exceeds max duplicates=",
    hashes_not_inserted_exceeds_max_duplicates c);
   ("    hashes not inserted, duplicate element=",
    hashes_not_inserted_duplicate_element c)].

Definition remove_counters (c : hashdb_changes_t) : list (string * Z) :=
  [("    hashes removed=", hashes_removed c);
   ("    hashes not removed, mismatched hash block size=",
    hashes_not_removed_mismatched_hash_block_size c);
   ("    hashes not removed, invalid byte alignment=",
    hashes_not_removed_invalid_byte_alignment c);
   ("    hashes not removed, no hash=", hashes_not_removed_no_hash c);
   ("    hashes not removed, no element=", hashes_not_removed_no_element c)].

(** [report_changes(std::ostream&)], by the lines that it writes. *)
Definition report_changes (c : hashdb_changes_t) : list line :=
  let has_insert_action :=
    negb (hashes_inserted c =? 0)
    || negb (hashes_not_inserted_mismatched_hash_block_size c =? 0)
    || negb (hashes_not_inserted_invalid_byte_alignment c =? 0)
    || negb (hashes_not_inserted_exceeds_max_duplicates c =? 0)
    || negb (hashes_not_inserted_duplicate_element c =? 0) in
  let has_remove_action :=
    negb (hashes_removed c =? 0)
    || negb (hashes_not_removed_mismatched_hash_block_size c =? 0)
    || negb (hashes_not_removed_invalid_byte_alignment c =? 0)
    || negb (hashes_not_removed_no_hash c =? 0)
    || negb (hashes_not_removed_no_element c =? 0) in
  ((if negb has_insert_action && negb has_remove_action
    then [("No hashdb changes.", None)] else [])
   ++ (if has_insert_action
       then (* log any insert changes to stdout *)
         ("hashdb changes (insert):", None)
         :: counter_line "    hashes inserted=" (hashes_inserted c)
         ++ counter_line "    hashes not inserted, mismatched hash block size="
              (hashes_not_inserted_mismatched_hash_block_size c)
         ++ counter_line "    hashes not inserted, invalid byte alignment="
              (hashes_not_inserted_invalid_byte_alignment c)
         ++ counter_line "    hashes not inserted, exceeds max duplicates="
              (hashes_not_inserted_exceeds_max_duplicates c)
         ++ counter_line "    hashes not inserted, duplicate element="
              (hashes_not_inserted_duplicate_element c)
       else [])
   ++ (if has_remove_action
       then (* log any remove changes to stdout *)
         ("hashdb changes (remove):", None)
         :: counter_line "    hashes removed=" (hashes_removed c)
         ++ counter_line "    hashes not removed, mismatched hash block size="
              (hashes_not_removed_mismatched_hash_block_size c)
         ++ counter_line "    hashes not removed, invalid byte alignment="
              (hashes_not_removed_invalid_byte_alignment c)
         ++ counter_line "    hashes not removed, no hash="
              (hashes_not_removed_no_hash c)
         ++ counter_line "    hashes not removed, no element="
              (hashes_not_removed_no_element c)
       else []))%list.

End Report.

(** ** The JSON import *)

Module ImportJson.

(** A [rapidjson::Value]. *)
#[warnings="-register-all"] Inductive json :=
| JNull
| JBool (b : bool)
| JUint64 (n : N)          (* a number for which IsUint64() holds *)
| JNumber (text : string)  (* any other number *)
| JString (s : string)
| JArray (items : list json)
| JObject (members : list (string * json)).

(** What the calls of a reader do, in the order in which they happen. *)
Inductive event :=
| report_invalid_line (field line : string)
| insert_source_data (file_binary_hash : string) (filesize : N)
    (file_type : string) (nonprobative_count : N)
| insert_source_name (file_binary_hash repository_name filename : string)
| insert_hash (binary_hash file_binary_hash : string) (file_offset : N)
    (entropy : N) (block_label : string)
| assertion_failure.

(** [HasMember] and [operator[]] on an object. *)
Fixpoint member (name : string) (members : list (string * json))
  : option json :=
  match members with
  | [] => None
  | (n, v) :: rest => if (n =? name)%string then Some v else member name rest
  end.

(** [GetString()] is a [const char*]: the [std::string] made from it stops
    at the first zero byte. *)
Fixpoint c_str (s : string) : string :=
  match s with
  | "" => ""
  | String c rest =>
      if (N_of_ascii c =? 0)%N then "" else String c (c_str rest)
  end.

Section Readers.

(** [hex_to_bin] is not among the sources. *)
Variable hex_to_bin : string -> string.

(** The optional members. *)
Definition optional_string (name : string) (members : list (string * json))
  : string :=
  match member name members with
  | Some (JString s) => c_str s
  | _ => ""
  end.

Definition optional_uint64 (name : string) (members : list (string * json))
  : N :=
  match member name members with
  | Some (JUint64 n) => n
  | _ => 0%N
  end.

(** The loop of [read_source_data] over the array of names. *)
Fixpoint read_names (file_binary_hash line : string) (json_names : list json)
  : list event :=
  match json_names with
  | [] => []
  | JObject name :: rest =>
      (* parse repository_name *)
      match member "repository_name" name with
      | Some (JString repository_name) =>
          (* parse filename *)
          match member "filename" name with
          | Some (JString filename) =>
              (* add the name pair *)
              insert_source_name file_binary_hash
                (c_str repository_name) (c_str filename)
              :: read_names file_binary_hash line rest
          | _ => [report_invalid_line "source data filename" line]
          end
      | _ => [report_invalid_line "source data repository_name" line]
      end
  | _ :: _ =>
      (* HasMember on a value that is not an object *)
      [assertion_failure]
  end.

Definition read_source_data (document : list (string * json))
    (line : string) : list event :=
  (* parse file_hash *)
  match member "file_hash" document with
  | Some (JString file_hash) =>
      let file_binary_hash := hex_to_bin (c_str file_hash) in
      (* parse filesize *)
      match member "filesize" document with
      | Some (JUint64 filesize) =>
          (* parse file_type (optional) *)
          let file_type := optional_string "file_type" document in
          (* parse nonprobative_count (optional) *)
          let nonprobative_count :=
            optional_uint64 "nonprobative_count" document in
          (* add the source data *)
          insert_source_data file_binary_hash filesize file_type
            nonprobative_count
          :: (* parse names:[] *)
             match member "names" document with
             | Some (JArray json_names) =>
                 read_names file_binary_hash line json_names
             | _ => [report_invalid_line "source data names" line]
             end
      | _ => [report_invalid_line "source data filesize" line]
      end
  | _ => [report_invalid_line "source data file_hash" line]
  end.

(** The loop of [read_block_hash_data]:
    [for (i = 0; i+1 < json_pairs.Size(); i += 2)]. *)
Fixpoint read_pairs (binary_hash : string) (entropy : N)
    (block_label line : string) (json_pairs : list json) : list event :=
  match json_pairs with
  | source_hash :: offset :: rest =>
      match source_hash with
      | JString file_hash =>
          let file_binary_hash := hex_to_bin (c_str file_hash) in
          match offset with
          | JUint64 file_offset =>
              (* insert the hash *)
              insert_hash binary_hash file_binary_hash file_offset
                entropy block_label
              :: read_pairs binary_hash entropy block_label line rest
          | _ =>
              [report_invalid_line
                 "block hash data source_offset_pair file offset" line]
          end
      | _ =>
          [report_invalid_line
             "block hash data source_offset_pair source hash" line]
      end
  | _ => []
  end.

Definition read_block_hash_data (document : list (string * json))
    (line : string) : list event :=
  (* block_hash *)
  match member "block_hash" document with
  | Some (JString block_hash) =>
      let binary_hash := hex_to_bin (c_str block_hash) in
      (* entropy (optional) *)
      let entropy := optional_uint64 "entropy" document in
      (* block_label (optional) *)
      let block_label := optional_string "block_label" document in
      (* source_offset_pairs:[] *)
      match member "source_offset_pairs" document with
      | Some (JArray json_pairs) =>
          read_pairs binary_hash entropy block_label line json_pairs
      | _ =>
          [report_invalid_line "block hash data source_offset_pairs" line]
      end
  | _ => [report_invalid_line "block hash data block_hash" line]
  end.

End Readers.

(** The (repository name, filename) of an element of the array of names
    that has both as strings. *)
Definition name_pair (v : json) : option (string * string) :=
  match v with
  | JObject name =>
      match member "repository_name" name, member "filename" name with
      | Some (JString r), Some (JString f) => Some (c_str r, c_str f)
      | _, _ => None
      end
  | _ => None
  end.

(** The (file hash, offset) pairs as they lie in the array of a block-hash
    record. *)
Fixpoint source_offset_pairs (pairs : list (string * N)) : list json :=
  match pairs with
  | [] => []
  | (file_hash, file_offset) :: rest =>
      JString file_hash :: JUint64 file_offset :: source_offset_pairs rest
  end.

(** The events that change the database. *)
Definition is_insert (e : event) : bool :=
  match e with
  | insert_source_data _ _ _ _ | insert_source_name _ _ _
  | insert_hash _ _ _ _ _ => true
  | _ => false
  end.

Definition is_report (e : event) : bool :=
  match e with
  | report_invalid_line _ _ => true
  | _ => false
  end.

End ImportJson.

(** ** The lines of a JSON import *)

Module ImportLines.

Import ImportJson.

Section Lines.

(** [hex_to_bin] and the parser of rapidjson are not among the sources.
    [parse text] is the DOM of [text], [None] when [Parse] has a parse
    error. *)
Variable hex_to_bin : string -> string.
Variable parse : string -> option json.

(** [line[0] == '#'] or [line.size() == 0]: the lines that [read_lines]
    skips. *)
Definition is_skipped (line : string) : bool :=
  match line with
  | String c _ => (N_of_ascii c =? 35)%N
  | "" => true
  end.

(** The body of the loop of [read_lines] after [++line_number]: what one
    line makes the reader do. *)
Definition read_line (line : string) : list event :=
  (* skip comment lines, skip empty lines *)
  if is_skipped line then [] else
  (* open the line as a JSON DOM document *)
  match parse (c_str line) with
  | Some (JObject document) =>
      (* import JSON *)
      match member "file_hash" document with
      | Some _ => read_source_data hex_to_bin document line
      | None =>
          match member "block_hash" document with
          | Some _ => read_block_hash_data hex_to_bin document line
          | None =>
              [report_invalid_line "no file_hash or block_hash" line]
          end
      end
  | _ => [report_invalid_line "DOM parse error" line]
  end.

(** The program stops at a failed assertion. *)
Definition aborted (events : list event) : bool :=
  existsb (fun e => match e with assertion_failure => true | _ => false end)
    events.

(** [read_lines] on the lines that [getline] yields; [line_number] is a
    [size_t].  Every event carries the line number that
    [report_invalid_line] would print for it. *)
Fixpoint read_lines (line_number : N) (lines : list string)
  : list (N * event) :=
  match lines with
  | [] => []
  | line :: rest =>
      let line_number := ((line_number + 1) mod 2 ^ 64)%N in
      let events := read_line line in
      (map (pair line_number) events
       ++ (if aborted events then [] else read_lines line_number rest))%list
  end.

(** [read]: a new reader, whose line number is zero, reads the lines. *)
Definition read (lines : list string) : list (N * event) :=
  read_lines 0 lines.

End Lines.

End ImportLines.

(** ** Concrete inputs *)

Module Scenario.

(** Prefix bits 16, suffix bytes 14. *)
Definition manager_16_14 : HashStore.lmdb_hash_manager_t :=
  {| HashStore.prefix_bytes := 2; HashStore.prefix_mask := 255;
     HashStore.suffix_bytes := 14 |}.

Definition no_changes : HashStore.lmdb_changes_t :=
  {| HashStore.hash_inserted := 0; HashStore.hash_already_present := 0 |}.

(** Sixteen bytes, all [b]. *)
Definition hash16 (b : N) : string := bytes (repeat b 16).

Definition settings_512 : HashData.hashdb_settings_t :=
  {| HashData.sector_size := 512; HashData.hash_truncation := 0 |}.

Definition bloom_28_3 : Bloom.bloom_filter_manager_t :=
  {| Bloom.bloom_is_used := true; Bloom.bloom_M := 2 ^ 28;
     Bloom.bloom_k := 3; Bloom.bits := ∅ |}.

Definition new_state : HashData.state_t :=
  {| HashData.env := [];
     HashData.bloom_filter_manager := bloom_28_3;
     HashData.changes := Changes.new_hashdb_changes_t |}.

Definition entry (h : string) (offset : N) : HashData.hash_data_t :=
  {| HashData.binary_hash := h; HashData.file_offset := offset |}.

(** An element of block size 4096 found at offset 0 of the file [name] in
    the repository [repository]. *)
Definition element (h : string) (repository : string)
  : Commands.hashdb_element_t :=
  {| Commands.key := h; Commands.hash_block_size := 4096;
     Commands.repository_name := repository; Commands.filename := "file";
     Commands.file_offset := 0 |}.

Definition database (dir : string) (l : list Commands.hashdb_element_t)
  : Commands.hashdb_manager_t :=
  {| Commands.hashdb_dir := dir; Commands.settings_hash_block_size := 4096;
     Commands.elements := l |}.

(** A with the hashes H1, H2, H3 and B with the hashes H2, H3, H4. *)
Definition A123 : Commands.hashdb_manager_t :=
  database "A" [element (hash16 1) "a"; element (hash16 2) "a";
                element (hash16 3) "a"].

Definition B234 : Commands.hashdb_manager_t :=
  database "B" [element (hash16 2) "b"; element (hash16 3) "b";
                element (hash16 4) "b"].

(** A with the hashes H1, H3, H5. *)
Definition A135 : Commands.hashdb_manager_t :=
  database "A" [element (hash16 1) "a"; element (hash16 3) "a";
                element (hash16 5) "a"].

Definition C_new : Commands.hashdb_manager_t := Commands.create 4096 "C".

End Scenario.

(** * Proofs *)

(** ** Strings *)

Lemma string_app_cons (x : ascii) (a b : string) :
  String x a +:+ b = String x (a +:+ b).
Proof. reflexivity. Qed.

Lemma string_app_nil_l (b : string) : "" +:+ b = b.
Proof. reflexivity. Qed.

Lemma string_app_assoc (a b c : string) : (a +:+ b) +:+ c = a +:+ (b +:+ c).
Proof.
  induction a as [|x a IH]; [reflexivity|].
  now rewrite !string_app_cons, IH.
Qed.

Lemma string_app_nil_r (a : string) : a +:+ "" = a.
Proof.
  induction a as [|x a IH]; [reflexivity|].
  now rewrite string_app_cons, IH.
Qed.

Lemma string_length_app (a b : string) :
  String.length (a +:+ b) = (String.length a + String.length b)%nat.
Proof.
  induction a as [|x a IH]; [reflexivity|].
  rewrite string_app_cons. simpl. now rewrite IH.
Qed.

Lemma substring_all (s : string) : substring 0 (String.length s) s = s.
Proof. induction s as [|x s IH]; simpl; [reflexivity | now rewrite IH]. Qed.

Lemma substring_app_l (a b : string) :
  substring 0 (String.length a) (a +:+ b) = a.
Proof.
  induction a as [|x a IH].
  - now destruct b.
  - rewrite string_app_cons. simpl. now rewrite IH.
Qed.

Lemma substring_app_r (a b : string) :
  substring (String.length a) (String.length b) (a +:+ b) = b.
Proof.
  induction a as [|x a IH]; [apply substring_all|].
  rewrite string_app_cons. exact IH.
Qed.

(** ** The codec *)

Lemma uint8_embedding (n : N) : (n < 256)%N -> N_of_ascii (Codec.uint8 n) = n.
Proof.
  intros Hn. unfold Codec.uint8.
  rewrite N.mod_small by exact Hn. now apply N_ascii_embedding.
Qed.

Lemma decode_encode_varint (fuel : nat) : forall (value : N) (rest : string),
  (value < 2 ^ N.of_nat fuel * 128)%N ->
  Codec.decode_uint64_t (Codec.encode_varint fuel value +:+ rest)
  = Some (value, rest).
Proof.
  induction fuel as [|fuel IH]; intros value rest Hv.
  - simpl in Hv. cbn [Codec.encode_varint].
    rewrite string_app_cons, string_app_nil_l. cbn [Codec.decode_uint64_t].
    rewrite uint8_embedding by lia.
    destruct (N.ltb_spec value 128); [reflexivity | lia].
  - cbn [Codec.encode_varint].
    destruct (N.ltb_spec value 128) as [Hs|Hb].
    + rewrite string_app_cons, string_app_nil_l. cbn [Codec.decode_uint64_t].
      rewrite uint8_embedding by lia.
      destruct (N.ltb_spec value 128); [reflexivity | lia].
    + rewrite string_app_cons. cbn [Codec.decode_uint64_t].
      pose proof (N.div_mod value 128 ltac:(lia)) as Hdm.
      assert (Hm : (value mod 128 < 128)%N) by (apply N.mod_lt; lia).
      assert (Hq : (value / 128 < 2 ^ N.of_nat fuel * 128)%N).
      { apply N.Div0.div_lt_upper_bound.
        rewrite Nat2N.inj_succ, N.pow_succ_r' in Hv.
        revert Hv. generalize (2 ^ N.of_nat fuel)%N. intros; lia. }
      revert Hdm Hm Hq.
      generalize (value mod 128)%N (value / 128)%N. intros r q Hdm Hm Hq.
      rewrite uint8_embedding by lia.
      destruct (N.ltb_spec (r + 128) 128) as [?|_]; [lia|].
      rewrite IH by exact Hq.
      f_equal. f_equal. lia.
Qed.

Lemma decode_encode_uint64_t (value : N) (rest : string) :
  Codec.decode_uint64_t (Codec.encode_uint64_t value +:+ rest)
  = Some (value, rest).
Proof.
  apply decode_encode_varint.
  destruct (N.eq_dec value 0%N) as [->|Hnz].
  - simpl. lia.
  - rewrite N2Nat.id.
    destruct (N.log2_spec value ltac:(lia)) as [_ Hlt].
    rewrite N.pow_succ_r' in Hlt. lia.
Qed.

Lemma decode_encode_string (text rest : string) :
  Codec.decode_string (Codec.encode_string text +:+ rest) = Some (text, rest).
Proof.
  unfold Codec.decode_string, Codec.encode_string.
  rewrite string_app_assoc, decode_encode_uint64_t.
  rewrite string_length_app.
  destruct (N.leb_spec (N.of_nat (String.length text))
              (N.of_nat (String.length text + String.length rest))); [|lia].
  rewrite Nat2N.id, substring_app_l.
  replace (String.length text + String.length rest - String.length text)%nat
    with (String.length rest) by lia.
  now rewrite substring_app_r.
Qed.

(** ** The order of [std::string] and [std::set<std::string>] *)

Lemma ascii_compare_refl (a : ascii) : Ascii.compare a a = Eq.
Proof. apply N.compare_refl. Qed.

Lemma ascii_compare_lt_trans (a b c : ascii) :
  Ascii.compare a b = Lt -> Ascii.compare b c = Lt -> Ascii.compare a c = Lt.
Proof.
  unfold Ascii.compare. rewrite !N.compare_lt_iff. apply N.lt_trans.
Qed.

Lemma string_compare_refl (s : string) : String.compare s s = Eq.
Proof.
  induction s as [|a s IH]; simpl; [reflexivity|].
  now rewrite ascii_compare_refl.
Qed.

Lemma string_compare_eq (a b : string) : String.compare a b = Eq <-> a = b.
Proof.
  split; [apply String.compare_eq_iff | intros ->; apply string_compare_refl].
Qed.

Lemma string_compare_gt_lt (a b : string) :
  String.compare a b = Gt <-> String.compare b a = Lt.
Proof.
  rewrite (String.compare_antisym a b).
  destruct (String.compare b a); simpl; split; congruence.
Qed.

Lemma string_lt_trans (a b c : string) :
  StringSet.lt a b -> StringSet.lt b c -> StringSet.lt a c.
Proof.
  unfold StringSet.lt. revert b c.
  induction a as [|x a IH]; intros [|y b] [|z c]; simpl; try congruence.
  destruct (Ascii.compare x y) eqn:Hxy; try discriminate.
  - apply Ascii.compare_eq_iff in Hxy; subst y.
    destruct (Ascii.compare x z); try congruence. apply IH.
  - intros _. destruct (Ascii.compare y z) eqn:Hyz; try discriminate.
    + apply Ascii.compare_eq_iff in Hyz; subst z. now rewrite Hxy.
    + now rewrite (ascii_compare_lt_trans _ _ _ Hxy Hyz).
Qed.

Lemma string_lt_irrefl (a : string) : ~ StringSet.lt a a.
Proof. unfold StringSet.lt. now rewrite string_compare_refl. Qed.

Lemma set_find_insert_same (s : string) (strings : StringSet.t) :
  StringSet.find s (StringSet.insert s strings) = true.
Proof.
  induction strings as [|x rest IH]; simpl.
  - now rewrite string_compare_refl.
  - destruct (String.compare s x) eqn:Hc; simpl.
    + now rewrite Hc.
    + now rewrite string_compare_refl.
    + now rewrite Hc.
Qed.

Lemma set_find_insert_mono (s s' : string) (strings : StringSet.t) :
  StringSet.find s strings = true ->
  StringSet.find s (StringSet.insert s' strings) = true.
Proof.
  induction strings as [|x rest IH]; simpl; [discriminate|].
  destruct (String.compare s x) eqn:Hsx; try discriminate; intros Hf.
  - apply String.compare_eq_iff in Hsx; subst x.
    destruct (String.compare s' s) eqn:Hc; simpl.
    + apply String.compare_eq_iff in Hc; subst s'.
      now rewrite string_compare_refl.
    + apply string_compare_gt_lt in Hc. rewrite Hc.
      now rewrite string_compare_refl.
    + now rewrite string_compare_refl.
  - destruct (String.compare s' x) eqn:Hc; simpl.
    + now rewrite Hsx.
    + assert (Hlt : StringSet.lt s' s).
      { apply string_lt_trans with x; [exact Hc|].
        now apply string_compare_gt_lt. }
      apply string_compare_gt_lt in Hlt. now rewrite Hlt, Hsx.
    + rewrite Hsx. now apply IH.
Qed.

(** Membership in the list is what [find] decides on an ascending list. *)
Lemma set_find_In (s : string) (strings : StringSet.t) :
  StringSet.ascending strings ->
  StringSet.find s strings = true <-> In s strings.
Proof.
  induction 1 as [|x rest Hs IH Hx]; simpl; [split; [discriminate | tauto]|].
  destruct (String.compare s x) eqn:Hc.
  - apply String.compare_eq_iff in Hc. subst. tauto.
  - split; [discriminate|]. intros [->|Hin].
    + now rewrite string_compare_refl in Hc.
    + rewrite List.Forall_forall in Hx. specialize (Hx _ Hin).
      exfalso. apply (string_lt_irrefl s).
      now apply string_lt_trans with x.
  - rewrite IH. split; [tauto|]. intros [->|Hin]; [|exact Hin].
    now rewrite string_compare_refl in Hc.
Qed.

Lemma set_In_insert (s x : string) (strings : StringSet.t) :
  In x (StringSet.insert s strings) <-> x = s \/ In x strings.
Proof.
  induction strings as [|y rest IH]; simpl; [intuition congruence|].
  destruct (String.compare s y) eqn:Hc; simpl.
  - apply String.compare_eq_iff in Hc. subst. intuition congruence.
  - intuition congruence.
  - rewrite IH. intuition congruence.
Qed.

Lemma set_insert_ascending (s : string) (strings : StringSet.t) :
  StringSet.ascending strings ->
  StringSet.ascending (StringSet.insert s strings).
Proof.
  induction 1 as [|x rest Hs IH Hx]; simpl.
  - repeat constructor.
  - destruct (String.compare s x) eqn:Hc.
    + now constructor.
    + constructor; [now constructor|].
      constructor; [exact Hc|].
      eapply List.Forall_impl; [|exact Hx].
      intros y Hy. now apply string_lt_trans with x.
    + constructor; [exact IH|].
      rewrite List.Forall_forall. intros y Hy.
      apply set_In_insert in Hy as [->|Hy].
      * now apply string_compare_gt_lt.
      * rewrite List.Forall_forall in Hx. now apply Hx.
Qed.

Lemma set_insert_last (s : string) (strings : StringSet.t) :
  Forall (fun x => StringSet.lt x s) strings ->
  StringSet.insert s strings = (strings ++ [s])%list.
Proof.
  induction 1 as [|x rest Hx _ IH]; simpl; [reflexivity|].
  apply string_compare_gt_lt in Hx. now rewrite Hx, IH.
Qed.

Lemma ascending_app_inv (l1 l2 : StringSet.t) :
  StringSet.ascending (l1 ++ l2)%list ->
  forall x y, In x l1 -> In y l2 -> StringSet.lt x y.
Proof.
  induction l1 as [|a l1 IH]; simpl; [tauto|].
  intros Hs x y [->|Hx] Hy; inversion Hs; subst.
  - match goal with H : Forall _ _ |- _ => rewrite List.Forall_forall in H;
      apply H end.
    apply in_or_app. now right.
  - now apply IH.
Qed.

Lemma set_insert_all_ascending (l acc : StringSet.t) :
  StringSet.ascending (acc ++ l)%list ->
  fold_left (fun a s => StringSet.insert s a) l acc = (acc ++ l)%list.
Proof.
  revert acc. induction l as [|s l IH]; intros acc Hs; simpl.
  - now rewrite app_nil_r.
  - rewrite set_insert_last.
    + rewrite IH; rewrite <- app_assoc; [reflexivity | exact Hs].
    + rewrite List.Forall_forall. intros x Hx.
      apply (ascending_app_inv _ _ Hs x s Hx). now left.
Qed.

Lemma set_insert_all_keeps_ascending (l acc : StringSet.t) :
  StringSet.ascending acc ->
  StringSet.ascending (fold_left (fun a s => StringSet.insert s a) l acc).
Proof.
  revert acc. induction l as [|s l IH]; intros acc Hs; simpl; [exact Hs|].
  apply IH. now apply set_insert_ascending.
Qed.

(** ** [encode_data] and [decode_data] *)

Lemma encode_loop_app (l : StringSet.t) (enc : string) :
  HashStore.encode_loop l enc = enc +:+ HashStore.encode_loop l "".
Proof.
  revert enc. induction l as [|s l IH]; intros enc; simpl.
  - now rewrite string_app_nil_r.
  - rewrite IH, (IH ("" +:+ _)), string_app_nil_l. apply string_app_assoc.
Qed.

Lemma encode_loop_cons (s : string) (l : StringSet.t) :
  HashStore.encode_loop (s :: l) ""
  = Codec.encode_string s +:+ HashStore.encode_loop l "".
Proof. simpl. now rewrite encode_loop_app, string_app_nil_l. Qed.

Lemma encode_varint_cons (fuel : nat) (value : N) :
  exists c r, Codec.encode_varint fuel value = String c r.
Proof. destruct fuel; simpl; [|destruct (_ <? _)%N]; eauto. Qed.

Lemma encode_string_cons (s : string) :
  exists c r, Codec.encode_string s = String c r.
Proof.
  unfold Codec.encode_string, Codec.encode_uint64_t.
  destruct (encode_varint_cons (N.to_nat (N.log2 (N.of_nat (String.length s))))
              (N.of_nat (String.length s))) as (c & r & ->).
  rewrite string_app_cons. eauto.
Qed.

Lemma length_encode_loop (l : StringSet.t) :
  (List.length l <= String.length (HashStore.encode_loop l ""))%nat.
Proof.
  induction l as [|s l IH]; [simpl; lia|].
  rewrite encode_loop_cons, string_length_app.
  destruct (encode_string_cons s) as (c & r & ->). simpl. lia.
Qed.

Lemma decode_loop_encode_loop (l : StringSet.t) :
  forall (fuel : nat) (acc : StringSet.t),
  (List.length l <= fuel)%nat ->
  HashStore.decode_loop fuel (HashStore.encode_loop l "") acc
  = Some (StringSet.insert_list l acc, "").
Proof.
  induction l as [|s l IH]; intros fuel acc Hf.
  - now destruct fuel.
  - destruct fuel as [|fuel]; [simpl in Hf; lia|].
    rewrite encode_loop_cons.
    destruct (encode_string_cons s) as (c & r & Hs).
    pose proof (decode_encode_string s (HashStore.encode_loop l "")) as Hd.
    rewrite Hs, string_app_cons in *. cbn [HashStore.decode_loop].
    rewrite Hd. apply IH. simpl in Hf. lia.
Qed.

Lemma decode_data_encode_loop (l : StringSet.t) :
  HashStore.decode_data (HashStore.encode_loop l "")
  = Some (StringSet.insert_list l []).
Proof.
  unfold HashStore.decode_data.
  now rewrite decode_loop_encode_loop by apply length_encode_loop.
Qed.

Lemma decode_data_encode_ascending (l : StringSet.t) :
  StringSet.ascending l ->
  HashStore.decode_data (HashStore.encode_loop l "") = Some l.
Proof.
  intros Hl. rewrite decode_data_encode_loop. f_equal.
  unfold StringSet.insert_list. now rewrite set_insert_all_ascending.
Qed.

Lemma encode_data_Some (l : StringSet.t) (enc : string) :
  HashStore.encode_data l = Some enc -> enc = HashStore.encode_loop l "".
Proof.
  unfold HashStore.encode_data. destruct (_ <=? _)%nat; congruence.
Qed.

Lemma decode_loop_ascending (fuel : nat) :
  forall (p : string) (acc strings : StringSet.t) (rest : string),
  HashStore.decode_loop fuel p acc = Some (strings, rest) ->
  StringSet.ascending acc -> StringSet.ascending strings.
Proof.
  induction fuel as [|fuel IH]; intros p acc strings rest.
  - destruct p; simpl; intros [= <- <-]; auto.
  - destruct p as [|c p]; [simpl; intros [= <- <-]; auto|].
    cbn [HashStore.decode_loop].
    destruct (Codec.decode_string (String c p)) as [[s p']|]; [|discriminate].
    intros Hd Ha. eapply IH; [exact Hd|]. now apply set_insert_ascending.
Qed.

Lemma decode_data_ascending (enc : string) (strings : StringSet.t) :
  HashStore.decode_data enc = Some strings -> StringSet.ascending strings.
Proof.
  unfold HashStore.decode_data.
  destruct (HashStore.decode_loop _ _ _) as [[ss [|c r]]|] eqn:Hd;
    try discriminate.
  intros [= <-]. eapply decode_loop_ascending; [exact Hd | constructor].
Qed.

(** Every turn of the loop of [decode_data] reads at least one byte: the
    loop never stops for lack of turns. *)
Lemma decode_uint64_t_shorter (p : string) :
  forall (v : N) (rest : string),
  Codec.decode_uint64_t p = Some (v, rest) ->
  (String.length rest < String.length p)%nat.
Proof.
  induction p as [|c p IH]; intros v rest; simpl; [discriminate|].
  destruct (_ <? _)%N.
  - intros [= _ <-]. lia.
  - destruct (Codec.decode_uint64_t p) as [[v' r']|]; [|discriminate].
    intros [= _ <-]. specialize (IH _ _ eq_refl). lia.
Qed.

Lemma length_substring (n m : nat) (s : string) :
  (n + m <= String.length s)%nat -> String.length (substring n m s) = m.
Proof.
  revert n m. induction s as [|c s IH]; intros [|n] [|m]; simpl; try lia.
  - intros H. rewrite IH; lia.
  - intros H. apply IH. lia.
  - intros H. apply IH. lia.
Qed.

Lemma decode_string_shorter (p s rest : string) :
  Codec.decode_string p = Some (s, rest) ->
  (String.length rest < String.length p)%nat.
Proof.
  unfold Codec.decode_string.
  destruct (Codec.decode_uint64_t p) as [[v r]|] eqn:Hd; [|discriminate].
  apply decode_uint64_t_shorter in Hd.
  destruct (N.leb_spec v (N.of_nat (String.length r))); [|discriminate].
  intros [= _ <-]. rewrite length_substring; lia.
Qed.

Lemma decode_loop_fuel (fuel1 : nat) :
  forall (fuel2 : nat) (p : string) (acc : StringSet.t),
  (String.length p <= fuel1)%nat -> (String.length p <= fuel2)%nat ->
  HashStore.decode_loop fuel1 p acc = HashStore.decode_loop fuel2 p acc.
Proof.
  induction fuel1 as [|fuel1 IH]; intros fuel2 p acc H1 H2.
  - destruct p; [now destruct fuel2 | simpl in H1; lia].
  - destruct p as [|c p]; [now destruct fuel2|].
    destruct fuel2 as [|fuel2]; [simpl in H2; lia|].
    cbn [HashStore.decode_loop].
    destruct (Codec.decode_string (String c p)) as [[s p']|] eqn:Hd;
      [|reflexivity].
    apply decode_string_shorter in Hd. simpl in Hd, H1, H2.
    apply IH; lia.
Qed.

(** ** The hash store: [insert] then [find] *)

Lemma length_eqb_0 (s : string) :
  (String.length s =? 0)%nat = true <-> s = "".
Proof. destruct s; simpl; split; congruence. Qed.

Lemma decode_data_encode_insert (S : string) (strings : StringSet.t)
    (encoding : string) :
  StringSet.ascending strings ->
  HashStore.encode_data (StringSet.insert S strings) = Some encoding ->
  HashStore.decode_data encoding = Some (StringSet.insert S strings).
Proof.
  intros Ha He. apply encode_data_Some in He. subst encoding.
  apply decode_data_encode_ascending. now apply set_insert_ascending.
Qed.

Lemma ascending_nil : StringSet.ascending [].
Proof. constructor. Qed.

Lemma find_after_insert (m : HashStore.lmdb_hash_manager_t)
    (binary_hash : string) (env env' : gmap string string)
    (changes changes' : HashStore.lmdb_changes_t) :
  HashStore.insert m binary_hash env changes = Some (env', changes') ->
  HashStore.find m binary_hash env' = Some true.
Proof.
  unfold HashStore.insert, HashStore.find.
  destruct (String.length binary_hash =? 0)%nat; [discriminate|].
  destruct (HashStore.hash_pair m binary_hash) as [P S]. cbn [fst snd].
  destruct (env !! P) as [encoding|] eqn:HP.
  - destruct (HashStore.decode_data encoding) as [strings|] eqn:Hd;
      [|discriminate].
    destruct (StringSet.find S strings) eqn:Hf.
    + intros [= <- _]. now rewrite HP, Hd, Hf.
    + destruct (HashStore.encode_data _) as [encoding'|] eqn:He;
        [|discriminate].
      intros [= <- _]. rewrite lookup_insert_eq.
      rewrite (decode_data_encode_insert _ _ _
                 (decode_data_ascending _ _ Hd) He).
      now rewrite set_find_insert_same.
  - destruct (HashStore.encode_data _) as [encoding|] eqn:He; [|discriminate].
    intros [= <- _]. rewrite lookup_insert_eq.
    rewrite (decode_data_encode_insert _ _ _ ascending_nil He).
    now rewrite set_find_insert_same.
Qed.

Lemma find_mono (m : HashStore.lmdb_hash_manager_t)
    (H H' : string) (env env' : gmap string string)
    (changes changes' : HashStore.lmdb_changes_t) :
  HashStore.find m H env = Some true ->
  HashStore.insert m H' env changes = Some (env', changes') ->
  HashStore.find m H env' = Some true.
Proof.
  unfold HashStore.insert, HashStore.find.
  destruct (String.length H =? 0)%nat; [discriminate|].
  destruct (String.length H' =? 0)%nat; [discriminate|].
  destruct (HashStore.hash_pair m H) as [P S].
  destruct (HashStore.hash_pair m H') as [P' S']. cbn [fst snd].
  destruct (env !! P) as [e|] eqn:HP; [|discriminate].
  destruct (HashStore.decode_data e) as [ss|] eqn:Hd; [|discriminate].
  intros [= Hf].
  destruct (env !! P') as [e'|] eqn:HP'.
  - destruct (HashStore.decode_data e') as [ss'|] eqn:Hd'; [|discriminate].
    destruct (StringSet.find S' ss') eqn:Hf'.
    + intros [= <- _]. now rewrite HP, Hd, Hf.
    + destruct (HashStore.encode_data _) as [e''|] eqn:He; [|discriminate].
      intros [= <- _]. destruct (decide (P' = P)) as [->|Hne].
      * rewrite lookup_insert_eq.
        rewrite (decode_data_encode_insert _ _ _
                   (decode_data_ascending _ _ Hd') He).
        assert (ss' = ss) by congruence. subst ss'.
        now rewrite set_find_insert_mono.
      * rewrite lookup_insert_ne by exact Hne. now rewrite HP, Hd, Hf.
  - destruct (HashStore.encode_data _) as [e''|] eqn:He; [|discriminate].
    intros [= <- _]. rewrite lookup_insert_ne by congruence.
    now rewrite HP, Hd, Hf.
Qed.

Lemma insert_counts (m : HashStore.lmdb_hash_manager_t)
    (H : string) (env env' : gmap string string)
    (c c' : HashStore.lmdb_changes_t) :
  HashStore.insert m H env c = Some (env', c') ->
  (HashStore.hash_inserted c' = HashStore.hash_inserted c + 1 /\
   HashStore.hash_already_present c' = HashStore.hash_already_present c)%N
  \/
  (HashStore.hash_inserted c' = HashStore.hash_inserted c /\
   HashStore.hash_already_present c'
   = HashStore.hash_already_present c + 1 /\ env' = env)%N.
Proof.
  unfold HashStore.insert.
  destruct (String.length H =? 0)%nat; [discriminate|].
  destruct (env !! _) as [e|].
  - destruct (HashStore.decode_data e) as [ss|]; [|discriminate].
    destruct (StringSet.find _ ss).
    + intros [= <- <-]. right. auto.
    + destruct (HashStore.encode_data _); [|discriminate].
      intros [= <- <-]. left. auto.
  - destruct (HashStore.encode_data _); [|discriminate].
    intros [= <- <-]. left. auto.
Qed.

Lemma find_after_insert_all (m : HashStore.lmdb_hash_manager_t)
    (hashes : list string) :
  forall (env env' : gmap string string)
         (c c' : HashStore.lmdb_changes_t) (H : string),
  HashStore.insert_all m hashes env c = Some (env', c') ->
  In H hashes \/ HashStore.find m H env = Some true ->
  HashStore.find m H env' = Some true.
Proof.
  induction hashes as [|h rest IH]; intros env env' c c' H; simpl.
  - intros [= <- _] [[]|Hf]. exact Hf.
  - destruct (HashStore.insert m h env c) as [[env1 c1]|] eqn:Hi;
      [|discriminate].
    intros Hall Hin. apply (IH _ _ _ _ _ Hall).
    destruct Hin as [[->|Hin]|Hf].
    + right. eapply find_after_insert; eauto.
    + now left.
    + right. eapply find_mono; eauto.
Qed.

Lemma insert_all_counts (m : HashStore.lmdb_hash_manager_t)
    (hashes : list string) :
  forall (env env' : gmap string string) (c c' : HashStore.lmdb_changes_t),
  HashStore.insert_all m hashes env c = Some (env', c') ->
  (HashStore.hash_inserted c' + HashStore.hash_already_present c'
   = HashStore.hash_inserted c + HashStore.hash_already_present c
     + N.of_nat (List.length hashes))%N.
Proof.
  induction hashes as [|h rest IH]; intros env env' c c'; simpl.
  - intros [= _ <-]. lia.
  - destruct (HashStore.insert m h env c) as [[env1 c1]|] eqn:Hi;
      [|discriminate].
    intros Hall. apply IH in Hall. apply insert_counts in Hi. lia.
Qed.

(** ** The hash store: what the environment holds *)

Lemma env_repr_empty : HashStore.env_repr ∅ [].
Proof. intros P. rewrite lookup_empty. intros S []. Qed.

Lemma env_repr_lookup (env : gmap string string)
    (pairs : list (string * string)) (P encoding : string) :
  HashStore.env_repr env pairs ->
  env !! P = Some encoding ->
  exists strings,
    StringSet.ascending strings /\
    HashStore.decode_data encoding = Some strings /\
    forall S, In S strings <-> In (P, S) pairs.
Proof.
  intros Hr HP. specialize (Hr P). rewrite HP in Hr.
  destruct Hr as (ss & Ha & -> & Hin). exists ss.
  split; [exact Ha|]. split; [|exact Hin].
  now apply decode_data_encode_ascending.
Qed.

Lemma env_repr_insert (env : gmap string string)
    (pairs : list (string * string)) (P S encoding : string)
    (strings : StringSet.t) :
  HashStore.env_repr env pairs ->
  StringSet.ascending strings ->
  (forall S0, In S0 strings <-> In (P, S0) pairs) ->
  HashStore.encode_data (StringSet.insert S strings) = Some encoding ->
  HashStore.env_repr (<[P := encoding]> env) ((P, S) :: pairs).
Proof.
  intros Hr Ha Hin He P0. apply encode_data_Some in He.
  destruct (decide (P = P0)) as [<-|Hne].
  - rewrite lookup_insert_eq. exists (StringSet.insert S strings).
    split; [now apply set_insert_ascending|]. split; [exact He|].
    intros S0. rewrite set_In_insert, Hin. simpl.
    split; (intros [Heq|Hp]; [left; congruence | now right]).
  - rewrite lookup_insert_ne by exact Hne. specialize (Hr P0).
    destruct (env !! P0) as [e|].
    + destruct Hr as (ss & Hss & -> & Hiff). exists ss.
      split; [exact Hss|]. split; [reflexivity|].
      intros S0. rewrite Hiff. simpl.
      split; [now right | intros [Heq|Hp]; [congruence | exact Hp]].
    + intros S0 [Heq|Hp]; [congruence | exact (Hr S0 Hp)].
Qed.

Lemma env_repr_present (env : gmap string string)
    (pairs : list (string * string)) (P S : string) :
  HashStore.env_repr env pairs ->
  In (P, S) pairs ->
  HashStore.env_repr env ((P, S) :: pairs).
Proof.
  intros Hr Hin P0. specialize (Hr P0).
  destruct (env !! P0) as [e|].
  - destruct Hr as (ss & Hss & -> & Hiff). exists ss.
    split; [exact Hss|]. split; [reflexivity|].
    intros S0. rewrite Hiff. simpl.
    split; [now right | intros [Heq|Hp]; [congruence | exact Hp]].
  - intros S0 [Heq|Hp]; [|exact (Hr S0 Hp)].
    apply (Hr S). congruence.
Qed.

Lemma insert_repr (m : HashStore.lmdb_hash_manager_t) (H : string)
    (env env' : gmap string string) (c c' : HashStore.lmdb_changes_t)
    (pairs : list (string * string)) :
  HashStore.env_repr env pairs ->
  HashStore.insert m H env c = Some (env', c') ->
  HashStore.env_repr env' (HashStore.hash_pair m H :: pairs).
Proof.
  intros Hr. unfold HashStore.insert.
  destruct (String.length H =? 0)%nat; [discriminate|].
  destruct (HashStore.hash_pair m H) as [P S]. cbn [fst snd].
  destruct (env !! P) as [e|] eqn:HP.
  - destruct (env_repr_lookup _ _ _ _ Hr HP) as (ss & Ha & Hd & Hin).
    rewrite Hd. destruct (StringSet.find S ss) eqn:Hf.
    + intros [= <- _]. apply env_repr_present; [exact Hr|].
      apply Hin. now apply set_find_In.
    + destruct (HashStore.encode_data _) as [e'|] eqn:He; [|discriminate].
      intros [= <- _]. now apply env_repr_insert with ss.
  - destruct (HashStore.encode_data _) as [e'|] eqn:He; [|discriminate].
    intros [= <- _]. apply env_repr_insert with []; auto using ascending_nil.
    intros S0. simpl. specialize (Hr P). rewrite HP in Hr.
    split; [tauto | apply Hr].
Qed.

Lemma find_repr (m : HashStore.lmdb_hash_manager_t) (H : string)
    (env : gmap string string) (pairs : list (string * string)) :
  HashStore.env_repr env pairs ->
  H <> "" ->
  exists b, HashStore.find m H env = Some b /\
            (b = true <-> In (HashStore.hash_pair m H) pairs).
Proof.
  intros Hr Hne. unfold HashStore.find.
  destruct (String.length H =? 0)%nat eqn:Hl;
    [now apply length_eqb_0 in Hl|].
  destruct (HashStore.hash_pair m H) as [P S]. cbn [fst snd].
  destruct (env !! P) as [e|] eqn:HP.
  - destruct (env_repr_lookup _ _ _ _ Hr HP) as (ss & Ha & Hd & Hin).
    rewrite Hd. eexists; split; [reflexivity|].
    now rewrite set_find_In, Hin.
  - exists false. split; [reflexivity|].
    specialize (Hr P). rewrite HP in Hr.
    split; [discriminate | intros Hp; now apply Hr in Hp].
Qed.

Lemma insert_all_repr (m : HashStore.lmdb_hash_manager_t)
    (hashes : list string) :
  forall (env env' : gmap string string) (c c' : HashStore.lmdb_changes_t)
         (pairs : list (string * string)),
  HashStore.env_repr env pairs ->
  HashStore.insert_all m hashes env c = Some (env', c') ->
  HashStore.env_repr env'
    (rev (map (HashStore.hash_pair m) hashes) ++ pairs)%list.
Proof.
  induction hashes as [|h rest IH]; intros env env' c c' pairs Hr; simpl.
  - now intros [= <- _].
  - destruct (HashStore.insert m h env c) as [[env1 c1]|] eqn:Hi;
      [|discriminate].
    intros Hall. rewrite <- app_assoc. simpl.
    eapply IH; [|exact Hall]. eapply insert_repr; eauto.
Qed.

(** ** [hash_pair] *)

Lemma int_wrap_small (z : Z) :
  (- 2 ^ 31 <= z < 2 ^ 31)%Z -> HashStore.int_wrap z = z.
Proof.
  intros Hz. unfold HashStore.int_wrap, HashStore.int_of_uint32,
    HashStore.uint32.
  destruct (Z_lt_le_dec z 0) as [Hneg|Hpos].
  - replace (z mod 2 ^ 32)%Z with (z + 2 ^ 32)%Z.
    + destruct (Z.ltb_spec (z + 2 ^ 32) (2 ^ 31)); lia.
    + apply (Z.mod_unique z (2 ^ 32) (-1)); lia.
  - rewrite Z.mod_small by lia.
    destruct (Z.ltb_spec z (2 ^ 31)); lia.
Qed.

Lemma new_manager_fields (bits sb : Z) (m : HashStore.lmdb_hash_manager_t) :
  HashStore.new_lmdb_hash_manager_t bits sb = Some m ->
  (0 < HashStore.prefix_bytes m < 2 ^ 31)%Z /\
  (- 2 ^ 31 <= HashStore.suffix_bytes m < 2 ^ 31)%Z /\
  HashStore.prefix_mask m
  = nth (Z.to_nat (HashStore.uint32 bits mod 8)) HashStore.masks 0%N.
Proof.
  unfold HashStore.new_lmdb_hash_manager_t. cbn [HashStore.prefix_bytes].
  destruct (Z.eqb_spec (HashStore.uint32 (HashStore.uint32 bits + 7) / 8) 0)
    as [|Hnz]; [discriminate|].
  intros [= <-]. cbn [HashStore.prefix_bytes HashStore.suffix_bytes
                      HashStore.prefix_mask].
  unfold HashStore.uint32, HashStore.int_of_uint32 in *.
  pose proof (Z.mod_pos_bound (bits mod 2 ^ 32 + 7) (2 ^ 32) ltac:(lia)) as Hb.
  pose proof (Z.mod_pos_bound sb (2 ^ 32) ltac:(lia)) as Hs.
  revert Hnz Hb Hs.
  generalize ((bits mod 2 ^ 32 + 7) mod 2 ^ 32)%Z (sb mod 2 ^ 32)%Z.
  intros x y Hnz Hb Hs.
  assert (0 <= x / 8 < 2 ^ 31)%Z.
  { split; [apply Z.div_pos; lia|].
    apply Z.div_lt_upper_bound; lia. }
  split; [lia|]. split; [|reflexivity].
  destruct (Z.ltb_spec y (2 ^ 31)); lia.
Qed.

Lemma substring_split (n : nat) (s : string) :
  (n <= String.length s)%nat ->
  substring 0 n s +:+ substring n (String.length s - n) s = s.
Proof.
  revert n. induction s as [|c s IH]; intros [|n] Hn; simpl in *;
    try reflexivity; try lia.
  - now rewrite string_app_nil_l, substring_all.
  - rewrite string_app_cons, IH by lia. reflexivity.
Qed.

Lemma substring_length_le (n m : nat) (s : string) :
  (String.length (substring n m s) <= m)%nat.
Proof.
  revert n m. induction s as [|c s IH]; intros [|n] [|m]; simpl; try lia.
  - specialize (IH 0%nat m). lia.
  - apply (IH n 0%nat).
  - apply (IH n (S m)).
Qed.

Lemma and_at_app (i : nat) (mask : N) (a b : string) :
  (i < String.length a)%nat ->
  HashStore.and_at i mask (a +:+ b) = HashStore.and_at i mask a +:+ b.
Proof.
  revert i. induction a as [|c a IH]; intros i Hi; simpl in Hi; [lia|].
  rewrite string_app_cons. destruct i as [|i]; simpl.
  - now rewrite string_app_cons.
  - rewrite string_app_cons, IH by lia. reflexivity.
Qed.

Lemma land_255 (c : ascii) :
  ascii_of_N (N.land (N_of_ascii c) 255) = c.
Proof.
  change 255%N with (N.ones 8). rewrite N.land_ones.
  rewrite N.mod_small by apply N_ascii_bounded.
  apply ascii_N_embedding.
Qed.

Lemma and_at_255 (i : nat) (s : string) : HashStore.and_at i 255 s = s.
Proof.
  revert i. induction s as [|c s IH]; intros [|i]; simpl;
    [reflexivity | reflexivity | now rewrite land_255 | now rewrite IH].
Qed.

Lemma length_and_at (i : nat) (mask : N) (s : string) :
  String.length (HashStore.and_at i mask s) = String.length s.
Proof.
  revert i. induction s as [|c s IH]; intros [|i]; simpl; auto.
Qed.

Lemma substr_prefix (s : string) (n : Z) :
  (0 <= n <= Z.of_nat (String.length s))%Z -> (n < 2 ^ 64)%Z ->
  HashStore.substr s 0 n = substring 0 (Z.to_nat n) s.
Proof.
  intros Hn Hb. unfold HashStore.substr.
  rewrite Z.mod_small by lia. rewrite Z.sub_0_r, Z.min_l by lia.
  reflexivity.
Qed.

Lemma substr_rest (s : string) (pos n : Z) :
  (0 <= pos <= Z.of_nat (String.length s))%Z ->
  (Z.of_nat (String.length s) - pos <= n < 2 ^ 64)%Z ->
  HashStore.substr s pos n
  = substring (Z.to_nat pos) (String.length s - Z.to_nat pos) s.
Proof.
  intros Hp Hn. unfold HashStore.substr.
  rewrite Z.mod_small by lia. rewrite Z.min_r by lia.
  f_equal. lia.
Qed.

(** A hash shorter than [prefix_bytes + suffix_bytes]: the suffix starts
    where the prefix stops, and prefix and suffix together are the hash
    with the prefix mask applied to byte [prefix_bytes - 1]. *)
Lemma hash_pair_short (m : HashStore.lmdb_hash_manager_t) (H : string) :
  (0 < HashStore.prefix_bytes m < 2 ^ 31)%Z ->
  (- 2 ^ 31 <= HashStore.suffix_bytes m < 2 ^ 31)%Z ->
  (Z.of_nat (String.length H)
   < HashStore.prefix_bytes m + HashStore.suffix_bytes m)%Z ->
  (HashStore.hash_pair m H).1 +:+ (HashStore.hash_pair m H).2
  = HashStore.and_at (Z.to_nat (HashStore.prefix_bytes m - 1))
      (HashStore.prefix_mask m) H
  /\ String.length (HashStore.hash_pair m H).1
     = Nat.min (String.length H) (Z.to_nat (HashStore.prefix_bytes m)).
Proof.
  intros Hpb Hsb Hshort. unfold HashStore.hash_pair. cbn [fst snd].
  set (len := Z.of_nat (String.length H)) in *.
  set (pb := HashStore.prefix_bytes m) in *.
  set (sb := HashStore.suffix_bytes m) in *.
  assert (Hlen : (0 <= len)%Z) by (subst len; lia).
  rewrite int_wrap_small by lia.
  destruct (Z.gtb_spec len pb) as [Hgt|Hle].
  - rewrite Z.eqb_refl.
    destruct (Z.ltb_spec (len - sb) pb) as [_|?]; [|lia].
    destruct (Z.ltb_spec pb len) as [_|?]; [|lia].
    rewrite substr_prefix by lia. rewrite substr_rest by lia.
    rewrite <- and_at_app.
    + rewrite substring_split by lia. split; [reflexivity|].
      rewrite length_and_at, length_substring by lia. lia.
    + rewrite length_substring by lia. lia.
  - rewrite substr_prefix by lia.
    replace (Z.to_nat len) with (String.length H) by (subst len; lia).
    rewrite substring_all.
    assert (Hsuf : (if ((if (len - sb <? len)%Z then len else len - sb)
                        <? len)%Z
                    then HashStore.substr H
                           (if (len - sb <? len)%Z then len else len - sb) sb
                    else "") = "").
    { destruct (Z.ltb_spec (len - sb) len);
        match goal with |- context [(?a <? ?b)%Z] =>
          destruct (Z.ltb_spec a b) end; try reflexivity; lia. }
    rewrite Hsuf, string_app_nil_r.
    destruct (Z.eqb_spec len pb) as [Heq|Hne].
    + split; [reflexivity|]. rewrite length_and_at. lia.
    + split; [|lia]. symmetry.
      clear -Hne Hle Hpb Hlen. subst len.
      assert (Hi : (String.length H <= Z.to_nat (pb - 1))%nat) by lia.
      revert Hi. generalize (Z.to_nat (pb - 1)) as i.
      induction H as [|c H IH]; intros i Hi; [reflexivity|].
      destruct i as [|i]; simpl in *; [lia|]. rewrite IH by lia. reflexivity.
Qed.

Lemma string_app_inj (a : string) :
  forall a' b b' : string,
  String.length a = String.length a' ->
  a +:+ b = a' +:+ b' -> a = a' /\ b = b'.
Proof.
  induction a as [|x a IH]; intros [|x' a'] b b' Hlen; try discriminate.
  - rewrite !string_app_nil_l. auto.
  - rewrite !string_app_cons. intros [= -> Heq].
    injection Hlen as Hlen. destruct (IH a' b b' Hlen Heq) as [-> ->]. auto.
Qed.

(** Two hashes shorter than [prefix_bytes + suffix_bytes] have the same
    prefix and suffix exactly when they are equal after the masking of
    byte [prefix_bytes - 1]. *)
Lemma hash_pair_short_eq_iff (m : HashStore.lmdb_hash_manager_t)
    (H1 H2 : string) :
  (0 < HashStore.prefix_bytes m < 2 ^ 31)%Z ->
  (- 2 ^ 31 <= HashStore.suffix_bytes m < 2 ^ 31)%Z ->
  (Z.of_nat (String.length H1)
   < HashStore.prefix_bytes m + HashStore.suffix_bytes m)%Z ->
  (Z.of_nat (String.length H2)
   < HashStore.prefix_bytes m + HashStore.suffix_bytes m)%Z ->
  HashStore.hash_pair m H1 = HashStore.hash_pair m H2 <->
  HashStore.and_at (Z.to_nat (HashStore.prefix_bytes m - 1))
    (HashStore.prefix_mask m) H1
  = HashStore.and_at (Z.to_nat (HashStore.prefix_bytes m - 1))
      (HashStore.prefix_mask m) H2.
Proof.
  intros Hpb Hsb Hs1 Hs2.
  destruct (hash_pair_short m H1 Hpb Hsb Hs1) as [E1 L1].
  destruct (hash_pair_short m H2 Hpb Hsb Hs2) as [E2 L2].
  split.
  - intros Heq. rewrite <- E1, <- E2. now rewrite Heq.
  - intros Heq.
    assert (Hlen : String.length H1 = String.length H2).
    { rewrite <- (length_and_at (Z.to_nat (HashStore.prefix_bytes m - 1))
                    (HashStore.prefix_mask m) H1), Heq.
      apply length_and_at. }
    rewrite <- E1, <- E2 in Heq.
    destruct (HashStore.hash_pair m H1) as [P1 S1].
    destruct (HashStore.hash_pair m H2) as [P2 S2]. cbn [fst snd] in *.
    destruct (string_app_inj P1 P2 S1 S2) as [-> ->]; [congruence | exact Heq|].
    reflexivity.
Qed.

(** ** The hash store: [insert] returns *)

Lemma encode_varint_small (fuel : nat) (value : N) :
  (value < 128)%N ->
  Codec.encode_varint fuel value = String (Codec.uint8 value) "".
Proof.
  intros Hv. destruct fuel; simpl; [reflexivity|].
  destruct (N.ltb_spec value 128); [reflexivity | lia].
Qed.

Lemma length_encode_string (s : string) :
  (String.length s < 128)%nat ->
  String.length (Codec.encode_string s) = S (String.length s).
Proof.
  intros Hs. unfold Codec.encode_string, Codec.encode_uint64_t.
  rewrite encode_varint_small by lia. reflexivity.
Qed.

Lemma encode_data_fits (l : StringSet.t) :
  Forall (fun s => (String.length s <= 15)%nat) l ->
  HashStore.encode_data l = Some (HashStore.encode_loop l "").
Proof.
  intros Hl. unfold HashStore.encode_data.
  assert (Hlen : (String.length (HashStore.encode_loop l "")
                  <= List.length l * 16)%nat).
  { induction Hl as [|s l Hs _ IH]; [simpl; lia|].
    rewrite encode_loop_cons, string_length_app, length_encode_string by lia.
    simpl List.length. lia. }
  destruct (Nat.leb_spec (String.length (HashStore.encode_loop l ""))
              (List.length l * 16)); [reflexivity | lia].
Qed.

Lemma hash_pair_suffix_length (m : HashStore.lmdb_hash_manager_t)
    (H : string) :
  (0 <= HashStore.suffix_bytes m)%Z ->
  (String.length (HashStore.hash_pair m H).2
   <= Z.to_nat (HashStore.suffix_bytes m))%nat.
Proof.
  intros Hsb. unfold HashStore.hash_pair. cbn [snd].
  match goal with |- context [if ?c then HashStore.substr _ ?a ?b else ""] =>
    destruct c; [|simpl; lia]; generalize a; intros start end.
  unfold HashStore.substr.
  etransitivity; [apply substring_length_le|].
  pose proof (Z.mod_le (HashStore.suffix_bytes m) (2 ^ 64) Hsb ltac:(lia)).
  lia.
Qed.

Lemma insert_returns (m : HashStore.lmdb_hash_manager_t) (H : string)
    (env : gmap string string) (c : HashStore.lmdb_changes_t)
    (pairs : list (string * string)) :
  (0 <= HashStore.suffix_bytes m <= 15)%Z ->
  HashStore.env_repr env pairs ->
  Forall (fun p => (String.length p.2 <= 15)%nat) pairs ->
  H <> "" ->
  exists env' c', HashStore.insert m H env c = Some (env', c').
Proof.
  intros Hsb Hr Hshort Hne. unfold HashStore.insert.
  destruct (String.length H =? 0)%nat eqn:Hl;
    [now apply length_eqb_0 in Hl|].
  pose proof (hash_pair_suffix_length m H ltac:(lia)) as HS.
  destruct (HashStore.hash_pair m H) as [P S]. cbn [fst snd] in *.
  assert (Hfit : forall ss, (forall S0, In S0 ss -> In (P, S0) pairs) ->
            HashStore.encode_data (StringSet.insert S ss)
            = Some (HashStore.encode_loop (StringSet.insert S ss) "")).
  { intros ss Hss. apply encode_data_fits. rewrite List.Forall_forall.
    intros x Hx. apply set_In_insert in Hx as [->|Hx]; [lia|].
    rewrite List.Forall_forall in Hshort.
    apply (Hshort (P, x)). now apply Hss. }
  destruct (env !! P) as [e|] eqn:HP.
  - destruct (env_repr_lookup _ _ _ _ Hr HP) as (ss & Ha & Hd & Hin).
    rewrite Hd. destruct (StringSet.find S ss); [eauto|].
    rewrite Hfit by (intros S0; apply Hin). eauto.
  - rewrite Hfit by (intros S0 []). eauto.
Qed.

(** With suffixes of at most 15 bytes, every sequence of inserts of
    non-empty hashes into a new store runs to its end. *)
Lemma insert_all_returns (m : HashStore.lmdb_hash_manager_t)
    (hashes : list string) (c : HashStore.lmdb_changes_t) :
  (0 <= HashStore.suffix_bytes m <= 15)%Z ->
  Forall (fun H => H <> "") hashes ->
  exists env' c', HashStore.insert_all m hashes ∅ c = Some (env', c').
Proof.
  intros Hsb Hne.
  assert (Hgen : forall (env : gmap string string) pairs c0,
             HashStore.env_repr env pairs ->
             Forall (fun p => (String.length p.2 <= 15)%nat) pairs ->
             exists env' c',
               HashStore.insert_all m hashes env c0 = Some (env', c')).
  { induction Hne as [|h rest Hh _ IH]; intros env pairs c0 Hr Hshort.
    - simpl. eauto.
    - simpl.
      destruct (insert_returns m h env c0 pairs Hsb Hr Hshort Hh)
        as (env1 & c1 & Hi).
      rewrite Hi. apply (IH env1 (HashStore.hash_pair m h :: pairs)).
      + eapply insert_repr; eauto.
      + constructor; [|exact Hshort].
        pose proof (hash_pair_suffix_length m h ltac:(lia)). lia. }
  apply (Hgen ∅ [] c env_repr_empty). constructor.
Qed.

(** ** The bloom filter *)

Lemma bloom_add_contains (b : Bloom.bloom_filter_manager_t) (h : string) :
  Bloom.probably_contains (Bloom.add_hash_value b h) h = true.
Proof.
  unfold Bloom.probably_contains, Bloom.add_hash_value.
  destruct (Bloom.enabled b) eqn:He; [|now rewrite He].
  change (Bloom.enabled _) with (Bloom.enabled b). rewrite He.
  apply forallb_forall. intros i Hi. apply bool_decide_eq_true.
  cbn [Bloom.bits]. apply elem_of_union_l, elem_of_list_to_set.
  now apply list_elem_of_In.
Qed.

Lemma bloom_add_mono (b : Bloom.bloom_filter_manager_t) (h h' : string) :
  Bloom.probably_contains b h = true ->
  Bloom.probably_contains (Bloom.add_hash_value b h') h = true.
Proof.
  unfold Bloom.probably_contains, Bloom.add_hash_value.
  destruct (Bloom.enabled b) eqn:He; [|now rewrite He].
  change (Bloom.enabled _) with (Bloom.enabled b). rewrite He.
  rewrite !forallb_forall. intros Hall i Hi.
  specialize (Hall i Hi). apply bool_decide_eq_true in Hall.
  apply bool_decide_eq_true. cbn [Bloom.bits]. now apply elem_of_union_r.
Qed.

(** ** The hash-data store *)

Lemma hash_data_insert_app (settings : HashData.hashdb_settings_t)
    (source_id : N) (l1 l2 : list HashData.hash_data_t) :
  forall st : HashData.state_t,
  HashData.insert settings source_id (l1 ++ l2) st
  = match HashData.insert settings source_id l1 st with
    | Some st1 => HashData.insert settings source_id l2 st1
    | None => None
    end.
Proof.
  induction l1 as [|it l1 IH]; intros st; simpl; [reflexivity|].
  destruct (HashData.insert_entry settings source_id it st); [apply IH|].
  reflexivity.
Qed.

Lemma insert_entry_cases (settings : HashData.hashdb_settings_t)
    (source_id : N) (it : HashData.hash_data_t) (st st' : HashData.state_t) :
  HashData.insert_entry settings source_id it st = Some st' ->
  let pair := HashData.stored_pair settings source_id it in
  HashData.sector_size settings <> 0%N /\
  ((HashData.aligned settings it = false /\
    HashData.env st' = HashData.env st /\
    HashData.bloom_filter_manager st' = HashData.bloom_filter_manager st /\
    HashData.changes st'
    = Changes.incr_hashes_not_inserted_invalid_sector_size
        (HashData.changes st))
   \/
   (HashData.aligned settings it = true /\
    HashData.mdb_cursor_get_both (HashData.env st) pair.1 pair.2
    = HashData.MDB_SUCCESS /\
    HashData.env st' = HashData.env st /\
    HashData.bloom_filter_manager st' = HashData.bloom_filter_manager st /\
    HashData.changes st'
    = Changes.incr_hashes_not_inserted_duplicate_element
        (HashData.changes st))
   \/
   (HashData.aligned settings it = true /\
    HashData.mdb_cursor_get_both (HashData.env st) pair.1 pair.2
    = HashData.MDB_NOTFOUND /\
    HashData.mdb_put (HashData.env st) pair.1 pair.2
    = (HashData.MDB_SUCCESS, HashData.env st') /\
    HashData.bloom_filter_manager st'
    = Bloom.add_hash_value (HashData.bloom_filter_manager st)
        (HashData.binary_hash it) /\
    HashData.changes st' = Changes.incr_hashes_inserted (HashData.changes st))).
Proof.
  unfold HashData.insert_entry, HashData.stored_pair, HashData.aligned.
  cbn [fst snd].
  destruct (N.eqb_spec (HashData.sector_size settings) 0) as [|Hss];
    [discriminate|].
  destruct (HashData.file_offset it mod HashData.sector_size settings =? 0)%N
    eqn:Ha; cbn [negb].
  - match goal with |- context [HashData.mdb_put _ ?k ?d] =>
      set (key := k); set (data := d) end.
    unfold HashData.mdb_cursor_get_both.
    destruct (existsb _ (HashData.env st)).
    + intros [= <-]. split; [exact Hss|]. right; left. cbn. auto.
    + destruct (HashData.mdb_put (HashData.env st) key data) as [[| |] env'];
        try discriminate.
      intros [= <-]. split; [exact Hss|]. right; right. cbn. auto.
  - intros [= <-]. split; [exact Hss|]. left. cbn. auto.
Qed.

Lemma insert_entry_bloom_mono (settings : HashData.hashdb_settings_t)
    (source_id : N) (it : HashData.hash_data_t) (st st' : HashData.state_t)
    (h : string) :
  HashData.insert_entry settings source_id it st = Some st' ->
  Bloom.probably_contains (HashData.bloom_filter_manager st) h = true ->
  Bloom.probably_contains (HashData.bloom_filter_manager st') h = true.
Proof.
  intros Hi Hb. apply insert_entry_cases in Hi as [_ Hc].
  destruct Hc as [(_ & _ & -> & _)|[(_ & _ & _ & -> & _)|(_ & _ & _ & -> & _)]];
    auto using bloom_add_mono.
Qed.

Lemma insert_bloom_mono (settings : HashData.hashdb_settings_t)
    (source_id : N) (l : list HashData.hash_data_t) (h : string) :
  forall st st' : HashData.state_t,
  HashData.insert settings source_id l st = Some st' ->
  Bloom.probably_contains (HashData.bloom_filter_manager st) h = true ->
  Bloom.probably_contains (HashData.bloom_filter_manager st') h = true.
Proof.
  induction l as [|it l IH]; intros st st'; simpl.
  - now intros [= <-].
  - destruct (HashData.insert_entry settings source_id it st) as [st1|] eqn:Hi;
      [|discriminate].
    intros Hl Hb. apply (IH _ _ Hl).
    eapply insert_entry_bloom_mono; eauto.
Qed.

(** ** The environment of the hash-data store *)

Lemma pair_compare_eq (a b : string * string) :
  HashData.pair_compare a b = Eq -> a = b.
Proof.
  destruct a as [k d], b as [k' d']. unfold HashData.pair_compare. simpl.
  destruct (String.compare k k') eqn:Hk; try discriminate.
  intros Hd. apply String.compare_eq_iff in Hk, Hd. congruence.
Qed.

Lemma mdb_cursor_get_both_In (env : HashData.env_t) (key data : string) :
  HashData.mdb_cursor_get_both env key data = HashData.MDB_SUCCESS
  <-> In (key, data) env.
Proof.
  unfold HashData.mdb_cursor_get_both.
  destruct (existsb _ env) eqn:He.
  - split; [intros _|reflexivity].
    apply existsb_exists in He as ([k d] & Hin & Hb). simpl in Hb.
    apply andb_true_iff in Hb as [Hk Hd].
    apply String.eqb_eq in Hk, Hd. now subst.
  - split; [discriminate|]. intros Hin. exfalso.
    assert (existsb (fun kd => (kd.1 =? key)%string && (kd.2 =? data)%string)
              env = true); [|congruence].
    apply existsb_exists. exists (key, data). split; [exact Hin|].
    simpl. now rewrite !String.eqb_refl.
Qed.

Lemma mdb_cursor_get_both_not_In (env : HashData.env_t) (key data : string) :
  HashData.mdb_cursor_get_both env key data = HashData.MDB_NOTFOUND
  <-> ~ In (key, data) env.
Proof.
  rewrite <- mdb_cursor_get_both_In. unfold HashData.mdb_cursor_get_both.
  destruct (existsb _ env); split; congruence.
Qed.

(** [mdb_put] enters the pair once, somewhere, or finds it there. *)
Lemma mdb_put_spec (env : HashData.env_t) (key data : string) :
  (exists l1 l2, env = (l1 ++ l2)%list /\
     HashData.mdb_put env key data
     = (HashData.MDB_SUCCESS, (l1 ++ (key, data) :: l2)%list))
  \/ (In (key, data) env /\
      HashData.mdb_put env key data = (HashData.MDB_KEYEXIST, env)).
Proof.
  induction env as [|kd env IH]; simpl.
  - left. exists [], []. auto.
  - destruct (HashData.pair_compare (key, data) kd) eqn:Hc.
    + right. apply pair_compare_eq in Hc. subst. auto.
    + left. exists [], (kd :: env). auto.
    + destruct IH as [(l1 & l2 & -> & ->)|(Hin & ->)].
      * left. exists (kd :: l1), l2. auto.
      * right. auto.
Qed.

Lemma mdb_put_fresh (env : HashData.env_t) (key data : string) :
  ~ In (key, data) env ->
  exists l1 l2, env = (l1 ++ l2)%list /\
    HashData.mdb_put env key data
    = (HashData.MDB_SUCCESS, (l1 ++ (key, data) :: l2)%list).
Proof.
  intros Hn. destruct (mdb_put_spec env key data) as [Hs|[Hin _]];
    [exact Hs | contradiction].
Qed.

Lemma NoDup_insert_middle {A : Type} (x : A) (l1 l2 : list A) :
  List.NoDup (l1 ++ l2) -> ~ In x (l1 ++ l2) -> List.NoDup (l1 ++ x :: l2).
Proof.
  intros Hnd Hn. induction l1 as [|a l1 IH]; simpl in *.
  - now constructor.
  - inversion Hnd as [|? ? Ha Hnd']; subst. constructor.
    + rewrite in_app_iff in *. simpl. intuition congruence.
    + apply IH; [exact Hnd' | tauto].
Qed.

Lemma insert_entry_NoDup (settings : HashData.hashdb_settings_t)
    (source_id : N) (it : HashData.hash_data_t) (st st' : HashData.state_t) :
  HashData.insert_entry settings source_id it st = Some st' ->
  List.NoDup (HashData.env st) -> List.NoDup (HashData.env st').
Proof.
  intros Hi Hnd. apply insert_entry_cases in Hi as [_ Hc].
  destruct Hc as [(_ & -> & _)|[(_ & _ & -> & _)|(_ & Hnf & Hput & _)]];
    try exact Hnd.
  apply mdb_cursor_get_both_not_In in Hnf.
  destruct (mdb_put_fresh _ _ _ Hnf) as (l1 & l2 & Henv & Hput').
  rewrite Hput' in Hput. injection Hput as <-.
  rewrite Henv in Hnd, Hnf. now apply NoDup_insert_middle.
Qed.

Lemma insert_entry_fresh (settings : HashData.hashdb_settings_t)
    (source_id : N) (it : HashData.hash_data_t) (st : HashData.state_t) :
  HashData.sector_size settings <> 0%N ->
  HashData.aligned settings it = true ->
  ~ In (HashData.stored_pair settings source_id it) (HashData.env st) ->
  exists env',
    HashData.insert_entry settings source_id it st
    = Some {| HashData.env := env';
              HashData.bloom_filter_manager :=
                Bloom.add_hash_value (HashData.bloom_filter_manager st)
                  (HashData.binary_hash it);
              HashData.changes :=
                Changes.incr_hashes_inserted (HashData.changes st) |} /\
    In (HashData.stored_pair settings source_id it) env'.
Proof.
  intros Hss Ha Hn. unfold HashData.insert_entry.
  destruct (N.eqb_spec (HashData.sector_size settings) 0); [contradiction|].
  unfold HashData.aligned in Ha. rewrite Ha. cbn [negb].
  unfold HashData.stored_pair in Hn.
  match type of Hn with ~ In (?k, ?d) _ =>
    set (key := k) in *; set (data := d) in * end.
  pose proof (proj2 (mdb_cursor_get_both_not_In _ _ _) Hn) as Hg.
  rewrite Hg.
  destruct (mdb_put_fresh _ _ _ Hn) as (l1 & l2 & _ & ->).
  eexists. split; [reflexivity|].
  apply in_or_app. right. now left.
Qed.

Lemma insert_entry_present (settings : HashData.hashdb_settings_t)
    (source_id : N) (it : HashData.hash_data_t) (st : HashData.state_t) :
  HashData.sector_size settings <> 0%N ->
  HashData.aligned settings it = true ->
  In (HashData.stored_pair settings source_id it) (HashData.env st) ->
  HashData.insert_entry settings source_id it st
  = Some {| HashData.env := HashData.env st;
            HashData.bloom_filter_manager := HashData.bloom_filter_manager st;
            HashData.changes :=
              Changes.incr_hashes_not_inserted_duplicate_element
                (HashData.changes st) |}.
Proof.
  intros Hss Ha Hin. unfold HashData.insert_entry.
  destruct (N.eqb_spec (HashData.sector_size settings) 0); [contradiction|].
  unfold HashData.aligned in Ha. rewrite Ha. cbn [negb].
  unfold HashData.stored_pair in Hin.
  apply mdb_cursor_get_both_In in Hin. now rewrite Hin.
Qed.

(** ** [find] after a sequence of inserts *)

Lemma find_exact_up_to_hash_pair :
  forall (m : HashStore.lmdb_hash_manager_t) (hashes : list string)
         (env : gmap string string) (c c' : HashStore.lmdb_changes_t)
         (H : string),
    HashStore.insert_all m hashes ∅ c = Some (env, c') ->
    H <> "" ->
    (exists b, HashStore.find m H env = Some b /\
               (b = true <->
                exists H', In H' hashes /\
                           HashStore.hash_pair m H' = HashStore.hash_pair m H))
    /\
    ((forall H', In H' hashes ->
                 HashStore.hash_pair m H' <> HashStore.hash_pair m H) ->
     HashStore.find m H env = Some false).
Proof.
  intros m hashes env c c' H Hall Hne.
  pose proof (insert_all_repr m hashes ∅ env c c' [] env_repr_empty Hall)
    as Hr.
  rewrite app_nil_r in Hr.
  destruct (find_repr m H env _ Hr Hne) as (b & Hf & Hb).
  assert (Hiff : In (HashStore.hash_pair m H)
                    (rev (map (HashStore.hash_pair m) hashes)) <->
                 exists H', In H' hashes /\
                   HashStore.hash_pair m H' = HashStore.hash_pair m H).
  { rewrite <- in_rev, in_map_iff. split; intros (x & Hx); exists x; tauto. }
  split.
  - exists b. split; [exact Hf|]. now rewrite Hb.
  - intros Hno. rewrite Hf. f_equal. destruct b; [|reflexivity].
    destruct (proj1 Hiff (proj1 Hb eq_refl)) as (H' & Hin & Heq).
    now destruct (Hno H' Hin).
Qed.

(** ** The JSON readers *)

Lemma read_pairs_leftover (hex_to_bin : string -> string)
    (binary_hash : string) (entropy : N) (block_label line : string)
    (last : ImportJson.json) (n : nat) :
  forall json_pairs : list ImportJson.json,
  List.length json_pairs = (2 * n)%nat ->
  ImportJson.read_pairs hex_to_bin binary_hash entropy block_label line
    (json_pairs ++ [last])
  = ImportJson.read_pairs hex_to_bin binary_hash entropy block_label line
      json_pairs.
Proof.
  induction n as [|n IH]; intros json_pairs Hlen.
  - destruct json_pairs; [reflexivity | discriminate].
  - destruct json_pairs as [|a [|b rest]]; try (simpl in Hlen; lia).
    simpl. destruct a; try reflexivity. destruct b; try reflexivity.
    f_equal. apply IH. simpl in Hlen. lia.
Qed.

Lemma read_pairs_source_offset_pairs (hex_to_bin : string -> string)
    (binary_hash : string) (entropy : N) (block_label line : string)
    (pairs : list (string * N)) :
  ImportJson.read_pairs hex_to_bin binary_hash entropy block_label line
    (ImportJson.source_offset_pairs pairs)
  = map (fun p => ImportJson.insert_hash binary_hash
                    (hex_to_bin (ImportJson.c_str p.1)) p.2
                    entropy block_label) pairs.
Proof.
  induction pairs as [|[h o] pairs IH]; simpl; [reflexivity|].
  now rewrite IH.
Qed.

Lemma length_source_offset_pairs (pairs : list (string * N)) :
  List.length (ImportJson.source_offset_pairs pairs)
  = (2 * List.length pairs)%nat.
Proof.
  induction pairs as [|[h o] pairs IH]; simpl; [reflexivity|].
  rewrite IH. lia.
Qed.

Lemma read_names_stops (hex_to_bin : string -> string)
    (file_binary_hash line : string) (bad : ImportJson.json)
    (after : list ImportJson.json) :
  ImportJson.name_pair bad = None ->
  exists r : ImportJson.event,
    ImportJson.read_names file_binary_hash line (bad :: after) = [r] /\
    ImportJson.is_insert r = false /\
    (forall members, bad = ImportJson.JObject members ->
                     ImportJson.is_report r = true).
Proof.
  intros Hbad. destruct bad as [| | | | |items|members]; simpl;
    try (eexists; split; [reflexivity|]; split; [reflexivity|];
         intros ? [=]).
  simpl in Hbad.
  destruct (ImportJson.member "repository_name" members) as [[]|];
    try (eexists; split; [reflexivity|]; split; reflexivity).
  destruct (ImportJson.member "filename" members) as [[]|];
    try discriminate;
    eexists; split; try reflexivity; split; reflexivity.
Qed.

Lemma read_names_good (hex_to_bin : string -> string)
    (file_binary_hash line : string) (good : list ImportJson.json)
    (names : list (string * string)) (rest : list ImportJson.json) :
  map ImportJson.name_pair good = map Some names ->
  ImportJson.read_names file_binary_hash line (good ++ rest)
  = (map (fun p => ImportJson.insert_source_name file_binary_hash p.1 p.2)
       names
     ++ ImportJson.read_names file_binary_hash line rest)%list.
Proof.
  revert names. induction good as [|v good IH]; intros [|[r f] names];
    simpl; try discriminate; [reflexivity|].
  intros [= Hv Hrest].
  destruct v as [| | | | |items|members]; try discriminate. simpl in Hv.
  destruct (ImportJson.member "repository_name" members) as [[]|];
    try discriminate.
  destruct (ImportJson.member "filename" members) as [[]|];
    try discriminate.
  injection Hv as <- <-. simpl. f_equal. now apply IH.
Qed.

(** ** The order of the keys *)

Lemma In_all_bytes (c : ascii) : In c Commands.all_bytes.
Proof.
  unfold Commands.all_bytes. apply in_map_iff.
  exists (N.to_nat (N_of_ascii c)). split.
  - now rewrite N2Nat.id, ascii_N_embedding.
  - apply in_seq. pose proof (N_ascii_bounded c). lia.
Qed.

Lemma hex_digits_compare_agrees :
  forallb (fun c1 =>
    forallb (fun c2 =>
      Commands.comparison_eqb (Commands.hex_digits_compare c1 c2)
        (Ascii.compare c1 c2))
      Commands.all_bytes) Commands.all_bytes = true.
Proof. vm_compute. reflexivity. Qed.

Lemma hex_digits_compare_correct (c1 c2 : ascii) :
  Commands.hex_digits_compare c1 c2 = Ascii.compare c1 c2.
Proof.
  pose proof (proj1 (forallb_forall _ _) hex_digits_compare_agrees c1
                (In_all_bytes c1)) as Hc1.
  pose proof (proj1 (forallb_forall _ _) Hc1 c2 (In_all_bytes c2)) as Hc2.
  cbv beta in Hc2. revert Hc2.
  generalize (Commands.hex_digits_compare c1 c2) (Ascii.compare c1 c2).
  intros [] []; simpl; intros Hc; try reflexivity; discriminate Hc.
Qed.

Lemma hexdigest_compare (a : string) :
  forall b : string,
  String.compare (Commands.hexdigest a) (Commands.hexdigest b)
  = String.compare a b.
Proof.
  induction a as [|c1 a IH]; intros [|c2 b]; simpl; try reflexivity.
  rewrite <- (hex_digits_compare_correct c1 c2).
  unfold Commands.hex_digits_compare.
  destruct (Ascii.compare (Commands.hex_digit (N_of_ascii c1 / 16))
              (Commands.hex_digit (N_of_ascii c2 / 16))); try reflexivity.
  destruct (Ascii.compare (Commands.hex_digit (N_of_ascii c1 mod 16))
              (Commands.hex_digit (N_of_ascii c2 mod 16))); try reflexivity.
  apply IH.
Qed.

Lemma hexdigest_leb (a b : string) :
  String.leb (Commands.hexdigest a) (Commands.hexdigest b) = String.leb a b.
Proof. unfold String.leb. now rewrite hexdigest_compare. Qed.

Lemma key_le_refl (a : Commands.hashdb_element_t) : Commands.key_le a a.
Proof. unfold Commands.key_le. now rewrite string_compare_refl. Qed.

Lemma string_le_trans (a b c : string) :
  String.compare a b <> Gt -> String.compare b c <> Gt ->
  String.compare a c <> Gt.
Proof.
  intros Hab Hbc.
  destruct (String.compare a b) eqn:E1; [| |congruence].
  - apply String.compare_eq_iff in E1. now subst.
  - destruct (String.compare b c) eqn:E2; [| |congruence].
    + apply String.compare_eq_iff in E2. subst. congruence.
    + rewrite (string_lt_trans a b c E1 E2). discriminate.
Qed.

Lemma key_le_trans (a b c : Commands.hashdb_element_t) :
  Commands.key_le a b -> Commands.key_le b c -> Commands.key_le a c.
Proof. apply string_le_trans. Qed.

Lemma string_le_antisym (a b : string) :
  String.compare a b <> Gt -> String.compare b a <> Gt -> a = b.
Proof.
  intros Hab Hba. destruct (String.compare a b) eqn:E; [| |congruence].
  - now apply String.compare_eq_iff.
  - apply string_compare_gt_lt in E. congruence.
Qed.

Lemma string_leb_le (a b : string) :
  String.leb a b = true <-> String.compare a b <> Gt.
Proof.
  unfold String.leb. destruct (String.compare a b); split; congruence.
Qed.

Lemma string_leb_false (a b : string) :
  String.leb a b = false -> String.compare b a <> Gt.
Proof.
  unfold String.leb. destruct (String.compare a b) eqn:E; try discriminate.
  intros _. apply string_compare_gt_lt in E. congruence.
Qed.

(** ** Inserting into a database *)

Lemma element_compare_eq (a b : Commands.hashdb_element_t) :
  Commands.element_compare a b = Eq -> a = b.
Proof.
  destruct a as [k1 s1 r1 f1 o1], b as [k2 s2 r2 f2 o2].
  unfold Commands.element_compare. simpl.
  destruct (String.compare k1 k2) eqn:Ek; try discriminate.
  destruct (String.compare r1 r2) eqn:Er; try discriminate.
  destruct (String.compare f1 f2) eqn:Ef; try discriminate.
  destruct (N.compare o1 o2) eqn:Eo; try discriminate.
  intros Es.
  apply String.compare_eq_iff in Ek, Er, Ef.
  apply N.compare_eq_iff in Eo, Es. congruence.
Qed.

Lemma element_compare_lt_key (a b : Commands.hashdb_element_t) :
  Commands.element_compare a b = Lt -> Commands.key_le a b.
Proof.
  unfold Commands.element_compare, Commands.key_le.
  destruct (String.compare (Commands.key a) (Commands.key b));
    congruence.
Qed.

Lemma element_compare_gt_key (a b : Commands.hashdb_element_t) :
  Commands.element_compare a b = Gt -> Commands.key_le b a.
Proof.
  unfold Commands.element_compare, Commands.key_le.
  destruct (String.compare (Commands.key a) (Commands.key b)) eqn:E;
    try congruence.
  - apply String.compare_eq_iff in E. rewrite E, string_compare_refl.
    discriminate.
  - apply string_compare_gt_lt in E. rewrite E. discriminate.
Qed.

Lemma insert_element_In (e x : Commands.hashdb_element_t)
    (l : list Commands.hashdb_element_t) :
  In x (Commands.insert_element e l).2 <-> x = e \/ In x l.
Proof.
  induction l as [|y l IH]; simpl; [intuition congruence|].
  destruct (Commands.element_compare e y) eqn:Hc.
  - apply element_compare_eq in Hc. subst. simpl. intuition congruence.
  - simpl. intuition congruence.
  - destruct (Commands.insert_element e l) as [b l']. simpl in *.
    rewrite IH. intuition congruence.
Qed.

Lemma insert_element_ascending_keys (e : Commands.hashdb_element_t)
    (l : list Commands.hashdb_element_t) :
  Commands.ascending_keys l ->
  Commands.ascending_keys (Commands.insert_element e l).2.
Proof.
  induction 1 as [|y l Hs IH Hy]; simpl.
  - repeat constructor.
  - destruct (Commands.element_compare e y) eqn:Hc; simpl.
    + now constructor.
    + apply element_compare_lt_key in Hc.
      constructor; [now constructor|].
      constructor; [exact Hc|].
      eapply List.Forall_impl; [|exact Hy].
      intros z Hz. now apply key_le_trans with y.
    + pose proof (fun x => insert_element_In e x l) as HIn.
      destruct (Commands.insert_element e l) as [b l']. simpl in *.
      constructor; [exact IH|].
      rewrite List.Forall_forall. intros z Hz.
      apply HIn in Hz as [->|Hz].
      * now apply element_compare_gt_key.
      * rewrite List.Forall_forall in Hy. now apply Hy.
Qed.

Lemma insert_elements (e : Commands.hashdb_element_t)
    (m : Commands.hashdb_manager_t) (c : Changes.hashdb_changes_t) :
  Commands.elements (Commands.insert e m c).1
  = (Commands.insert_element e (Commands.elements m)).2.
Proof.
  unfold Commands.insert.
  now destruct (Commands.insert_element e (Commands.elements m)).
Qed.

Lemma insert_each_In (l : list Commands.hashdb_element_t) :
  forall (m : Commands.hashdb_manager_t) (c : Changes.hashdb_changes_t)
         (x : Commands.hashdb_element_t),
  In x (Commands.elements (Commands.insert_each l m c).1)
  <-> In x l \/ In x (Commands.elements m).
Proof.
  induction l as [|e l IH]; intros m c x; simpl; [tauto|].
  pose proof (insert_elements e m c) as He.
  destruct (Commands.insert e m c) as [m' c']. simpl in He.
  rewrite IH, He, insert_element_In. intuition congruence.
Qed.

Lemma insert_each_ascending_keys (l : list Commands.hashdb_element_t) :
  forall (m : Commands.hashdb_manager_t) (c : Changes.hashdb_changes_t),
  Commands.ascending_keys (Commands.elements m) ->
  Commands.ascending_keys
    (Commands.elements (Commands.insert_each l m c).1).
Proof.
  induction l as [|e l IH]; intros m c Hm; simpl; [exact Hm|].
  pose proof (insert_elements e m c) as He.
  destruct (Commands.insert e m c) as [m' c']. simpl in He.
  apply IH. rewrite He. now apply insert_element_ascending_keys.
Qed.

Lemma insert_each_app (l1 l2 : list Commands.hashdb_element_t) :
  forall (m : Commands.hashdb_manager_t) (c : Changes.hashdb_changes_t),
  Commands.insert_each (l1 ++ l2) m c
  = Commands.insert_each l2 (Commands.insert_each l1 m c).1
      (Commands.insert_each l1 m c).2.
Proof.
  induction l1 as [|e l1 IH]; intros m c; simpl; [reflexivity|].
  destruct (Commands.insert e m c) as [m' c']. apply IH.
Qed.

(** ** [add_multiple] is the ordered merge *)

Lemma ordered_merge_nil_r (a : list Commands.hashdb_element_t) :
  Commands.ordered_merge a [] = a.
Proof. now destruct a. Qed.

Lemma add_multiple_loop_merge (it1 : list Commands.hashdb_element_t) :
  forall (it2 : list Commands.hashdb_element_t)
         (m : Commands.hashdb_manager_t) (c : Changes.hashdb_changes_t),
  Commands.add_multiple_loop it1 it2 m c
  = Commands.insert_each (Commands.ordered_merge it1 it2) m c.
Proof.
  induction it1 as [|e1 it1 IH1]; intros it2.
  - intros m c. destruct it2; reflexivity.
  - induction it2 as [|e2 it2 IH2]; intros m c.
    + cbn [Commands.add_multiple_loop].
      rewrite ordered_merge_nil_r.
      now destruct (Commands.insert_each (e1 :: it1) m c).
    + cbn [Commands.add_multiple_loop Commands.ordered_merge].
      rewrite hexdigest_leb.
      destruct (String.leb (Commands.key e1) (Commands.key e2)).
      * cbn [Commands.insert_each].
        destruct (Commands.insert e1 m c) as [m' c']. apply IH1.
      * cbn [Commands.insert_each].
        destruct (Commands.insert e2 m c) as [m' c']. apply IH2.
Qed.

Lemma ordered_merge_In (a : list Commands.hashdb_element_t) :
  forall (b : list Commands.hashdb_element_t) (x : Commands.hashdb_element_t),
  In x (Commands.ordered_merge a b) <-> In x a \/ In x b.
Proof.
  induction a as [|e1 a IH1]; intros b x.
  - destruct b; simpl; tauto.
  - induction b as [|e2 b IH2].
    + simpl. tauto.
    + cbn [Commands.ordered_merge].
      destruct (String.leb (Commands.key e1) (Commands.key e2)).
      * simpl. rewrite IH1. simpl. tauto.
      * change (In x (e2 :: Commands.ordered_merge (e1 :: a) b)
                <-> In x (e1 :: a) \/ In x (e2 :: b)).
        simpl. rewrite IH2. simpl. tauto.
Qed.

Lemma ordered_merge_ascending (a : list Commands.hashdb_element_t) :
  forall b : list Commands.hashdb_element_t,
  Commands.ascending_keys a -> Commands.ascending_keys b ->
  Commands.ascending_keys (Commands.ordered_merge a b).
Proof.
  induction a as [|e1 a IH1]; intros b Ha Hb.
  - now destruct b.
  - induction b as [|e2 b IH2]; [exact Ha|].
    cbn [Commands.ordered_merge].
    inversion Ha as [|? ? Ha' Hall1]; subst.
    inversion Hb as [|? ? Hb' Hall2]; subst.
    destruct (String.leb (Commands.key e1) (Commands.key e2)) eqn:Hle.
    + constructor; [now apply IH1|].
      rewrite List.Forall_forall. intros x Hx.
      apply ordered_merge_In in Hx as [Hx|[->|Hx]].
      * rewrite List.Forall_forall in Hall1. now apply Hall1.
      * now apply string_leb_le.
      * apply key_le_trans with e2; [now apply string_leb_le|].
        rewrite List.Forall_forall in Hall2. now apply Hall2.
    + change (Commands.ascending_keys
                (e2 :: Commands.ordered_merge (e1 :: a) b)).
      constructor; [now apply IH2|].
      rewrite List.Forall_forall. intros x Hx.
      apply ordered_merge_In in Hx as [[->|Hx]|Hx].
      * now apply string_leb_false.
      * apply key_le_trans with e1; [now apply string_leb_false|].
        rewrite List.Forall_forall in Hall1. now apply Hall1.
      * rewrite List.Forall_forall in Hall2. now apply Hall2.
Qed.

Lemma ordered_merge_length (a : list Commands.hashdb_element_t) :
  forall b : list Commands.hashdb_element_t,
  List.length (Commands.ordered_merge a b)
  = (List.length a + List.length b)%nat.
Proof.
  induction a as [|e1 a IH1]; intros b.
  - now destruct b.
  - induction b as [|e2 b IH2]; [simpl; lia|].
    cbn [Commands.ordered_merge].
    destruct (String.leb (Commands.key e1) (Commands.key e2)).
    + cbn [List.length]. rewrite IH1. cbn [List.length]. lia.
    + change (List.length (e2 :: Commands.ordered_merge (e1 :: a) b)
              = (List.length (e1 :: a) + List.length (e2 :: b))%nat).
      cbn [List.length] in *. rewrite IH2. lia.
Qed.

(** ** [intersect_optimized] *)

Lemma find_In (m : Commands.hashdb_manager_t) (k : string)
    (x : Commands.hashdb_element_t) :
  In x (Commands.find m k) <-> In x (Commands.elements m) /\ Commands.key x = k.
Proof.
  unfold Commands.find. rewrite List.filter_In, String.eqb_eq. reflexivity.
Qed.

Lemma find_count_pos (m : Commands.hashdb_manager_t) (k : string) :
  (0 < Commands.find_count m k)%nat <-> Commands.has_key m k.
Proof.
  unfold Commands.find_count, Commands.has_key. split.
  - destruct (Commands.find m k) as [|e l] eqn:Hf; simpl; [lia|].
    intros _. exists e. apply find_In. rewrite Hf. now left.
  - intros (e & He & Hk).
    assert (Hin : In e (Commands.find m k)) by now apply find_In.
    destruct (Commands.find m k); [destruct Hin | simpl; lia].
Qed.

Lemma filter_none {A : Type} (p : A -> bool) (l : list A) :
  (forall x, In x l -> p x = false) -> List.filter p l = [].
Proof.
  induction l as [|a l IH]; intros Hl; simpl; [reflexivity|].
  rewrite (Hl a) by now left. apply IH. intros x Hx. apply Hl. now right.
Qed.

(** In a sequence of ascending keys that starts at key [k] or above, the
    elements of key [k] come first. *)
Lemma run_first (k : string) (l : list Commands.hashdb_element_t) :
  Commands.ascending_keys l ->
  Forall (fun x => String.compare k (Commands.key x) <> Gt) l ->
  exists rest,
    l = (List.filter (fun e => (Commands.key e =? k)%string) l ++ rest)%list /\
    Forall (fun y => Commands.key y <> k) rest.
Proof.
  induction 1 as [|x l Hs IH Hx]; intros Hk.
  - exists []. split; [reflexivity | constructor].
  - inversion Hk as [|? ? Hkx Hkl]; subst. simpl.
    destruct (String.eqb_spec (Commands.key x) k) as [Heq|Hne].
    + destruct (IH Hkl) as (rest & Hl & Hrest).
      exists rest. split; [|exact Hrest]. simpl. now rewrite <- Hl.
    + assert (Hall : Forall (fun y => Commands.key y <> k) l).
      { rewrite List.Forall_forall in *. intros y Hy Hyk.
        apply Hne. apply string_le_antisym; [|exact Hkx].
        rewrite <- Hyk. now apply Hx. }
      rewrite filter_none.
      * exists (x :: l). split; [reflexivity|]. now constructor.
      * intros y Hy. rewrite List.Forall_forall in Hall.
        apply String.eqb_neq. now apply Hall.
Qed.

Lemma add_from_smaller_run (run rest : list Commands.hashdb_element_t) :
  forall (m : Commands.hashdb_manager_t) (c : Changes.hashdb_changes_t),
  Commands.add_from_smaller (List.length run) (run ++ rest) m c
  = Some (rest, (Commands.insert_each run m c).1,
          (Commands.insert_each run m c).2).
Proof.
  induction run as [|e run IH]; intros m c; simpl; [reflexivity|].
  destruct (Commands.insert e m c) as [m' c']. apply IH.
Qed.

Lemma ascending_keys_app_r (l1 l2 : list Commands.hashdb_element_t) :
  Commands.ascending_keys (l1 ++ l2) -> Commands.ascending_keys l2.
Proof.
  induction l1 as [|a l1 IH]; simpl; [auto|].
  intros Hs. inversion Hs; subst. auto.
Qed.

Lemma intersect_optimized_loop_spec
    (smaller_hashdb larger_hashdb : Commands.hashdb_manager_t) (fuel : nat) :
  forall (smaller_it pre : list Commands.hashdb_element_t)
         (hashdb3 : Commands.hashdb_manager_t)
         (changes : Changes.hashdb_changes_t),
  Commands.elements smaller_hashdb = (pre ++ smaller_it)%list ->
  Commands.ascending_keys (pre ++ smaller_it) ->
  (forall x, In x pre -> Commands.has_key larger_hashdb (Commands.key x) ->
             forall y, In y smaller_it -> Commands.key y <> Commands.key x) ->
  (List.length smaller_it <= fuel)%nat ->
  exists hashdb3' changes',
    Commands.intersect_optimized_loop fuel smaller_it smaller_hashdb
      larger_hashdb hashdb3 changes = Some (hashdb3', changes') /\
    forall x,
      In x (Commands.elements hashdb3') <->
      In x (Commands.elements hashdb3) \/
      (In x smaller_it /\ Commands.has_key larger_hashdb (Commands.key x)) \/
      (In x (Commands.elements larger_hashdb) /\
       exists y, In y smaller_it /\ Commands.key y = Commands.key x).
Proof.
  induction fuel as [|fuel IH]; intros it pre m c Hel Hs Hpre Hfuel.
  - destruct it; [|simpl in Hfuel; lia].
    exists m, c. split; [reflexivity|]. intros x. split; [auto|].
    intros [Hx|[[[] _]|[_ (y & [] & _)]]]. exact Hx.
  - destruct it as [|e next].
    { exists m, c. split; [reflexivity|]. intros x. split; [auto|].
      intros [Hx|[[[] _]|[_ (y & [] & _)]]]. exact Hx. }
    cbn [Commands.intersect_optimized_loop].
    destruct (Nat.ltb_spec 0
                (Commands.find_count larger_hashdb (Commands.key e)))
      as [Hpos|Hzero].
    + (* there is a match in the larger database *)
      apply find_count_pos in Hpos.
      set (k := Commands.key e) in *.
      set (p := fun e0 : Commands.hashdb_element_t =>
                  (Commands.key e0 =? k)%string).
      pose proof (ascending_keys_app_r _ _ Hs) as Hsit.
      assert (Hge : Forall (fun x => String.compare k (Commands.key x) <> Gt)
                      (e :: next)).
      { constructor; [subst k; now rewrite string_compare_refl|].
        inversion Hsit; subst. assumption. }
      destruct (run_first k (e :: next) Hsit Hge) as (rest & Hit & Hrest).
      fold p in Hit.
      assert (Hprenone : List.filter p pre = []).
      { apply filter_none. intros x Hx. apply String.eqb_neq. intros Hxk.
        apply (Hpre x Hx) with (y := e); [now rewrite Hxk | now left |].
        now rewrite Hxk. }
      assert (Hcount : Commands.find_count smaller_hashdb k
                       = List.length (List.filter p (e :: next))).
      { unfold Commands.find_count, Commands.find. fold p.
        now rewrite Hel, List.filter_app, Hprenone. }
      rewrite Hcount.
      assert (Hrun : exists run, List.filter p (e :: next) = e :: run).
      { simpl. unfold p at 1. subst k. rewrite String.eqb_refl. eauto. }
      destruct Hrun as (run & Hrun).
      set (it := e :: next) in *.
      assert (Hadd : Commands.add_from_smaller
                       (List.length (List.filter p it)) it m c
                     = Some (rest,
                             (Commands.insert_each (List.filter p it) m c).1,
                             (Commands.insert_each (List.filter p it) m c).2)).
      { rewrite <- add_from_smaller_run. now rewrite <- Hit. }
      rewrite Hadd.
      destruct (Commands.insert_each (List.filter p it) m c) as [m1 c1] eqn:H1.
      cbn [fst snd].
      destruct (Commands.insert_each (Commands.find larger_hashdb k) m1 c1)
        as [m2 c2] eqn:H2.
      destruct (IH rest (pre ++ List.filter p it)%list m2 c2)
        as (m' & c' & Hloop & Hin).
      * now rewrite <- app_assoc, <- Hit.
      * now rewrite <- app_assoc, <- Hit.
      * intros x Hx Hxl y Hy. apply in_app_or in Hx as [Hx|Hx].
        -- apply (Hpre x Hx Hxl). rewrite Hit. apply in_or_app. now right.
        -- apply List.filter_In in Hx as [_ Hx]. apply String.eqb_eq in Hx.
           rewrite Hx. rewrite List.Forall_forall in Hrest. now apply Hrest.
      * assert (List.length it
                = (List.length (List.filter p it) + List.length rest)%nat)
          by (rewrite Hit at 1; apply length_app).
        rewrite Hrun in H. simpl in H. unfold it in Hfuel.
        simpl in Hfuel. lia.
      * exists m', c'. split; [exact Hloop|]. intros x. rewrite Hin.
        pose proof (insert_each_In (Commands.find larger_hashdb k) m1 c1 x)
          as Hm2.
        rewrite H2 in Hm2. cbn [fst] in Hm2. rewrite Hm2.
        pose proof (insert_each_In (List.filter p it) m c x) as Hm1.
        rewrite H1 in Hm1. cbn [fst] in Hm1. rewrite Hm1.
        rewrite find_In, List.filter_In. unfold p. rewrite String.eqb_eq.
        assert (Hsplit : forall y, In y it <->
                  (In y it /\ Commands.key y = k) \/ In y rest).
        { intros y. rewrite Hit at 1. rewrite in_app_iff, List.filter_In.
          unfold p. rewrite String.eqb_eq. reflexivity. }
        split.
        -- intros [[[Hx Hk]|[[Hx Hk]|Hx]]|[[Hx Hm]|[Hx (y & Hy & Hk)]]].
           ++ right; right. split; [exact Hx|]. exists e.
              split; [now left | now rewrite Hk].
           ++ right; left. split; [exact Hx | now rewrite Hk].
           ++ now left.
           ++ right; left. split; [|exact Hm]. apply Hsplit. now right.
           ++ right; right. split; [exact Hx|]. exists y.
              split; [|exact Hk]. apply Hsplit. now right.
        -- intros [Hx|[[Hx Hm]|[Hx (y & Hy & Hk)]]].
           ++ left; right; now right.
           ++ apply Hsplit in Hx as [[Hx Hk]|Hx].
              ** left; right; left. auto.
              ** right; left. auto.
           ++ apply Hsplit in Hy as [[Hy Hyk]|Hy].
              ** left; left. split; [exact Hx | congruence].
              ** right; right. split; [exact Hx|]. eauto.
    + (* no match *)
      assert (Hno : ~ Commands.has_key larger_hashdb (Commands.key e)).
      { rewrite <- find_count_pos. lia. }
      destruct (IH next (pre ++ [e])%list m c) as (m' & c' & Hloop & Hin).
      * now rewrite <- app_assoc.
      * now rewrite <- app_assoc.
      * intros x Hx Hxl y Hy. apply in_app_or in Hx as [Hx|[->|[]]].
        -- apply (Hpre x Hx Hxl). now right.
        -- contradiction.
      * simpl in Hfuel. lia.
      * exists m', c'. split; [exact Hloop|]. intros x. rewrite Hin.
        split.
        -- intros [Hx|[[Hx Hm]|[Hx (y & Hy & Hk)]]].
           ++ now left.
           ++ right; left. split; [now right | exact Hm].
           ++ right; right. split; [exact Hx|]. exists y.
              split; [now right | exact Hk].
        -- intros [Hx|[[[->|Hx] Hm]|[Hx (y & [->|Hy] & Hk)]]].
           ++ now left.
           ++ contradiction.
           ++ right; left. auto.
           ++ exfalso. apply Hno. exists x. auto.
           ++ right; right. eauto.
Qed.

Lemma intersect_optimized_spec
    (smaller_hashdb larger_hashdb hashdb3 : Commands.hashdb_manager_t)
    (changes : Changes.hashdb_changes_t) :
  Commands.ascending_keys (Commands.elements smaller_hashdb) ->
  exists hashdb3' changes',
    Commands.intersect_optimized smaller_hashdb larger_hashdb hashdb3 changes
    = Some (hashdb3', changes') /\
    forall x,
      In x (Commands.elements hashdb3') <->
      In x (Commands.elements hashdb3) \/
      ((In x (Commands.elements smaller_hashdb) \/
        In x (Commands.elements larger_hashdb)) /\
       Commands.has_key smaller_hashdb (Commands.key x) /\
       Commands.has_key larger_hashdb (Commands.key x)).
Proof.
  intros Hs. unfold Commands.intersect_optimized, Commands.map_size.
  destruct (intersect_optimized_loop_spec smaller_hashdb larger_hashdb
              (List.length (Commands.elements smaller_hashdb))
              (Commands.elements smaller_hashdb) [] hashdb3 changes
              eq_refl Hs ltac:(intros x []) (le_n _))
    as (m' & c' & Hloop & Hin).
  exists m', c'. split; [exact Hloop|]. intros x. rewrite Hin.
  unfold Commands.has_key. split.
  - intros [Hx|[[Hx Hm]|[Hx (y & Hy & Hk)]]]; [now left | |].
    + right. split; [now left|]. split; [eauto | exact Hm].
    + right. split; [now right|]. split; eauto.
  - intros [Hx|[[Hx|Hx] [(y & Hy & Hk) Hl]]]; [now left | |].
    + right; left. auto.
    + right; right. eauto.
Qed.

(** ** The calls of [intersect_optimized] and of [add_multiple] *)

Lemma inserted_app (l1 l2 : list Calls.call_t) :
  Calls.inserted (l1 ++ l2)
  = (Calls.inserted l1 ++ Calls.inserted l2)%list.
Proof. apply flat_map_app. Qed.

Lemma counted_in_app (d : string) (l1 l2 : list Calls.call_t) :
  Calls.counted_in d (l1 ++ l2)
  = (Calls.counted_in d l1 ++ Calls.counted_in d l2)%list.
Proof. apply flat_map_app. Qed.

Lemma found_in_app (d : string) (l1 l2 : list Calls.call_t) :
  Calls.found_in d (l1 ++ l2)
  = (Calls.found_in d l1 ++ Calls.found_in d l2)%list.
Proof. apply flat_map_app. Qed.

Lemma inserted_insert_calls (l : list Commands.hashdb_element_t) :
  Calls.inserted (map Calls.insert_call l) = l.
Proof. induction l as [|e l IH]; simpl; [reflexivity | now f_equal]. Qed.

Lemma counted_in_insert_calls (d : string)
    (l : list Commands.hashdb_element_t) :
  Calls.counted_in d (map Calls.insert_call l) = [].
Proof. induction l as [|e l IH]; simpl; [reflexivity | exact IH]. Qed.

Lemma found_in_insert_calls (d : string)
    (l : list Commands.hashdb_element_t) :
  Calls.found_in d (map Calls.insert_call l) = [].
Proof. induction l as [|e l IH]; simpl; [reflexivity | exact IH]. Qed.

(** The loop that inserts each element calls [insert] with each, in order. *)
Lemma calls_insert_each (it : list Commands.hashdb_element_t) :
  forall (m : Commands.hashdb_manager_t) (c : Changes.hashdb_changes_t),
  Calls.insert_each it m c
  = Some (Commands.insert_each it m c, map Calls.insert_call it).
Proof.
  induction it as [|e it IH]; intros m c; simpl; [reflexivity|].
  destruct (Commands.insert e m c) as [m' c']. now rewrite IH.
Qed.

Lemma calls_add_from_smaller_run
    (run rest : list Commands.hashdb_element_t) :
  forall (m : Commands.hashdb_manager_t) (c : Changes.hashdb_changes_t),
  Calls.add_from_smaller (List.length run) (run ++ rest) m c
  = Some ((rest, (Commands.insert_each run m c).1,
           (Commands.insert_each run m c).2),
          map Calls.insert_call run).
Proof.
  induction run as [|e run IH]; intros m c; simpl; [reflexivity|].
  destruct (Commands.insert e m c) as [m' c']. now rewrite IH.
Qed.

Lemma inserted_cons (c : Calls.call_t) (l : list Calls.call_t) :
  Calls.inserted (c :: l)
  = (match c with Calls.insert_call e => [e] | _ => [] end
     ++ Calls.inserted l)%list.
Proof. reflexivity. Qed.

Lemma counted_in_cons (d : string) (c : Calls.call_t)
    (l : list Calls.call_t) :
  Calls.counted_in d (c :: l)
  = (match c with
     | Calls.find_count_call d' k => if (d' =? d)%string then [k] else []
     | _ => []
     end ++ Calls.counted_in d l)%list.
Proof. reflexivity. Qed.

Lemma found_in_cons (d : string) (c : Calls.call_t) (l : list Calls.call_t) :
  Calls.found_in d (c :: l)
  = (match c with
     | Calls.find_call d' k => if (d' =? d)%string then [k] else []
     | _ => []
     end ++ Calls.found_in d l)%list.
Proof. reflexivity. Qed.

Create Rewrite HintDb calls.

#[local] Hint Rewrite inserted_cons counted_in_cons found_in_cons
  inserted_app counted_in_app found_in_app
  inserted_insert_calls counted_in_insert_calls found_in_insert_calls
  String.eqb_refl : calls.

Lemma intersect_optimized_loop_calls
    (smaller_hashdb larger_hashdb : Commands.hashdb_manager_t) (fuel : nat) :
  Commands.hashdb_dir smaller_hashdb <> Commands.hashdb_dir larger_hashdb ->
  forall (smaller_it pre : list Commands.hashdb_element_t)
         (hashdb3 : Commands.hashdb_manager_t)
         (changes : Changes.hashdb_changes_t),
  Commands.elements smaller_hashdb = (pre ++ smaller_it)%list ->
  Commands.ascending_keys (pre ++ smaller_it) ->
  (forall x, In x pre -> Commands.has_key larger_hashdb (Commands.key x) ->
             forall y, In y smaller_it -> Commands.key y <> Commands.key x) ->
  (List.length smaller_it <= fuel)%nat ->
  exists r calls,
    Calls.intersect_optimized_loop fuel smaller_it smaller_hashdb
      larger_hashdb hashdb3 changes = Some (r, calls) /\
    Commands.intersect_optimized_loop fuel smaller_it smaller_hashdb
      larger_hashdb hashdb3 changes = Some r /\
    r = Commands.insert_each (Calls.inserted calls) hashdb3 changes /\
    (forall k,
        In k (Calls.counted_in (Commands.hashdb_dir larger_hashdb) calls) <->
        exists y, In y smaller_it /\ Commands.key y = k) /\
    (forall k,
        In k (Calls.found_in (Commands.hashdb_dir larger_hashdb) calls) <->
        (exists y, In y smaller_it /\ Commands.key y = k) /\
        Commands.has_key larger_hashdb k) /\
    StringSet.ascending
      (Calls.found_in (Commands.hashdb_dir larger_hashdb) calls) /\
    Calls.counted_in (Commands.hashdb_dir smaller_hashdb) calls
    = Calls.found_in (Commands.hashdb_dir larger_hashdb) calls /\
    Calls.found_in (Commands.hashdb_dir smaller_hashdb) calls = [] /\
    Calls.inserted calls
    = flat_map (fun k => (Commands.find smaller_hashdb k
                          ++ Commands.find larger_hashdb k)%list)
        (Calls.found_in (Commands.hashdb_dir larger_hashdb) calls).
Proof.
  intros Hdir.
  assert (Hsl : (Commands.hashdb_dir smaller_hashdb
                 =? Commands.hashdb_dir larger_hashdb)%string = false)
    by now apply String.eqb_neq.
  assert (Hls : (Commands.hashdb_dir larger_hashdb
                 =? Commands.hashdb_dir smaller_hashdb)%string = false)
    by (apply String.eqb_neq; congruence).
  assert (Hnil : forall (m : Commands.hashdb_manager_t)
                        (c : Changes.hashdb_changes_t) (n : nat),
             exists r calls,
               Calls.intersect_optimized_loop n [] smaller_hashdb
                 larger_hashdb m c = Some (r, calls) /\
               Commands.intersect_optimized_loop n [] smaller_hashdb
                 larger_hashdb m c = Some r /\
               r = Commands.insert_each (Calls.inserted calls) m c /\
               (forall k,
                   In k (Calls.counted_in
                           (Commands.hashdb_dir larger_hashdb) calls) <->
                   exists y : Commands.hashdb_element_t,
                     In y [] /\ Commands.key y = k) /\
               (forall k,
                   In k (Calls.found_in
                           (Commands.hashdb_dir larger_hashdb) calls) <->
                   (exists y : Commands.hashdb_element_t,
                       In y [] /\ Commands.key y = k) /\
                   Commands.has_key larger_hashdb k) /\
               StringSet.ascending
                 (Calls.found_in (Commands.hashdb_dir larger_hashdb) calls) /\
               Calls.counted_in (Commands.hashdb_dir smaller_hashdb) calls
               = Calls.found_in (Commands.hashdb_dir larger_hashdb) calls /\
               Calls.found_in (Commands.hashdb_dir smaller_hashdb) calls = [] /\
               Calls.inserted calls
               = flat_map (fun k => (Commands.find smaller_hashdb k
                                     ++ Commands.find larger_hashdb k)%list)
                   (Calls.found_in
                      (Commands.hashdb_dir larger_hashdb) calls)).
  { intros m c n. exists (m, c), [].
    split; [now destruct n|]. split; [now destruct n|].
    split; [reflexivity|].
    split; [intros k; split; [intros [] | intros (y & [] & _)]|].
    split; [intros k; split; [intros [] | intros [(y & [] & _) _]]|].
    split; [constructor|]. auto. }
  induction fuel as [|fuel IH]; intros it pre m c Hel Hs Hpre Hfuel.
  - destruct it; [|simpl in Hfuel; lia]. apply Hnil.
  - destruct it as [|e next]; [apply Hnil|].
    cbn [Calls.intersect_optimized_loop Commands.intersect_optimized_loop].
    unfold Calls.find_count at 1. unfold Calls.call at 1.
    cbn [Calls.bind].
    destruct (Nat.ltb_spec 0
                (Commands.find_count larger_hashdb (Commands.key e)))
      as [Hpos|Hzero].
    + (* there is a match in the larger database *)
      apply find_count_pos in Hpos.
      set (k := Commands.key e) in *.
      set (p := fun e0 : Commands.hashdb_element_t =>
                  (Commands.key e0 =? k)%string).
      pose proof (ascending_keys_app_r _ _ Hs) as Hsit.
      assert (Hge : Forall (fun x => String.compare k (Commands.key x) <> Gt)
                      (e :: next)).
      { constructor; [subst k; now rewrite string_compare_refl|].
        inversion Hsit; subst. assumption. }
      destruct (run_first k (e :: next) Hsit Hge) as (rest & Hit & Hrest).
      fold p in Hit.
      assert (Hprenone : List.filter p pre = []).
      { apply filter_none. intros x Hx. apply String.eqb_neq. intros Hxk.
        apply (Hpre x Hx) with (y := e); [now rewrite Hxk | now left |].
        now rewrite Hxk. }
      assert (Hfind : Commands.find smaller_hashdb k
                      = List.filter p (e :: next)).
      { unfold Commands.find. fold p.
        now rewrite Hel, List.filter_app, Hprenone. }
      assert (Hcount : Commands.find_count smaller_hashdb k
                       = List.length (List.filter p (e :: next))).
      { unfold Commands.find_count. now rewrite Hfind. }
      assert (Hrun : exists run, List.filter p (e :: next) = e :: run).
      { simpl. unfold p at 1. subst k. rewrite String.eqb_refl. eauto. }
      destruct Hrun as (run & Hrun).
      set (it := e :: next) in *.
      unfold Calls.find_count at 1. unfold Calls.find at 1. unfold Calls.call.
      cbn [Calls.bind]. rewrite Hcount.
      assert (Hadd : Commands.add_from_smaller
                       (List.length (List.filter p it)) it m c
                     = Some (rest,
                             (Commands.insert_each (List.filter p it) m c).1,
                             (Commands.insert_each (List.filter p it) m c).2)).
      { rewrite <- add_from_smaller_run. now rewrite <- Hit. }
      assert (Hadd' : Calls.add_from_smaller
                        (List.length (List.filter p it)) it m c
                      = Some ((rest,
                               (Commands.insert_each (List.filter p it) m c).1,
                               (Commands.insert_each (List.filter p it) m c).2),
                              map Calls.insert_call (List.filter p it))).
      { rewrite <- calls_add_from_smaller_run. now rewrite <- Hit. }
      rewrite Hadd, Hadd'. cbn [Calls.bind].
      rewrite calls_insert_each.
      destruct (Commands.insert_each (List.filter p it) m c) as [m1 c1] eqn:H1.
      cbn [fst snd].
      destruct (Commands.insert_each (Commands.find larger_hashdb k) m1 c1)
        as [m2 c2] eqn:H2.
      destruct (IH rest (pre ++ List.filter p it)%list m2 c2)
        as (r & calls & Hc & Hcmd & Hr & P1 & P2 & P3 & P4 & P5 & P6).
      * now rewrite <- app_assoc, <- Hit.
      * now rewrite <- app_assoc, <- Hit.
      * intros x Hx Hxl y Hy. apply in_app_or in Hx as [Hx|Hx].
        -- apply (Hpre x Hx Hxl). rewrite Hit. apply in_or_app. now right.
        -- apply List.filter_In in Hx as [_ Hx]. apply String.eqb_eq in Hx.
           rewrite Hx. rewrite List.Forall_forall in Hrest. now apply Hrest.
      * assert (List.length it
                = (List.length (List.filter p it) + List.length rest)%nat)
          by (rewrite Hit at 1; apply length_app).
        rewrite Hrun in H. simpl in H. unfold it in Hfuel.
        simpl in Hfuel. lia.
      * cbn [Calls.bind]. rewrite Hc, Hcmd. cbn [Calls.bind app].
        eexists _, _. split; [reflexivity|]. split; [reflexivity|].
        autorewrite with calls. rewrite ?Hsl, ?Hls. cbn [app].
        split.
        { rewrite !insert_each_app, H1. cbn [fst snd]. rewrite H2.
          cbn [fst snd]. exact Hr. }
        assert (Hsplit : forall y, In y it <->
                  (In y it /\ Commands.key y = k) \/ In y rest).
        { intros y. rewrite Hit at 1. rewrite in_app_iff, List.filter_In.
          unfold p. rewrite String.eqb_eq. reflexivity. }
        assert (He : In e it) by now left.
        split.
        { intros k0. cbn [In]. rewrite P1. split.
          - intros [<-|(y & Hy & Hk)].
            + exists e. split; [exact He | reflexivity].
            + exists y. split; [|exact Hk]. apply Hsplit. now right.
          - intros (y & Hy & Hk). apply Hsplit in Hy as [[_ Hyk]|Hy].
            + left. congruence.
            + right. eauto. }
        split.
        { intros k0. cbn [In]. rewrite P2. split.
          - intros [<-|[(y & Hy & Hk) Hl]].
            + split; [|exact Hpos]. exists e. split; [exact He | reflexivity].
            + split; [|exact Hl]. exists y. split; [|exact Hk].
              apply Hsplit. now right.
          - intros [(y & Hy & Hk) Hl]. apply Hsplit in Hy as [[_ Hyk]|Hy].
            + left. congruence.
            + right. split; [eauto | exact Hl]. }
        split.
        { constructor; [exact P3|]. rewrite List.Forall_forall.
          intros k0 Hk0. apply P2 in Hk0 as [(y & Hy & Hk) _].
          rewrite List.Forall_forall in Hrest, Hge.
          specialize (Hrest y Hy).
          assert (Hyit : In y it) by (apply Hsplit; now right).
          specialize (Hge y Hyit). unfold StringSet.lt. rewrite <- Hk.
          destruct (String.compare k (Commands.key y)) eqn:Hcmp.
          - apply string_compare_eq in Hcmp. congruence.
          - reflexivity.
          - now destruct Hge. }
        split; [now rewrite P4|]. split; [exact P5|].
        cbn [flat_map]. rewrite Hfind, <- P6. now rewrite <- app_assoc.
    + (* no match *)
      assert (Hno : ~ Commands.has_key larger_hashdb (Commands.key e)).
      { rewrite <- find_count_pos. lia. }
      destruct (IH next (pre ++ [e])%list m c)
        as (r & calls & Hc & Hcmd & Hr & P1 & P2 & P3 & P4 & P5 & P6).
      * now rewrite <- app_assoc.
      * now rewrite <- app_assoc.
      * intros x Hx Hxl y Hy. apply in_app_or in Hx as [Hx|[->|[]]].
        -- apply (Hpre x Hx Hxl). now right.
        -- contradiction.
      * simpl in Hfuel. lia.
      * rewrite Hc, Hcmd. cbn [app].
        eexists _, _. split; [reflexivity|]. split; [reflexivity|].
        autorewrite with calls. rewrite ?Hsl, ?Hls. cbn [app].
        split; [exact Hr|].
        split.
        { intros k0. cbn [In]. rewrite P1. split.
          - intros [<-|(y & Hy & Hk)].
            + exists e. split; [now left | reflexivity].
            + exists y. split; [now right | exact Hk].
          - intros (y & [<-|Hy] & Hk); [now left | right; eauto]. }
        split.
        { intros k0. rewrite P2. split.
          - intros [(y & Hy & Hk) Hl]. split; [|exact Hl].
            exists y. split; [now right | exact Hk].
          - intros [(y & [<-|Hy] & Hk) Hl].
            + exfalso. apply Hno. now rewrite Hk.
            + split; [eauto | exact Hl]. }
        split; [exact P3|]. split; [exact P4|]. split; [exact P5 | exact P6].
Qed.

Lemma intersect_optimized_calls
    (smaller_hashdb larger_hashdb hashdb3 : Commands.hashdb_manager_t)
    (changes : Changes.hashdb_changes_t) :
  Commands.hashdb_dir smaller_hashdb <> Commands.hashdb_dir larger_hashdb ->
  Commands.ascending_keys (Commands.elements smaller_hashdb) ->
  exists r calls,
    Calls.intersect_optimized smaller_hashdb larger_hashdb hashdb3 changes
    = Some (r, calls) /\
    Commands.intersect_optimized smaller_hashdb larger_hashdb hashdb3 changes
    = Some r /\
    r = Commands.insert_each (Calls.inserted calls) hashdb3 changes /\
    (forall k,
        In k (Calls.counted_in (Commands.hashdb_dir larger_hashdb) calls) <->
        Commands.has_key smaller_hashdb k) /\
    (forall k,
        In k (Calls.found_in (Commands.hashdb_dir larger_hashdb) calls) <->
        Commands.has_key smaller_hashdb k /\
        Commands.has_key larger_hashdb k) /\
    StringSet.ascending
      (Calls.found_in (Commands.hashdb_dir larger_hashdb) calls) /\
    Calls.counted_in (Commands.hashdb_dir smaller_hashdb) calls
    = Calls.found_in (Commands.hashdb_dir larger_hashdb) calls /\
    Calls.found_in (Commands.hashdb_dir smaller_hashdb) calls = [] /\
    Calls.inserted calls
    = flat_map (fun k => (Commands.find smaller_hashdb k
                          ++ Commands.find larger_hashdb k)%list)
        (Calls.found_in (Commands.hashdb_dir larger_hashdb) calls).
Proof.
  intros Hdir Hs.
  exact (intersect_optimized_loop_calls smaller_hashdb larger_hashdb
           (List.length (Commands.elements smaller_hashdb)) Hdir
           (Commands.elements smaller_hashdb) [] hashdb3 changes
           eq_refl Hs ltac:(intros x []) (le_n _)).
Qed.

Lemma calls_add_multiple_loop (it1 : list Commands.hashdb_element_t) :
  forall (it2 : list Commands.hashdb_element_t)
         (m : Commands.hashdb_manager_t) (c : Changes.hashdb_changes_t),
  Calls.add_multiple_loop it1 it2 m c
  = Some (Commands.add_multiple_loop it1 it2 m c,
          map Calls.insert_call (Commands.ordered_merge it1 it2)).
Proof.
  induction it1 as [|e1 it1 IH1]; intros it2.
  - intros m c.
    destruct it2 as [|h it2]; cbn [Calls.add_multiple_loop Commands.add_multiple_loop
                       Commands.ordered_merge Calls.insert_each
                       Commands.insert_each Calls.ret Calls.bind];
      [reflexivity|].
    unfold Calls.insert, Calls.call. cbn [Calls.bind].
    destruct (Commands.insert h m c) as [m' c'].
    now rewrite calls_insert_each.
  - induction it2 as [|e2 it2 IH2]; intros m c.
    + cbn [Calls.add_multiple_loop Commands.add_multiple_loop].
      rewrite ordered_merge_nil_r, calls_insert_each. cbn [Calls.bind].
      destruct (Commands.insert_each (e1 :: it1) m c) as [m' c'].
      cbn [Calls.insert_each Commands.insert_each Calls.ret].
      now rewrite app_nil_r.
    + cbn [Calls.add_multiple_loop Commands.add_multiple_loop
           Commands.ordered_merge].
      rewrite hexdigest_leb.
      destruct (String.leb (Commands.key e1) (Commands.key e2)).
      * unfold Calls.insert, Calls.call. cbn [Calls.bind].
        destruct (Commands.insert e1 m c) as [m' c']. now rewrite IH1.
      * unfold Calls.insert, Calls.call. cbn [Calls.bind].
        destruct (Commands.insert e2 m c) as [m' c']. now rewrite IH2.
Qed.

(** In the ordered merge of two ascending sequences the elements of a key
    are those of the first sequence followed by those of the second. *)
Lemma ordered_merge_find (k : string) (a : list Commands.hashdb_element_t) :
  forall b : list Commands.hashdb_element_t,
  Commands.ascending_keys a ->
  List.filter (fun e => (Commands.key e =? k)%string)
    (Commands.ordered_merge a b)
  = (List.filter (fun e => (Commands.key e =? k)%string) a
     ++ List.filter (fun e => (Commands.key e =? k)%string) b)%list.
Proof.
  set (p := fun e : Commands.hashdb_element_t => (Commands.key e =? k)%string).
  induction a as [|e1 a IH1]; intros b Ha.
  - now destruct b.
  - inversion Ha as [|? ? Ha' Hall1]; subst.
    induction b as [|e2 b IH2].
    + cbn [Commands.ordered_merge]. cbn [List.filter]. now rewrite app_nil_r.
    + cbn [Commands.ordered_merge].
      destruct (String.leb (Commands.key e1) (Commands.key e2)) eqn:Hle.
      * cbn [List.filter]. rewrite (IH1 (e2 :: b) Ha').
        now destruct (p e1).
      * change (List.filter p (e2 :: Commands.ordered_merge (e1 :: a) b)
                = (List.filter p (e1 :: a) ++ List.filter p (e2 :: b))%list).
        cbn [List.filter]. rewrite IH2. cbn [List.filter].
        destruct (p e2) eqn:Hp2; [|reflexivity].
        assert (Hnone : List.filter p (e1 :: a) = []).
        { apply filter_none. intros x Hx. apply String.eqb_neq. intros Hxk.
          apply String.eqb_eq in Hp2.
          assert (Hgt : String.compare (Commands.key e1) (Commands.key e2)
                        = Gt).
          { unfold String.leb in Hle.
            now destruct (String.compare (Commands.key e1) (Commands.key e2)). }
          destruct Hx as [<-|Hx].
          - rewrite Hxk, Hp2, string_compare_refl in Hgt. discriminate.
          - rewrite List.Forall_forall in Hall1. specialize (Hall1 x Hx).
            unfold Commands.key_le in Hall1.
            rewrite Hxk, <- Hp2 in Hall1. contradiction. }
        cbn [List.filter] in Hnone. rewrite Hnone. reflexivity.
Qed.

Ltac ascending_keys_by_computation :=
  repeat first
    [ apply SSorted_nil | apply SSorted_cons | apply List.Forall_nil
    | apply List.Forall_cons
    | (unfold Commands.key_le; vm_compute; discriminate) ].

(** * The claims *)

(** C1.  A hash that [insert] of the hash store has accepted, be it counted
    as [hash_inserted] or as [hash_already_present], is found by [find]
    right after the insert and after any further inserts; and after the
    insert of the hash-data store has inserted an entry (aligned, not yet
    present, counted in [hashes_inserted]) the bloom filter answers
    "possibly present" for its hash, also after the rest of the list. *)
Theorem C1_inserted_hash_is_found :
  (forall (m : HashStore.lmdb_hash_manager_t) (H : string)
          (later : list string)
          (env env1 env2 : gmap string string)
          (c c1 c2 : HashStore.lmdb_changes_t),
      HashStore.insert m H env c = Some (env1, c1) ->
      HashStore.insert_all m later env1 c1 = Some (env2, c2) ->
      H <> "" /\
      ((HashStore.hash_inserted c1 = HashStore.hash_inserted c + 1 /\
        HashStore.hash_already_present c1 = HashStore.hash_already_present c)
       \/
       (HashStore.hash_inserted c1 = HashStore.hash_inserted c /\
        HashStore.hash_already_present c1
        = HashStore.hash_already_present c + 1))%N /\
      HashStore.find m H env1 = Some true /\
      HashStore.find m H env2 = Some true)
  /\
  (forall (settings : HashData.hashdb_settings_t) (source_id : N)
          (before after : list HashData.hash_data_t)
          (it : HashData.hash_data_t) (st st1 st2 : HashData.state_t),
      HashData.insert settings source_id before st = Some st1 ->
      HashData.aligned settings it = true ->
      HashData.mdb_cursor_get_both (HashData.env st1)
        (HashData.stored_pair settings source_id it).1
        (HashData.stored_pair settings source_id it).2
      = HashData.MDB_NOTFOUND ->
      HashData.insert settings source_id (before ++ it :: after) st
      = Some st2 ->
      Bloom.probably_contains (HashData.bloom_filter_manager st2)
        (HashData.binary_hash it) = true).
Proof.
  split.
  - intros m H later env env1 env2 c c1 c2 Hi Hall.
    split.
    { intros ->. unfold HashStore.insert in Hi. discriminate. }
    split.
    { destruct (insert_counts _ _ _ _ _ _ Hi) as [[? ?]|(? & ? & _)]; auto. }
    pose proof (find_after_insert _ _ _ _ _ _ Hi) as Hf.
    split; [exact Hf|].
    eapply find_after_insert_all; [exact Hall | now right].
  - intros settings source_id before after it st st1 st2 Hb Ha Hnf Hall.
    rewrite hash_data_insert_app, Hb in Hall. simpl in Hall.
    destruct (HashData.insert_entry settings source_id it st1) as [st'|] eqn:Hi;
      [|discriminate].
    apply (insert_bloom_mono _ _ _ _ _ _ Hall).
    apply insert_entry_cases in Hi as [_ Hc].
    destruct Hc as [(Hna & _)|[(_ & Hp & _)|(_ & _ & _ & -> & _)]].
    + congruence.
    + congruence.
    + apply bloom_add_contains.
Qed.

Lemma C1_inserted_hash_is_found_witness :
  (exists env1 c1 env2 c2,
      HashStore.insert Scenario.manager_16_14 (Scenario.hash16 0) ∅
        Scenario.no_changes = Some (env1, c1) /\
      HashStore.insert_all Scenario.manager_16_14
        [Scenario.hash16 1; Scenario.hash16 0] env1 c1 = Some (env2, c2) /\
      HashStore.find Scenario.manager_16_14 (Scenario.hash16 0) env2
      = Some true)
  /\
  (exists st2,
      HashData.insert Scenario.settings_512 1
        [Scenario.entry (Scenario.hash16 7) 513;
         Scenario.entry (Scenario.hash16 0) 1024;
         Scenario.entry (Scenario.hash16 0) 1024] Scenario.new_state
      = Some st2 /\
      Bloom.probably_contains (HashData.bloom_filter_manager st2)
        (Scenario.hash16 0) = true).
Proof.
  split.
  - destruct (HashStore.insert Scenario.manager_16_14 (Scenario.hash16 0) ∅
                Scenario.no_changes) as [[env1 c1]|] eqn:Hi;
      [|vm_compute in Hi; discriminate].
    destruct (HashStore.insert_all Scenario.manager_16_14
                [Scenario.hash16 1; Scenario.hash16 0] env1 c1)
      as [[env2 c2]|] eqn:Hall.
    + exists env1, c1, env2, c2. split; [reflexivity|]. split; [exact Hall|].
      exact (proj2 (proj2 (proj2 (proj1 C1_inserted_hash_is_found
               _ _ _ _ _ _ _ _ _ Hi Hall)))).
    + exfalso. revert Hall. injection Hi as <- <-.
      vm_compute. discriminate.
  - destruct (HashData.insert Scenario.settings_512 1
                [Scenario.entry (Scenario.hash16 7) 513;
                 Scenario.entry (Scenario.hash16 0) 1024;
                 Scenario.entry (Scenario.hash16 0) 1024] Scenario.new_state)
      as [st2|] eqn:Hall; [|vm_compute in Hall; discriminate].
    exists st2. split; [reflexivity|].
    destruct (HashData.insert Scenario.settings_512 1
                [Scenario.entry (Scenario.hash16 7) 513] Scenario.new_state)
      as [st1|] eqn:Hb; [|vm_compute in Hb; discriminate].
    refine (proj2 C1_inserted_hash_is_found Scenario.settings_512 1%N
              [Scenario.entry (Scenario.hash16 7) 513]
              [Scenario.entry (Scenario.hash16 0) 1024]
              (Scenario.entry (Scenario.hash16 0) 1024)
              Scenario.new_state st1 st2 Hb _ _ Hall).
    + reflexivity.
    + injection Hb as <-. vm_compute. reflexivity.
Defined.

(** C2, as stated, fails: with 8 prefix bits and 1 suffix byte the hashes
    [01 02 03] and [01 09 03] have the same prefix and the same suffix, and
    after the insert of the first one [find] of the second one, which was
    never inserted, returns true. *)
Lemma C2_counterexample :
  ~ (forall (prefix_bits suffix_bytes : Z) (m : HashStore.lmdb_hash_manager_t)
            (hashes : list string) (env : gmap string string)
            (c : HashStore.lmdb_changes_t) (H : string),
        HashStore.new_lmdb_hash_manager_t prefix_bits suffix_bytes = Some m ->
        HashStore.insert_all m hashes ∅ Scenario.no_changes = Some (env, c) ->
        H <> "" -> ~ In H hashes ->
        HashStore.find m H env = Some false).
Proof.
  intros Hclaim.
  destruct (HashStore.insert_all
              {| HashStore.prefix_bytes := 1; HashStore.prefix_mask := 255;
                 HashStore.suffix_bytes := 1 |}
              [bytes [1; 2; 3]%N] ∅ Scenario.no_changes)
    as [[env c]|] eqn:Hall; [|vm_compute in Hall; discriminate].
  assert (Hf : HashStore.find
                 {| HashStore.prefix_bytes := 1; HashStore.prefix_mask := 255;
                    HashStore.suffix_bytes := 1 |}
                 (bytes [1; 9; 3]%N) env = Some false).
  { apply (Hclaim 8%Z 1%Z _ [bytes [1; 2; 3]%N] env c).
    - reflexivity.
    - exact Hall.
    - discriminate.
    - intros [Heq|[]]. discriminate Heq. }
  revert Hf. injection Hall as <- _. vm_compute. discriminate.
Qed.

(** C2, amended.  After any sequence of inserts into a new store, [find]
    of a non-empty hash returns, and it returns true exactly when one of
    the inserted hashes has the same (prefix, suffix) pair as [hash_pair]
    computes it; so it returns false for every hash whose pair differs
    from the pairs of all the inserted hashes. *)
Theorem C2_find_exact_up_to_hash_pair :
  forall (m : HashStore.lmdb_hash_manager_t) (hashes : list string)
         (env : gmap string string) (c c' : HashStore.lmdb_changes_t)
         (H : string),
    HashStore.insert_all m hashes ∅ c = Some (env, c') ->
    H <> "" ->
    (exists b, HashStore.find m H env = Some b /\
               (b = true <->
                exists H', In H' hashes /\
                           HashStore.hash_pair m H' = HashStore.hash_pair m H))
    /\
    ((forall H', In H' hashes ->
                 HashStore.hash_pair m H' <> HashStore.hash_pair m H) ->
     HashStore.find m H env = Some false).
Proof. exact find_exact_up_to_hash_pair. Qed.

Lemma C2_find_exact_up_to_hash_pair_witness :
  exists env c',
    HashStore.insert_all Scenario.manager_16_14
      [Scenario.hash16 0; Scenario.hash16 1] ∅ Scenario.no_changes
    = Some (env, c') /\
    HashStore.find Scenario.manager_16_14 (Scenario.hash16 2) env
    = Some false.
Proof.
  destruct (HashStore.insert_all Scenario.manager_16_14
              [Scenario.hash16 0; Scenario.hash16 1] ∅ Scenario.no_changes)
    as [[env c']|] eqn:Hall; [|vm_compute in Hall; discriminate].
  exists env, c'. split; [reflexivity|].
  apply (proj2 (C2_find_exact_up_to_hash_pair Scenario.manager_16_14
                  [Scenario.hash16 0; Scenario.hash16 1] env
                  Scenario.no_changes c' (Scenario.hash16 2) Hall
                  ltac:(discriminate))).
  intros H' [<-|[<-|[]]]; vm_compute; discriminate.
Defined.

(** C3, as stated, fails: with 4 prefix bits and 2 suffix bytes the
    two-byte hashes [11 aa] and [10 aa] are shorter than
    [prefix_bytes + suffix_bytes = 3], they differ, and after the insert of
    the first one [find] of the second one returns true: the low four bits
    of the first byte are masked out of the prefix, and the suffix starts
    after the prefix. *)
Lemma C3_counterexample :
  ~ (forall (prefix_bits suffix_bytes : Z) (m : HashStore.lmdb_hash_manager_t)
            (H1 H2 : string) (env : gmap string string)
            (c : HashStore.lmdb_changes_t),
        HashStore.new_lmdb_hash_manager_t prefix_bits suffix_bytes = Some m ->
        (Z.of_nat (String.length H1)
         < HashStore.prefix_bytes m + HashStore.suffix_bytes m)%Z ->
        (Z.of_nat (String.length H2)
         < HashStore.prefix_bytes m + HashStore.suffix_bytes m)%Z ->
        H1 <> H2 -> H2 <> "" ->
        HashStore.insert m H1 ∅ Scenario.no_changes = Some (env, c) ->
        HashStore.find m H2 env = Some false).
Proof.
  intros Hclaim.
  destruct (HashStore.insert
              {| HashStore.prefix_bytes := 1; HashStore.prefix_mask := 240;
                 HashStore.suffix_bytes := 2 |}
              (bytes [17; 170]%N) ∅ Scenario.no_changes)
    as [[env c]|] eqn:Hi; [|vm_compute in Hi; discriminate].
  assert (Hf : HashStore.find
                 {| HashStore.prefix_bytes := 1; HashStore.prefix_mask := 240;
                    HashStore.suffix_bytes := 2 |}
                 (bytes [16; 170]%N) env = Some false).
  { apply (Hclaim 4%Z 2%Z _ (bytes [17; 170]%N) (bytes [16; 170]%N) env c).
    - reflexivity.
    - vm_compute. reflexivity.
    - vm_compute. reflexivity.
    - discriminate.
    - discriminate.
    - exact Hi. }
  revert Hf. injection Hi as <- _. vm_compute. discriminate.
Qed.

(** C3, amended.  For a hash shorter than [prefix_bytes + suffix_bytes]
    the suffix starts where the prefix stops, and prefix and suffix together
    are the hash with the prefix mask applied to byte [prefix_bytes - 1].
    After the inserts of any such hashes into a new store, [find] of such a
    hash returns true exactly when one of them equals it after that masking;
    so when the number of prefix bits is a multiple of 8 (the mask is 0xff),
    [find] of a hash that is not among them returns false. *)
Theorem C3_short_hashes_are_distinguished :
  forall (prefix_bits suffix_bytes : Z) (m : HashStore.lmdb_hash_manager_t)
         (hashes : list string) (env : gmap string string)
         (c c' : HashStore.lmdb_changes_t) (H : string),
    HashStore.new_lmdb_hash_manager_t prefix_bits suffix_bytes = Some m ->
    Forall (fun h => (Z.of_nat (String.length h)
                      < HashStore.prefix_bytes m + HashStore.suffix_bytes m)%Z)
      hashes ->
    (Z.of_nat (String.length H)
     < HashStore.prefix_bytes m + HashStore.suffix_bytes m)%Z ->
    H <> "" ->
    HashStore.insert_all m hashes ∅ c = Some (env, c') ->
    let masked :=
      HashStore.and_at (Z.to_nat (HashStore.prefix_bytes m - 1))
        (HashStore.prefix_mask m) in
    (HashStore.hash_pair m H).1 +:+ (HashStore.hash_pair m H).2 = masked H /\
    String.length (HashStore.hash_pair m H).1
    = Nat.min (String.length H) (Z.to_nat (HashStore.prefix_bytes m)) /\
    (exists b, HashStore.find m H env = Some b /\
               (b = true <->
                exists H', In H' hashes /\ masked H' = masked H)) /\
    ((HashStore.uint32 prefix_bits mod 8 = 0)%Z ->
     masked H = H /\
     (~ In H hashes -> HashStore.find m H env = Some false)).
Proof.
  intros bits sb m hashes env c c' H Hnew Hshort HH Hne Hall masked.
  destruct (new_manager_fields _ _ _ Hnew) as (Hpb & Hsb & Hmask).
  destruct (hash_pair_short m H Hpb Hsb HH) as [E1 E2].
  fold masked in E1.
  split; [exact E1|]. split; [exact E2|].
  destruct (find_exact_up_to_hash_pair m hashes env c c' H Hall Hne)
    as [(b & Hf & Hb) _].
  rewrite List.Forall_forall in Hshort.
  assert (Hiff : b = true <->
                 exists H', In H' hashes /\ masked H' = masked H).
  { rewrite Hb. split; intros (H' & Hin & Heq); exists H';
      (split; [exact Hin|]);
      now apply (hash_pair_short_eq_iff m H' H Hpb Hsb (Hshort H' Hin) HH). }
  split; [exists b; split; [exact Hf | exact Hiff]|].
  intros Hbits. rewrite Hbits in Hmask. change (nth _ _ _) with 255%N in Hmask.
  assert (Hid : forall h, masked h = h).
  { intros h. unfold masked. rewrite Hmask. apply and_at_255. }
  split; [apply Hid|]. intros Hnin. rewrite Hf. f_equal.
  destruct b; [|reflexivity].
  destruct (proj1 Hiff eq_refl) as (H' & Hin & Heq).
  rewrite !Hid in Heq. now subst.
Qed.

Lemma C3_short_hashes_are_distinguished_witness :
  exists env c',
    HashStore.insert_all Scenario.manager_16_14
      [bytes [1; 2; 3]%N; bytes [1; 2]%N] ∅ Scenario.no_changes
    = Some (env, c') /\
    HashStore.find Scenario.manager_16_14 (bytes [1; 2; 4]%N) env
    = Some false.
Proof.
  destruct (HashStore.insert_all Scenario.manager_16_14
              [bytes [1; 2; 3]%N; bytes [1; 2]%N] ∅ Scenario.no_changes)
    as [[env c']|] eqn:Hall; [|vm_compute in Hall; discriminate].
  exists env, c'. split; [reflexivity|].
  refine (proj2 (proj2 (proj2 (proj2
            (C3_short_hashes_are_distinguished 16%Z 14%Z
               Scenario.manager_16_14 [bytes [1; 2; 3]%N; bytes [1; 2]%N]
               env Scenario.no_changes c' (bytes [1; 2; 4]%N)
               _ _ _ _ Hall))) _) _).
  - reflexivity.
  - repeat constructor.
  - vm_compute. reflexivity.
  - discriminate.
  - reflexivity.
  - intros [Heq|[Heq|[]]]; discriminate Heq.
Defined.

(** Whenever [encode_data] returns an encoding (its writes stay within the
    [strings.size() * 16] bytes of its buffer), [decode_data] of that
    encoding yields the same set and the loop of the decoder stops exactly at
    the end of the encoding; and [encode_data] does return when no string is
    longer than the 15 bytes that the comment above the buffer permits. *)
Lemma decode_encode_data_within_the_buffer :
  forall (suffix_bytes : nat) (strings : StringSet.t),
    StringSet.ascending strings ->
    Forall (fun s => (String.length s <= suffix_bytes)%nat) strings ->
    (forall encoding,
        HashStore.encode_data strings = Some encoding ->
        HashStore.decode_loop (String.length encoding) encoding []
        = Some (strings, "") /\
        HashStore.decode_data encoding = Some strings)
    /\
    ((suffix_bytes <= 15)%nat ->
     exists encoding, HashStore.encode_data strings = Some encoding).
Proof.
  intros sb strings Ha Hlen. split.
  - intros encoding He. apply encode_data_Some in He. subst encoding.
    split; [|now apply decode_data_encode_ascending].
    rewrite decode_loop_encode_loop by apply length_encode_loop.
    unfold StringSet.insert_list. now rewrite set_insert_all_ascending.
  - intros Hsb. eexists. apply encode_data_fits.
    eapply List.Forall_impl; [|exact Hlen]. simpl. intros; lia.
Qed.

(** C4.  [encode_data] at the set that holds the one string of 16 zero
    bytes, a set that a store with [suffix_bytes = 16] encodes: no string of
    the set is longer than [suffix_bytes]; the loop writes 17 bytes, the
    length byte and the string; the buffer has [strings.size() * 16 = 16]
    bytes, so that the last write is one byte past its end, which is the
    [None] of [encode_data]; and the 17 bytes, as the encoding, decode to the
    set, the loop of the decoder stopping at their end.  [insert] reaches
    that call: in a store of 8 prefix bits and 16 suffix bytes, the suffix of
    a hash of 17 bytes is its last 16 bytes. *)
Theorem C4_encode_data_writes_past_its_buffer :
  let suffix_bytes := 16%nat in
  let strings : StringSet.t := [Scenario.hash16 0] in
  Forall (fun s => (String.length s <= suffix_bytes)%nat) strings /\
  String.length (HashStore.encode_loop strings "") = 17%nat /\
  (List.length strings * 16)%nat = 16%nat /\
  HashStore.encode_data strings = None /\
  HashStore.decode_loop 17 (HashStore.encode_loop strings "") []
  = Some (strings, "") /\
  HashStore.decode_data (HashStore.encode_loop strings "") = Some strings /\
  exists m : HashStore.lmdb_hash_manager_t,
    HashStore.new_lmdb_hash_manager_t 8 16 = Some m /\
    (HashStore.hash_pair m (bytes (1%N :: repeat 0%N 16))).2
    = Scenario.hash16 0 /\
    HashStore.insert m (bytes (1%N :: repeat 0%N 16)) ∅ Scenario.no_changes
    = None.
Proof.
  cbv zeta. split; [repeat constructor|].
  do 5 (split; [vm_compute; reflexivity|]).
  eexists. split; [reflexivity|]. split; vm_compute; reflexivity.
Qed.



(** C6.  [insert] keeps the (key, data) pairs of the store free of
    repetitions, the data being the encoding of (source-id, offset-index);
    and the same observation, aligned and not yet in the store, inserted
    twice with new counters gives [hashes_inserted = 1],
    [hashes_not_inserted_duplicate_element = 1], the second insert leaving
    the store as the first one left it. *)
Theorem C6_no_duplicate_entries :
  (forall (settings : HashData.hashdb_settings_t) (source_id : N)
          (hash_data_list : list HashData.hash_data_t)
          (st st' : HashData.state_t),
      List.NoDup (HashData.env st) ->
      HashData.insert settings source_id hash_data_list st = Some st' ->
      List.NoDup (HashData.env st'))
  /\
  (forall (settings : HashData.hashdb_settings_t) (source_id : N)
          (it : HashData.hash_data_t) (st : HashData.state_t),
      HashData.sector_size settings <> 0%N ->
      (HashData.file_offset it mod HashData.sector_size settings)%N = 0%N ->
      ~ In (HashData.stored_pair settings source_id it) (HashData.env st) ->
      HashData.changes st = Changes.new_hashdb_changes_t ->
      exists st1 st2 : HashData.state_t,
        HashData.insert settings source_id [it] st = Some st1 /\
        HashData.insert settings source_id [it] st1 = Some st2 /\
        HashData.insert settings source_id [it; it] st = Some st2 /\
        In (HashData.stored_pair settings source_id it) (HashData.env st1) /\
        HashData.env st2 = HashData.env st1 /\
        Changes.hashes_inserted (HashData.changes st2) = 1%Z /\
        Changes.hashes_not_inserted_duplicate_element (HashData.changes st2)
        = 1%Z).
Proof.
  split.
  - intros settings source_id l. induction l as [|it l IH]; intros st st' Hnd.
    + simpl. now intros [= <-].
    + simpl.
      destruct (HashData.insert_entry settings source_id it st) as [st1|]
        eqn:Hi; [|discriminate].
      intros Hl. apply (IH st1 st'); [|exact Hl].
      eapply insert_entry_NoDup; eauto.
  - intros settings source_id it st Hss Ha Hn Hc.
    assert (Ha' : HashData.aligned settings it = true).
    { unfold HashData.aligned. now rewrite Ha. }
    destruct (insert_entry_fresh settings source_id it st Hss Ha' Hn)
      as (env1 & Hi1 & Hin1).
    match type of Hi1 with _ = Some ?x => set (st1 := x) in * end.
    pose proof (insert_entry_present settings source_id it st1 Hss Ha' Hin1)
      as Hi2.
    eexists. eexists. simpl. rewrite Hi1, Hi2.
    cbn [HashData.env HashData.changes HashData.bloom_filter_manager st1].
    repeat split; try reflexivity; try exact Hin1; rewrite Hc; reflexivity.
Qed.

Lemma C6_no_duplicate_entries_witness :
  exists st2 : HashData.state_t,
    HashData.insert Scenario.settings_512 1
      [Scenario.entry (Scenario.hash16 0) 0;
       Scenario.entry (Scenario.hash16 0) 0] Scenario.new_state = Some st2 /\
    List.NoDup (HashData.env st2) /\
    Changes.hashes_inserted (HashData.changes st2) = 1%Z /\
    Changes.hashes_not_inserted_duplicate_element (HashData.changes st2) = 1%Z.
Proof.
  destruct (proj2 C6_no_duplicate_entries Scenario.settings_512 1%N
              (Scenario.entry (Scenario.hash16 0) 0) Scenario.new_state
              ltac:(discriminate) eq_refl ltac:(intros []) eq_refl)
    as (st1 & st2 & _ & _ & H2 & _ & _ & Hi & Hd).
  exists st2. split; [exact H2|]. split; [|split; [exact Hi | exact Hd]].
  exact (proj1 C6_no_duplicate_entries Scenario.settings_512 1%N _
           Scenario.new_state st2 (List.NoDup_nil _) H2).
Defined.

(** C9.  When the array [source_offset_pairs] of a block-hash record has
    an odd number of elements, the last one is not read: the calls and the
    reports are those for the array without it; and when the elements
    before it are (file hash, offset) pairs, these [floor(n/2)] pairs are
    inserted, in order, and nothing is reported. *)
Theorem C9_odd_trailing_element_is_ignored :
  forall (hex_to_bin : string -> string)
         (document : list (string * ImportJson.json)) (line : string)
         (block_hash : string) (json_pairs : list ImportJson.json)
         (last : ImportJson.json),
    ImportJson.member "block_hash" document
    = Some (ImportJson.JString block_hash) ->
    ImportJson.member "source_offset_pairs" document
    = Some (ImportJson.JArray (json_pairs ++ [last])) ->
    Nat.Odd (List.length (json_pairs ++ [last])) ->
    let binary_hash := hex_to_bin (ImportJson.c_str block_hash) in
    let entropy := ImportJson.optional_uint64 "entropy" document in
    let block_label := ImportJson.optional_string "block_label" document in
    ImportJson.read_block_hash_data hex_to_bin document line
    = ImportJson.read_pairs hex_to_bin binary_hash entropy block_label line
        json_pairs
    /\
    (forall pairs : list (string * N),
        json_pairs = ImportJson.source_offset_pairs pairs ->
        ImportJson.read_block_hash_data hex_to_bin document line
        = map (fun p => ImportJson.insert_hash binary_hash
                          (hex_to_bin (ImportJson.c_str p.1)) p.2
                          entropy block_label) pairs /\
        List.length pairs = (List.length (json_pairs ++ [last]) / 2)%nat /\
        forallb ImportJson.is_insert
          (ImportJson.read_block_hash_data hex_to_bin document line) = true).
Proof.
  intros hex_to_bin document line block_hash json_pairs last Hbh Hsop Hodd
    binary_hash entropy block_label.
  assert (Hev : exists n, List.length json_pairs = (2 * n)%nat).
  { destruct Hodd as [n Hn]. exists n.
    rewrite length_app in Hn. simpl in Hn. lia. }
  destruct Hev as [n Hn].
  assert (Hread : ImportJson.read_block_hash_data hex_to_bin document line
                  = ImportJson.read_pairs hex_to_bin binary_hash entropy
                      block_label line json_pairs).
  { unfold ImportJson.read_block_hash_data. rewrite Hbh, Hsop.
    now apply read_pairs_leftover with n. }
  split; [exact Hread|].
  intros pairs ->. rewrite Hread, read_pairs_source_offset_pairs.
  split; [reflexivity|]. split.
  - rewrite length_app, length_source_offset_pairs.
    change (List.length [last]) with 1%nat.
    apply Nat.div_unique with 1%nat; lia.
  - apply forallb_forall. intros e He.
    apply in_map_iff in He as (p & <- & _). reflexivity.
Qed.

Lemma C9_odd_trailing_element_is_ignored_witness :
  ImportJson.read_block_hash_data (fun s => s)
    [("block_hash", ImportJson.JString "a7df");
     ("source_offset_pairs",
      ImportJson.JArray [ImportJson.JString "b9e7"; ImportJson.JUint64 4096;
                         ImportJson.JString "c001"])] "line"
  = [ImportJson.insert_hash "a7df" "b9e7" 4096 0 ""].
Proof.
  exact (proj1 (proj2 (C9_odd_trailing_element_is_ignored (fun s => s)
           [("block_hash", ImportJson.JString "a7df");
            ("source_offset_pairs",
             ImportJson.JArray [ImportJson.JString "b9e7";
                                ImportJson.JUint64 4096;
                                ImportJson.JString "c001"])] "line" "a7df"
           [ImportJson.JString "b9e7"; ImportJson.JUint64 4096]
           (ImportJson.JString "c001") eq_refl eq_refl
           (ex_intro _ 1%nat eq_refl))
         [("b9e7", 4096%N)] eq_refl)).
Defined.

(** C10.  When [file_hash] and [filesize] of a source record are valid,
    [insert_source_data] is the first thing [read_source_data] does: a
    record without an array [names] has its source data inserted and is
    then reported as invalid; and when an element of the array is not a
    pair of names, the source data and the name pairs before that element
    are inserted, and then the reader stops, without an insert for what
    follows. *)
Theorem C10_source_data_inserted_before_names_are_validated :
  forall (hex_to_bin : string -> string)
         (document : list (string * ImportJson.json)) (line : string)
         (file_hash : string) (filesize : N),
    ImportJson.member "file_hash" document
    = Some (ImportJson.JString file_hash) ->
    ImportJson.member "filesize" document
    = Some (ImportJson.JUint64 filesize) ->
    let file_binary_hash := hex_to_bin (ImportJson.c_str file_hash) in
    let source_data :=
      ImportJson.insert_source_data file_binary_hash filesize
        (ImportJson.optional_string "file_type" document)
        (ImportJson.optional_uint64 "nonprobative_count" document) in
    (exists rest,
        ImportJson.read_source_data hex_to_bin document line
        = source_data :: rest)
    /\
    ((forall json_names, ImportJson.member "names" document
                         <> Some (ImportJson.JArray json_names)) ->
     ImportJson.read_source_data hex_to_bin document line
     = [source_data;
        ImportJson.report_invalid_line "source data names" line])
    /\
    (forall (good after : list ImportJson.json) (bad : ImportJson.json)
            (names : list (string * string)),
        ImportJson.member "names" document
        = Some (ImportJson.JArray (good ++ bad :: after)) ->
        map ImportJson.name_pair good = map Some names ->
        ImportJson.name_pair bad = None ->
        exists r : ImportJson.event,
          ImportJson.read_source_data hex_to_bin document line
          = (source_data
             :: map (fun p => ImportJson.insert_source_name
                                file_binary_hash p.1 p.2) names
             ++ [r])%list /\
          ImportJson.is_insert r = false /\
          (forall members, bad = ImportJson.JObject members ->
                           ImportJson.is_report r = true)).
Proof.
  intros hex_to_bin document line file_hash filesize Hfh Hfs
    file_binary_hash source_data.
  unfold ImportJson.read_source_data. rewrite Hfh, Hfs.
  fold file_binary_hash. fold source_data.
  split; [eexists; reflexivity|]. split.
  - intros Hno.
    destruct (ImportJson.member "names" document) as [[]|]; try reflexivity.
    now destruct (Hno items).
  - intros good after bad names Hn Hgood Hbad. rewrite Hn.
    rewrite (read_names_good hex_to_bin _ _ _ _ _ Hgood).
    destruct (read_names_stops hex_to_bin file_binary_hash line bad after Hbad)
      as (r & -> & Hr1 & Hr2).
    exists r. auto.
Qed.

Lemma C10_source_data_inserted_before_names_are_validated_witness :
  ImportJson.read_source_data (fun s => s)
    [("file_hash", ImportJson.JString "b9e7");
     ("filesize", ImportJson.JUint64 8000);
     ("names", ImportJson.JString "none")] "line"
  = [ImportJson.insert_source_data "b9e7" 8000 "" 0;
     ImportJson.report_invalid_line "source data names" "line"].
Proof.
  refine (proj1 (proj2
           (C10_source_data_inserted_before_names_are_validated (fun s => s)
              [("file_hash", ImportJson.JString "b9e7");
               ("filesize", ImportJson.JUint64 8000);
               ("names", ImportJson.JString "none")] "line" "b9e7" 8000%N
              eq_refl eq_refl)) _).
  intros json_names. discriminate.
Defined.

(** C7.  [intersect] returns, and its calls on the databases are those of a
    walk over the database of the smaller map size, the first one when the
    sizes are equal.  [find_count] is called on the other, larger, database
    with the keys of the smaller one and with no other key.  [find] is called
    on the larger database, and [find_count] on the smaller one, with the
    keys that both databases have, in ascending order and once each; [find]
    is not called on the smaller one.  The elements inserted into the
    destination are, key by key in that order, all the elements of the key
    in the smaller database followed by all its elements in the larger one.
    The destination is the outcome of these inserts: it holds what it held
    before and, for every key that has elements in both databases, all the
    elements of that key of both databases, and nothing else; its keys are
    the keys it had and the keys common to the two databases. *)
Theorem C7_intersect_copies_common_keys :
  forall manager1 manager2 manager3 : Commands.hashdb_manager_t,
    Commands.require_compatibility manager1 manager2 manager3 = true ->
    Commands.ascending_keys (Commands.elements manager1) ->
    Commands.ascending_keys (Commands.elements manager2) ->
    let smaller :=
      if (Commands.map_size manager1 <=? Commands.map_size manager2)%nat
      then manager1 else manager2 in
    let larger :=
      if (Commands.map_size manager1 <=? Commands.map_size manager2)%nat
      then manager2 else manager1 in
    exists manager3' changes' calls,
      Calls.intersect manager1 manager2 manager3
      = Some (manager3', changes', calls) /\
      Commands.intersect manager1 manager2 manager3
      = Some (manager3', changes') /\
      (forall k : string,
          In k (Calls.counted_in (Commands.hashdb_dir larger) calls) <->
          Commands.has_key smaller k) /\
      (forall k : string,
          In k (Calls.found_in (Commands.hashdb_dir larger) calls) <->
          Commands.has_key manager1 k /\ Commands.has_key manager2 k) /\
      StringSet.ascending
        (Calls.found_in (Commands.hashdb_dir larger) calls) /\
      Calls.counted_in (Commands.hashdb_dir smaller) calls
      = Calls.found_in (Commands.hashdb_dir larger) calls /\
      Calls.found_in (Commands.hashdb_dir smaller) calls = [] /\
      Calls.inserted calls
      = flat_map (fun k => (Commands.find smaller k
                            ++ Commands.find larger k)%list)
          (Calls.found_in (Commands.hashdb_dir larger) calls) /\
      (manager3', changes')
      = Commands.insert_each (Calls.inserted calls) manager3
          Changes.new_hashdb_changes_t /\
      (forall x : Commands.hashdb_element_t,
          In x (Commands.elements manager3') <->
          In x (Commands.elements manager3) \/
          ((In x (Commands.elements manager1) \/
            In x (Commands.elements manager2)) /\
           (0 < Commands.find_count manager1 (Commands.key x))%nat /\
           (0 < Commands.find_count manager2 (Commands.key x))%nat)) /\
      (forall k : string,
          Commands.has_key manager3' k <->
          Commands.has_key manager3 k \/
          (Commands.has_key manager1 k /\ Commands.has_key manager2 k)).
Proof.
  intros m1 m2 m3 Hc Hs1 Hs2.
  assert (Hdir : Commands.hashdb_dir m1 <> Commands.hashdb_dir m2).
  { unfold Commands.require_compatibility in Hc.
    destruct (String.eqb_spec (Commands.hashdb_dir m1)
                (Commands.hashdb_dir m2)); [discriminate Hc | assumption]. }
  unfold Calls.intersect, Commands.intersect. rewrite Hc.
  cbn [negb].
  assert (Hkeys : forall m' : Commands.hashdb_manager_t,
            (forall x, In x (Commands.elements m') <->
               In x (Commands.elements m3) \/
               ((In x (Commands.elements m1) \/ In x (Commands.elements m2)) /\
                Commands.has_key m1 (Commands.key x) /\
                Commands.has_key m2 (Commands.key x))) ->
            forall k, Commands.has_key m' k <->
              Commands.has_key m3 k \/
              (Commands.has_key m1 k /\ Commands.has_key m2 k)).
  { intros m' Hin k. unfold Commands.has_key at 1. split.
    - intros (x & Hx & Hk). apply Hin in Hx as [Hx|(_ & H1 & H2)].
      + left. exists x. auto.
      + right. now rewrite <- Hk.
    - intros [(x & Hx & Hk)|[(x & Hx & Hk) H2]].
      + exists x. split; [|exact Hk]. apply Hin. now left.
      + exists x. split; [|exact Hk]. apply Hin. right.
        split; [now left|]. rewrite Hk. split; [|exact H2]. exists x. auto. }
  destruct (Commands.map_size m1 <=? Commands.map_size m2)%nat.
  - destruct (intersect_optimized_calls m1 m2 m3
                Changes.new_hashdb_changes_t Hdir Hs1)
      as ([m' c'] & calls & Hcalls & Hcmd & Hr & P1 & P2 & P3 & P4 & P5 & P6).
    destruct (intersect_optimized_spec m1 m2 m3
                Changes.new_hashdb_changes_t Hs1) as (m'' & c'' & Hi & Hin).
    rewrite Hcmd in Hi. injection Hi as <- <-.
    exists m', c', calls.
    repeat (split; [assumption|]). split.
    + intros x. rewrite Hin, !find_count_pos. reflexivity.
    + apply Hkeys. exact Hin.
  - destruct (intersect_optimized_calls m2 m1 m3
                Changes.new_hashdb_changes_t (not_eq_sym Hdir) Hs2)
      as ([m' c'] & calls & Hcalls & Hcmd & Hr & P1 & P2 & P3 & P4 & P5 & P6).
    destruct (intersect_optimized_spec m2 m1 m3
                Changes.new_hashdb_changes_t Hs2) as (m'' & c'' & Hi & Hin).
    rewrite Hcmd in Hi. injection Hi as <- <-.
    exists m', c', calls.
    split; [assumption|]. split; [assumption|]. split; [assumption|].
    split; [intros k; rewrite P2; tauto|].
    repeat (split; [assumption|]). split.
    + intros x. rewrite Hin, !find_count_pos. tauto.
    + apply Hkeys. intros x. rewrite Hin. tauto.
Qed.

Lemma C7_intersect_copies_common_keys_witness :
  exists manager3' changes' calls,
    Calls.intersect Scenario.A123 Scenario.B234 Scenario.C_new
    = Some (manager3', changes', calls) /\
    map Commands.key (Commands.elements manager3')
    = [Scenario.hash16 2; Scenario.hash16 2;
       Scenario.hash16 3; Scenario.hash16 3] /\
    Calls.counted_in "B" calls
    = [Scenario.hash16 1; Scenario.hash16 2; Scenario.hash16 3] /\
    Calls.inserted calls
    = [Scenario.element (Scenario.hash16 2) "a";
       Scenario.element (Scenario.hash16 2) "b";
       Scenario.element (Scenario.hash16 3) "a";
       Scenario.element (Scenario.hash16 3) "b"] /\
    forall k : string,
      Commands.has_key manager3' k <->
      Commands.has_key Scenario.C_new k \/
      (Commands.has_key Scenario.A123 k /\ Commands.has_key Scenario.B234 k).
Proof.
  destruct (C7_intersect_copies_common_keys Scenario.A123 Scenario.B234
              Scenario.C_new eq_refl)
    as (m' & c' & calls & Hi & _ & _ & _ & _ & _ & _ & _ & _ & _ & Hk).
  - ascending_keys_by_computation.
  - ascending_keys_by_computation.
  - exists m', c', calls. split; [exact Hi|].
    split; [|split; [|split; [|exact Hk]]];
      revert Hi; vm_compute; intros [= <- _ <-]; reflexivity.
Defined.

(** With four elements in the first database and one in the second,
    [intersect] walks the second one: [find_count] is called on the first
    database with the key of the second, and the element of the second is
    inserted before that of the first. *)
Example intersect_walks_the_smaller_database :
  let A := Scenario.database "A"
             [Scenario.element (Scenario.hash16 1) "a";
              Scenario.element (Scenario.hash16 2) "a";
              Scenario.element (Scenario.hash16 3) "a";
              Scenario.element (Scenario.hash16 4) "a"] in
  let B := Scenario.database "B" [Scenario.element (Scenario.hash16 2) "b"] in
  option_map snd (Calls.intersect A B Scenario.C_new)
  = Some [Calls.find_count_call "A" (Scenario.hash16 2);
          Calls.find_count_call "B" (Scenario.hash16 2);
          Calls.insert_call (Scenario.element (Scenario.hash16 2) "b");
          Calls.find_call "A" (Scenario.hash16 2);
          Calls.insert_call (Scenario.element (Scenario.hash16 2) "a")].
Proof. vm_compute. reflexivity. Qed.

(** C8.  [add_multiple] calls [insert] on the destination, and nothing
    else; the elements it inserts are, in the order of the calls, the
    ordered merge of the two databases by key: the element with the smaller
    key first, the one of the first database on equal keys, then what
    remains of either.  The two databases enumerating in ascending key
    order, the keys ascend along the calls and the elements inserted under
    a key are those of the first database followed by those of the second;
    every element of both databases is inserted, once for each place it has
    in them.  The destination is the outcome of these inserts: an ordered
    store, it enumerates in ascending key order afterwards, and holds what
    it held before and every element of both databases, an element that is
    there already not being entered twice. *)
Theorem C8_add_multiple_is_an_ordered_merge :
  forall hashdb_manager1 hashdb_manager2 hashdb_manager3
         : Commands.hashdb_manager_t,
    Commands.require_compatibility
      hashdb_manager1 hashdb_manager2 hashdb_manager3 = true ->
    exists hashdb_manager3' changes' calls,
      Calls.add_multiple hashdb_manager1 hashdb_manager2 hashdb_manager3
      = Some (hashdb_manager3', changes', calls) /\
      Commands.add_multiple hashdb_manager1 hashdb_manager2 hashdb_manager3
      = Some (hashdb_manager3', changes') /\
      calls = map Calls.insert_call (Calls.inserted calls) /\
      Calls.inserted calls
      = Commands.ordered_merge (Commands.elements hashdb_manager1)
          (Commands.elements hashdb_manager2) /\
      (Commands.ascending_keys (Commands.elements hashdb_manager1) ->
       Commands.ascending_keys (Commands.elements hashdb_manager2) ->
       Commands.ascending_keys (Calls.inserted calls) /\
       forall k : string,
         List.filter (fun e => (Commands.key e =? k)%string)
           (Calls.inserted calls)
         = (Commands.find hashdb_manager1 k
            ++ Commands.find hashdb_manager2 k)%list) /\
      (forall x, In x (Calls.inserted calls) <->
                 In x (Commands.elements hashdb_manager1) \/
                 In x (Commands.elements hashdb_manager2)) /\
      List.length (Calls.inserted calls)
      = (Commands.map_size hashdb_manager1
         + Commands.map_size hashdb_manager2)%nat /\
      (hashdb_manager3', changes')
      = Commands.insert_each (Calls.inserted calls) hashdb_manager3
          Changes.new_hashdb_changes_t /\
      (Commands.ascending_keys (Commands.elements hashdb_manager3) ->
       Commands.ascending_keys (Commands.elements hashdb_manager3')) /\
      (forall x, In x (Commands.elements hashdb_manager3') <->
                 In x (Commands.elements hashdb_manager1) \/
                 In x (Commands.elements hashdb_manager2) \/
                 In x (Commands.elements hashdb_manager3)).
Proof.
  intros m1 m2 m3 Hc.
  unfold Calls.add_multiple, Commands.add_multiple. rewrite Hc.
  cbn [negb]. rewrite calls_add_multiple_loop, add_multiple_loop_merge.
  set (merged := Commands.ordered_merge (Commands.elements m1)
                   (Commands.elements m2)).
  destruct (Commands.insert_each merged m3 Changes.new_hashdb_changes_t)
    as [m' c'] eqn:He.
  exists m', c', (map Calls.insert_call merged).
  rewrite inserted_insert_calls.
  split; [reflexivity|]. split; [reflexivity|]. split; [reflexivity|].
  split; [reflexivity|].
  split.
  { intros Hs1 Hs2. split; [now apply ordered_merge_ascending|].
    intros k. unfold merged. now rewrite ordered_merge_find. }
  split; [apply ordered_merge_In|].
  split; [apply ordered_merge_length|].
  split; [now rewrite He|].
  split.
  - intros Hs3.
    pose proof (insert_each_ascending_keys merged m3
                  Changes.new_hashdb_changes_t Hs3) as Hs.
    now rewrite He in Hs.
  - intros x.
    pose proof (insert_each_In merged m3 Changes.new_hashdb_changes_t x)
      as Hin.
    rewrite He in Hin. cbn [fst] in Hin.
    rewrite Hin. unfold merged. rewrite ordered_merge_In. tauto.
Qed.

Lemma C8_add_multiple_is_an_ordered_merge_witness :
  exists hashdb_manager3' changes' calls,
    Calls.add_multiple Scenario.A135 Scenario.B234 Scenario.C_new
    = Some (hashdb_manager3', changes', calls) /\
    calls
    = map Calls.insert_call
        [Scenario.element (Scenario.hash16 1) "a";
         Scenario.element (Scenario.hash16 2) "b";
         Scenario.element (Scenario.hash16 3) "a";
         Scenario.element (Scenario.hash16 3) "b";
         Scenario.element (Scenario.hash16 4) "b";
         Scenario.element (Scenario.hash16 5) "a"] /\
    map Commands.key (Commands.elements hashdb_manager3')
    = [Scenario.hash16 1; Scenario.hash16 2; Scenario.hash16 3;
       Scenario.hash16 3; Scenario.hash16 4; Scenario.hash16 5] /\
    Commands.ascending_keys (Commands.elements hashdb_manager3').
Proof.
  destruct (C8_add_multiple_is_an_ordered_merge Scenario.A135 Scenario.B234
              Scenario.C_new eq_refl)
    as (m' & c' & calls & Ha & _ & _ & _ & _ & _ & _ & _ & Hs & _).
  exists m', c', calls. split; [exact Ha|].
  split; [|split; [|apply Hs; constructor]];
    revert Ha; vm_compute; intros [= <- _ <-]; reflexivity.
Defined.

(** * Further properties *)

(** ** The constructor of the hash store and [masks] *)

Lemma masks_testbit (r i : N) :
  (r < 8)%N -> (i < 8)%N ->
  N.testbit (nth (N.to_nat r) HashStore.masks 0%N) i
  = (8 - (if (r =? 0)%N then 8 else r) <=? i)%N.
Proof.
  intros Hr Hi.
  assert (Hr' : In r [0; 1; 2; 3; 4; 5; 6; 7]%N) by (simpl; lia).
  assert (Hi' : In i [0; 1; 2; 3; 4; 5; 6; 7]%N) by (simpl; lia).
  simpl in Hr', Hi'.
  repeat (destruct Hr' as [<-|Hr']; [
    repeat (destruct Hi' as [<-|Hi']; [reflexivity|]); destruct Hi' |]).
  destruct Hr'.
Qed.

(** X1.  For a number of prefix bits that fits a [uint32_t] the constructor
    fails exactly when the number is 0 or exceeds 2^32 - 8 (the sum
    [bits + 7] wraps around).  Otherwise [prefix_bytes] is the number of
    bytes that hold the bits, and and-ing a byte with [prefix_mask] keeps
    the high-order bits of the last prefix byte that belong to the prefix
    and clears the others. *)
Theorem X1_constructor_prefix_bytes_and_mask :
  forall (prefix_bits suffix_bytes : Z),
    (0 <= prefix_bits < 2 ^ 32)%Z -> (0 <= suffix_bytes < 2 ^ 31)%Z ->
    (HashStore.new_lmdb_hash_manager_t prefix_bits suffix_bytes = None <->
     prefix_bits = 0%Z \/ (2 ^ 32 - 8 < prefix_bits)%Z)
    /\
    (forall m : HashStore.lmdb_hash_manager_t,
        HashStore.new_lmdb_hash_manager_t prefix_bits suffix_bytes = Some m ->
        (8 * (HashStore.prefix_bytes m - 1) < prefix_bits
         <= 8 * HashStore.prefix_bytes m)%Z /\
        HashStore.suffix_bytes m = suffix_bytes /\
        forall (c : ascii) (i : N),
          (i < 8)%N ->
          N.testbit (N.land (N_of_ascii c) (HashStore.prefix_mask m)) i
          = N.testbit (N_of_ascii c) i
            && (Z.of_N i
                >=? 8 * HashStore.prefix_bytes m - prefix_bits)%Z).
Proof.
  intros bits sb Hbits Hsb.
  unfold HashStore.new_lmdb_hash_manager_t. cbn [HashStore.prefix_bytes].
  unfold HashStore.uint32, HashStore.int_of_uint32.
  rewrite (Z.mod_small bits) by lia. rewrite (Z.mod_small sb) by lia.
  destruct (Z.ltb_spec sb (2 ^ 31)) as [_|?]; [|lia].
  destruct (Z_le_gt_dec bits (2 ^ 32 - 8)) as [Hle|Hgt].
  - rewrite (Z.mod_small (bits + 7)) by lia.
    pose proof (Z.div_mod (bits + 7) 8 ltac:(lia)) as Hdm.
    pose proof (Z.mod_pos_bound (bits + 7) 8 ltac:(lia)) as Hm.
    pose proof (Z.div_mod bits 8 ltac:(lia)) as Hdm'.
    pose proof (Z.mod_pos_bound bits 8 ltac:(lia)) as Hm'.
    destruct (Z.eqb_spec ((bits + 7) / 8) 0) as [Hz|Hnz].
    + split; [split; [intros _; lia | reflexivity]|]. discriminate.
    + split; [split; [discriminate | lia]|].
      intros m [= <-]. cbn [HashStore.prefix_bytes HashStore.suffix_bytes
                            HashStore.prefix_mask].
      split; [lia|]. split; [reflexivity|].
      intros c i Hi. rewrite N.land_spec. f_equal.
      replace (Z.to_nat (bits mod 8)) with (N.to_nat (Z.to_N (bits mod 8)))
        by lia.
      change (N.testbit (nth (N.to_nat (Z.to_N (bits mod 8)))
                           HashStore.masks 0%N) i
              = (Z.of_N i >=? 8 * ((bits + 7) / 8) - bits)%Z).
      rewrite masks_testbit by lia.
      assert (Hk : (8 * ((bits + 7) / 8) - bits
                    = 8 - (if bits mod 8 =? 0 then 8 else bits mod 8))%Z).
      { destruct (Z.eqb_spec (bits mod 8) 0); lia. }
      rewrite Hk.
      destruct (Z.eqb_spec (bits mod 8) 0) as [H0|H0].
      * rewrite H0. simpl (Z.to_N 0 =? 0)%N. cbn [N.sub].
        destruct (N.leb_spec (8 - 8) i), (Z.geb_spec (Z.of_N i) (8 - 8));
          try reflexivity; lia.
      * destruct (N.eqb_spec (Z.to_N (bits mod 8)) 0) as [?|_]; [lia|].
        destruct (N.leb_spec (8 - Z.to_N (bits mod 8)) i),
                 (Z.geb_spec (Z.of_N i) (8 - bits mod 8));
          try reflexivity; lia.
  - assert (Hw : ((bits + 7) mod 2 ^ 32 = bits + 7 - 2 ^ 32)%Z).
    { symmetry. apply (Z.mod_unique (bits + 7) (2 ^ 32) 1); lia. }
    rewrite Hw.
    assert (Hz : ((bits + 7 - 2 ^ 32) / 8 = 0)%Z)
      by (apply Z.div_small; lia).
    rewrite Hz. simpl (0 =? 0)%Z.
    split; [split; [intros _; lia | reflexivity]|]. discriminate.
Qed.

Lemma X1_constructor_prefix_bytes_and_mask_witness :
  HashStore.new_lmdb_hash_manager_t 28 3
  = Some {| HashStore.prefix_bytes := 4; HashStore.prefix_mask := 240;
            HashStore.suffix_bytes := 3 |} /\
  N.testbit (N.land (N_of_ascii "255"%char) 240) 3 = false /\
  N.testbit (N.land (N_of_ascii "255"%char) 240) 4 = true.
Proof.
  split; [reflexivity|].
  pose proof (proj2 (X1_constructor_prefix_bytes_and_mask 28%Z 3%Z
                ltac:(split; [discriminate | reflexivity])
                ltac:(split; [discriminate | reflexivity])) _ eq_refl)
    as (_ & _ & Hmask).
  split; [exact (Hmask "255"%char 3%N eq_refl)
         | exact (Hmask "255"%char 4%N eq_refl)].
Defined.

(** ** [hash_pair] on hashes that are long enough *)

Lemma substring_zero (n : nat) (s : string) : substring n 0 s = "".
Proof.
  revert n. induction s as [|c s IH]; intros [|n]; simpl; auto.
Qed.

(** X2.  For a hash of at least [prefix_bytes + suffix_bytes] bytes the
    prefix is the first [prefix_bytes] bytes with the mask applied to the
    last of them, and the suffix is the last [suffix_bytes] bytes; the
    bytes in between are in neither. *)
Theorem X2_hash_pair_of_a_long_hash :
  forall (m : HashStore.lmdb_hash_manager_t) (binary_hash : string),
    (0 < HashStore.prefix_bytes m)%Z ->
    (0 <= HashStore.suffix_bytes m)%Z ->
    (HashStore.prefix_bytes m + HashStore.suffix_bytes m
     <= Z.of_nat (String.length binary_hash) < 2 ^ 31)%Z ->
    let pb := Z.to_nat (HashStore.prefix_bytes m) in
    let sb := Z.to_nat (HashStore.suffix_bytes m) in
    HashStore.hash_pair m binary_hash
    = (HashStore.and_at (pb - 1) (HashStore.prefix_mask m)
         (substring 0 pb binary_hash),
       substring (String.length binary_hash - sb) sb binary_hash)
    /\ String.length (HashStore.hash_pair m binary_hash).1 = pb
    /\ String.length (HashStore.hash_pair m binary_hash).2 = sb.
Proof.
  intros m H Hpb Hsb Hlen pb sb.
  assert (Hpair : HashStore.hash_pair m H
                  = (HashStore.and_at (pb - 1) (HashStore.prefix_mask m)
                       (substring 0 pb H),
                     substring (String.length H - sb) sb H)).
  { unfold HashStore.hash_pair.
    set (len := Z.of_nat (String.length H)) in *.
    rewrite int_wrap_small by lia.
    assert (Hps : (if (len >? HashStore.prefix_bytes m)%Z
                   then HashStore.prefix_bytes m else len)
                  = HashStore.prefix_bytes m).
    { destruct (Z.gtb_spec len (HashStore.prefix_bytes m)); lia. }
    rewrite Hps, Z.eqb_refl.
    destruct (Z.ltb_spec (len - HashStore.suffix_bytes m)
                (HashStore.prefix_bytes m)) as [?|_]; [lia|].
    rewrite substr_prefix by lia.
    replace (Z.to_nat (HashStore.prefix_bytes m - 1)) with (pb - 1)%nat
      by (subst pb; lia).
    fold pb. f_equal.
    destruct (Z.ltb_spec (len - HashStore.suffix_bytes m) len) as [Hlt|Hge].
    - unfold HashStore.substr. fold len.
      rewrite Z.mod_small by lia. rewrite Z.min_l by lia.
      fold sb. f_equal. subst sb len. lia.
    - assert (sb = 0%nat) by (subst sb; lia).
      rewrite H0. now rewrite substring_zero. }
  rewrite Hpair. cbn [fst snd]. split; [reflexivity|].
  rewrite length_and_at, !length_substring; subst pb sb; lia.
Qed.

Lemma X2_hash_pair_of_a_long_hash_witness :
  HashStore.hash_pair
    {| HashStore.prefix_bytes := 2; HashStore.prefix_mask := 240;
       HashStore.suffix_bytes := 1 |} (bytes [255; 255; 7; 8; 9]%N)
  = (bytes [255; 240]%N, bytes [9]%N).
Proof.
  exact (proj1 (X2_hash_pair_of_a_long_hash
           {| HashStore.prefix_bytes := 2; HashStore.prefix_mask := 240;
              HashStore.suffix_bytes := 1 |} (bytes [255; 255; 7; 8; 9]%N)
           eq_refl ltac:(discriminate)
           ltac:(split; [discriminate | reflexivity]))).
Defined.

(** ** The hash store: repeated inserts and the order of inserts *)

Lemma ascending_ext (l1 : StringSet.t) :
  forall l2 : StringSet.t,
  StringSet.ascending l1 -> StringSet.ascending l2 ->
  (forall x, In x l1 <-> In x l2) -> l1 = l2.
Proof.
  induction l1 as [|a l1 IH]; intros [|b l2] H1 H2 Hio.
  - reflexivity.
  - destruct (proj2 (Hio b) (or_introl eq_refl)).
  - destruct (proj1 (Hio a) (or_introl eq_refl)).
  - inversion H1 as [|? ? Ha1 Hf1]; inversion H2 as [|? ? Ha2 Hf2]; subst.
    assert (a = b) as ->.
    { destruct (proj1 (Hio a) (or_introl eq_refl)) as [->|Hin]; [reflexivity|].
      destruct (proj2 (Hio b) (or_introl eq_refl)) as [->|Hin']; [reflexivity|].
      exfalso. apply (string_lt_irrefl a).
      apply string_lt_trans with b.
      - exact (proj1 (List.Forall_forall _ _) Hf1 b Hin').
      - exact (proj1 (List.Forall_forall _ _) Hf2 a Hin). }
    f_equal. apply IH; [assumption..|].
    intros x; split; intros Hin.
    + destruct (proj1 (Hio x) (or_intror Hin)) as [->|]; [|assumption].
      destruct (string_lt_irrefl x
                  (proj1 (List.Forall_forall _ _) Hf1 x Hin)).
    + destruct (proj2 (Hio x) (or_intror Hin)) as [->|]; [|assumption].
      destruct (string_lt_irrefl x
                  (proj1 (List.Forall_forall _ _) Hf2 x Hin)).
Qed.

Lemma set_insert_comm (a b : string) (strings : StringSet.t) :
  StringSet.ascending strings ->
  StringSet.insert a (StringSet.insert b strings)
  = StringSet.insert b (StringSet.insert a strings).
Proof.
  intros Hasc.
  apply ascending_ext; try (do 2 apply set_insert_ascending; assumption).
  intros x. rewrite !set_In_insert. tauto.
Qed.

Lemma set_insert_found (s : string) (strings : StringSet.t) :
  StringSet.find s strings = true -> StringSet.insert s strings = strings.
Proof.
  induction strings as [|x rest IH]; simpl; [discriminate|].
  destruct (String.compare s x); intros Hf;
    [reflexivity | discriminate | now rewrite IH].
Qed.

Lemma set_find_insert_other (s s' : string) (strings : StringSet.t) :
  StringSet.ascending strings -> s <> s' ->
  StringSet.find s (StringSet.insert s' strings) = StringSet.find s strings.
Proof.
  intros Hasc Hne. apply Bool.eq_iff_eq_true.
  rewrite !set_find_In by (try apply set_insert_ascending; assumption).
  rewrite set_In_insert. tauto.
Qed.

(** What a returning [insert] has done, in terms of the set of suffixes
    [strings] that was stored under the prefix of the hash. *)
Lemma insert_inv (m : HashStore.lmdb_hash_manager_t) (H : string)
    (env env' : gmap string string) (c c' : HashStore.lmdb_changes_t) :
  HashStore.insert m H env c = Some (env', c') ->
  H <> "" /\
  exists strings,
    StringSet.ascending strings /\
    match env !! (HashStore.hash_pair m H).1 with
    | None => strings = []
    | Some encoding => HashStore.decode_data encoding = Some strings
    end /\
    env' !! (HashStore.hash_pair m H).1 <> None /\
    match env' !! (HashStore.hash_pair m H).1 with
    | None => StringSet.insert (HashStore.hash_pair m H).2 strings = []
    | Some encoding =>
        HashStore.decode_data encoding
        = Some (StringSet.insert (HashStore.hash_pair m H).2 strings)
    end /\
    env' = (if StringSet.find (HashStore.hash_pair m H).2 strings then env
            else <[(HashStore.hash_pair m H).1 :=
                     HashStore.encode_loop
                       (StringSet.insert (HashStore.hash_pair m H).2 strings)
                       ""]> env) /\
    c' = (if StringSet.find (HashStore.hash_pair m H).2 strings
          then {| HashStore.hash_inserted := HashStore.hash_inserted c;
                  HashStore.hash_already_present :=
                    HashStore.hash_already_present c + 1 |}
          else {| HashStore.hash_inserted := HashStore.hash_inserted c + 1;
                  HashStore.hash_already_present :=
                    HashStore.hash_already_present c |}).
Proof.
  intros Hi. unfold HashStore.insert in Hi.
  destruct (String.length H =? 0)%nat eqn:Hlen; [discriminate|].
  split.
  { intros ->. discriminate. }
  set (P := (HashStore.hash_pair m H).1) in *.
  set (S := (HashStore.hash_pair m H).2) in *.
  destruct (env !! P) as [encoding|] eqn:Hl.
  - destruct (HashStore.decode_data encoding) as [strings|] eqn:Hd;
      [|discriminate].
    exists strings.
    pose proof (decode_data_ascending _ _ Hd) as Hasc.
    split; [assumption|]. split; [reflexivity|].
    destruct (StringSet.find S strings) eqn:Hf.
    + inversion Hi; subst. rewrite Hl, (set_insert_found _ _ Hf).
      repeat split; try assumption. discriminate.
    + destruct (HashStore.encode_data (StringSet.insert S strings))
        as [encoding'|] eqn:He; [|discriminate].
      inversion Hi; subst. rewrite lookup_insert_eq.
      rewrite (decode_data_encode_insert _ _ _ Hasc He).
      rewrite <- (encode_data_Some _ _ He).
      repeat split. discriminate.
  - exists []. split; [apply ascending_nil|]. split; [reflexivity|].
    cbn [StringSet.find].
    destruct (HashStore.encode_data (StringSet.insert S []))
      as [encoding'|] eqn:He; [|discriminate].
    inversion Hi; subst. rewrite lookup_insert_eq.
    rewrite (decode_data_encode_insert _ _ _ ascending_nil He).
    rewrite <- (encode_data_Some _ _ He).
    repeat split. discriminate.
Qed.

Lemma insert_when_found (m : HashStore.lmdb_hash_manager_t) (H : string)
    (env : gmap string string) (c : HashStore.lmdb_changes_t) :
  HashStore.find m H env = Some true ->
  HashStore.insert m H env c
  = Some (env, {| HashStore.hash_inserted := HashStore.hash_inserted c;
                  HashStore.hash_already_present :=
                    HashStore.hash_already_present c + 1 |}).
Proof.
  unfold HashStore.find, HashStore.insert.
  destruct (String.length H =? 0)%nat; [discriminate|].
  destruct (env !! (HashStore.hash_pair m H).1) as [encoding|];
    [|discriminate].
  destruct (HashStore.decode_data encoding) as [strings|]; [|discriminate].
  destruct (StringSet.find _ strings); [reflexivity | discriminate].
Qed.

(** X3.  Inserting a hash a second time changes nothing in the environment:
    the second [insert] returns, leaves the environment as the first one
    left it, and counts the hash as already present. *)
Theorem X3_second_insert_is_already_present :
  forall (m : HashStore.lmdb_hash_manager_t) (binary_hash : string)
         (env env' : gmap string string)
         (changes changes' : HashStore.lmdb_changes_t),
    HashStore.insert m binary_hash env changes = Some (env', changes') ->
    HashStore.insert m binary_hash env' changes'
    = Some (env',
            {| HashStore.hash_inserted := HashStore.hash_inserted changes';
               HashStore.hash_already_present :=
                 HashStore.hash_already_present changes' + 1 |}).
Proof.
  intros m H env env' c c' Hi.
  apply insert_when_found. exact (find_after_insert _ _ _ _ _ _ Hi).
Qed.

Lemma X3_second_insert_is_already_present_witness :
  exists env' changes',
    HashStore.insert Scenario.manager_16_14 (Scenario.hash16 0) ∅
      Scenario.no_changes = Some (env', changes') /\
    HashStore.insert Scenario.manager_16_14 (Scenario.hash16 0) env' changes'
    = Some (env', {| HashStore.hash_inserted := 1;
                     HashStore.hash_already_present := 1 |}).
Proof.
  destruct (HashStore.insert Scenario.manager_16_14 (Scenario.hash16 0) ∅
              Scenario.no_changes) as [[env' changes']|] eqn:Hi;
    [|vm_compute in Hi; discriminate].
  exists env', changes'. split; [reflexivity|].
  rewrite (X3_second_insert_is_already_present _ _ _ _ _ _ Hi).
  assert (Hc : changes' = {| HashStore.hash_inserted := 1;
                             HashStore.hash_already_present := 0 |}).
  { vm_compute in Hi. now injection Hi as _ <-. }
  now rewrite Hc.
Defined.

(** X4.  A returning [insert] on a hash counts it as already present, and
    leaves the environment alone, exactly when [find] reported the hash
    before; otherwise it counts it as inserted, writes under the prefix of
    that hash only, and [find] reports the hash afterwards. *)
Theorem X4_insert_agrees_with_find :
  forall (m : HashStore.lmdb_hash_manager_t) (binary_hash : string)
         (env env' : gmap string string)
         (changes changes' : HashStore.lmdb_changes_t),
    HashStore.insert m binary_hash env changes = Some (env', changes') ->
    exists found : bool,
      HashStore.find m binary_hash env = Some found /\
      (if found
       then env' = env /\
            changes'
            = {| HashStore.hash_inserted := HashStore.hash_inserted changes;
                 HashStore.hash_already_present :=
                   HashStore.hash_already_present changes + 1 |}
       else env' <> env /\
            changes'
            = {| HashStore.hash_inserted :=
                   HashStore.hash_inserted changes + 1;
                 HashStore.hash_already_present :=
                   HashStore.hash_already_present changes |}) /\
      HashStore.find m binary_hash env' = Some true /\
      forall prefix : string,
        prefix <> (HashStore.hash_pair m binary_hash).1 ->
        env' !! prefix = env !! prefix.
Proof.
  intros m H env env' c c' Hi.
  pose proof (find_after_insert _ _ _ _ _ _ Hi) as Hafter.
  destruct (insert_inv _ _ _ _ _ _ Hi)
    as (Hne & strings & Hasc & Hold & _ & _ & Henv & Hc).
  exists (StringSet.find (HashStore.hash_pair m H).2 strings).
  assert (Hfind : HashStore.find m H env
                  = Some (StringSet.find (HashStore.hash_pair m H).2 strings)).
  { unfold HashStore.find.
    destruct (String.length H =? 0)%nat eqn:Hlen.
    - apply length_eqb_0 in Hlen. contradiction.
    - destruct (env !! (HashStore.hash_pair m H).1) as [encoding|].
      + now rewrite Hold.
      + now rewrite Hold. }
  split; [assumption|]. split; [|split; [assumption|]].
  - destruct (StringSet.find (HashStore.hash_pair m H).2 strings) eqn:Hf.
    + now split.
    + split; [|assumption].
      intros Heq. rewrite Heq in Hafter. congruence.
  - intros prefix Hp. rewrite Henv.
    destruct (StringSet.find (HashStore.hash_pair m H).2 strings);
      [reflexivity|].
    now rewrite lookup_insert_ne by congruence.
Qed.

Lemma X4_insert_agrees_with_find_witness :
  exists env' changes',
    HashStore.insert Scenario.manager_16_14 (Scenario.hash16 0) ∅
      Scenario.no_changes = Some (env', changes') /\
    HashStore.find Scenario.manager_16_14 (Scenario.hash16 0) env'
    = Some true.
Proof.
  destruct (HashStore.insert Scenario.manager_16_14 (Scenario.hash16 0) ∅
              Scenario.no_changes) as [[env' changes']|] eqn:Hi;
    [|vm_compute in Hi; discriminate].
  exists env', changes'. split; [reflexivity|].
  destruct (X4_insert_agrees_with_find _ _ _ _ _ _ Hi)
    as (found & _ & _ & Hafter & _).
  exact Hafter.
Defined.

Lemma stored_set_unique (env : gmap string string) (P : string)
    (s s' : StringSet.t) :
  match env !! P with
  | None => s = []
  | Some encoding => HashStore.decode_data encoding = Some s
  end ->
  match env !! P with
  | None => s' = []
  | Some encoding => HashStore.decode_data encoding = Some s'
  end ->
  s = s'.
Proof.
  destruct (env !! P); congruence.
Qed.

(** X5.  The order of two inserts does not matter: when both orders
    return, they leave the same environment, byte for byte, and the same
    counters. *)
Theorem X5_inserts_commute :
  forall (m : HashStore.lmdb_hash_manager_t) (hash1 hash2 : string)
         (env env1 env12 env2 env21 : gmap string string)
         (c c1 c12 c2 c21 : HashStore.lmdb_changes_t),
    HashStore.insert m hash1 env c = Some (env1, c1) ->
    HashStore.insert m hash2 env1 c1 = Some (env12, c12) ->
    HashStore.insert m hash2 env c = Some (env2, c2) ->
    HashStore.insert m hash1 env2 c2 = Some (env21, c21) ->
    env12 = env21 /\ c12 = c21.
Proof.
  intros m H1 H2 env e1 e12 e2 e21 c c1 c12 c2 c21 Hi1 Hi12 Hi2 Hi21.
  destruct (insert_inv _ _ _ _ _ _ Hi1)
    as (_ & s1 & Hasc1 & Hold1 & Hsome1 & Hnew1 & He1 & Hc1).
  destruct (insert_inv _ _ _ _ _ _ Hi12)
    as (_ & s2' & _ & Hold12 & _ & _ & He12 & Hc12).
  destruct (insert_inv _ _ _ _ _ _ Hi2)
    as (_ & s2 & Hasc2 & Hold2 & Hsome2 & Hnew2 & He2 & Hc2).
  destruct (insert_inv _ _ _ _ _ _ Hi21)
    as (_ & s1' & _ & Hold21 & _ & _ & He21 & Hc21).
  set (P1 := (HashStore.hash_pair m H1).1) in *.
  set (S1 := (HashStore.hash_pair m H1).2) in *.
  set (P2 := (HashStore.hash_pair m H2).1) in *.
  set (S2 := (HashStore.hash_pair m H2).2) in *.
  clearbody P1 S1 P2 S2.
  destruct (decide (P1 = P2)) as [<-|HP].
  - (* the same prefix *)
    assert (s2 = s1) as -> by exact (stored_set_unique _ _ _ _ Hold2 Hold1).
    assert (s2' = StringSet.insert S1 s1) as ->
      by exact (stored_set_unique _ _ _ _ Hold12 Hnew1).
    assert (s1' = StringSet.insert S2 s1) as ->
      by exact (stored_set_unique _ _ _ _ Hold21 Hnew2).
    destruct (decide (S1 = S2)) as [<-|HS].
    + rewrite set_find_insert_same in He12, Hc12, He21, Hc21.
      subst. now split.
    + rewrite (set_find_insert_other S2 S1) in He12, Hc12
        by (try assumption; congruence).
      rewrite (set_find_insert_other S1 S2) in He21, Hc21
        by (try assumption; congruence).
      destruct (StringSet.find S1 s1) eqn:F1;
        destruct (StringSet.find S2 s1) eqn:F2; subst;
        rewrite ?(set_insert_found _ _ F1), ?(set_insert_found _ _ F2),
          ?insert_insert_eq, ?(set_insert_comm S1 S2 s1 Hasc1);
        (split; [reflexivity | cbn; f_equal; lia]).
  - (* different prefixes *)
    assert (Hl1 : e1 !! P2 = env !! P2).
    { rewrite He1. destruct (StringSet.find S1 s1); [reflexivity|].
      now rewrite lookup_insert_ne. }
    assert (Hl2 : e2 !! P1 = env !! P1).
    { rewrite He2. destruct (StringSet.find S2 s2); [reflexivity|].
      now rewrite lookup_insert_ne by congruence. }
    rewrite Hl1 in Hold12. rewrite Hl2 in Hold21.
    assert (s2' = s2) as -> by exact (stored_set_unique _ _ _ _ Hold12 Hold2).
    assert (s1' = s1) as -> by exact (stored_set_unique _ _ _ _ Hold21 Hold1).
    destruct (StringSet.find S1 s1) eqn:F1;
      destruct (StringSet.find S2 s2) eqn:F2; subst;
      (split; [|cbn; f_equal; lia]); try reflexivity.
    now apply insert_insert_ne.
Qed.

Lemma X5_inserts_commute_witness :
  exists env1 c1 env12 c12 env2 c2 env21 c21,
    HashStore.insert Scenario.manager_16_14 (Scenario.hash16 0) ∅
      Scenario.no_changes = Some (env1, c1) /\
    HashStore.insert Scenario.manager_16_14 (Scenario.hash16 1) env1 c1
    = Some (env12, c12) /\
    HashStore.insert Scenario.manager_16_14 (Scenario.hash16 1) ∅
      Scenario.no_changes = Some (env2, c2) /\
    HashStore.insert Scenario.manager_16_14 (Scenario.hash16 0) env2 c2
    = Some (env21, c21) /\
    env12 = env21 /\ c12 = c21.
Proof.
  destruct (HashStore.insert Scenario.manager_16_14 (Scenario.hash16 0) ∅
              Scenario.no_changes) as [[env1 c1]|] eqn:Hi1;
    [|vm_compute in Hi1; discriminate].
  destruct (HashStore.insert Scenario.manager_16_14 (Scenario.hash16 1)
              env1 c1) as [[env12 c12]|] eqn:Hi12;
    [|vm_compute in Hi1; injection Hi1 as <- <-;
      vm_compute in Hi12; discriminate].
  destruct (HashStore.insert Scenario.manager_16_14 (Scenario.hash16 1) ∅
              Scenario.no_changes) as [[env2 c2]|] eqn:Hi2;
    [|vm_compute in Hi2; discriminate].
  destruct (HashStore.insert Scenario.manager_16_14 (Scenario.hash16 0)
              env2 c2) as [[env21 c21]|] eqn:Hi21;
    [|vm_compute in Hi2; injection Hi2 as <- <-;
      vm_compute in Hi21; discriminate].
  exists env1, c1, env12, c12, env2, c2, env21, c21.
  repeat (split; [first [reflexivity | assumption]|]).
  exact (X5_inserts_commute _ _ _ _ _ _ _ _ _ _ _ _ _ Hi1 Hi12 Hi2 Hi21).
Defined.

(** ** The hash-data store: what [insert] stores and what it counts *)

Lemma mdb_put_success (env env' : HashData.env_t) (key data : string) :
  HashData.mdb_put env key data = (HashData.MDB_SUCCESS, env') ->
  exists l1 l2, env = (l1 ++ l2)%list /\ env' = (l1 ++ (key, data) :: l2)%list.
Proof.
  intros Hp.
  destruct (mdb_put_spec env key data) as [(l1 & l2 & He & Hs)|[_ Hk]].
  - exists l1, l2. split; [assumption|]. congruence.
  - congruence.
Qed.

(** The body of the loop returns whenever the sector size is not zero, and
    goes one of three ways. *)
Lemma insert_entry_effect (settings : HashData.hashdb_settings_t)
    (source_id : N) (it : HashData.hash_data_t) (st : HashData.state_t) :
  HashData.sector_size settings <> 0%N ->
  exists st',
    HashData.insert_entry settings source_id it st = Some st' /\
    ((HashData.aligned settings it = false /\
      HashData.env st' = HashData.env st /\
      HashData.bloom_filter_manager st' = HashData.bloom_filter_manager st /\
      HashData.changes st'
      = Changes.incr_hashes_not_inserted_invalid_sector_size
          (HashData.changes st))
     \/
     (HashData.aligned settings it = true /\
      In (HashData.stored_pair settings source_id it) (HashData.env st) /\
      HashData.env st' = HashData.env st /\
      HashData.bloom_filter_manager st' = HashData.bloom_filter_manager st /\
      HashData.changes st'
      = Changes.incr_hashes_not_inserted_duplicate_element
          (HashData.changes st))
     \/
     (HashData.aligned settings it = true /\
      ~ In (HashData.stored_pair settings source_id it) (HashData.env st) /\
      (exists l1 l2,
          HashData.env st = (l1 ++ l2)%list /\
          HashData.env st'
          = (l1 ++ HashData.stored_pair settings source_id it :: l2)%list) /\
      HashData.bloom_filter_manager st'
      = Bloom.add_hash_value (HashData.bloom_filter_manager st)
          (HashData.binary_hash it) /\
      HashData.changes st'
      = Changes.incr_hashes_inserted (HashData.changes st))).
Proof.
  intros Hss.
  destruct (HashData.aligned settings it) eqn:Ha.
  - destruct (decide (HashData.stored_pair settings source_id it
                      ∈ HashData.env st)) as [Hin|Hn];
      [apply list_elem_of_In in Hin | rewrite list_elem_of_In in Hn].
    + eexists. split; [now apply insert_entry_present|].
      right; left. cbn. auto.
    + assert (Hret : exists st',
                 HashData.insert_entry settings source_id it st = Some st').
      { destruct (insert_entry_fresh settings source_id it st Hss Ha Hn)
          as (env' & -> & _). eauto. }
      destruct Hret as (st' & Hi). exists st'. split; [assumption|].
      destruct (insert_entry_cases _ _ _ _ _ Hi)
        as (_ & [(Hf & _)|[(_ & Hg & _)|(_ & _ & Hp & Hb & Hc)]]).
      * congruence.
      * apply mdb_cursor_get_both_In in Hg.
        rewrite <- surjective_pairing in Hg. contradiction.
      * right; right. repeat split; try assumption.
        apply mdb_put_success in Hp.
        now rewrite <- surjective_pairing in Hp.
  - eexists. split.
    + unfold HashData.insert_entry.
      destruct (N.eqb_spec (HashData.sector_size settings) 0);
        [contradiction|].
      unfold HashData.aligned in Ha. rewrite Ha. reflexivity.
    + left. cbn. auto.
Qed.

(** X6.  When [insert] of the hash-data store returns, the store holds
    what it held before together with the (key, data) pair of every entry of
    the list whose file offset is a multiple of the sector size, and nothing
    else. *)
Theorem X6_hash_data_insert_stores_the_aligned_entries :
  forall (settings : HashData.hashdb_settings_t) (source_id : N)
         (hash_data_list : list HashData.hash_data_t)
         (st st' : HashData.state_t),
    HashData.insert settings source_id hash_data_list st = Some st' ->
    forall p : string * string,
      In p (HashData.env st') <->
      In p (HashData.env st) \/
      exists it, In it hash_data_list /\
                 HashData.aligned settings it = true /\
                 p = HashData.stored_pair settings source_id it.
Proof.
  intros settings source_id l. induction l as [|it l IH]; intros st st' Hi p.
  - injection Hi as <-. split; [auto|].
    intros [?|(it & [] & _)]. assumption.
  - cbn [HashData.insert] in Hi.
    destruct (N.eq_dec (HashData.sector_size settings) 0%N) as [Hz|Hss].
    + assert (Hn : HashData.insert_entry settings source_id it st = None).
      { unfold HashData.insert_entry. now rewrite Hz. }
      rewrite Hn in Hi. discriminate Hi.
    + destruct (insert_entry_effect settings source_id it st Hss)
        as (st1 & Hst1 & Hcases).
      rewrite Hst1 in Hi. rewrite (IH st1 st' Hi p).
      assert (Hstep : In p (HashData.env st1) <->
                      In p (HashData.env st) \/
                      (HashData.aligned settings it = true /\
                       p = HashData.stored_pair settings source_id it)).
      { destruct Hcases
          as [(Ha & -> & _)|[(Ha & Hin & -> & _)
                            |(Ha & _ & (l1 & l2 & -> & ->) & _)]].
        - split; [auto|]. intros [?|[? _]]; [assumption|congruence].
        - split; [auto|]. intros [?|[_ ->]]; assumption.
        - rewrite !in_app_iff. cbn [In].
          split.
          + intros [?|[<-|?]]; auto.
          + intros [[?|?]|[_ ->]]; auto. }
      rewrite Hstep. split.
      * intros [[?|[Ha ->]]|(it' & Hin & Ha & ->)]; eauto 6 using in_eq.
        right. exists it'. auto using in_cons.
      * intros [?|(it' & [<-|Hin] & Ha & ->)]; eauto 6.
Qed.

Lemma X6_hash_data_insert_stores_the_aligned_entries_witness :
  exists st' : HashData.state_t,
    HashData.insert Scenario.settings_512 1
      [Scenario.entry (Scenario.hash16 7) 513;
       Scenario.entry (Scenario.hash16 0) 1024] Scenario.new_state
    = Some st' /\
    In (HashData.stored_pair Scenario.settings_512 1
          (Scenario.entry (Scenario.hash16 0) 1024)) (HashData.env st') /\
    ~ In (HashData.stored_pair Scenario.settings_512 1
            (Scenario.entry (Scenario.hash16 7) 513)) (HashData.env st').
Proof.
  destruct (HashData.insert Scenario.settings_512 1
              [Scenario.entry (Scenario.hash16 7) 513;
               Scenario.entry (Scenario.hash16 0) 1024] Scenario.new_state)
    as [st'|] eqn:Hi; [|vm_compute in Hi; discriminate].
  exists st'. split; [reflexivity|].
  pose proof (X6_hash_data_insert_stores_the_aligned_entries
                _ _ _ _ st' Hi) as Hmem.
  split.
  - apply Hmem. right. eexists. split; [right; left; reflexivity|].
    split; reflexivity.
  - intros Hin. apply Hmem in Hin.
    destruct Hin as [[]|(it & [<-|[<-|[]]] & Ha & Hp)].
    + vm_compute in Ha. discriminate.
    + vm_compute in Hp. discriminate.
Defined.

Lemma incr_range (x : Z) : (0 <= Changes.incr x < 2 ^ 32)%Z.
Proof.
  unfold Changes.incr. apply Z.mod_pos_bound. reflexivity.
Qed.

Lemma incr_add (x : Z) (n : nat) :
  ((Changes.incr x + Z.of_nat n) mod 2 ^ 32
   = (x + Z.of_nat (S n)) mod 2 ^ 32)%Z.
Proof.
  unfold Changes.incr. rewrite Zplus_mod_idemp_l. f_equal. lia.
Qed.

Lemma hash_data_insert_counts (settings : HashData.hashdb_settings_t)
    (source_id : N) (l : list HashData.hash_data_t) :
  forall st st' : HashData.state_t,
  (0 <= Changes.hashes_inserted (HashData.changes st) < 2 ^ 32)%Z ->
  (0 <= Changes.hashes_not_inserted_duplicate_element (HashData.changes st)
   < 2 ^ 32)%Z ->
  (0 <= Changes.hashes_not_inserted_invalid_sector_size (HashData.changes st)
   < 2 ^ 32)%Z ->
  HashData.insert settings source_id l st = Some st' ->
  exists n_bad n_dup n_new : nat,
    n_bad
    = List.length
        (List.filter (fun it => negb (HashData.aligned settings it)) l) /\
    (n_bad + n_dup + n_new = List.length l)%nat /\
    List.length (HashData.env st')
    = (List.length (HashData.env st) + n_new)%nat /\
    HashData.changes st'
    = let c := HashData.changes st in
      {| Changes.hashes_inserted :=
           (Changes.hashes_inserted c + Z.of_nat n_new) mod 2 ^ 32;
         Changes.hashes_not_inserted_mismatched_hash_block_size :=
           Changes.hashes_not_inserted_mismatched_hash_block_size c;
         Changes.hashes_not_inserted_invalid_byte_alignment :=
           Changes.hashes_not_inserted_invalid_byte_alignment c;
         Changes.hashes_not_inserted_exceeds_max_duplicates :=
           Changes.hashes_not_inserted_exceeds_max_duplicates c;
         Changes.hashes_not_inserted_duplicate_element :=
           (Changes.hashes_not_inserted_duplicate_element c
            + Z.of_nat n_dup) mod 2 ^ 32;
         Changes.hashes_removed := Changes.hashes_removed c;
         Changes.hashes_not_removed_mismatched_hash_block_size :=
           Changes.hashes_not_removed_mismatched_hash_block_size c;
         Changes.hashes_not_removed_invalid_byte_alignment :=
           Changes.hashes_not_removed_invalid_byte_alignment c;
         Changes.hashes_not_removed_no_hash :=
           Changes.hashes_not_removed_no_hash c;
         Changes.hashes_not_removed_no_element :=
           Changes.hashes_not_removed_no_element c;
         Changes.hashes_not_inserted_invalid_sector_size :=
           (Changes.hashes_not_inserted_invalid_sector_size c
            + Z.of_nat n_bad) mod 2 ^ 32 |}%Z.
Proof.
  induction l as [|it l IH]; intros st st' R1 R2 R3 Hi.
  - injection Hi as <-. exists 0%nat, 0%nat, 0%nat.
    repeat split; [cbn; lia|].
    cbv zeta. rewrite !Z.add_0_r, !Z.mod_small by assumption.
    now destruct (HashData.changes st).
  - cbn [HashData.insert] in Hi.
    destruct (HashData.insert_entry settings source_id it st)
      as [st1|] eqn:H1; [|discriminate].
    destruct (insert_entry_cases _ _ _ _ _ H1)
      as (_ & [(Ha & He & _ & Hc)|[(Ha & _ & He & _ & Hc)
                                  |(Ha & _ & Hp & _ & Hc)]]);
      cbn [List.filter]; rewrite Ha; cbn [negb List.length].
    + destruct (IH st1 st') as (n_bad & n_dup & n_new & -> & Hsum & Hlen & Hc');
        try assumption; try (rewrite Hc; cbn; first [assumption|apply incr_range]).
      eexists (S _), n_dup, n_new.
      split; [reflexivity|]. split; [lia|]. split; [congruence|].
      rewrite Hc', Hc. cbn. f_equal. apply incr_add.
    + destruct (IH st1 st') as (n_bad & n_dup & n_new & -> & Hsum & Hlen & Hc');
        try assumption; try (rewrite Hc; cbn; first [assumption|apply incr_range]).
      eexists _, (S n_dup), n_new.
      split; [reflexivity|]. split; [lia|]. split; [congruence|].
      rewrite Hc', Hc. cbn. f_equal. apply incr_add.
    + destruct (IH st1 st') as (n_bad & n_dup & n_new & -> & Hsum & Hlen & Hc');
        try assumption; try (rewrite Hc; cbn; first [assumption|apply incr_range]).
      eexists _, n_dup, (S n_new).
      split; [reflexivity|]. split; [lia|]. split.
      * apply mdb_put_success in Hp. destruct Hp as (l1 & l2 & E & E1).
        rewrite Hlen, E1, E, !length_app. cbn [List.length]. lia.
      * rewrite Hc', Hc. cbn. f_equal. apply incr_add.
Qed.

(** X7.  Every entry of the list is counted once: a misaligned entry under
    [hashes_not_inserted_invalid_sector_size], an entry whose pair was
    stored already under [hashes_not_inserted_duplicate_element], and the
    others under [hashes_inserted], which grows by exactly the number of
    pairs that the store has gained.  The counters wrap at [2^32]; no other
    counter changes. *)
Theorem X7_hash_data_insert_counts_every_entry :
  forall (settings : HashData.hashdb_settings_t) (source_id : N)
         (hash_data_list : list HashData.hash_data_t)
         (st st' : HashData.state_t),
    (0 <= Changes.hashes_inserted (HashData.changes st) < 2 ^ 32)%Z ->
    (0 <= Changes.hashes_not_inserted_duplicate_element (HashData.changes st)
     < 2 ^ 32)%Z ->
    (0 <= Changes.hashes_not_inserted_invalid_sector_size
            (HashData.changes st) < 2 ^ 32)%Z ->
    HashData.insert settings source_id hash_data_list st = Some st' ->
    let misaligned :=
      List.length
        (List.filter (fun it => negb (HashData.aligned settings it))
           hash_data_list) in
    let stored :=
      (List.length (HashData.env st') - List.length (HashData.env st))%nat in
    let c := HashData.changes st in
    (List.length (HashData.env st) <= List.length (HashData.env st'))%nat /\
    (misaligned + stored <= List.length hash_data_list)%nat /\
    HashData.changes st'
    = {| Changes.hashes_inserted :=
           (Changes.hashes_inserted c + Z.of_nat stored) mod 2 ^ 32;
         Changes.hashes_not_inserted_mismatched_hash_block_size :=
           Changes.hashes_not_inserted_mismatched_hash_block_size c;
         Changes.hashes_not_inserted_invalid_byte_alignment :=
           Changes.hashes_not_inserted_invalid_byte_alignment c;
         Changes.hashes_not_inserted_exceeds_max_duplicates :=
           Changes.hashes_not_inserted_exceeds_max_duplicates c;
         Changes.hashes_not_inserted_duplicate_element :=
           (Changes.hashes_not_inserted_duplicate_element c
            + Z.of_nat (List.length hash_data_list - misaligned - stored))
           mod 2 ^ 32;
         Changes.hashes_removed := Changes.hashes_removed c;
         Changes.hashes_not_removed_mismatched_hash_block_size :=
           Changes.hashes_not_removed_mismatched_hash_block_size c;
         Changes.hashes_not_removed_invalid_byte_alignment :=
           Changes.hashes_not_removed_invalid_byte_alignment c;
         Changes.hashes_not_removed_no_hash :=
           Changes.hashes_not_removed_no_hash c;
         Changes.hashes_not_removed_no_element :=
           Changes.hashes_not_removed_no_element c;
         Changes.hashes_not_inserted_invalid_sector_size :=
           (Changes.hashes_not_inserted_invalid_sector_size c
            + Z.of_nat misaligned) mod 2 ^ 32 |}%Z.
Proof.
  intros settings source_id l st st' R1 R2 R3 Hi misaligned stored c.
  destruct (hash_data_insert_counts _ _ _ _ _ R1 R2 R3 Hi)
    as (n_bad & n_dup & n_new & Hbad & Hsum & Hlen & Hc).
  fold misaligned in Hbad. subst n_bad.
  assert (stored = n_new) as -> by (subst stored; lia).
  split; [lia|]. split; [lia|].
  replace (List.length l - misaligned - n_new)%nat with n_dup by lia.
  exact Hc.
Qed.

Lemma X7_hash_data_insert_counts_every_entry_witness :
  exists st' : HashData.state_t,
    HashData.insert Scenario.settings_512 1
      [Scenario.entry (Scenario.hash16 7) 513;
       Scenario.entry (Scenario.hash16 0) 1024;
       Scenario.entry (Scenario.hash16 0) 1024] Scenario.new_state
    = Some st' /\
    Changes.hashes_inserted (HashData.changes st') = 1%Z /\
    Changes.hashes_not_inserted_duplicate_element (HashData.changes st') = 1%Z /\
    Changes.hashes_not_inserted_invalid_sector_size (HashData.changes st')
    = 1%Z.
Proof.
  destruct (HashData.insert Scenario.settings_512 1
              [Scenario.entry (Scenario.hash16 7) 513;
               Scenario.entry (Scenario.hash16 0) 1024;
               Scenario.entry (Scenario.hash16 0) 1024] Scenario.new_state)
    as [st'|] eqn:Hi; [|vm_compute in Hi; discriminate].
  exists st'. split; [reflexivity|].
  assert (R : (0 <= 0 < 2 ^ 32)%Z) by (split; [discriminate | reflexivity]).
  destruct (X7_hash_data_insert_counts_every_entry
              _ _ _ Scenario.new_state st' R R R Hi) as (_ & _ & Hc).
  assert (Hlen : List.length (HashData.env st') = 1%nat)
    by (vm_compute in Hi; now injection Hi as <-).
  rewrite Hc, Hlen. vm_compute. auto.
Defined.

(** X8.  With hash truncation in use, two hashes longer than the
    truncation that agree on their first [hash_truncation] bytes are one
    and the same key: after the first has been inserted for a source and an
    offset, the second, for the same source and offset, is counted as a
    duplicate element, and neither the store nor the bloom filter changes. *)
Theorem X8_truncated_hashes_are_one_key :
  forall (settings : HashData.hashdb_settings_t) (source_id : N)
         (hash1 hash2 : string) (offset : N) (st : HashData.state_t),
    HashData.sector_size settings <> 0%N ->
    (offset mod HashData.sector_size settings = 0)%N ->
    HashData.hash_truncation settings <> 0%N ->
    (HashData.hash_truncation settings < N.of_nat (String.length hash1))%N ->
    (HashData.hash_truncation settings < N.of_nat (String.length hash2))%N ->
    substring 0 (N.to_nat (HashData.hash_truncation settings)) hash1
    = substring 0 (N.to_nat (HashData.hash_truncation settings)) hash2 ->
    exists st1 : HashData.state_t,
      HashData.insert_entry settings source_id
        {| HashData.binary_hash := hash1; HashData.file_offset := offset |} st
      = Some st1 /\
      Forall (fun kd => (String.length kd.1
                         <= N.to_nat (HashData.hash_truncation settings))%nat
                        \/ In kd (HashData.env st)) (HashData.env st1) /\
      HashData.insert_entry settings source_id
        {| HashData.binary_hash := hash2; HashData.file_offset := offset |} st1
      = Some {| HashData.env := HashData.env st1;
                HashData.bloom_filter_manager :=
                  HashData.bloom_filter_manager st1;
                HashData.changes :=
                  Changes.incr_hashes_not_inserted_duplicate_element
                    (HashData.changes st1) |}.
Proof.
  intros settings source_id h1 h2 offset st Hss Hoff Ht Hl1 Hl2 Hsub.
  set (it1 := {| HashData.binary_hash := h1; HashData.file_offset := offset |}).
  set (it2 := {| HashData.binary_hash := h2; HashData.file_offset := offset |}).
  assert (Ha1 : HashData.aligned settings it1 = true)
    by (unfold HashData.aligned; cbn; now rewrite Hoff).
  assert (Ha2 : HashData.aligned settings it2 = true)
    by (unfold HashData.aligned; cbn; now rewrite Hoff).
  assert (Hp1 : HashData.stored_pair settings source_id it1
                = (substring 0 (N.to_nat (HashData.hash_truncation settings))
                     h1,
                   HashData.encode_hash_data source_id
                     (offset / HashData.sector_size settings))).
  { unfold HashData.stored_pair. cbn.
    destruct (N.eqb_spec (HashData.hash_truncation settings) 0);
      [contradiction|].
    now rewrite (proj2 (N.ltb_lt _ _) Hl1). }
  assert (Hp : HashData.stored_pair settings source_id it2
               = HashData.stored_pair settings source_id it1).
  { rewrite Hp1, Hsub. unfold HashData.stored_pair. cbn.
    destruct (N.eqb_spec (HashData.hash_truncation settings) 0);
      [contradiction|].
    now rewrite (proj2 (N.ltb_lt _ _) Hl2). }
  destruct (insert_entry_effect settings source_id it1 st Hss)
    as (st1 & Hi1 & [(Hf & _)|[(_ & Hin & He & _)
                               |(_ & _ & (l1 & l2 & E & E1) & _)]]).
  - congruence.
  - exists st1. split; [assumption|]. split.
    + rewrite He. apply List.Forall_forall. auto.
    + apply insert_entry_present; try assumption. now rewrite Hp, He.
  - exists st1. split; [assumption|]. split.
    + rewrite E1, E. apply List.Forall_forall. intros kd Hkd.
      rewrite in_app_iff in Hkd. cbn [In] in Hkd.
      destruct Hkd as [?|[<-|?]].
      * right. apply in_or_app. auto.
      * left. rewrite Hp1. cbn [fst]. apply substring_length_le.
      * right. apply in_or_app. auto.
    + apply insert_entry_present; try assumption.
      rewrite Hp, E1. apply in_or_app. right. now left.
Qed.

Lemma X8_truncated_hashes_are_one_key_witness :
  exists st1 : HashData.state_t,
    HashData.insert_entry
      {| HashData.sector_size := 512; HashData.hash_truncation := 2 |} 1
      (Scenario.entry (bytes [1; 2; 3]%N) 1024) Scenario.new_state = Some st1 /\
    HashData.insert_entry
      {| HashData.sector_size := 512; HashData.hash_truncation := 2 |} 1
      (Scenario.entry (bytes [1; 2; 4]%N) 1024) st1
    = Some {| HashData.env := HashData.env st1;
              HashData.bloom_filter_manager :=
                HashData.bloom_filter_manager st1;
              HashData.changes :=
                Changes.incr_hashes_not_inserted_duplicate_element
                  (HashData.changes st1) |}.
Proof.
  destruct (X8_truncated_hashes_are_one_key
              {| HashData.sector_size := 512; HashData.hash_truncation := 2 |}
              1 (bytes [1; 2; 3]%N) (bytes [1; 2; 4]%N) 1024
              Scenario.new_state
              ltac:(discriminate) eq_refl ltac:(discriminate)
              eq_refl eq_refl eq_refl) as (st1 & H1 & _ & H2).
  exists st1. split; assumption.
Defined.

(** ** The JSON import: a line stops at its first problem *)

Ltac stop_with_one_event :=
  eexists [], [_];
  split; [reflexivity|]; split; [reflexivity|];
  right; eexists; split; reflexivity.

Lemma read_names_shape (file_binary_hash line : string)
    (json_names : list ImportJson.json) :
  exists inserts tail,
    ImportJson.read_names file_binary_hash line json_names
    = (inserts ++ tail)%list /\
    forallb ImportJson.is_insert inserts = true /\
    (tail = [] \/ exists e, tail = [e] /\ ImportJson.is_insert e = false).
Proof.
  induction json_names as [|v rest IH].
  - exists [], []. auto.
  - destruct IH as (ins & tail & E & Hins & Htail).
    cbn [ImportJson.read_names].
    destruct v; try stop_with_one_event.
    destruct (ImportJson.member "repository_name" members) as [[]|];
      try stop_with_one_event.
    destruct (ImportJson.member "filename" members) as [[]|];
      try stop_with_one_event.
    rewrite E. eexists (_ :: ins), tail.
    split; [reflexivity|]. split; [exact Hins | exact Htail].
Qed.

Lemma read_pairs_shape (hex_to_bin : string -> string)
    (binary_hash : string) (entropy : N) (block_label line : string) :
  forall json_pairs : list ImportJson.json,
  exists inserts tail,
    ImportJson.read_pairs hex_to_bin binary_hash entropy block_label line
      json_pairs = (inserts ++ tail)%list /\
    forallb ImportJson.is_insert inserts = true /\
    (tail = [] \/ exists e, tail = [e] /\ ImportJson.is_insert e = false).
Proof.
  fix IH 1. intros [|a [|b rest]].
  - exists [], []. auto.
  - exists [], []. auto.
  - destruct (IH rest) as (ins & tail & E & Hins & Htail).
    cbn [ImportJson.read_pairs].
    destruct a; try stop_with_one_event.
    destruct b; try stop_with_one_event.
    rewrite E. eexists (_ :: ins), tail.
    split; [reflexivity|]. split; [exact Hins | exact Htail].
Qed.

(** X9.  Whatever a line holds, the reader handles it as a run of inserts
    followed by at most one other event (a report of an invalid line, or a
    failed assertion): after the first problem nothing more of the line is
    inserted. *)
Theorem X9_a_line_stops_at_its_first_problem :
  forall (hex_to_bin : string -> string)
         (parse : string -> option ImportJson.json) (line : string),
  exists inserts tail : list ImportJson.event,
    ImportLines.read_line hex_to_bin parse line = (inserts ++ tail)%list /\
    forallb ImportJson.is_insert inserts = true /\
    (tail = [] \/ exists e, tail = [e] /\ ImportJson.is_insert e = false).
Proof.
  intros hex_to_bin parse line. unfold ImportLines.read_line.
  destruct (ImportLines.is_skipped line); [exists [], []; auto|].
  destruct (parse (ImportJson.c_str line)) as [[]|]; try stop_with_one_event.
  destruct (ImportJson.member "file_hash" members) as [v|] eqn:Hfile.
  - unfold ImportJson.read_source_data. rewrite Hfile.
    destruct v; try stop_with_one_event.
    destruct (ImportJson.member "filesize" members) as [[]|];
      try stop_with_one_event.
    assert (Hnames : exists inserts tail,
               match ImportJson.member "names" members with
               | Some (ImportJson.JArray json_names) =>
                   ImportJson.read_names
                     (hex_to_bin (ImportJson.c_str s)) line json_names
               | _ => [ImportJson.report_invalid_line "source data names" line]
               end = (inserts ++ tail)%list /\
               forallb ImportJson.is_insert inserts = true /\
               (tail = [] \/
                exists e, tail = [e] /\ ImportJson.is_insert e = false)).
    { destruct (ImportJson.member "names" members) as [[]|];
        try stop_with_one_event.
      apply read_names_shape. }
    destruct Hnames as (ins & tail & E & Hins & Htail).
    rewrite E. eexists (_ :: ins), tail.
    split; [reflexivity|]. split; [exact Hins | exact Htail].
  - destruct (ImportJson.member "block_hash" members) as [v|] eqn:Hblock;
      [|stop_with_one_event].
    unfold ImportJson.read_block_hash_data. rewrite Hblock.
    destruct v; try stop_with_one_event.
    destruct (ImportJson.member "source_offset_pairs" members) as [[]|];
      try stop_with_one_event.
    apply read_pairs_shape.
Qed.

Lemma read_pairs_good_app (hex_to_bin : string -> string)
    (binary_hash : string) (entropy : N) (block_label line : string)
    (good : list (string * N)) (rest : list ImportJson.json) :
  ImportJson.read_pairs hex_to_bin binary_hash entropy block_label line
    (ImportJson.source_offset_pairs good ++ rest)
  = (map (fun p => ImportJson.insert_hash binary_hash
                     (hex_to_bin (ImportJson.c_str p.1)) p.2
                     entropy block_label) good
     ++ ImportJson.read_pairs hex_to_bin binary_hash entropy block_label line
          rest)%list.
Proof.
  induction good as [|[file_hash file_offset] good IH]; [reflexivity|].
  cbn [ImportJson.source_offset_pairs app ImportJson.read_pairs map fst snd].
  now rewrite IH.
Qed.

(** X10.  In a block-hash record the pairs are read up to the first pair
    that is not a string followed by an unsigned integer: the pairs before
    it are inserted, it is reported (by its source hash when that is not a
    string, by its file offset otherwise), and the pairs after it are not
    read, well-formed or not. *)
Theorem X10_malformed_pair_ends_the_record :
  forall (hex_to_bin : string -> string)
         (document : list (string * ImportJson.json)) (line : string)
         (block_hash : string) (good : list (string * N))
         (source_hash offset : ImportJson.json)
         (later : list ImportJson.json),
    ImportJson.member "block_hash" document
    = Some (ImportJson.JString block_hash) ->
    ImportJson.member "source_offset_pairs" document
    = Some (ImportJson.JArray
              (ImportJson.source_offset_pairs good
               ++ source_hash :: offset :: later)) ->
    (forall s n, ~ (source_hash = ImportJson.JString s /\
                    offset = ImportJson.JUint64 n)) ->
    ImportJson.read_block_hash_data hex_to_bin document line
    = (map (fun p => ImportJson.insert_hash
                       (hex_to_bin (ImportJson.c_str block_hash))
                       (hex_to_bin (ImportJson.c_str p.1)) p.2
                       (ImportJson.optional_uint64 "entropy" document)
                       (ImportJson.optional_string "block_label" document))
         good
       ++ [ImportJson.report_invalid_line
             match source_hash with
             | ImportJson.JString _ =>
                 "block hash data source_offset_pair file offset"
             | _ => "block hash data source_offset_pair source hash"
             end line])%list.
Proof.
  intros hex_to_bin document line block_hash good a b later Hb Hp Hbad.
  unfold ImportJson.read_block_hash_data. rewrite Hb, Hp.
  rewrite read_pairs_good_app. f_equal.
  cbn [ImportJson.read_pairs].
  destruct a; try reflexivity.
  destruct b; try reflexivity.
  destruct (Hbad s n). auto.
Qed.

Lemma X10_malformed_pair_ends_the_record_witness :
  ImportJson.read_block_hash_data (fun s => s)
    [("block_hash", ImportJson.JString "a7df");
     ("source_offset_pairs",
      ImportJson.JArray [ImportJson.JString "b9e7"; ImportJson.JUint64 4096;
                         ImportJson.JString "c001"; ImportJson.JString "0";
                         ImportJson.JString "d002"; ImportJson.JUint64 512])]
    "line"
  = [ImportJson.insert_hash "a7df" "b9e7" 4096 0 "";
     ImportJson.report_invalid_line
       "block hash data source_offset_pair file offset" "line"].
Proof.
  exact (X10_malformed_pair_ends_the_record (fun s => s)
           [("block_hash", ImportJson.JString "a7df");
            ("source_offset_pairs",
             ImportJson.JArray
               [ImportJson.JString "b9e7"; ImportJson.JUint64 4096;
                ImportJson.JString "c001"; ImportJson.JString "0";
                ImportJson.JString "d002"; ImportJson.JUint64 512])]
           "line" "a7df" [("b9e7", 4096%N)]
           (ImportJson.JString "c001") (ImportJson.JString "0")
           [ImportJson.JString "d002"; ImportJson.JUint64 512]
           eq_refl eq_refl
           ltac:(intros s n [_ H]; discriminate H)).
Defined.

(** ** The JSON import: the lines of a file *)

Lemma read_lines_mod (hex_to_bin : string -> string)
    (parse : string -> option ImportJson.json) (n : N) (lines : list string) :
  ImportLines.read_lines hex_to_bin parse (n mod 2 ^ 64) lines
  = ImportLines.read_lines hex_to_bin parse n lines.
Proof.
  destruct lines as [|line rest]; [reflexivity|].
  cbn [ImportLines.read_lines].
  now rewrite N.Div0.add_mod_idemp_l.
Qed.

(** X11.  The lines are read one after the other: as long as no line of a
    first part of the input fails an assertion, reading the whole input is
    reading the first part and then the rest, with the line numbers running
    on (modulo [2^64]); in particular a line that is reported as invalid
    does not keep the following lines from being read.  After a line that
    fails an assertion nothing is read. *)
Theorem X11_lines_are_read_one_after_the_other :
  forall (hex_to_bin : string -> string)
         (parse : string -> option ImportJson.json)
         (line_number : N) (lines1 lines2 : list string),
    (Forall (fun line =>
               ImportLines.aborted
                 (ImportLines.read_line hex_to_bin parse line) = false)
       lines1 ->
     ImportLines.read_lines hex_to_bin parse line_number (lines1 ++ lines2)
     = (ImportLines.read_lines hex_to_bin parse line_number lines1
        ++ ImportLines.read_lines hex_to_bin parse
             (line_number + N.of_nat (List.length lines1)) lines2)%list)
    /\
    (forall line : string,
        ImportLines.aborted (ImportLines.read_line hex_to_bin parse line)
        = true ->
        ImportLines.read_lines hex_to_bin parse line_number
          (lines1 ++ line :: lines2)
        = ImportLines.read_lines hex_to_bin parse line_number
            (lines1 ++ [line])).
Proof.
  intros hex_to_bin parse n lines1 lines2. revert n.
  induction lines1 as [|l lines1 IH]; intros n.
  - split.
    + intros _. cbn [app List.length ImportLines.read_lines N.of_nat].
      now rewrite N.add_0_r.
    + intros line Hab. cbn [app ImportLines.read_lines]. now rewrite Hab.
  - split.
    + intros Hall. inversion Hall as [|? ? Hl Hrest]; subst.
      cbn [app ImportLines.read_lines]. rewrite Hl.
      rewrite (proj1 (IH _) Hrest), <- app_assoc. do 2 f_equal.
      rewrite <- (read_lines_mod _ _ ((n + 1) mod 2 ^ 64 + _)),
        N.Div0.add_mod_idemp_l, read_lines_mod.
      f_equal. cbn [List.length]. lia.
    + intros line Hab. cbn [app ImportLines.read_lines].
      now rewrite (proj2 (IH _) line Hab).
Qed.

Lemma X11_lines_are_read_one_after_the_other_witness :
  ImportLines.read (fun s => s)
    (fun text => if (text =? "{}")%string
                 then Some (ImportJson.JObject []) else None)
    ["# a comment"; ""; "x"; "{}"]
  = [(3%N, ImportJson.report_invalid_line "DOM parse error" "x");
     (4%N, ImportJson.report_invalid_line "no file_hash or block_hash" "{}")].
Proof.
  unfold ImportLines.read. etransitivity.
  - apply (proj1 (X11_lines_are_read_one_after_the_other (fun s => s)
                    (fun text => if (text =? "{}")%string
                                 then Some (ImportJson.JObject []) else None)
                    0 ["# a comment"; ""; "x"] ["{}"])).
    repeat constructor.
  - reflexivity.
Defined.

(** X12.  Comment lines and empty lines are counted and otherwise ignored:
    leaving them out of the input changes the line numbers only. *)
Theorem X12_skipped_lines_only_shift_the_line_numbers :
  forall (hex_to_bin : string -> string)
         (parse : string -> option ImportJson.json)
         (lines : list string) (line_number line_number' : N),
    map snd (ImportLines.read_lines hex_to_bin parse line_number lines)
    = map snd
        (ImportLines.read_lines hex_to_bin parse line_number'
           (List.filter (fun line => negb (ImportLines.is_skipped line))
              lines)).
Proof.
  intros hex_to_bin parse lines.
  induction lines as [|l lines IH]; intros n n'; [reflexivity|].
  cbn [List.filter ImportLines.read_lines].
  destruct (ImportLines.is_skipped l) eqn:Hs; cbn [negb].
  - unfold ImportLines.read_line. rewrite Hs. cbn. apply IH.
  - cbn [ImportLines.read_lines].
    rewrite !map_app, !map_map. cbn [snd]. f_equal.
    destruct (ImportLines.aborted _); [reflexivity|]. apply IH.
Qed.

(** X13.  The line number of an event is the position of its line in the
    input, counted from one: an event numbered [k] comes from reading the
    [k]-th line (as long as the input has fewer than [2^64] lines). *)
Theorem X13_line_numbers_are_positions :
  forall (hex_to_bin : string -> string)
         (parse : string -> option ImportJson.json)
         (lines : list string) (k : N) (e : ImportJson.event),
    (N.of_nat (List.length lines) < 2 ^ 64)%N ->
    In (k, e) (ImportLines.read hex_to_bin parse lines) ->
    (1 <= k <= N.of_nat (List.length lines))%N /\
    exists line : string,
      nth_error lines (N.to_nat (k - 1)) = Some line /\
      In e (ImportLines.read_line hex_to_bin parse line).
Proof.
  intros hex_to_bin parse lines k e Hlen Hin.
  assert (Hgen : forall (lines : list string) (n : N),
             (n + N.of_nat (List.length lines) < 2 ^ 64)%N ->
             In (k, e) (ImportLines.read_lines hex_to_bin parse n lines) ->
             (n < k <= n + N.of_nat (List.length lines))%N /\
             exists line : string,
               nth_error lines (N.to_nat (k - n - 1)) = Some line /\
               In e (ImportLines.read_line hex_to_bin parse line)).
  { clear. induction lines as [|l lines IH]; intros n Hlen Hin; [destruct Hin|].
    cbn [ImportLines.read_lines] in Hin. cbn [List.length] in Hlen.
    rewrite N.mod_small in Hin by lia.
    apply in_app_or in Hin. destruct Hin as [Hin|Hin].
    - apply in_map_iff in Hin. destruct Hin as (e' & [= <- <-] & Hin).
      split; [cbn [List.length]; lia|].
      exists l. split; [|assumption].
      now replace (N.to_nat (n + 1 - n - 1)) with 0%nat by lia.
    - destruct (ImportLines.aborted _); [destruct Hin|].
      destruct (IH (n + 1)%N ltac:(lia) Hin) as (Hk & line & Hnth & He).
      split; [cbn [List.length]; lia|].
      exists line. split; [|assumption].
      replace (N.to_nat (k - n - 1)) with (S (N.to_nat (k - (n + 1) - 1)))
        by lia.
      exact Hnth. }
  destruct (Hgen lines 0%N ltac:(lia) Hin) as (Hk & line & Hnth & He).
  split; [lia|]. exists line. split; [|assumption].
  now rewrite N.sub_0_r in Hnth.
Qed.

Lemma X13_line_numbers_are_positions_witness :
  (1 <= 3 <= N.of_nat (List.length ["# a comment"; ""; "x"; "{}"]))%N /\
  exists line : string,
    nth_error ["# a comment"; ""; "x"; "{}"] (N.to_nat (3 - 1)) = Some line /\
    In (ImportJson.report_invalid_line "DOM parse error" "x")
      (ImportLines.read_line (fun s => s)
         (fun text => if (text =? "{}")%string
                      then Some (ImportJson.JObject []) else None) line).
Proof.
  exact (X13_line_numbers_are_positions (fun s => s)
           (fun text => if (text =? "{}")%string
                        then Some (ImportJson.JObject []) else None)
           ["# a comment"; ""; "x"; "{}"] 3%N
           (ImportJson.report_invalid_line "DOM parse error" "x")
           eq_refl (or_introl eq_refl)).
Defined.

Lemma read_names_events (file_binary_hash line : string)
    (json_names : list ImportJson.json) :
  Forall (fun e => match e with
                   | ImportJson.insert_hash _ _ _ _ _ => False
                   | _ => True
                   end)
    (ImportJson.read_names file_binary_hash line json_names).
Proof.
  induction json_names as [|v rest IH]; [constructor|].
  cbn [ImportJson.read_names].
  destruct v; try (repeat constructor).
  destruct (ImportJson.member "repository_name" members) as [[]|];
    try (repeat constructor).
  destruct (ImportJson.member "filename" members) as [[]|];
    try (repeat constructor).
  exact IH.
Qed.

Lemma read_pairs_events (hex_to_bin : string -> string)
    (binary_hash : string) (entropy : N) (block_label line : string) :
  forall json_pairs : list ImportJson.json,
  Forall (fun e => match e with
                   | ImportJson.insert_source_data _ _ _ _
                   | ImportJson.insert_source_name _ _ _ => False
                   | _ => True
                   end)
    (ImportJson.read_pairs hex_to_bin binary_hash entropy block_label line
       json_pairs).
Proof.
  fix IH 1. intros [|a [|b rest]]; try constructor.
  cbn [ImportJson.read_pairs].
  destruct a; try (repeat constructor).
  destruct b; try (repeat constructor).
  apply IH.
Qed.

(** X14.  A record is source data whenever it has a [file_hash] member,
    also when it has a [block_hash] member as well: such a line is read by
    [read_source_data] and never inserts a block hash.  A record without
    [file_hash] never inserts source data or a source name. *)
Theorem X14_file_hash_takes_precedence :
  forall (hex_to_bin : string -> string)
         (parse : string -> option ImportJson.json) (line : string)
         (document : list (string * ImportJson.json)),
    ImportLines.is_skipped line = false ->
    parse (ImportJson.c_str line) = Some (ImportJson.JObject document) ->
    (ImportJson.member "file_hash" document <> None ->
     ImportLines.read_line hex_to_bin parse line
     = ImportJson.read_source_data hex_to_bin document line /\
     Forall (fun e => match e with
                      | ImportJson.insert_hash _ _ _ _ _ => False
                      | _ => True
                      end)
       (ImportLines.read_line hex_to_bin parse line))
    /\
    (ImportJson.member "file_hash" document = None ->
     Forall (fun e => match e with
                      | ImportJson.insert_source_data _ _ _ _
                      | ImportJson.insert_source_name _ _ _ => False
                      | _ => True
                      end)
       (ImportLines.read_line hex_to_bin parse line)).
Proof.
  intros hex_to_bin parse line document Hs Hp.
  unfold ImportLines.read_line. rewrite Hs, Hp. split.
  - intros Hfile.
    destruct (ImportJson.member "file_hash" document) as [v|] eqn:Hm;
      [|contradiction].
    split; [reflexivity|].
    unfold ImportJson.read_source_data. rewrite Hm.
    destruct v; try (repeat constructor).
    destruct (ImportJson.member "filesize" document) as [[]|];
      try (repeat constructor).
    destruct (ImportJson.member "names" document) as [[]|];
      try (repeat constructor).
    apply read_names_events.
  - intros Hfile. rewrite Hfile.
    destruct (ImportJson.member "block_hash" document) as [v|] eqn:Hm;
      [|repeat constructor].
    unfold ImportJson.read_block_hash_data. rewrite Hm.
    destruct v; try (repeat constructor).
    destruct (ImportJson.member "source_offset_pairs" document) as [[]|];
      try (repeat constructor).
    apply read_pairs_events.
Qed.

Lemma X14_file_hash_takes_precedence_witness :
  ImportLines.read_line (fun s => s)
    (fun _ => Some (ImportJson.JObject
                      [("block_hash", ImportJson.JString "a7df");
                       ("source_offset_pairs",
                        ImportJson.JArray [ImportJson.JString "b9e7";
                                           ImportJson.JUint64 4096]);
                       ("file_hash", ImportJson.JString "b9e7");
                       ("filesize", ImportJson.JUint64 8000);
                       ("names", ImportJson.JArray [])]))
    "both"
  = [ImportJson.insert_source_data "b9e7" 8000 "" 0].
Proof.
  rewrite (proj1 (proj1 (X14_file_hash_takes_precedence (fun s => s)
                           (fun _ => Some (ImportJson.JObject
                              [("block_hash", ImportJson.JString "a7df");
                               ("source_offset_pairs",
                                ImportJson.JArray [ImportJson.JString "b9e7";
                                                   ImportJson.JUint64 4096]);
                               ("file_hash", ImportJson.JString "b9e7");
                               ("filesize", ImportJson.JUint64 8000);
                               ("names", ImportJson.JArray [])]))
                           "both" _ eq_refl eq_refl)
                    ltac:(discriminate))).
  reflexivity.
Defined.

(** ** The order of the elements of a database *)

Lemma element_compare_antisym (a b : Commands.hashdb_element_t) :
  Commands.element_compare b a = CompOpp (Commands.element_compare a b).
Proof.
  unfold Commands.element_compare.
  rewrite (String.compare_antisym (Commands.key b)),
    (String.compare_antisym (Commands.repository_name b)),
    (String.compare_antisym (Commands.filename b)),
    (N.compare_antisym (Commands.file_offset a)),
    (N.compare_antisym (Commands.hash_block_size a)).
  destruct (String.compare (Commands.key a) (Commands.key b)),
    (String.compare (Commands.repository_name a) (Commands.repository_name b)),
    (String.compare (Commands.filename a) (Commands.filename b)),
    (N.compare (Commands.file_offset a) (Commands.file_offset b)),
    (N.compare (Commands.hash_block_size a) (Commands.hash_block_size b));
    reflexivity.
Qed.

Lemma element_compare_refl (a : Commands.hashdb_element_t) :
  Commands.element_compare a a = Eq.
Proof.
  unfold Commands.element_compare.
  now rewrite !string_compare_refl, !N.compare_refl.
Qed.

Lemma lex_lt_trans (c1 c2 c3 r1 r2 r3 : comparison) :
  (c1 = Lt -> c2 = Lt -> c3 = Lt) ->
  (c1 = Eq -> c3 = c2) -> (c2 = Eq -> c3 = c1) ->
  (r1 = Lt -> r2 = Lt -> r3 = Lt) ->
  match c1 with Eq => r1 | Lt => Lt | Gt => Gt end = Lt ->
  match c2 with Eq => r2 | Lt => Lt | Gt => Gt end = Lt ->
  match c3 with Eq => r3 | Lt => Lt | Gt => Gt end = Lt.
Proof.
  destruct c1, c2; intros H1 H2 H3 H4 Ha Hb; try discriminate.
  - rewrite (H2 eq_refl). auto.
  - now rewrite (H2 eq_refl).
  - now rewrite (H3 eq_refl).
  - now rewrite (H1 eq_refl eq_refl).
Qed.

Lemma element_lt_trans (a b c : Commands.hashdb_element_t) :
  SetCommands.element_lt a b -> SetCommands.element_lt b c ->
  SetCommands.element_lt a c.
Proof.
  unfold SetCommands.element_lt, Commands.element_compare.
  assert (Hs : forall x y z : string,
             (String.compare x y = Lt -> String.compare y z = Lt ->
              String.compare x z = Lt) /\
             (String.compare x y = Eq ->
              String.compare x z = String.compare y z) /\
             (String.compare y z = Eq ->
              String.compare x z = String.compare x y)).
  { intros x y z. split; [exact (string_lt_trans x y z)|].
    split; intros H; apply string_compare_eq in H; now rewrite H. }
  assert (Hn : forall x y z : N,
             (N.compare x y = Lt -> N.compare y z = Lt ->
              N.compare x z = Lt) /\
             (N.compare x y = Eq -> N.compare x z = N.compare y z) /\
             (N.compare y z = Eq -> N.compare x z = N.compare x y)).
  { intros x y z. split.
    - rewrite !N.compare_lt_iff. lia.
    - split; intros H; apply N.compare_eq_iff in H; now rewrite H. }
  apply lex_lt_trans; try apply Hs.
  apply lex_lt_trans; try apply Hs.
  apply lex_lt_trans; try apply Hs.
  apply lex_lt_trans; try apply Hn.
Qed.

Lemma element_lt_irrefl (a : Commands.hashdb_element_t) :
  ~ SetCommands.element_lt a a.
Proof.
  unfold SetCommands.element_lt. now rewrite element_compare_refl.
Qed.

Lemma element_gt_lt (a b : Commands.hashdb_element_t) :
  Commands.element_compare a b = Gt -> SetCommands.element_lt b a.
Proof.
  unfold SetCommands.element_lt. intros H.
  now rewrite element_compare_antisym, H.
Qed.

Lemma insert_element_ordered (e : Commands.hashdb_element_t)
    (l : list Commands.hashdb_element_t) :
  SetCommands.ordered l -> SetCommands.ordered (Commands.insert_element e l).2.
Proof.
  induction l as [|x rest IH]; intros Hord; cbn [Commands.insert_element].
  - cbn. repeat constructor.
  - apply StronglySorted_inv in Hord. destruct Hord as [Hrest Hx].
    destruct (Commands.element_compare e x) eqn:Hc.
    + cbn. now constructor.
    + cbn. constructor; [now constructor|].
      constructor; [exact Hc|].
      apply List.Forall_forall. intros y Hy.
      apply element_lt_trans with x; [exact Hc|].
      exact (proj1 (List.Forall_forall _ _) Hx y Hy).
    + pose proof (fun y => insert_element_In e y rest) as Hin.
      specialize (IH Hrest).
      destruct (Commands.insert_element e rest) as [b rest'].
      cbn [snd] in *. constructor; [exact IH|].
      apply List.Forall_forall. intros y Hy.
      apply Hin in Hy. destruct Hy as [->|Hy].
      * now apply element_gt_lt.
      * exact (proj1 (List.Forall_forall _ _) Hx y Hy).
Qed.

Lemma insert_element_present (e : Commands.hashdb_element_t)
    (l : list Commands.hashdb_element_t) :
  SetCommands.ordered l -> In e l -> Commands.insert_element e l = (false, l).
Proof.
  induction l as [|x rest IH]; intros Hord Hin; [destruct Hin|].
  apply StronglySorted_inv in Hord. destruct Hord as [Hrest Hx].
  cbn [Commands.insert_element].
  destruct Hin as [->|Hin].
  - now rewrite element_compare_refl.
  - pose proof (proj1 (List.Forall_forall _ _) Hx e Hin) as Hlt.
    unfold SetCommands.element_lt in Hlt.
    rewrite element_compare_antisym, Hlt. cbn [CompOpp].
    now rewrite (IH Hrest Hin).
Qed.

Lemma insert_element_length (e : Commands.hashdb_element_t)
    (l : list Commands.hashdb_element_t) :
  if (Commands.insert_element e l).1
  then List.length (Commands.insert_element e l).2 = S (List.length l)
  else (Commands.insert_element e l).2 = l.
Proof.
  induction l as [|x rest IH]; cbn [Commands.insert_element]; [reflexivity|].
  destruct (Commands.element_compare e x); try reflexivity.
  destruct (Commands.insert_element e rest) as [[] rest']; cbn in *;
    congruence.
Qed.

Lemma ordered_NoDup (l : list Commands.hashdb_element_t) :
  SetCommands.ordered l -> List.NoDup l.
Proof.
  induction 1 as [|x l Hl IH Hx]; constructor; [|exact IH].
  intros Hin.
  exact (element_lt_irrefl x (proj1 (List.Forall_forall _ _) Hx x Hin)).
Qed.

Lemma ordered_ext (l1 : list Commands.hashdb_element_t) :
  forall l2 : list Commands.hashdb_element_t,
  SetCommands.ordered l1 -> SetCommands.ordered l2 ->
  (forall x, In x l1 <-> In x l2) -> l1 = l2.
Proof.
  induction l1 as [|a l1 IH]; intros [|b l2] H1 H2 Hio.
  - reflexivity.
  - destruct (proj2 (Hio b) (or_introl eq_refl)).
  - destruct (proj1 (Hio a) (or_introl eq_refl)).
  - apply StronglySorted_inv in H1, H2.
    destruct H1 as [Ha1 Hf1], H2 as [Ha2 Hf2].
    assert (a = b) as ->.
    { destruct (proj1 (Hio a) (or_introl eq_refl)) as [->|Hin]; [reflexivity|].
      destruct (proj2 (Hio b) (or_introl eq_refl)) as [->|Hin']; [reflexivity|].
      exfalso. apply (element_lt_irrefl a).
      apply element_lt_trans with b.
      - exact (proj1 (List.Forall_forall _ _) Hf1 b Hin').
      - exact (proj1 (List.Forall_forall _ _) Hf2 a Hin). }
    f_equal. apply IH; [assumption..|].
    intros x; split; intros Hin.
    + destruct (proj1 (Hio x) (or_intror Hin)) as [->|]; [|assumption].
      destruct (element_lt_irrefl x
                  (proj1 (List.Forall_forall _ _) Hf1 x Hin)).
    + destruct (proj2 (Hio x) (or_intror Hin)) as [->|]; [|assumption].
      destruct (element_lt_irrefl x
                  (proj1 (List.Forall_forall _ _) Hf2 x Hin)).
Qed.

Lemma ordered_ascending_keys (l : list Commands.hashdb_element_t) :
  SetCommands.ordered l -> Commands.ascending_keys l.
Proof.
  induction 1 as [|x l Hl IH Hx]; constructor; [exact IH|].
  eapply List.Forall_impl; [|exact Hx].
  intros y. apply element_compare_lt_key.
Qed.

(** ** What [insert] does to a database and to the counters *)

Lemma insert_fields (e : Commands.hashdb_element_t)
    (m : Commands.hashdb_manager_t) (c : Changes.hashdb_changes_t) :
  Commands.hashdb_dir (Commands.insert e m c).1 = Commands.hashdb_dir m /\
  Commands.settings_hash_block_size (Commands.insert e m c).1
  = Commands.settings_hash_block_size m /\
  (Commands.insert e m c).2
  = (if (Commands.insert_element e (Commands.elements m)).1
     then Changes.incr_hashes_inserted c
     else Changes.incr_hashes_not_inserted_duplicate_element c).
Proof.
  unfold Commands.insert.
  now destruct (Commands.insert_element e (Commands.elements m)).
Qed.

Lemma counted_zero (c : Changes.hashdb_changes_t) :
  (0 <= Changes.hashes_inserted c < 2 ^ 32)%Z ->
  (0 <= Changes.hashes_not_inserted_duplicate_element c < 2 ^ 32)%Z ->
  SetCommands.counted 0 0 c = c.
Proof.
  intros R1 R2. unfold SetCommands.counted.
  rewrite !Z.add_0_r, !Z.mod_small by assumption. now destruct c.
Qed.

Lemma counted_inserted (n d : nat) (c : Changes.hashdb_changes_t) :
  SetCommands.counted n d (Changes.incr_hashes_inserted c)
  = SetCommands.counted (S n) d c.
Proof.
  unfold SetCommands.counted. cbn. f_equal. apply incr_add.
Qed.

Lemma counted_duplicate (n d : nat) (c : Changes.hashdb_changes_t) :
  SetCommands.counted n d (Changes.incr_hashes_not_inserted_duplicate_element c)
  = SetCommands.counted n (S d) c.
Proof.
  unfold SetCommands.counted. cbn. f_equal. apply incr_add.
Qed.

Lemma insert_run_start (m : Commands.hashdb_manager_t) :
  SetCommands.insert_run m Changes.new_hashdb_changes_t 0 m
    Changes.new_hashdb_changes_t.
Proof.
  split; [reflexivity|]. split; [reflexivity|].
  exists 0%nat, 0%nat. split; [reflexivity|]. split; [lia|].
  symmetry. apply counted_zero; cbn; lia.
Qed.

Lemma insert_run_step (e : Commands.hashdb_element_t)
    (m m' : Commands.hashdb_manager_t) (c c' : Changes.hashdb_changes_t)
    (calls : nat) :
  SetCommands.insert_run m c calls m' c' ->
  SetCommands.insert_run m c (S calls)
    (Commands.insert e m' c').1 (Commands.insert e m' c').2.
Proof.
  intros (Hd & Hs & n_new & n_dup & Hsum & Hlen & Hc).
  destruct (insert_fields e m' c') as (Hd' & Hs' & Hc').
  split; [congruence|]. split; [congruence|].
  rewrite Hc', insert_elements.
  pose proof (insert_element_length e (Commands.elements m')) as Hl.
  destruct (Commands.insert_element e (Commands.elements m')).1.
  - exists (S n_new), n_dup. split; [lia|]. split; [lia|].
    rewrite Hc. unfold SetCommands.counted, Changes.incr_hashes_inserted.
    cbn. f_equal. unfold Changes.incr. rewrite Zplus_mod_idemp_l.
    f_equal. lia.
  - exists n_new, (S n_dup). split; [lia|]. split; [congruence|].
    rewrite Hc.
    unfold SetCommands.counted,
      Changes.incr_hashes_not_inserted_duplicate_element.
    cbn. f_equal. unfold Changes.incr. rewrite Zplus_mod_idemp_l.
    f_equal. lia.
Qed.

Lemma insert_each_run (l : list Commands.hashdb_element_t) :
  forall (m m' : Commands.hashdb_manager_t) (c c' : Changes.hashdb_changes_t)
         (calls : nat),
  SetCommands.insert_run m c calls m' c' ->
  SetCommands.insert_run m c (calls + List.length l)
    (Commands.insert_each l m' c').1 (Commands.insert_each l m' c').2.
Proof.
  induction l as [|e l IH]; intros m m' c c' calls Hrun.
  - cbn. now rewrite Nat.add_0_r.
  - cbn [Commands.insert_each List.length].
    pose proof (insert_run_step e _ _ _ _ _ Hrun) as Hstep.
    destruct (Commands.insert e m' c') as [m'' c''].
    replace (calls + S (List.length l))%nat
      with (S calls + List.length l)%nat by lia.
    now apply IH.
Qed.

Lemma insert_ordered (e : Commands.hashdb_element_t)
    (m : Commands.hashdb_manager_t) (c : Changes.hashdb_changes_t) :
  SetCommands.ordered (Commands.elements m) ->
  SetCommands.ordered (Commands.elements (Commands.insert e m c).1).
Proof.
  rewrite insert_elements. apply insert_element_ordered.
Qed.

Lemma insert_In (e x : Commands.hashdb_element_t)
    (m : Commands.hashdb_manager_t) (c : Changes.hashdb_changes_t) :
  In x (Commands.elements (Commands.insert e m c).1)
  <-> x = e \/ In x (Commands.elements m).
Proof.
  rewrite insert_elements. apply insert_element_In.
Qed.

Lemma insert_each_ordered (l : list Commands.hashdb_element_t) :
  forall (m : Commands.hashdb_manager_t) (c : Changes.hashdb_changes_t),
  SetCommands.ordered (Commands.elements m) ->
  SetCommands.ordered (Commands.elements (Commands.insert_each l m c).1).
Proof.
  induction l as [|e l IH]; intros m c Hord; [exact Hord|].
  cbn [Commands.insert_each].
  pose proof (insert_ordered e m c Hord) as Hstep.
  destruct (Commands.insert e m c) as [m' c']. now apply IH.
Qed.

(** ** [add] *)

Lemma require_compatibility_false (hashdb1 hashdb2 : Commands.hashdb_manager_t) :
  SetCommands.require_compatibility hashdb1 hashdb2 = false <->
  Commands.hashdb_dir hashdb1 = Commands.hashdb_dir hashdb2 \/
  Commands.settings_hash_block_size hashdb1
  <> Commands.settings_hash_block_size hashdb2.
Proof.
  unfold SetCommands.require_compatibility.
  destruct (String.eqb_spec (Commands.hashdb_dir hashdb1)
              (Commands.hashdb_dir hashdb2)) as [Hd|Hd].
  - split; auto.
  - destruct (N.eqb_spec (Commands.settings_hash_block_size hashdb1)
                (Commands.settings_hash_block_size hashdb2)) as [Hs|Hs];
      cbn [negb].
    + split; [discriminate|]. intros [?|?]; contradiction.
    + split; auto.
Qed.

(** X15.  [add] refuses (exits) exactly when the two databases are the
    same directory or differ in hash block size.  Otherwise the second
    database becomes the union of the two: it keeps its directory and its
    settings, holds the elements of both and nothing else, stays in order,
    and every element of the first database is counted once, as inserted
    when the second database has grown by it and as a duplicate element
    when not. *)
Theorem X15_add_is_the_union :
  forall hashdb_manager1 hashdb_manager2 : Commands.hashdb_manager_t,
    (SetCommands.add hashdb_manager1 hashdb_manager2 = None <->
     Commands.hashdb_dir hashdb_manager1 = Commands.hashdb_dir hashdb_manager2
     \/ Commands.settings_hash_block_size hashdb_manager1
        <> Commands.settings_hash_block_size hashdb_manager2)
    /\
    (forall (hashdb_manager2' : Commands.hashdb_manager_t)
            (changes : Changes.hashdb_changes_t),
        SetCommands.add hashdb_manager1 hashdb_manager2
        = Some (hashdb_manager2', changes) ->
        Commands.hashdb_dir hashdb_manager2'
        = Commands.hashdb_dir hashdb_manager2 /\
        Commands.settings_hash_block_size hashdb_manager2'
        = Commands.settings_hash_block_size hashdb_manager2 /\
        (forall x, In x (Commands.elements hashdb_manager2') <->
                   In x (Commands.elements hashdb_manager1) \/
                   In x (Commands.elements hashdb_manager2)) /\
        (SetCommands.ordered (Commands.elements hashdb_manager2) ->
         SetCommands.ordered (Commands.elements hashdb_manager2')) /\
        (Commands.map_size hashdb_manager2
         <= Commands.map_size hashdb_manager2'
         <= Commands.map_size hashdb_manager2
            + Commands.map_size hashdb_manager1)%nat /\
        changes
        = SetCommands.counted
            (Commands.map_size hashdb_manager2'
             - Commands.map_size hashdb_manager2)
            (Commands.map_size hashdb_manager1
             - (Commands.map_size hashdb_manager2'
                - Commands.map_size hashdb_manager2))
            Changes.new_hashdb_changes_t).
Proof.
  intros m1 m2. unfold SetCommands.add.
  destruct (SetCommands.require_compatibility m1 m2) eqn:Hc; cbn [negb].
  - split.
    + split; [discriminate|]. intros H.
      apply require_compatibility_false in H. congruence.
    + intros m2' changes [= Hi].
      pose proof (insert_each_run (Commands.elements m1) _ _ _ _ _
                    (insert_run_start m2)) as Hrun.
      pose proof (insert_each_In (Commands.elements m1) m2
                    Changes.new_hashdb_changes_t) as Hin.
      pose proof (insert_each_ordered (Commands.elements m1) m2
                    Changes.new_hashdb_changes_t) as Hord.
      rewrite Hi in Hrun, Hin, Hord. cbn [fst snd] in *.
      destruct Hrun as (Hd & Hs & n_new & n_dup & Hsum & Hlen & Hch).
      unfold Commands.map_size.
      repeat split; try assumption; try apply Hin; try lia.
      rewrite Hch. f_equal; lia.
  - split; [|discriminate].
    split; [|reflexivity]. intros _.
    now apply require_compatibility_false.
Qed.

Lemma X15_add_is_the_union_witness :
  exists hashdb_manager2' changes,
    SetCommands.add Scenario.A123 Scenario.B234
    = Some (hashdb_manager2', changes) /\
    forall x, In x (Commands.elements hashdb_manager2') <->
              In x (Commands.elements Scenario.A123) \/
              In x (Commands.elements Scenario.B234).
Proof.
  destruct (SetCommands.add Scenario.A123 Scenario.B234)
    as [[hashdb_manager2' changes]|] eqn:Ha;
    [|vm_compute in Ha; discriminate].
  exists hashdb_manager2', changes. split; [reflexivity|].
  exact (proj1 (proj2 (proj2 (proj2 (X15_add_is_the_union _ _)
                                _ _ Ha)))).
Defined.

Lemma insert_present (e : Commands.hashdb_element_t)
    (m : Commands.hashdb_manager_t) (c : Changes.hashdb_changes_t) :
  SetCommands.ordered (Commands.elements m) -> In e (Commands.elements m) ->
  (Commands.insert e m c).1 = m.
Proof.
  intros Hord Hin. unfold Commands.insert.
  rewrite (insert_element_present e _ Hord Hin). now destruct m.
Qed.

Lemma insert_each_present (l : list Commands.hashdb_element_t)
    (m : Commands.hashdb_manager_t) :
  SetCommands.ordered (Commands.elements m) ->
  (forall x, In x l -> In x (Commands.elements m)) ->
  forall c : Changes.hashdb_changes_t, (Commands.insert_each l m c).1 = m.
Proof.
  intros Hord. induction l as [|e l IH]; intros Hin c; [reflexivity|].
  cbn [Commands.insert_each].
  pose proof (insert_present e m c Hord (Hin e (or_introl eq_refl))) as He.
  destruct (Commands.insert e m c) as [m' c']. cbn [fst] in He. subst m'.
  apply IH. intros x Hx. apply Hin. now right.
Qed.

(** X16.  Adding the same database a second time changes nothing: on a
    database in order the second [add] returns the database that the first
    one has left, with every element of the first database counted as a
    duplicate element and none as inserted. *)
Theorem X16_adding_again_changes_nothing :
  forall (hashdb_manager1 hashdb_manager2 hashdb_manager2'
          : Commands.hashdb_manager_t) (changes : Changes.hashdb_changes_t),
    SetCommands.ordered (Commands.elements hashdb_manager2) ->
    SetCommands.add hashdb_manager1 hashdb_manager2
    = Some (hashdb_manager2', changes) ->
    SetCommands.add hashdb_manager1 hashdb_manager2'
    = Some (hashdb_manager2',
            SetCommands.counted 0 (Commands.map_size hashdb_manager1)
              Changes.new_hashdb_changes_t).
Proof.
  intros m1 m2 m2' changes Hord Ha.
  pose proof Ha as Ha'. unfold SetCommands.add in Ha'.
  destruct (SetCommands.require_compatibility m1 m2) eqn:Hc; [|discriminate].
  cbn [negb] in Ha'. injection Ha' as Hi.
  pose proof (insert_each_In (Commands.elements m1) m2
                Changes.new_hashdb_changes_t) as Hin.
  pose proof (insert_each_ordered (Commands.elements m1) m2
                Changes.new_hashdb_changes_t Hord) as Hord'.
  pose proof (insert_each_run (Commands.elements m1) _ _ _ _ _
                (insert_run_start m2)) as (Hd & Hs & _).
  rewrite Hi in Hin, Hord', Hd, Hs. cbn [fst] in *.
  assert (Hc' : SetCommands.require_compatibility m1 m2' = true).
  { unfold SetCommands.require_compatibility in *. now rewrite Hd, Hs. }
  unfold SetCommands.add. rewrite Hc'. cbn [negb].
  pose proof (insert_each_present (Commands.elements m1) m2' Hord'
                (fun x Hx => proj2 (Hin x) (or_introl Hx))
                Changes.new_hashdb_changes_t) as Hsame.
  pose proof (insert_each_run (Commands.elements m1) _ _ _ _ _
                (insert_run_start m2'))
    as (_ & _ & n_new & n_dup & Hsum & Hlen & Hch).
  destruct (Commands.insert_each (Commands.elements m1) m2'
              Changes.new_hashdb_changes_t) as [m2'' c''].
  cbn [fst snd] in *. subst m2''.
  assert (n_new = 0%nat) as -> by lia.
  rewrite Hch. unfold Commands.map_size. do 3 f_equal. lia.
Qed.

Lemma X16_adding_again_changes_nothing_witness :
  exists hashdb_manager2' changes,
    SetCommands.add Scenario.A123 Scenario.B234
    = Some (hashdb_manager2', changes) /\
    SetCommands.add Scenario.A123 hashdb_manager2'
    = Some (hashdb_manager2',
            SetCommands.counted 0 3 Changes.new_hashdb_changes_t).
Proof.
  destruct (SetCommands.add Scenario.A123 Scenario.B234)
    as [[hashdb_manager2' changes]|] eqn:Ha;
    [|vm_compute in Ha; discriminate].
  exists hashdb_manager2', changes. split; [reflexivity|].
  apply (X16_adding_again_changes_nothing Scenario.A123 Scenario.B234
           hashdb_manager2' changes); [|exact Ha].
  repeat first
    [ apply SSorted_nil | apply SSorted_cons | apply List.Forall_nil
    | apply List.Forall_cons | (vm_compute; reflexivity) ].
Defined.

(** ** [subtract] and [deduplicate] *)

Lemma require_compatibility3_false
    (hashdb1 hashdb2 hashdb3 : Commands.hashdb_manager_t) :
  Commands.require_compatibility hashdb1 hashdb2 hashdb3 = false <->
  (Commands.hashdb_dir hashdb1 = Commands.hashdb_dir hashdb2 \/
   Commands.hashdb_dir hashdb2 = Commands.hashdb_dir hashdb3 \/
   Commands.hashdb_dir hashdb1 = Commands.hashdb_dir hashdb3) \/
  (Commands.settings_hash_block_size hashdb1
   <> Commands.settings_hash_block_size hashdb2 \/
   Commands.settings_hash_block_size hashdb1
   <> Commands.settings_hash_block_size hashdb3).
Proof.
  unfold Commands.require_compatibility.
  destruct (String.eqb_spec (Commands.hashdb_dir hashdb1)
              (Commands.hashdb_dir hashdb2));
    destruct (String.eqb_spec (Commands.hashdb_dir hashdb2)
                (Commands.hashdb_dir hashdb3));
    destruct (String.eqb_spec (Commands.hashdb_dir hashdb1)
                (Commands.hashdb_dir hashdb3));
    cbn [orb]; try (split; tauto).
  destruct (N.eqb_spec (Commands.settings_hash_block_size hashdb1)
              (Commands.settings_hash_block_size hashdb2));
    destruct (N.eqb_spec (Commands.settings_hash_block_size hashdb1)
                (Commands.settings_hash_block_size hashdb3));
    cbn [negb orb]; try (split; tauto).
  split; [discriminate|]. tauto.
Qed.

Lemma find_count_zero (m : Commands.hashdb_manager_t) (k : string) :
  (0 <? Commands.find_count m k)%nat = false <-> ~ Commands.has_key m k.
Proof.
  rewrite <- find_count_pos, Nat.ltb_nlt. tauto.
Qed.

Lemma subtract_loop_spec (it1 : list Commands.hashdb_element_t)
    (m2 : Commands.hashdb_manager_t) :
  forall (m m3 : Commands.hashdb_manager_t) (c0 c : Changes.hashdb_changes_t)
         (calls : nat),
  SetCommands.insert_run m c0 calls m3 c ->
  let copied :=
    List.filter (fun e => negb (0 <? Commands.find_count m2 (Commands.key e))%nat)
      it1 in
  SetCommands.insert_run m c0 (calls + List.length copied)
    (SetCommands.subtract_loop it1 m2 m3 c).1
    (SetCommands.subtract_loop it1 m2 m3 c).2 /\
  (forall x, In x (Commands.elements (SetCommands.subtract_loop it1 m2 m3 c).1)
             <-> In x (Commands.elements m3) \/
                 (In x it1 /\ ~ Commands.has_key m2 (Commands.key x))) /\
  (SetCommands.ordered (Commands.elements m3) ->
   SetCommands.ordered
     (Commands.elements (SetCommands.subtract_loop it1 m2 m3 c).1)).
Proof.
  induction it1 as [|e it1 IH]; intros m m3 c0 c calls Hrun copied.
  - subst copied.
    cbn [SetCommands.subtract_loop List.filter List.length fst snd].
    rewrite Nat.add_0_r. split; [exact Hrun|]. split; [|auto].
    intros x. split; [auto|]. intros [?|[[] _]]. assumption.
  - subst copied. cbn [SetCommands.subtract_loop List.filter].
    destruct (0 <? Commands.find_count m2 (Commands.key e))%nat eqn:Hf;
      cbn [negb].
    + destruct (IH m m3 c0 c calls Hrun) as (Hr & Hin & Hord).
      split; [exact Hr|]. split; [|exact Hord].
      intros x. rewrite Hin. split.
      * intros [?|[? ?]]; auto. right. split; [now right|assumption].
      * intros [?|[[<-|?] Hk]]; auto.
        apply find_count_zero in Hk. congruence.
    + pose proof (insert_run_step e _ _ _ _ _ Hrun) as Hstep.
      pose proof (fun x => insert_In e x m3 c) as HinE.
      pose proof (insert_ordered e m3 c) as HordE.
      destruct (Commands.insert e m3 c) as [m3' c']. cbn [fst snd] in *.
      destruct (IH m m3' c0 c' (S calls) Hstep) as (Hr & Hin & Hord).
      cbn [List.length]. rewrite Nat.add_succ_r. split; [exact Hr|].
      split; [|auto].
      intros x. rewrite Hin, HinE. split.
      * intros [[->|?]|[? ?]]; auto.
        -- right. split; [now left|]. now apply find_count_zero.
        -- right. split; [now right|assumption].
      * intros [?|[[<-|?] Hk]]; auto.
Qed.

(** X17.  [subtract] copies into the third database the elements of the
    first whose hash the second database does not have, and nothing else:
    the third database keeps its directory, its settings and its order; the
    elements copied are counted once each, as inserted when the third
    database has grown by them and as duplicate elements when not.  It
    refuses (exits) exactly when two of the directories are the same or
    the hash block sizes differ. *)
Theorem X17_subtract_copies_what_the_second_lacks :
  forall hashdb_manager1 hashdb_manager2 hashdb_manager3
         : Commands.hashdb_manager_t,
    (SetCommands.subtract hashdb_manager1 hashdb_manager2 hashdb_manager3
     = None <->
     (Commands.hashdb_dir hashdb_manager1 = Commands.hashdb_dir hashdb_manager2
      \/ Commands.hashdb_dir hashdb_manager2
         = Commands.hashdb_dir hashdb_manager3
      \/ Commands.hashdb_dir hashdb_manager1
         = Commands.hashdb_dir hashdb_manager3) \/
     (Commands.settings_hash_block_size hashdb_manager1
      <> Commands.settings_hash_block_size hashdb_manager2 \/
      Commands.settings_hash_block_size hashdb_manager1
      <> Commands.settings_hash_block_size hashdb_manager3))
    /\
    (forall (hashdb_manager3' : Commands.hashdb_manager_t)
            (changes : Changes.hashdb_changes_t),
        SetCommands.subtract hashdb_manager1 hashdb_manager2 hashdb_manager3
        = Some (hashdb_manager3', changes) ->
        let copied :=
          List.length
            (List.filter
               (fun e => negb (0 <? Commands.find_count hashdb_manager2
                                      (Commands.key e))%nat)
               (Commands.elements hashdb_manager1)) in
        let grown :=
          (Commands.map_size hashdb_manager3'
           - Commands.map_size hashdb_manager3)%nat in
        Commands.hashdb_dir hashdb_manager3'
        = Commands.hashdb_dir hashdb_manager3 /\
        Commands.settings_hash_block_size hashdb_manager3'
        = Commands.settings_hash_block_size hashdb_manager3 /\
        (forall x, In x (Commands.elements hashdb_manager3') <->
                   In x (Commands.elements hashdb_manager3) \/
                   (In x (Commands.elements hashdb_manager1) /\
                    ~ Commands.has_key hashdb_manager2 (Commands.key x))) /\
        (SetCommands.ordered (Commands.elements hashdb_manager3) ->
         SetCommands.ordered (Commands.elements hashdb_manager3')) /\
        (Commands.map_size hashdb_manager3
         <= Commands.map_size hashdb_manager3')%nat /\
        (grown <= copied)%nat /\
        changes
        = SetCommands.counted grown (copied - grown)
            Changes.new_hashdb_changes_t).
Proof.
  intros m1 m2 m3. unfold SetCommands.subtract.
  destruct (Commands.require_compatibility m1 m2 m3) eqn:Hc; cbn [negb].
  - split.
    + split; [discriminate|]. intros H.
      apply require_compatibility3_false in H. congruence.
    + intros m3' changes [= Hi].
      destruct (subtract_loop_spec (Commands.elements m1) m2 _ _ _ _ _
                  (insert_run_start m3)) as (Hrun & Hin & Hord).
      rewrite Hi in Hrun, Hin, Hord. cbn [fst snd] in *.
      destruct Hrun as (Hd & Hs & n_new & n_dup & Hsum & Hlen & Hch).
      unfold Commands.map_size.
      repeat split; try assumption; try apply Hin; try lia.
      rewrite Hch. f_equal; lia.
  - split; [|discriminate].
    split; [|reflexivity]. intros _.
    now apply require_compatibility3_false.
Qed.

Lemma X17_subtract_copies_what_the_second_lacks_witness :
  exists hashdb_manager3' changes,
    SetCommands.subtract Scenario.A123 Scenario.B234 Scenario.C_new
    = Some (hashdb_manager3', changes) /\
    forall x, In x (Commands.elements hashdb_manager3') <->
              In x (Commands.elements Scenario.C_new) \/
              (In x (Commands.elements Scenario.A123) /\
               ~ Commands.has_key Scenario.B234 (Commands.key x)).
Proof.
  destruct (SetCommands.subtract Scenario.A123 Scenario.B234 Scenario.C_new)
    as [[hashdb_manager3' changes]|] eqn:Hs;
    [|vm_compute in Hs; discriminate].
  exists hashdb_manager3', changes. split; [reflexivity|].
  exact (proj1 (proj2 (proj2 (proj2 (X17_subtract_copies_what_the_second_lacks
                                       _ _ _) _ _ Hs)))).
Defined.

Lemma deduplicate_loop_spec (it1 : list Commands.hashdb_element_t)
    (m1 : Commands.hashdb_manager_t) :
  forall (m m2 : Commands.hashdb_manager_t) (c0 c : Changes.hashdb_changes_t)
         (calls : nat),
  SetCommands.insert_run m c0 calls m2 c ->
  SetCommands.insert_run m c0
    (calls
     + List.length
         (List.filter
            (fun e => (Commands.find_count m1 (Commands.key e) =? 1)%nat) it1))
    (SetCommands.deduplicate_loop it1 m1 m2 c).1
    (SetCommands.deduplicate_loop it1 m1 m2 c).2 /\
  (forall x,
      In x (Commands.elements (SetCommands.deduplicate_loop it1 m1 m2 c).1)
      <-> In x (Commands.elements m2) \/
          (In x it1 /\ Commands.find_count m1 (Commands.key x) = 1%nat)) /\
  (SetCommands.ordered (Commands.elements m2) ->
   SetCommands.ordered
     (Commands.elements (SetCommands.deduplicate_loop it1 m1 m2 c).1)).
Proof.
  induction it1 as [|e it1 IH]; intros m m2 c0 c calls Hrun.
  - cbn [SetCommands.deduplicate_loop List.filter List.length fst snd].
    rewrite Nat.add_0_r. split; [exact Hrun|]. split; [|auto].
    intros x. split; [auto|]. intros [?|[[] _]]. assumption.
  - cbn [SetCommands.deduplicate_loop List.filter].
    destruct (Nat.eqb_spec (Commands.find_count m1 (Commands.key e)) 1)
      as [Hf|Hf].
    + pose proof (insert_run_step e _ _ _ _ _ Hrun) as Hstep.
      pose proof (fun x => insert_In e x m2 c) as HinE.
      pose proof (insert_ordered e m2 c) as HordE.
      destruct (Commands.insert e m2 c) as [m2' c']. cbn [fst snd] in *.
      destruct (IH m m2' c0 c' (S calls) Hstep) as (Hr & Hin & Hord).
      cbn [List.length]. rewrite Nat.add_succ_r. split; [exact Hr|].
      split; [|auto].
      intros x. rewrite Hin, HinE. split.
      * intros [[->|?]|[? ?]]; auto.
        -- right. split; [now left|assumption].
        -- right. split; [now right|assumption].
      * intros [?|[[<-|?] Hk]]; auto.
    + destruct (IH m m2 c0 c calls Hrun) as (Hr & Hin & Hord).
      split; [exact Hr|]. split; [|exact Hord].
      intros x. rewrite Hin. split.
      * intros [?|[? ?]]; auto. right. split; [now right|assumption].
      * intros [?|[[<-|?] Hk]]; auto. contradiction.
Qed.

Lemma NoDup_all_eq {A : Type} (x : A) (l : list A) :
  List.NoDup l -> (forall y, In y l -> y = x) -> In x l ->
  List.length l = 1%nat.
Proof.
  intros Hnd Hall Hin. destruct l as [|a [|b l]]; [destruct Hin|reflexivity|].
  exfalso. inversion Hnd as [|? ? Hna _]; subst. apply Hna.
  rewrite (Hall a (or_introl eq_refl)),
    (Hall b (or_intror (or_introl eq_refl))).
  now left.
Qed.

(** X18.  [deduplicate] copies into the second database the elements of
    the first whose hash occurs exactly once in the first, and nothing
    else.  Into an empty database this leaves every hash that occurs once
    in the first database with exactly one element, and no other hash.  It
    refuses (exits) exactly when the two databases are the same directory
    or differ in hash block size. *)
Theorem X18_deduplicate_keeps_the_hashes_that_occur_once :
  forall hashdb_manager1 hashdb_manager2 : Commands.hashdb_manager_t,
    (SetCommands.deduplicate hashdb_manager1 hashdb_manager2 = None <->
     Commands.hashdb_dir hashdb_manager1 = Commands.hashdb_dir hashdb_manager2
     \/ Commands.settings_hash_block_size hashdb_manager1
        <> Commands.settings_hash_block_size hashdb_manager2)
    /\
    (forall (hashdb_manager2' : Commands.hashdb_manager_t)
            (changes : Changes.hashdb_changes_t),
        SetCommands.deduplicate hashdb_manager1 hashdb_manager2
        = Some (hashdb_manager2', changes) ->
        Commands.hashdb_dir hashdb_manager2'
        = Commands.hashdb_dir hashdb_manager2 /\
        Commands.settings_hash_block_size hashdb_manager2'
        = Commands.settings_hash_block_size hashdb_manager2 /\
        (forall x, In x (Commands.elements hashdb_manager2') <->
                   In x (Commands.elements hashdb_manager2) \/
                   (In x (Commands.elements hashdb_manager1) /\
                    Commands.find_count hashdb_manager1 (Commands.key x)
                    = 1%nat)) /\
        (SetCommands.ordered (Commands.elements hashdb_manager2) ->
         SetCommands.ordered (Commands.elements hashdb_manager2')) /\
        (Commands.elements hashdb_manager2 = [] ->
         forall k : string,
           Commands.find_count hashdb_manager2' k
           = if (Commands.find_count hashdb_manager1 k =? 1)%nat
             then 1%nat else 0%nat)).
Proof.
  intros m1 m2. unfold SetCommands.deduplicate.
  destruct (SetCommands.require_compatibility m1 m2) eqn:Hc; cbn [negb].
  - split.
    + split; [discriminate|]. intros H.
      apply require_compatibility_false in H. congruence.
    + intros m2' changes [= Hi].
      destruct (deduplicate_loop_spec (Commands.elements m1) m1 _ _ _ _ _
                  (insert_run_start m2)) as (Hrun & Hin & Hord).
      rewrite Hi in Hrun, Hin, Hord. cbn [fst snd] in *.
      destruct Hrun as (Hd & Hs & _).
      repeat split; try assumption; try apply Hin.
      intros Hempty k. rewrite Hempty in Hin, Hord.
      assert (Hnd : List.NoDup (Commands.find m2' k)).
      { unfold Commands.find.
        apply List.NoDup_filter, ordered_NoDup, Hord. constructor. }
      assert (Hmem : forall y, In y (Commands.find m2' k) ->
                 In y (Commands.find m1 k) /\
                 Commands.find_count m1 k = 1%nat).
      { intros y Hy. apply find_In in Hy. destruct Hy as [Hy <-].
        apply Hin in Hy. destruct Hy as [[]|[Hy H1]].
        split; [|assumption]. apply find_In. now split. }
      unfold Commands.find_count at 1.
      destruct (Nat.eqb_spec (Commands.find_count m1 k) 1) as [H1|H1].
      * unfold Commands.find_count in H1.
        destruct (Commands.find m1 k) as [|x0 [|]] eqn:Hfind;
          try discriminate.
        assert (Hx0 : In x0 (Commands.find m1 k))
          by (rewrite Hfind; now left).
        apply NoDup_all_eq with x0; [assumption| |].
        -- intros y Hy. destruct (Hmem y Hy) as [[<-|[]] _]. reflexivity.
        -- apply find_In in Hx0. destruct Hx0 as [Hx0 Hk].
           apply find_In. split; [|assumption].
           apply Hin. right. split; [assumption|].
           unfold Commands.find_count. now rewrite Hk, Hfind.
      * destruct (Commands.find m2' k) as [|y l]; [reflexivity|].
        destruct (Hmem y (or_introl eq_refl)) as [_ Hone]. contradiction.
  - split; [|discriminate].
    split; [|reflexivity]. intros _.
    now apply require_compatibility_false.
Qed.

Lemma X18_deduplicate_keeps_the_hashes_that_occur_once_witness :
  exists hashdb_manager2' changes,
    SetCommands.deduplicate
      (Scenario.database "A"
         [Scenario.element (Scenario.hash16 1) "a";
          Scenario.element (Scenario.hash16 2) "a";
          Scenario.element (Scenario.hash16 2) "b"]) Scenario.C_new
    = Some (hashdb_manager2', changes) /\
    Commands.find_count hashdb_manager2' (Scenario.hash16 1) = 1%nat /\
    Commands.find_count hashdb_manager2' (Scenario.hash16 2) = 0%nat.
Proof.
  destruct (SetCommands.deduplicate
              (Scenario.database "A"
                 [Scenario.element (Scenario.hash16 1) "a";
                  Scenario.element (Scenario.hash16 2) "a";
                  Scenario.element (Scenario.hash16 2) "b"]) Scenario.C_new)
    as [[hashdb_manager2' changes]|] eqn:Hd;
    [|vm_compute in Hd; discriminate].
  exists hashdb_manager2', changes. split; [reflexivity|].
  pose proof (proj2 (proj2 (proj2 (proj2
                (proj2 (X18_deduplicate_keeps_the_hashes_that_occur_once _ _)
                   _ _ Hd)))) eq_refl) as Hcount.
  split; [exact (Hcount (Scenario.hash16 1))
         |exact (Hcount (Scenario.hash16 2))].
Defined.

(** ** How the commands compose *)

Lemma manager_eq (a b : Commands.hashdb_manager_t) :
  Commands.hashdb_dir a = Commands.hashdb_dir b ->
  Commands.settings_hash_block_size a = Commands.settings_hash_block_size b ->
  Commands.elements a = Commands.elements b -> a = b.
Proof.
  destruct a, b. cbn. congruence.
Qed.

Lemma require_compatibility3_true
    (hashdb1 hashdb2 hashdb3 : Commands.hashdb_manager_t) :
  Commands.require_compatibility hashdb1 hashdb2 hashdb3 = true ->
  Commands.hashdb_dir hashdb1 <> Commands.hashdb_dir hashdb2 /\
  Commands.hashdb_dir hashdb2 <> Commands.hashdb_dir hashdb3 /\
  Commands.hashdb_dir hashdb1 <> Commands.hashdb_dir hashdb3 /\
  Commands.settings_hash_block_size hashdb1
  = Commands.settings_hash_block_size hashdb2 /\
  Commands.settings_hash_block_size hashdb1
  = Commands.settings_hash_block_size hashdb3.
Proof.
  intros Ht.
  pose proof (require_compatibility3_false hashdb1 hashdb2 hashdb3) as Hf.
  rewrite Ht in Hf.
  destruct (N.eq_dec (Commands.settings_hash_block_size hashdb1)
              (Commands.settings_hash_block_size hashdb2));
    destruct (N.eq_dec (Commands.settings_hash_block_size hashdb1)
                (Commands.settings_hash_block_size hashdb3));
    repeat split; try assumption;
    try (intros Heq; apply (Bool.diff_true_false); apply Hf; tauto);
    exfalso; apply (Bool.diff_true_false); apply Hf; tauto.
Qed.

Lemma require_compatibility_true (hashdb1 hashdb2 : Commands.hashdb_manager_t) :
  Commands.hashdb_dir hashdb1 <> Commands.hashdb_dir hashdb2 ->
  Commands.settings_hash_block_size hashdb1
  = Commands.settings_hash_block_size hashdb2 ->
  SetCommands.require_compatibility hashdb1 hashdb2 = true.
Proof.
  intros Hd Hs.
  destruct (SetCommands.require_compatibility hashdb1 hashdb2) eqn:Hc;
    [reflexivity|].
  apply require_compatibility_false in Hc. tauto.
Qed.

Lemma counted_fields (n d : nat) :
  Changes.hashes_inserted
    (SetCommands.counted n d Changes.new_hashdb_changes_t)
  = (Z.of_nat n mod 2 ^ 32)%Z /\
  Changes.hashes_not_inserted_duplicate_element
    (SetCommands.counted n d Changes.new_hashdb_changes_t)
  = (Z.of_nat d mod 2 ^ 32)%Z.
Proof.
  now split.
Qed.

(** X19.  [add_multiple] of two databases into a third one in order gives
    the database that adding the first and then adding the second gives,
    element for element; and its counters are the sums (modulo [2^32]) of
    the counters of the two [add] commands. *)
Theorem X19_add_multiple_is_two_adds :
  forall (hashdb_manager1 hashdb_manager2 hashdb_manager3 hashdb_manager3'
          : Commands.hashdb_manager_t) (changes : Changes.hashdb_changes_t),
    SetCommands.ordered (Commands.elements hashdb_manager3) ->
    Commands.add_multiple hashdb_manager1 hashdb_manager2 hashdb_manager3
    = Some (hashdb_manager3', changes) ->
    exists (after1 : Commands.hashdb_manager_t)
           (changes1 changes2 : Changes.hashdb_changes_t),
      SetCommands.add hashdb_manager1 hashdb_manager3
      = Some (after1, changes1) /\
      SetCommands.add hashdb_manager2 after1
      = Some (hashdb_manager3', changes2) /\
      Changes.hashes_inserted changes
      = ((Changes.hashes_inserted changes1
          + Changes.hashes_inserted changes2) mod 2 ^ 32)%Z /\
      Changes.hashes_not_inserted_duplicate_element changes
      = ((Changes.hashes_not_inserted_duplicate_element changes1
          + Changes.hashes_not_inserted_duplicate_element changes2)
         mod 2 ^ 32)%Z.
Proof.
  intros m1 m2 m3 m3' changes Hord Hm.
  unfold Commands.add_multiple in Hm.
  destruct (Commands.require_compatibility m1 m2 m3) eqn:Hc; [|discriminate].
  cbn [negb] in Hm. injection Hm as Hm.
  rewrite add_multiple_loop_merge in Hm.
  destruct (require_compatibility3_true _ _ _ Hc)
    as (_ & Hd23 & Hd13 & Hs12 & Hs13).
  (* the merge *)
  pose proof (insert_each_run
                (Commands.ordered_merge (Commands.elements m1)
                   (Commands.elements m2)) _ _ _ _ _ (insert_run_start m3))
    as (Hd & Hs & n & d & Hsum & Hlen & Hch).
  pose proof (insert_each_In
                (Commands.ordered_merge (Commands.elements m1)
                   (Commands.elements m2)) m3 Changes.new_hashdb_changes_t)
    as Hin.
  pose proof (insert_each_ordered
                (Commands.ordered_merge (Commands.elements m1)
                   (Commands.elements m2)) m3 Changes.new_hashdb_changes_t
                Hord) as Hord'.
  rewrite Hm in Hd, Hs, Hlen, Hch, Hin, Hord'. cbn [fst snd] in *.
  rewrite ordered_merge_length in Hsum.
  (* the first add *)
  pose proof (insert_each_run (Commands.elements m1) _ _ _ _ _
                (insert_run_start m3))
    as (Hd1 & Hs1 & n1 & d1 & Hsum1 & Hlen1 & Hch1).
  pose proof (insert_each_In (Commands.elements m1) m3
                Changes.new_hashdb_changes_t) as Hin1.
  pose proof (insert_each_ordered (Commands.elements m1) m3
                Changes.new_hashdb_changes_t Hord) as Hord1.
  destruct (Commands.insert_each (Commands.elements m1) m3
              Changes.new_hashdb_changes_t) as [ma ca] eqn:Ha.
  cbn [fst snd] in *.
  (* the second add *)
  pose proof (insert_each_run (Commands.elements m2) _ _ _ _ _
                (insert_run_start ma))
    as (Hd2 & Hs2 & n2 & d2 & Hsum2 & Hlen2 & Hch2).
  pose proof (insert_each_In (Commands.elements m2) ma
                Changes.new_hashdb_changes_t) as Hin2.
  pose proof (insert_each_ordered (Commands.elements m2) ma
                Changes.new_hashdb_changes_t Hord1) as Hord2.
  destruct (Commands.insert_each (Commands.elements m2) ma
              Changes.new_hashdb_changes_t) as [mb cb] eqn:Hb.
  cbn [fst snd] in *.
  assert (Hsame : mb = m3').
  { apply manager_eq; [congruence | congruence |].
    apply ordered_ext; [assumption..|].
    intros x. rewrite Hin, Hin2, Hin1, ordered_merge_In. tauto. }
  subst mb.
  exists ma, ca, cb. unfold SetCommands.add.
  rewrite (require_compatibility_true m1 m3) by congruence.
  rewrite (require_compatibility_true m2 ma) by congruence.
  cbn [negb]. rewrite Ha, Hb. split; [reflexivity|]. split; [reflexivity|].
  rewrite Hch, Hch1, Hch2.
  destruct (counted_fields n d) as [-> ->].
  destruct (counted_fields n1 d1) as [-> ->].
  destruct (counted_fields n2 d2) as [-> ->].
  rewrite <- !Zplus_mod. split; f_equal; lia.
Qed.

Lemma X19_add_multiple_is_two_adds_witness :
  exists hashdb_manager3' changes after1 changes1 changes2,
    Commands.add_multiple Scenario.A135 Scenario.B234 Scenario.C_new
    = Some (hashdb_manager3', changes) /\
    SetCommands.add Scenario.A135 Scenario.C_new = Some (after1, changes1) /\
    SetCommands.add Scenario.B234 after1 = Some (hashdb_manager3', changes2).
Proof.
  destruct (Commands.add_multiple Scenario.A135 Scenario.B234 Scenario.C_new)
    as [[hashdb_manager3' changes]|] eqn:Hm;
    [|vm_compute in Hm; discriminate].
  destruct (X19_add_multiple_is_two_adds
              Scenario.A135 Scenario.B234 Scenario.C_new _ _
              (SSorted_nil _) Hm)
    as (after1 & changes1 & changes2 & H1 & H2 & _).
  exists hashdb_manager3', changes, after1, changes1, changes2. auto.
Defined.

Section Invariant.

(** A property of a database that [insert] keeps is kept by the loops of
    the commands. *)
Variable P : Commands.hashdb_manager_t -> Prop.
Hypothesis P_insert :
  forall e m c, P m -> P (Commands.insert e m c).1.

Lemma insert_each_invariant (l : list Commands.hashdb_element_t) :
  forall (m : Commands.hashdb_manager_t) (c : Changes.hashdb_changes_t),
  P m -> P (Commands.insert_each l m c).1.
Proof.
  induction l as [|e l IH]; intros m c Hm; [exact Hm|].
  cbn [Commands.insert_each].
  pose proof (P_insert e m c Hm) as Hstep.
  destruct (Commands.insert e m c) as [m' c']. now apply IH.
Qed.

Lemma add_from_smaller_invariant (n : nat) :
  forall (it it' : list Commands.hashdb_element_t)
         (m m' : Commands.hashdb_manager_t) (c c' : Changes.hashdb_changes_t),
  Commands.add_from_smaller n it m c = Some (it', m', c') -> P m -> P m'.
Proof.
  induction n as [|n IH]; intros it it' m m' c c' Ha Hm.
  - injection Ha as _ <- _. exact Hm.
  - cbn [Commands.add_from_smaller] in Ha.
    destruct it as [|e it]; [discriminate|].
    pose proof (P_insert e m c Hm) as Hstep.
    destruct (Commands.insert e m c) as [m1 c1]. exact (IH _ _ _ _ _ _ Ha Hstep).
Qed.

Lemma intersect_optimized_loop_invariant
    (smaller_hashdb larger_hashdb : Commands.hashdb_manager_t) (fuel : nat) :
  forall (it : list Commands.hashdb_element_t)
         (m m' : Commands.hashdb_manager_t) (c c' : Changes.hashdb_changes_t),
  Commands.intersect_optimized_loop fuel it smaller_hashdb larger_hashdb m c
  = Some (m', c') ->
  P m -> P m'.
Proof.
  induction fuel as [|fuel IH]; intros it m m' c c' Hl Hm.
  - destruct it; [|discriminate]. injection Hl as <- _. exact Hm.
  - destruct it as [|e next]; [injection Hl as <- _; exact Hm|].
    cbn [Commands.intersect_optimized_loop] in Hl.
    destruct (0 <? Commands.find_count larger_hashdb (Commands.key e))%nat.
    + destruct (Commands.add_from_smaller _ _ m c) as [[[it1 m1] c1]|] eqn:Ha;
        [|discriminate].
      pose proof (add_from_smaller_invariant _ _ _ _ _ _ _ Ha Hm) as H1.
      pose proof (insert_each_invariant
                    (Commands.find larger_hashdb (Commands.key e)) m1 c1 H1)
        as H2.
      destruct (Commands.insert_each _ m1 c1) as [m2 c2].
      exact (IH _ _ _ _ _ Hl H2).
    + exact (IH _ _ _ _ _ Hl Hm).
Qed.

End Invariant.

Lemma intersect_optimized_symmetric
    (hashdb1 hashdb2 hashdb3 : Commands.hashdb_manager_t)
    (changes : Changes.hashdb_changes_t) :
  Commands.ascending_keys (Commands.elements hashdb1) ->
  Commands.ascending_keys (Commands.elements hashdb2) ->
  SetCommands.ordered (Commands.elements hashdb3) ->
  exists hashdb3' changes12 changes21,
    Commands.intersect_optimized hashdb1 hashdb2 hashdb3 changes
    = Some (hashdb3', changes12) /\
    Commands.intersect_optimized hashdb2 hashdb1 hashdb3 changes
    = Some (hashdb3', changes21).
Proof.
  intros H1 H2 Hord.
  destruct (intersect_optimized_spec hashdb1 hashdb2 hashdb3 changes H1)
    as (ma & ca & Ha & Hina).
  destruct (intersect_optimized_spec hashdb2 hashdb1 hashdb3 changes H2)
    as (mb & cb & Hb & Hinb).
  set (P := fun m : Commands.hashdb_manager_t =>
              SetCommands.ordered (Commands.elements m) /\
              Commands.hashdb_dir m = Commands.hashdb_dir hashdb3 /\
              Commands.settings_hash_block_size m
              = Commands.settings_hash_block_size hashdb3).
  assert (HP : forall e m c, P m -> P (Commands.insert e m c).1).
  { intros e m c (Ho & Hd & Hs).
    destruct (insert_fields e m c) as (Hd' & Hs' & _).
    split; [now apply insert_ordered|]. split; congruence. }
  assert (H3 : P hashdb3) by (repeat split; assumption).
  destruct (intersect_optimized_loop_invariant P HP _ _ _ _ _ _ _ _ Ha H3)
    as (Hoa & Hda & Hsa).
  destruct (intersect_optimized_loop_invariant P HP _ _ _ _ _ _ _ _ Hb H3)
    as (Hob & Hdb & Hsb).
  assert (mb = ma) as ->.
  { apply manager_eq; [congruence | congruence |].
    apply ordered_ext; [assumption..|].
    intros x. rewrite Hina, Hinb. tauto. }
  eauto.
Qed.

(** X20.  [intersect] does not depend on the order of its two inputs: with
    the inputs in key order and the third database in order, both orders
    return, and they leave the same third database, element for element
    (also when the two inputs have the same size, where the two orders walk
    different databases). *)
Theorem X20_intersect_is_symmetric :
  forall manager1 manager2 manager3 : Commands.hashdb_manager_t,
    Commands.require_compatibility manager1 manager2 manager3 = true ->
    Commands.ascending_keys (Commands.elements manager1) ->
    Commands.ascending_keys (Commands.elements manager2) ->
    SetCommands.ordered (Commands.elements manager3) ->
    exists (manager3' : Commands.hashdb_manager_t)
           (changes12 changes21 : Changes.hashdb_changes_t),
      Commands.intersect manager1 manager2 manager3
      = Some (manager3', changes12) /\
      Commands.intersect manager2 manager1 manager3
      = Some (manager3', changes21).
Proof.
  intros m1 m2 m3 Hc H1 H2 Hord.
  assert (Hc' : Commands.require_compatibility m2 m1 m3 = true).
  { destruct (require_compatibility3_true _ _ _ Hc)
      as (Hd12 & Hd23 & Hd13 & Hs12 & Hs13).
    destruct (Commands.require_compatibility m2 m1 m3) eqn:Hc';
      [reflexivity|].
    apply require_compatibility3_false in Hc'.
    destruct Hc' as [[?|[?|?]]|[?|?]]; congruence. }
  unfold Commands.intersect. rewrite Hc, Hc'. cbn [negb].
  destruct (intersect_optimized_symmetric m1 m2 m3
              Changes.new_hashdb_changes_t H1 H2 Hord)
    as (m3' & c12 & c21 & Ha & Hb).
  destruct (Nat.leb_spec (Commands.map_size m1) (Commands.map_size m2));
    destruct (Nat.leb_spec (Commands.map_size m2) (Commands.map_size m1));
    eauto.
Qed.

Lemma X20_intersect_is_symmetric_witness :
  exists manager3' changes12 changes21,
    Commands.intersect Scenario.A123 Scenario.B234 Scenario.C_new
    = Some (manager3', changes12) /\
    Commands.intersect Scenario.B234 Scenario.A123 Scenario.C_new
    = Some (manager3', changes21).
Proof.
  apply X20_intersect_is_symmetric.
  - reflexivity.
  - unfold Scenario.A123, Scenario.database. cbn [Commands.elements].
    ascending_keys_by_computation.
  - unfold Scenario.B234, Scenario.database. cbn [Commands.elements].
    ascending_keys_by_computation.
  - constructor.
Defined.

(** X21.  [subtract] and [intersect] split the first database: with empty
    third databases, every element of the first database is copied by
    exactly one of the two commands, and no hash is in both results. *)
Theorem X21_subtract_and_intersect_split_the_first_database :
  forall (manager1 manager2 target1 target2 difference common
          : Commands.hashdb_manager_t)
         (changes1 changes2 : Changes.hashdb_changes_t),
    Commands.ascending_keys (Commands.elements manager1) ->
    Commands.ascending_keys (Commands.elements manager2) ->
    Commands.elements target1 = [] ->
    Commands.elements target2 = [] ->
    SetCommands.subtract manager1 manager2 target1
    = Some (difference, changes1) ->
    Commands.intersect manager1 manager2 target2 = Some (common, changes2) ->
    (forall x, In x (Commands.elements manager1) ->
               (In x (Commands.elements difference) /\
                ~ In x (Commands.elements common)) \/
               (~ In x (Commands.elements difference) /\
                In x (Commands.elements common))) /\
    (forall k, ~ (Commands.has_key difference k /\ Commands.has_key common k)).
Proof.
  intros m1 m2 t1 t2 diff common c1 c2 H1 H2 Ht1 Ht2 Hs Hi.
  (* subtract *)
  unfold SetCommands.subtract in Hs.
  destruct (Commands.require_compatibility m1 m2 t1); [|discriminate].
  cbn [negb] in Hs. injection Hs as Hs.
  destruct (subtract_loop_spec (Commands.elements m1) m2 _ _ _ _ _
              (insert_run_start t1)) as (_ & Hind & _).
  rewrite Hs, Ht1 in Hind. cbn [fst] in Hind.
  (* intersect *)
  assert (Hinc : forall x, In x (Commands.elements common) <->
                   (In x (Commands.elements m1) \/
                    In x (Commands.elements m2)) /\
                   Commands.has_key m1 (Commands.key x) /\
                   Commands.has_key m2 (Commands.key x)).
  { unfold Commands.intersect in Hi.
    destruct (Commands.require_compatibility m1 m2 t2); [|discriminate].
    cbn [negb] in Hi.
    destruct (Nat.leb_spec (Commands.map_size m1) (Commands.map_size m2)).
    - destruct (intersect_optimized_spec m1 m2 t2
                  Changes.new_hashdb_changes_t H1) as (m' & c' & He & Hin).
      rewrite He in Hi. injection Hi as <- _.
      intros x. rewrite Hin, Ht2. cbn [In]. tauto.
    - destruct (intersect_optimized_spec m2 m1 t2
                  Changes.new_hashdb_changes_t H2) as (m' & c' & He & Hin).
      rewrite He in Hi. injection Hi as <- _.
      intros x. rewrite Hin, Ht2. cbn [In]. tauto. }
  split.
  - intros x Hx. rewrite Hind, Hinc. cbn [In].
    assert (Hk1 : Commands.has_key m1 (Commands.key x))
      by (exists x; auto).
    destruct (0 <? Commands.find_count m2 (Commands.key x))%nat eqn:Hf.
    + right. apply Nat.ltb_lt, find_count_pos in Hf. tauto.
    + left. apply find_count_zero in Hf. tauto.
  - intros k [(x & Hx & Hkx) (y & Hy & Hky)].
    apply Hind in Hx. apply Hinc in Hy. cbn [In] in Hx.
    destruct Hx as [[]|[_ Hno]]. destruct Hy as (_ & _ & Hyes).
    apply Hno. congruence.
Qed.

Lemma X21_subtract_and_intersect_split_the_first_database_witness :
  exists difference common changes1 changes2,
    SetCommands.subtract Scenario.A123 Scenario.B234 Scenario.C_new
    = Some (difference, changes1) /\
    Commands.intersect Scenario.A123 Scenario.B234 Scenario.C_new
    = Some (common, changes2) /\
    forall k, ~ (Commands.has_key difference k /\ Commands.has_key common k).
Proof.
  destruct (SetCommands.subtract Scenario.A123 Scenario.B234 Scenario.C_new)
    as [[difference changes1]|] eqn:Hs; [|vm_compute in Hs; discriminate].
  destruct (Commands.intersect Scenario.A123 Scenario.B234 Scenario.C_new)
    as [[common changes2]|] eqn:Hi; [|vm_compute in Hi; discriminate].
  exists difference, common, changes1, changes2.
  split; [reflexivity|]. split; [reflexivity|].
  refine (proj2 (X21_subtract_and_intersect_split_the_first_database
                   Scenario.A123 Scenario.B234 Scenario.C_new Scenario.C_new
                   _ _ _ _ _ _ eq_refl eq_refl Hs Hi)).
  - unfold Scenario.A123, Scenario.database. cbn [Commands.elements].
    ascending_keys_by_computation.
  - unfold Scenario.B234, Scenario.database. cbn [Commands.elements].
    ascending_keys_by_computation.
Defined.

(** ** [remove_count_field] *)

Lemma length_substring_le (n m : nat) (s : string) :
  (String.length (substring n m s) <= String.length s - n)%nat.
Proof.
  revert n m. induction s as [|c s IH]; intros [|n] [|m]; simpl;
    try lia.
  - specialize (IH 0%nat m). lia.
  - apply IH.
  - apply IH.
Qed.

Lemma find_bound (s pattern : string) :
  pattern <> "" ->
  (N.of_nat (String.length s) < CountField.npos)%N ->
  CountField.find s pattern = CountField.npos \/
  (CountField.find s pattern < N.of_nat (String.length s))%N.
Proof.
  intros Hp Hlen. unfold CountField.find.
  destruct (String.index 0 pattern s) as [m|] eqn:Hi; [right|now left].
  apply index_correct1 in Hi.
  pose proof (length_substring_le m (String.length pattern) s) as Hle.
  rewrite Hi in Hle.
  destruct pattern; [contradiction|]. cbn [String.length] in Hle. lia.
Qed.

Lemma erase_within (s : string) (pos len : N) :
  (pos + len <= N.of_nat (String.length s))%N ->
  CountField.erase s pos len
  = substring 0 (N.to_nat pos) s
    +:+ substring (N.to_nat (pos + len))
          (String.length s - N.to_nat (pos + len)) s.
Proof.
  intros Hle. unfold CountField.erase.
  rewrite N.min_l by lia. do 2 f_equal. lia.
Qed.

Lemma erase_to_the_end (s : string) (pos len : N) :
  (pos <= N.of_nat (String.length s))%N ->
  (N.of_nat (String.length s) - pos <= len)%N ->
  CountField.erase s pos len = substring 0 (N.to_nat pos) s.
Proof.
  intros Hpos Hle. unfold CountField.erase.
  rewrite N.min_r by lia.
  replace (N.to_nat (N.of_nat (String.length s)
                     - (pos + (N.of_nat (String.length s) - pos))))
    with 0%nat by lia.
  now rewrite substring_zero, string_app_nil_r.
Qed.

(** X22.  When the count field comes before the first comma and the first
    close brace, [remove_count_field] removes the text from the start of
    the count field through the first comma, if that comma comes before the
    close brace, and up to but not including the close brace otherwise.  A
    context without count field or without close brace is left as it is. *)
Theorem X22_remove_count_field_removes_the_field :
  forall context : string,
    (N.of_nat (String.length context) < CountField.npos)%N ->
    let pos_count := CountField.find context CountField.count_field in
    let pos_closebrace := CountField.find context "}" in
    let pos_comma := CountField.find context "," in
    (pos_count = CountField.npos \/ pos_closebrace = CountField.npos ->
     CountField.remove_count_field context = context)
    /\
    (pos_count <> CountField.npos -> pos_closebrace <> CountField.npos ->
     (pos_count <= pos_comma)%N -> (pos_count <= pos_closebrace)%N ->
     let stop := if (pos_comma <? pos_closebrace)%N
                 then (pos_comma + 1)%N else pos_closebrace in
     CountField.remove_count_field context
     = substring 0 (N.to_nat pos_count) context
       +:+ substring (N.to_nat stop) (String.length context - N.to_nat stop)
             context).
Proof.
  intros context Hlen pc pb pm.
  unfold CountField.remove_count_field. fold pc pb pm.
  split.
  - intros [Hc|Hb].
    + now rewrite (proj2 (N.eqb_eq _ _) Hc).
    + rewrite (proj2 (N.eqb_eq _ _) Hb). now destruct (pc =? CountField.npos)%N.
  - intros Hc Hb Hcm Hcb.
    rewrite (proj2 (N.eqb_neq _ _) Hc), (proj2 (N.eqb_neq _ _) Hb).
    destruct (find_bound context "}" ltac:(discriminate) Hlen) as [?|Hbb];
      [contradiction|]. fold pb in Hbb.
    unfold CountField.npos in *.
    destruct (N.ltb_spec pm pb) as [Hlt|Hge].
    + rewrite erase_within.
      * unfold CountField.size_sub.
        replace ((pm + 2 ^ 64 - pc) mod 2 ^ 64)%N with (pm - pc)%N.
        -- rewrite N.mod_small by lia.
           now replace (pc + (pm - pc + 1))%N with (pm + 1)%N by lia.
        -- replace (pm + 2 ^ 64 - pc)%N with (pm - pc + 1 * 2 ^ 64)%N by lia.
           rewrite N.Div0.mod_add. symmetry. apply N.mod_small. lia.
      * unfold CountField.size_sub.
        replace (pm + 2 ^ 64 - pc)%N with (pm - pc + 1 * 2 ^ 64)%N by lia.
        rewrite N.Div0.mod_add, (N.mod_small (pm - pc)) by lia.
        rewrite N.mod_small by lia. lia.
    + assert (Hsub : CountField.size_sub pb pc = (pb - pc)%N).
      { unfold CountField.size_sub.
        replace (pb + 2 ^ 64 - pc)%N with (pb - pc + 1 * 2 ^ 64)%N by lia.
        rewrite N.Div0.mod_add. apply N.mod_small. lia. }
      rewrite Hsub, erase_within by lia.
      now replace (pc + (pb - pc))%N with pb by lia.
Qed.

Lemma X22_remove_count_field_removes_the_field_witness :
  CountField.remove_count_field ("{" +:+ CountField.count_field +:+ "2,x}")
  = "{x}".
Proof.
  rewrite (proj2 (X22_remove_count_field_removes_the_field
                    ("{" +:+ CountField.count_field +:+ "2,x}") eq_refl)).
  - reflexivity.
  - vm_compute. discriminate.
  - vm_compute. discriminate.
  - vm_compute. discriminate.
  - vm_compute. discriminate.
Defined.

(** X23.  The lengths that [remove_count_field] erases are unsigned.  When
    the first comma comes before the close brace and more than one
    character before the count field, or when the close brace comes before
    the count field and no comma before the brace, the length wraps around
    and everything from the count field to the end of the context is
    erased, a later close brace included.  A first comma right before the
    count field leaves the context as it is. *)
Theorem X23_remove_count_field_can_cut_the_tail :
  forall context : string,
    (N.of_nat (String.length context) < CountField.npos)%N ->
    let pos_count := CountField.find context CountField.count_field in
    let pos_closebrace := CountField.find context "}" in
    let pos_comma := CountField.find context "," in
    pos_count <> CountField.npos -> pos_closebrace <> CountField.npos ->
    (((pos_comma < pos_closebrace)%N /\ (pos_comma + 1 < pos_count)%N) \/
     ((pos_closebrace <= pos_comma)%N /\ (pos_closebrace < pos_count)%N) ->
     CountField.remove_count_field context
     = substring 0 (N.to_nat pos_count) context)
    /\
    ((pos_comma < pos_closebrace)%N /\ (pos_comma + 1)%N = pos_count ->
     CountField.remove_count_field context = context).
Proof.
  intros context Hlen pc pb pm Hc Hb.
  unfold CountField.remove_count_field. fold pc pb pm.
  rewrite (proj2 (N.eqb_neq _ _) Hc), (proj2 (N.eqb_neq _ _) Hb).
  destruct (find_bound context CountField.count_field
              ltac:(discriminate) Hlen) as [?|Hcc]; [contradiction|].
  fold pc in Hcc. unfold CountField.npos in *. split.
  - intros [[Hlt Hbefore]|[Hge Hbefore]].
    + rewrite (proj2 (N.ltb_lt _ _) Hlt).
      apply erase_to_the_end; [lia|].
      unfold CountField.size_sub.
      rewrite (N.mod_small (pm + 2 ^ 64 - pc)) by lia.
      rewrite N.mod_small by lia. lia.
    + rewrite (proj2 (N.ltb_ge _ _) Hge).
      apply erase_to_the_end; [lia|].
      unfold CountField.size_sub. rewrite N.mod_small by lia. lia.
  - intros [Hlt Hnext].
    rewrite (proj2 (N.ltb_lt _ _) Hlt).
    assert (Hzero : ((CountField.size_sub pm pc + 1) mod 2 ^ 64 = 0)%N).
    { unfold CountField.size_sub.
      rewrite (N.mod_small (pm + 2 ^ 64 - pc)) by lia.
      replace (pm + 2 ^ 64 - pc + 1)%N with (2 ^ 64)%N by lia.
      reflexivity. }
    rewrite Hzero, erase_within by lia.
    rewrite N.add_0_r. apply substring_split. lia.
Qed.

Lemma X23_remove_count_field_can_cut_the_tail_witness :
  CountField.remove_count_field ("{a,b" +:+ CountField.count_field +:+ "2}")
  = "{a,b".
Proof.
  rewrite (proj1 (X23_remove_count_field_can_cut_the_tail
                    ("{a,b" +:+ CountField.count_field +:+ "2}") eq_refl
                    ltac:(vm_compute; discriminate)
                    ltac:(vm_compute; discriminate))).
  - reflexivity.
  - left. split; reflexivity.
Defined.

(** ** [histogram] and [duplicates] *)

Lemma advance_app (run rest : list Commands.hashdb_element_t) :
  Statistics.advance (List.length run) (run ++ rest) = Some rest.
Proof.
  induction run as [|x run IH]; [reflexivity | exact IH].
Qed.

(** Where the iterator stands at the first element of a hash, the elements
    of that hash follow one another, [find_count] many, and the hashes
    after them are greater. *)
Lemma group_step (m : Commands.hashdb_manager_t)
    (pre : list Commands.hashdb_element_t) (e : Commands.hashdb_element_t)
    (next : list Commands.hashdb_element_t) :
  Commands.elements m = (pre ++ e :: next)%list ->
  Commands.ascending_keys (pre ++ e :: next) ->
  (forall x, In x pre -> Commands.key x <> Commands.key e) ->
  exists run rest,
    e :: next = (run ++ rest)%list /\
    Commands.find_count m (Commands.key e) = List.length run /\
    (1 <= List.length run)%nat /\
    (forall x, In x run -> Commands.key x = Commands.key e) /\
    (forall y, In y rest ->
               String.compare (Commands.key e) (Commands.key y) = Lt).
Proof.
  intros Hel Hs Hpre.
  set (k := Commands.key e) in *.
  set (p := fun e0 : Commands.hashdb_element_t =>
              (Commands.key e0 =? k)%string).
  pose proof (ascending_keys_app_r _ _ Hs) as Hsit.
  assert (Hge : Forall (fun x => String.compare k (Commands.key x) <> Gt)
                  (e :: next)).
  { constructor; [subst k; now rewrite string_compare_refl|].
    inversion Hsit; subst. assumption. }
  destruct (run_first k (e :: next) Hsit Hge) as (rest & Hit & Hrest).
  fold p in Hit.
  exists (List.filter p (e :: next)), rest.
  split; [exact Hit|]. split; [|split; [|split]].
  - unfold Commands.find_count, Commands.find. fold p.
    rewrite Hel, List.filter_app, (filter_none p pre); [reflexivity|].
    intros x Hx. apply String.eqb_neq. now apply Hpre.
  - cbn [List.filter]. unfold p at 1. subst k. rewrite String.eqb_refl.
    cbn [List.length]. lia.
  - intros x Hx. apply List.filter_In in Hx as [_ Hx].
    now apply String.eqb_eq in Hx.
  - intros y Hy.
    assert (Hin : In y (e :: next))
      by (rewrite Hit; apply in_or_app; now right).
    pose proof (proj1 (List.Forall_forall _ _) Hge y Hin) as Hle.
    pose proof (proj1 (List.Forall_forall _ _) Hrest y Hy) as Hne.
    destruct (String.compare k (Commands.key y)) eqn:Hc;
      [|reflexivity|contradiction].
    apply string_compare_eq in Hc. congruence.
Qed.

Lemma filter_constant {A : Type} (f : A -> bool) (b : bool) (l : list A) :
  (forall x, In x l -> f x = b) ->
  List.length (List.filter f l) = if b then List.length l else 0%nat.
Proof.
  induction l as [|x l IH]; intros Hall; [now destruct b|].
  cbn [List.filter]. rewrite (Hall x (or_introl eq_refl)).
  specialize (IH (fun y Hy => Hall y (or_intror Hy))).
  destruct b; cbn [List.length]; lia.
Qed.

Lemma elements_with_count_app (m : Commands.hashdb_manager_t) (count : N)
    (l1 l2 : list Commands.hashdb_element_t) :
  Statistics.elements_with_count m count (l1 ++ l2)
  = (Statistics.elements_with_count m count l1
     + Statistics.elements_with_count m count l2)%nat.
Proof.
  unfold Statistics.elements_with_count.
  now rewrite List.filter_app, length_app.
Qed.

Lemma elements_with_count_le (m : Commands.hashdb_manager_t) (count : N)
    (l : list Commands.hashdb_element_t) :
  (Statistics.elements_with_count m count l <= List.length l)%nat.
Proof.
  unfold Statistics.elements_with_count. apply List.filter_length_le.
Qed.

Lemma elements_with_count_run (m : Commands.hashdb_manager_t) (count : N)
    (k : string) (run : list Commands.hashdb_element_t) :
  (forall x, In x run -> Commands.key x = k) ->
  Statistics.elements_with_count m count run
  = if (N.of_nat (Commands.find_count m k) =? count)%N
    then List.length run else 0%nat.
Proof.
  intros Hall. unfold Statistics.elements_with_count.
  apply filter_constant. intros x Hx. now rewrite (Hall x Hx).
Qed.

Lemma histogram_loop_spec (m : Commands.hashdb_manager_t) (fuel : nat) :
  forall (it pre : list Commands.hashdb_element_t)
         (st : Statistics.histogram_t),
  Commands.elements m = (pre ++ it)%list ->
  Commands.ascending_keys (pre ++ it) ->
  (forall x y, In x pre -> In y it ->
               String.compare (Commands.key x) (Commands.key y) = Lt) ->
  (List.length it <= fuel)%nat ->
  (N.of_nat (List.length (pre ++ it)) < 2 ^ 64)%N ->
  Statistics.counts_of m pre st ->
  exists st',
    Statistics.histogram_loop fuel it m st = Some st' /\
    Statistics.counts_of m (pre ++ it) st'.
Proof.
  induction fuel as [|fuel IH]; intros it pre st Hel Hs Hsep Hfuel Hlen Hinv.
  - destruct it; [|cbn in Hfuel; lia].
    exists st. rewrite app_nil_r. now split.
  - destruct it as [|e next].
    { exists st. rewrite app_nil_r. now split. }
    assert (Hpre : forall x, In x pre -> Commands.key x <> Commands.key e).
    { intros x Hx Heq.
      pose proof (Hsep x e Hx (or_introl eq_refl)) as Hlt.
      rewrite Heq, string_compare_refl in Hlt. discriminate. }
    destruct (group_step m pre e next Hel Hs Hpre)
      as (run & rest & Hit & Hcount & Hpos & Hrun & Hrest).
    cbn [Statistics.histogram_loop].
    rewrite Hcount, Hit, advance_app.
    rewrite Hit in Hel, Hs, Hlen, Hfuel, Hsep.
    rewrite app_assoc in Hel, Hs, Hlen.
    rewrite length_app in Hfuel.
    rewrite app_assoc.
    apply IH; try assumption; try lia.
    + intros x y Hx Hy. apply in_app_or in Hx as [Hx|Hx].
      * apply Hsep; [assumption|]. apply in_or_app. now right.
      * rewrite (Hrun x Hx). now apply Hrest.
    + (* the variables after this hash *)
      destruct Hinv as (Htotal & Hdistinct & Hhist).
      rewrite !length_app in Hlen.
      pose proof (elements_with_count_run m) as Hewc.
      specialize (fun count => Hewc count (Commands.key e) run Hrun).
      rewrite Hcount in Hewc.
      unfold Statistics.counts_of.
      cbn [Statistics.total_hashes Statistics.total_distinct_hashes
           Statistics.hash_histogram].
      split; [|split].
      * rewrite Htotal, length_app, N.mod_small by lia. lia.
      * rewrite elements_with_count_app, Hewc, Hdistinct.
        pose proof (elements_with_count_le m 1 pre).
        destruct (N.eqb_spec (N.of_nat (List.length run)) 1) as [H1|H1].
        -- rewrite N.mod_small by lia. lia.
        -- lia.
      * intros count.
        rewrite elements_with_count_app, Hewc.
        pose proof (elements_with_count_le m count pre) as Hle.
        pose proof (Hhist (N.of_nat (List.length run))) as Hold.
        pose proof (elements_with_count_le m (N.of_nat (List.length run)) pre)
          as Hle'.
        destruct (N.eqb_spec (N.of_nat (List.length run)) count)
          as [<-|Hne].
        -- destruct (Statistics.hash_histogram st
                       !! N.of_nat (List.length run)) as [n|].
           ++ rewrite lookup_insert_eq.
              destruct Hold as [Hn Hmul].
              assert (n <= N.of_nat (List.length pre))%N by nia.
              rewrite N.mod_small by lia. split; [lia|]. nia.
           ++ rewrite lookup_insert_eq. split; [lia|]. lia.
        -- specialize (Hhist count).
           destruct (Statistics.hash_histogram st
                       !! N.of_nat (List.length run)) as [n|].
           ++ rewrite lookup_insert_ne, lookup_delete_ne by assumption.
              destruct (Statistics.hash_histogram st !! count);
                [rewrite Nat.add_0_r; exact Hhist | lia].
           ++ rewrite lookup_insert_ne by assumption.
              destruct (Statistics.hash_histogram st !! count);
                [rewrite Nat.add_0_r; exact Hhist | lia].
Qed.

(** X24.  On a database in key order (with fewer than [2^64] elements)
    [histogram] returns.  It reports an empty map exactly for a database
    without elements.  Otherwise "total hashes" is the number of elements,
    "distinct hashes" is the number of elements whose hash has no other
    element (not the number of different hashes), and the histogram has an
    entry for a count exactly when some hash has that many elements, with
    the number [n] of such hashes: [count * n] is the number of the
    elements of these hashes. *)
Theorem X24_histogram_counts_the_elements :
  forall hashdb_manager : Commands.hashdb_manager_t,
    Commands.ascending_keys (Commands.elements hashdb_manager) ->
    (N.of_nat (Commands.map_size hashdb_manager) < 2 ^ 64)%N ->
    (Statistics.histogram hashdb_manager = Some Statistics.map_is_empty <->
     Commands.elements hashdb_manager = [])
    /\
    (Commands.elements hashdb_manager <> [] ->
     exists st : Statistics.histogram_t,
       Statistics.histogram hashdb_manager = Some (Statistics.totals st) /\
       Statistics.total_hashes st
       = N.of_nat (Commands.map_size hashdb_manager) /\
       Statistics.total_distinct_hashes st
       = N.of_nat
           (List.length
              (List.filter
                 (fun e => (N.of_nat (Commands.find_count hashdb_manager
                                        (Commands.key e)) =? 1)%N)
                 (Commands.elements hashdb_manager))) /\
       forall count : N,
         match Statistics.hash_histogram st !! count with
         | Some n =>
             (0 < n)%N /\
             (count * n)%N
             = N.of_nat
                 (List.length
                    (List.filter
                       (fun e => (N.of_nat (Commands.find_count hashdb_manager
                                              (Commands.key e)) =? count)%N)
                       (Commands.elements hashdb_manager)))
         | None =>
             forall e, In e (Commands.elements hashdb_manager) ->
                       N.of_nat (Commands.find_count hashdb_manager
                                   (Commands.key e)) <> count
         end).
Proof.
  intros m Hs Hlen.
  assert (Hinit : Statistics.counts_of m []
                    {| Statistics.total_hashes := 0;
                       Statistics.total_distinct_hashes := 0;
                       Statistics.hash_histogram := ∅ |}).
  { split; [reflexivity|]. split; [reflexivity|].
    intros count. cbn [Statistics.hash_histogram].
    now rewrite lookup_empty. }
  destruct (histogram_loop_spec m (Commands.map_size m)
              (Commands.elements m) [] _ eq_refl Hs
              ltac:(intros x y []) (le_n _) Hlen Hinit)
    as (st & Hloop & Htotal & Hdistinct & Hhist).
  cbn [app] in *. unfold Statistics.histogram.
  destruct (Commands.elements m) as [|e l] eqn:Hel.
  - split; [tauto|]. intros Hne. now destruct Hne.
  - rewrite <- Hel in *. rewrite Hloop. split.
    + split; [discriminate|]. rewrite Hel. discriminate.
    + intros _. exists st. split; [reflexivity|].
      split; [exact Htotal|]. split; [exact Hdistinct|].
      intros count. specialize (Hhist count).
      destruct (Statistics.hash_histogram st !! count) as [n|];
        [exact Hhist|].
      intros x Hx Hc. apply N.eqb_eq in Hc.
      unfold Statistics.elements_with_count in Hhist.
      assert (Hin : In x (List.filter
                            (fun e => (N.of_nat (Commands.find_count m
                                                   (Commands.key e))
                                       =? count)%N) (Commands.elements m)))
        by (apply List.filter_In; now split).
      destruct (List.filter _ (Commands.elements m));
        [destruct Hin | discriminate].
Qed.

Lemma X24_histogram_counts_the_elements_witness :
  exists st : Statistics.histogram_t,
    Statistics.histogram
      (Scenario.database "A"
         [Scenario.element (Scenario.hash16 1) "a";
          Scenario.element (Scenario.hash16 2) "a";
          Scenario.element (Scenario.hash16 2) "b"])
    = Some (Statistics.totals st) /\
    Statistics.total_hashes st = 3%N /\
    Statistics.total_distinct_hashes st = 1%N.
Proof.
  destruct (proj2 (X24_histogram_counts_the_elements
                     (Scenario.database "A"
                        [Scenario.element (Scenario.hash16 1) "a";
                         Scenario.element (Scenario.hash16 2) "a";
                         Scenario.element (Scenario.hash16 2) "b"])
                     ltac:(unfold Scenario.database;
                           cbn [Commands.elements];
                           ascending_keys_by_computation)
                     eq_refl) ltac:(discriminate))
    as (st & Hh & Htotal & Hdistinct & _).
  exists st. split; [exact Hh|]. split; [exact Htotal | exact Hdistinct].
Defined.

Lemma duplicates_loop_spec (m : Commands.hashdb_manager_t)
    (duplicates_number : nat) (fuel : nat) :
  forall (it pre : list Commands.hashdb_element_t) (line_number : N),
  Commands.elements m = (pre ++ it)%list ->
  Commands.ascending_keys (pre ++ it) ->
  (forall x y, In x pre -> In y it ->
               String.compare (Commands.key x) (Commands.key y) = Lt) ->
  (List.length it <= fuel)%nat ->
  (line_number + N.of_nat (List.length it) < 2 ^ 64)%N ->
  exists hashes : list string,
    Statistics.duplicates_loop fuel it m duplicates_number line_number
    = Some (Statistics.numbered line_number duplicates_number hashes) /\
    StringSet.ascending hashes /\
    forall k, In k hashes <->
              (exists y, In y it /\ Commands.key y = k) /\
              Commands.find_count m k = duplicates_number.
Proof.
  induction fuel as [|fuel IH]; intros it pre ln Hel Hs Hsep Hfuel Hlen.
  - destruct it; [|cbn in Hfuel; lia].
    exists []. split; [reflexivity|]. split; [constructor|].
    intros k. split; [intros [] | intros [(y & [] & _) _]].
  - destruct it as [|e next].
    { exists []. split; [reflexivity|]. split; [constructor|].
      intros k. split; [intros [] | intros [(y & [] & _) _]]. }
    assert (Hpre : forall x, In x pre -> Commands.key x <> Commands.key e).
    { intros x Hx Heq.
      pose proof (Hsep x e Hx (or_introl eq_refl)) as Hlt.
      rewrite Heq, string_compare_refl in Hlt. discriminate. }
    destruct (group_step m pre e next Hel Hs Hpre)
      as (run & rest & Hit & Hcount & Hpos & Hrun & Hrest).
    cbn [Statistics.duplicates_loop].
    rewrite Hcount, Hit, advance_app.
    rewrite Hit in Hel, Hs, Hlen, Hfuel, Hsep.
    rewrite app_assoc in Hel, Hs.
    rewrite length_app in Hfuel, Hlen.
    assert (Hsep' : forall x y, In x (pre ++ run) -> In y rest ->
              String.compare (Commands.key x) (Commands.key y) = Lt).
    { intros x y Hx Hy. apply in_app_or in Hx as [Hx|Hx].
      - apply Hsep; [assumption|]. apply in_or_app. now right.
      - rewrite (Hrun x Hx). now apply Hrest. }
    assert (Hkeys : forall k,
              (exists y, In y (run ++ rest) /\ Commands.key y = k) <->
              k = Commands.key e \/
              (exists y, In y rest /\ Commands.key y = k)).
    { intros k. split.
      - intros (y & Hy & Hk). apply in_app_or in Hy as [Hy|Hy].
        + left. now rewrite <- Hk, (Hrun y Hy).
        + right. eauto.
      - intros [->|(y & Hy & Hk)].
        + exists e. split; [|reflexivity]. rewrite <- Hit. now left.
        + exists y. split; [|assumption]. apply in_or_app. now right. }
    destruct (Nat.eqb_spec (List.length run) duplicates_number) as [Hd|Hd].
    + destruct (IH rest (pre ++ run)%list ((ln + 1) mod 2 ^ 64)%N)
        as (hashes & Hloop & Hasc & Hin); try assumption; try lia.
      { rewrite N.mod_small by lia. lia. }
      rewrite Hloop. rewrite N.mod_small by lia.
      exists (Commands.key e :: hashes). rewrite Hd.
      split; [reflexivity|]. split.
      * constructor; [exact Hasc|].
        apply List.Forall_forall. intros k Hk.
        apply Hin in Hk. destruct Hk as [(y & Hy & <-) _].
        now apply Hrest.
      * intros k. cbn [In]. rewrite Hin, Hkeys. split.
        -- intros [<-|[Hy Hc]]; [|tauto]. split; [now left|congruence].
        -- intros [[->|Hy] Hc]; [now left|]. right. tauto.
    + destruct (IH rest (pre ++ run)%list ln)
        as (hashes & Hloop & Hasc & Hin); try assumption; try lia.
      rewrite Hloop. exists hashes.
      split; [reflexivity|]. split; [exact Hasc|].
      intros k. rewrite Hin, Hkeys. split; [tauto|].
      intros [[->|Hy] Hc]; [congruence | tauto].
Qed.

(** X25.  On a database in key order (with fewer than [2^64] elements)
    [duplicates] returns.  It reports an empty map exactly for a database
    without elements.  Otherwise it prints one line for each hash that has
    exactly the number of elements asked for, and for no other hash: the
    hashes come in ascending order, each once, and the lines are numbered
    from one. *)
Theorem X25_duplicates_lists_the_hashes_with_the_count :
  forall (hashdb_manager : Commands.hashdb_manager_t)
         (duplicates_number : nat),
    Commands.ascending_keys (Commands.elements hashdb_manager) ->
    (N.of_nat (Commands.map_size hashdb_manager) < 2 ^ 64)%N ->
    (Statistics.duplicates hashdb_manager duplicates_number = Some None <->
     Commands.elements hashdb_manager = [])
    /\
    (Commands.elements hashdb_manager <> [] ->
     exists hashes : list string,
       Statistics.duplicates hashdb_manager duplicates_number
       = Some (Some (Statistics.numbered 0 duplicates_number hashes)) /\
       StringSet.ascending hashes /\
       forall k, In k hashes <->
                 Commands.has_key hashdb_manager k /\
                 Commands.find_count hashdb_manager k = duplicates_number).
Proof.
  intros m d Hs Hlen.
  destruct (duplicates_loop_spec m d (Commands.map_size m)
              (Commands.elements m) [] 0%N eq_refl Hs
              ltac:(intros x y []) (le_n _) Hlen)
    as (hashes & Hloop & Hasc & Hin).
  unfold Statistics.duplicates.
  destruct (Commands.elements m) as [|e l] eqn:Hel.
  - split; [tauto|]. intros Hne. now destruct Hne.
  - rewrite <- Hel in *. rewrite Hloop. split.
    + split; [discriminate|]. rewrite Hel. discriminate.
    + intros _. exists hashes. split; [reflexivity|].
      split; [exact Hasc | exact Hin].
Qed.

Lemma X25_duplicates_lists_the_hashes_with_the_count_witness :
  exists hashes : list string,
    Statistics.duplicates
      (Scenario.database "A"
         [Scenario.element (Scenario.hash16 1) "a";
          Scenario.element (Scenario.hash16 2) "a";
          Scenario.element (Scenario.hash16 2) "b"]) 2
    = Some (Some (Statistics.numbered 0 2 hashes)) /\
    (In (Scenario.hash16 2) hashes /\ ~ In (Scenario.hash16 1) hashes).
Proof.
  destruct (proj2 (X25_duplicates_lists_the_hashes_with_the_count
                     (Scenario.database "A"
                        [Scenario.element (Scenario.hash16 1) "a";
                         Scenario.element (Scenario.hash16 2) "a";
                         Scenario.element (Scenario.hash16 2) "b"]) 2
                     ltac:(unfold Scenario.database;
                           cbn [Commands.elements];
                           ascending_keys_by_computation)
                     eq_refl) ltac:(discriminate))
    as (hashes & Hd & _ & Hin).
  exists hashes. split; [exact Hd|]. split.
  - apply Hin. split; [|reflexivity].
    eexists. split; [right; left; reflexivity | reflexivity].
  - intros H1. apply Hin in H1. destruct H1 as [_ H1].
    vm_compute in H1. discriminate.
Defined.

(** ** [rebuild_bloom] *)

Lemma add_hashes_spec (it : list Commands.hashdb_element_t) :
  forall b : Bloom.bloom_filter_manager_t,
  Bloom.bloom_is_used (RebuildBloom.add_hashes it b) = Bloom.bloom_is_used b /\
  Bloom.bloom_M (RebuildBloom.add_hashes it b) = Bloom.bloom_M b /\
  Bloom.bloom_k (RebuildBloom.add_hashes it b) = Bloom.bloom_k b /\
  (Bloom.enabled b = true ->
   forall i : N,
     i ∈ Bloom.bits (RebuildBloom.add_hashes it b) <->
     i ∈ Bloom.bits b \/
     exists e, In e it /\ In i (Bloom.indices b (Commands.key e))).
Proof.
  induction it as [|e it IH]; intros b; cbn [RebuildBloom.add_hashes].
  - split; [reflexivity|]. split; [reflexivity|]. split; [reflexivity|].
    intros _ i. split; [auto|]. intros [?|(e & [] & _)]. assumption.
  - destruct (IH (Bloom.add_hash_value b (Commands.key e)))
      as (Hu & HM & Hk & Hbits).
    unfold Bloom.add_hash_value in *.
    destruct (Bloom.enabled b) eqn:He.
    + cbn [Bloom.bloom_is_used Bloom.bloom_M Bloom.bloom_k] in *.
      split; [assumption|]. split; [assumption|]. split; [assumption|].
      intros _ i. rewrite (Hbits He i). cbn [Bloom.bits].
      rewrite elem_of_union, elem_of_list_to_set, list_elem_of_In.
      change (Bloom.indices _ ?h) with (Bloom.indices b h).
      split.
      * intros [[Hi|Hi]|(x & Hx & Hi)]; eauto using in_eq, in_cons.
      * intros [Hi|(x & [<-|Hx] & Hi)]; eauto.
    + split; [assumption|]. split; [assumption|]. split; [assumption|].
      intros Hfalse. discriminate.
Qed.

(** X26.  The bloom filter that [rebuild_bloom] leaves has no false
    negative: it answers "possibly present" for every hash of the
    database.  When the filter is in use and has a size, it answers
    "possibly present" for exactly the hashes each of whose bits is a bit
    of some hash of the database; a filter that is not in use or has size
    zero answers "possibly present" for every hash. *)
Theorem X26_rebuild_bloom_has_no_false_negative :
  forall (bloom1_is_used : bool) (bloom1_M_hash_size : N)
         (bloom1_k_hash_functions : nat)
         (hashdb_manager : Commands.hashdb_manager_t) (h : string),
    let b :=
      RebuildBloom.rebuild_bloom bloom1_is_used bloom1_M_hash_size
        bloom1_k_hash_functions hashdb_manager in
    (Commands.has_key hashdb_manager h ->
     Bloom.probably_contains b h = true)
    /\
    (bloom1_is_used = true -> (0 < bloom1_M_hash_size)%N ->
     (Bloom.probably_contains b h = true <->
      forall i, In i (Bloom.indices b h) ->
                exists e, In e (Commands.elements hashdb_manager) /\
                          In i (Bloom.indices b (Commands.key e))))
    /\
    (bloom1_is_used = false \/ bloom1_M_hash_size = 0%N ->
     Bloom.probably_contains b h = true).
Proof.
  intros used M k m h b. subst b. unfold RebuildBloom.rebuild_bloom.
  set (b0 := RebuildBloom.new_bloom_filter_manager_t used M k).
  destruct (add_hashes_spec (Commands.elements m) b0)
    as (Hu & HM & Hk & Hbits).
  set (b := RebuildBloom.add_hashes (Commands.elements m) b0) in *.
  assert (Hen : Bloom.enabled b = Bloom.enabled b0)
    by (unfold Bloom.enabled; now rewrite Hu, HM).
  assert (Hind : forall x, Bloom.indices b x = Bloom.indices b0 x)
    by (intros x; unfold Bloom.indices; now rewrite HM, Hk).
  assert (Hexact : Bloom.enabled b0 = true ->
            (Bloom.probably_contains b h = true <->
             forall i, In i (Bloom.indices b h) ->
                       exists e, In e (Commands.elements m) /\
                                 In i (Bloom.indices b (Commands.key e)))).
  { intros He. unfold Bloom.probably_contains. rewrite Hen, He.
    rewrite forallb_forall. split.
    - intros Hall i Hi. specialize (Hall i Hi).
      apply bool_decide_eq_true in Hall. apply (Hbits He) in Hall.
      destruct Hall as [Hall|(e & He' & Hi')].
      + cbn in Hall. now apply elem_of_empty in Hall.
      + exists e. split; [assumption|]. now rewrite Hind.
    - intros Hall i Hi. apply bool_decide_eq_true. apply (Hbits He).
      right. destruct (Hall i Hi) as (e & He' & Hi').
      exists e. split; [assumption|]. now rewrite <- Hind. }
  split; [|split].
  - intros (e & He & Hk'). 
    destruct (Bloom.enabled b0) eqn:He0.
    + apply (Hexact eq_refl). intros i Hi. exists e.
      split; [assumption|]. now rewrite Hk'.
    + unfold Bloom.probably_contains. now rewrite Hen.
  - intros Hused HMpos. apply Hexact.
    unfold Bloom.enabled, b0. cbn. rewrite Hused.
    now apply N.ltb_lt.
  - intros Hoff. unfold Bloom.probably_contains. rewrite Hen.
    unfold Bloom.enabled, b0. cbn.
    destruct Hoff as [->| ->]; [reflexivity|].
    now rewrite andb_false_r.
Qed.

Lemma X26_rebuild_bloom_has_no_false_negative_witness :
  Bloom.probably_contains
    (RebuildBloom.rebuild_bloom true (2 ^ 28) 3 Scenario.A123)
    (Scenario.hash16 2) = true.
Proof.
  apply (proj1 (X26_rebuild_bloom_has_no_false_negative
                  true (2 ^ 28) 3 Scenario.A123 (Scenario.hash16 2))).
  eexists. split; [right; left; reflexivity | reflexivity].
Defined.

(** ** The report of the changes *)

Lemma counter_lines_In (table : list (string * Z)) (label : string) (v : Z) :
  In (label, Some v)
    (flat_map (fun p => Report.counter_line p.1 p.2) table)
  <-> In (label, v) table /\ v <> 0%Z.
Proof.
  rewrite in_flat_map. unfold Report.counter_line. split.
  - intros ([l x] & Hin & Hv). cbn [fst snd] in Hv.
    destruct (Z.eqb_spec x 0); [destruct Hv|].
    destruct Hv as [[= -> ->]|[]]. now split.
  - intros [Hin Hv]. exists (label, v). split; [assumption|].
    cbn [fst snd]. destruct (Z.eqb_spec v 0); [contradiction|]. now left.
Qed.

Lemma group_lines_In (header : string) (table : list (string * Z))
    (label : string) (v : Z) :
  In (label, Some v)
    (if existsb (fun p => negb (p.2 =? 0)%Z) table
     then (header, None)
          :: flat_map (fun p => Report.counter_line p.1 p.2) table
     else [])
  <-> In (label, v) table /\ v <> 0%Z.
Proof.
  destruct (existsb _ table) eqn:Hex.
  - cbn [In]. rewrite counter_lines_In. split; [|tauto].
    intros [[=]|?]. assumption.
  - split; [intros []|]. intros [Hin Hv].
    assert (Hex' : existsb (fun p => negb (p.2 =? 0)%Z) table = true).
    { apply existsb_exists. exists (label, v). split; [assumption|].
      cbn [snd]. now destruct (Z.eqb_spec v 0). }
    congruence.
Qed.

(** X27.  [report_changes] prints "No hashdb changes." and nothing else
    exactly when all ten counters are zero.  In every case it prints the
    line of a counter exactly for the counters that are not zero, each
    with its value. *)
Theorem X27_report_changes_prints_the_counters_that_are_not_zero :
  forall c : Changes.hashdb_changes_t,
    (Report.report_changes c = [("No hashdb changes.", None)] <->
     Forall (fun p => p.2 = 0%Z)
       (Report.insert_counters c ++ Report.remove_counters c))
    /\
    (In ("No hashdb changes.", None) (Report.report_changes c) ->
     Report.report_changes c = [("No hashdb changes.", None)])
    /\
    (forall (label : string) (v : Z),
        In (label, Some v) (Report.report_changes c) <->
        In (label, v) (Report.insert_counters c ++ Report.remove_counters c)
        /\ v <> 0%Z).
Proof.
  intros c.
  assert (Hshape : Report.report_changes c
    = ((if negb (existsb (fun p => negb (p.2 =? 0)%Z)
                   (Report.insert_counters c))
           && negb (existsb (fun p => negb (p.2 =? 0)%Z)
                      (Report.remove_counters c))
        then [("No hashdb changes.", None)] else [])
       ++ (if existsb (fun p => negb (p.2 =? 0)%Z) (Report.insert_counters c)
           then ("hashdb changes (insert):", None)
                :: flat_map (fun p => Report.counter_line p.1 p.2)
                     (Report.insert_counters c)
           else [])
       ++ (if existsb (fun p => negb (p.2 =? 0)%Z) (Report.remove_counters c)
           then ("hashdb changes (remove):", None)
                :: flat_map (fun p => Report.counter_line p.1 p.2)
                     (Report.remove_counters c)
           else []))%list).
  { unfold Report.report_changes, Report.insert_counters,
      Report.remove_counters.
    cbn [existsb flat_map fst snd]. rewrite !orb_false_r, !app_nil_r.
    rewrite !orb_assoc. reflexivity. }
  assert (Hzero : forall table : list (string * Z),
            existsb (fun p => negb (p.2 =? 0)%Z) table = false <->
            Forall (fun p => p.2 = 0%Z) table).
  { intros table. induction table as [|[l x] table IH]; cbn [existsb snd].
    - split; [constructor | reflexivity].
    - rewrite orb_false_iff, IH, negb_false_iff, Z.eqb_eq. split.
      + intros [? ?]. now constructor.
      + intros H. inversion H; subst. now split. }
  split; [|split].
  - rewrite Hshape, List.Forall_app, <- !Hzero.
    destruct (existsb _ (Report.insert_counters c));
      destruct (existsb _ (Report.remove_counters c)); cbn [negb andb app];
      (split; [try discriminate | intros [? ?]; try discriminate]);
      try reflexivity; try (split; reflexivity).
  - rewrite Hshape.
    destruct (existsb _ (Report.insert_counters c)) eqn:Hi;
      destruct (existsb _ (Report.remove_counters c)) eqn:Hr;
      cbn [negb andb app]; try reflexivity;
      intros Hin; exfalso;
      repeat (rewrite ?in_app_iff in Hin; cbn [In] in Hin);
      rewrite ?in_flat_map in Hin;
      repeat match goal with
             | H : _ \/ _ |- _ => destruct H
             | H : (_, _) = (_, _) |- _ => discriminate H
             | H : False |- _ => destruct H
             | H : exists _, _ |- _ => destruct H as ([? x] & _ & H);
                 unfold Report.counter_line in H; cbn [fst snd] in H;
                 destruct (x =? 0)%Z; cbn [In] in H
             end.
  - intros label v. rewrite Hshape, !in_app_iff.
    rewrite !group_lines_In.
    destruct (negb _ && negb _); cbn [In]; split; try tauto.
    intros [[[=]|[]]|H]. tauto.
Qed.

Lemma X27_report_changes_prints_the_counters_that_are_not_zero_witness :
  In ("    hashes inserted=", Some 1%Z)
    (Report.report_changes
       (Changes.incr_hashes_inserted Changes.new_hashdb_changes_t)) /\
  ~ In ("No hashdb changes.", None)
      (Report.report_changes
         (Changes.incr_hashes_inserted Changes.new_hashdb_changes_t)).
Proof.
  pose proof (X27_report_changes_prints_the_counters_that_are_not_zero
                (Changes.incr_hashes_inserted Changes.new_hashdb_changes_t))
    as (_ & Honly & Hlines).
  split.
  - apply Hlines. split; [left; reflexivity | discriminate].
  - intros Hin. apply Honly in Hin. vm_compute in Hin. discriminate.
Defined.

(** ** The hash-data store: inserting the same entries again *)

Lemma hash_data_insert_present (settings : HashData.hashdb_settings_t)
    (source_id : N) (l : list HashData.hash_data_t) :
  HashData.sector_size settings <> 0%N ->
  forall st : HashData.state_t,
  (forall it, In it l -> HashData.aligned settings it = true ->
              In (HashData.stored_pair settings source_id it)
                (HashData.env st)) ->
  exists st' : HashData.state_t,
    HashData.insert settings source_id l st = Some st' /\
    HashData.env st' = HashData.env st /\
    HashData.bloom_filter_manager st' = HashData.bloom_filter_manager st /\
    Changes.hashes_inserted (HashData.changes st')
    = Changes.hashes_inserted (HashData.changes st).
Proof.
  intros Hss. induction l as [|it l IH]; intros st Hall.
  - exists st. auto.
  - cbn [HashData.insert].
    destruct (insert_entry_effect settings source_id it st Hss)
      as (st1 & -> & [(Ha & He & Hb & Hc)|[(Ha & _ & He & Hb & Hc)
                                         |(Ha & Hn & _)]]).
    + destruct (IH st1) as (st' & Hi & He' & Hb' & Hc').
      { intros it' Hin Ha'. rewrite He. apply Hall; [now right|assumption]. }
      exists st'. split; [assumption|]. rewrite He', Hb', Hc', He, Hb, Hc.
      auto.
    + destruct (IH st1) as (st' & Hi & He' & Hb' & Hc').
      { intros it' Hin Ha'. rewrite He. apply Hall; [now right|assumption]. }
      exists st'. split; [assumption|]. rewrite He', Hb', Hc', He, Hb, Hc.
      auto.
    + destruct Hn. apply Hall; [now left|assumption].
Qed.

(** X28.  Inserting the same list of entries a second time stores
    nothing: the second [insert] returns, and it leaves the store and the
    bloom filter as the first one left them and [hashes_inserted] as it
    was. *)
Theorem X28_hash_data_insert_again_stores_nothing :
  forall (settings : HashData.hashdb_settings_t) (source_id : N)
         (hash_data_list : list HashData.hash_data_t)
         (st st1 : HashData.state_t),
    HashData.insert settings source_id hash_data_list st = Some st1 ->
    exists st2 : HashData.state_t,
      HashData.insert settings source_id hash_data_list st1 = Some st2 /\
      HashData.env st2 = HashData.env st1 /\
      HashData.bloom_filter_manager st2 = HashData.bloom_filter_manager st1 /\
      Changes.hashes_inserted (HashData.changes st2)
      = Changes.hashes_inserted (HashData.changes st1).
Proof.
  intros settings source_id l st st1 Hi.
  destruct l as [|it l]; [exists st1; auto|].
  assert (Hss : HashData.sector_size settings <> 0%N).
  { intros Hz. cbn [HashData.insert] in Hi.
    unfold HashData.insert_entry in Hi. rewrite Hz in Hi. discriminate. }
  apply hash_data_insert_present; [assumption|].
  intros it' Hin Ha.
  revert st Hi. generalize (it :: l) Hin. clear Hin.
  intros l0. induction l0 as [|x l0 IH]; intros Hin st Hi; [destruct Hin|].
  cbn [HashData.insert] in Hi.
  destruct (insert_entry_effect settings source_id x st Hss)
    as (sx & Hx & Hcases).
  rewrite Hx in Hi.
  destruct Hin as [->|Hin]; [|exact (IH Hin sx Hi)].
  assert (Hnow : In (HashData.stored_pair settings source_id it')
                   (HashData.env sx)).
  { destruct Hcases as [(Hf & _)|[(_ & Hp & -> & _)
                                 |(_ & _ & (l1 & l2 & _ & ->) & _)]].
    - congruence.
    - assumption.
    - apply in_or_app. right. now left. }
  clear - Hss Hi Hnow. revert sx Hi Hnow.
  induction l0 as [|y l0 IH]; intros sx Hi Hnow.
  - injection Hi as <-. assumption.
  - cbn [HashData.insert] in Hi.
    destruct (insert_entry_effect settings source_id y sx Hss)
      as (sy & Hy & Hcases).
    rewrite Hy in Hi. apply (IH sy Hi).
    destruct Hcases as [(_ & -> & _)|[(_ & _ & -> & _)
                                     |(_ & _ & (l1 & l2 & E & ->) & _)]];
      try assumption.
    rewrite E in Hnow. apply in_app_or in Hnow.
    apply in_or_app. destruct Hnow; [now left|right; now right].
Qed.

Lemma X28_hash_data_insert_again_stores_nothing_witness :
  exists st1 st2 : HashData.state_t,
    HashData.insert Scenario.settings_512 1
      [Scenario.entry (Scenario.hash16 7) 513;
       Scenario.entry (Scenario.hash16 0) 1024] Scenario.new_state
    = Some st1 /\
    HashData.insert Scenario.settings_512 1
      [Scenario.entry (Scenario.hash16 7) 513;
       Scenario.entry (Scenario.hash16 0) 1024] st1 = Some st2 /\
    HashData.env st2 = HashData.env st1.
Proof.
  destruct (HashData.insert Scenario.settings_512 1
              [Scenario.entry (Scenario.hash16 7) 513;
               Scenario.entry (Scenario.hash16 0) 1024] Scenario.new_state)
    as [st1|] eqn:Hi; [|vm_compute in Hi; discriminate].
  destruct (X28_hash_data_insert_again_stores_nothing _ _ _ _ _ Hi)
    as (st2 & H2 & He & _).
  exists st1, st2. auto.
Defined.

